(** * The Entropic Archival System: the decay engine

    A shallow embedding of the decay/degradation engine of the repository
    (src/contexts/SimulationContext.tsx, the analyze-semantic edge function,
    src/pages/Settings.tsx, src/components/simulation/SimulationControls.tsx,
    the tables and policies of supabase/migrations) and the properties its
    specification states about it.

    Conventions of the embedding.
    - A JavaScript [number] is an IEEE-754 binary64 value, modelled by
      [spec_float] with the operations of the standard library's
      specification of floating-point arithmetic (round to nearest, ties
      to even).  A decimal literal of the source ([0.7], [0.35], ...) is
      the double nearest to it, obtained as a correctly rounded quotient.
    - Columns the schema declares [integer] or [bigint] (sizes, capacities,
      years, counters) are modelled by [Z]: on integers below 2^53 the
      additions, subtractions and comparisons the code performs are exact.
      They are converted with [of_Z] wherever the code multiplies or divides
      them.
    - The database is seen through row-level security as the authenticated
      owner: every table of the model holds the owner's rows only, in
      insertion order.  The owner may select and insert in every table; the
      migration gives [decay_events] and [degradation_logs] no policy for
      UPDATE or DELETE, so these statements reach no row of the two tables.
    - A [numeric(6,2)] column refuses a value that rounds to 10000.00 or
      more: the INSERT fails and the row is not stored.  The code never
      reads the error of an insert into [degradation_logs] or [alerts]. *)

From Stdlib Require Import ZArith List Bool Lia String Ascii DecimalString.
From Stdlib Require Import Sorting.Sorted Sorting.Permutation.
From Stdlib Require Import Floats.SpecFloat.
Import ListNotations.
Local Open Scope Z_scope.

(** ** JavaScript numbers *)

Module JsNumber.

Definition prec : Z := 53.
Definition emax : Z := 1024.

Definition number : Type := spec_float.

(** An integer read as a number: exact below 2^53, rounded above. *)
Definition of_Z (z : Z) : number := binary_normalize prec emax z 0 false.

Definition add : number -> number -> number := SFadd prec emax.
Definition sub : number -> number -> number := SFsub prec emax.
Definition mul : number -> number -> number := SFmul prec emax.
Definition div : number -> number -> number := SFdiv prec emax.

(** The decimal literal [n]e-[k], for instance [lit 7 1] for [0.7]. *)
Definition lit (n : Z) (k : nat) : number :=
    div (of_Z n) (of_Z (10 ^ Z.of_nat k)).

(** [x > y], [x >= y], [x < y], [x <= y]: false as soon as one side is NaN. *)
Definition gt (x y : number) : bool := SFltb y x.
Definition ge (x y : number) : bool := SFleb y x.
Definition lt (x y : number) : bool := SFltb x y.
Definition le (x y : number) : bool := SFleb x y.

Definition isNaN (x : number) : bool :=
    match x with S754_nan => true | _ => false end.

Definition isZero (x : number) : bool :=
    match x with S754_zero _ => true | _ => false end.

(** Truthiness of a number: [0], [-0] and [NaN] are falsy. *)
Definition truthy (x : number) : bool := negb (isNaN x || isZero x).

(** [x || d] for a nullable number [x]. *)
Definition or_else (x : option number) (d : number) : number :=
    match x with
    | Some v => if truthy v then v else d
    | None => d
    end.

(** [Math.floor] of a finite number, as the integer it denotes.  The
      products the engine floors are finite; on [NaN] and the infinities,
      which it cannot produce from database integers, the value is 0. *)
Definition floor (x : number) : Z :=
    match x with
    | S754_finite s m e =>
        let v := if s then Zneg m else Zpos m in
        match e with
        | Zneg p => Z.shiftr v (Zpos p)
        | _ => Z.shiftl v e
        end
    | _ => 0
    end.

(** [Math.max a b] and [Math.min a b]: NaN is contagious and [+0] is
      larger than [-0]. *)
Definition Math_max (a b : number) : number :=
    match SFcompare a b with
    | None => S754_nan
    | Some Lt => b
    | Some Gt => a
    | Some Eq => match a with S754_zero true => b | _ => a end
    end.

Definition Math_min (a b : number) : number :=
    match SFcompare a b with
    | None => S754_nan
    | Some Lt => a
    | Some Gt => b
    | Some Eq => match a with S754_zero false => b | _ => a end
    end.

(** Numbers a JSON document or a numeric column can deliver: a double in
      canonical form, never NaN. *)
Definition regular (x : number) : bool :=
    negb (isNaN x) && valid_binary prec emax x.

(** [Array.prototype.sort] with a comparator: the sort is stable, and an
      element moves in front of another one only when the comparator is
      positive on the pair taken in array order.  For a consistent comparator
      this determines the result; it is computed here by insertion. *)
Section ArraySort.
Context {A : Type}.

Fixpoint insert (before : A -> A -> bool) (x : A) (l : list A) : list A :=
      match l with
      | [] => [x]
      | y :: l' => if before x y then x :: l else y :: insert before x l'
      end.

Definition stable_sort (before : A -> A -> bool) (l : list A) : list A :=
      fold_right (insert before) [] l.

Definition Array_sort (comparefn : A -> A -> number) (l : list A) : list A :=
      stable_sort (fun a b => negb (gt (comparefn a b) (of_Z 0))) l.
End ArraySort.

End JsNumber.
Import JsNumber.

(** Numbers are computed with [vm_compute] only. *)
Arguments of_Z : simpl never.
Arguments add : simpl never.
Arguments sub : simpl never.
Arguments mul : simpl never.
Arguments div : simpl never.
Arguments lit : simpl never.
Arguments gt : simpl never.
Arguments ge : simpl never.
Arguments lt : simpl never.
Arguments le : simpl never.
Arguments floor : simpl never.
Global Opaque of_Z add sub mul div lit floor.

(** ** Data model (src/types, supabase schema) *)

Inductive DegradationStage : Type :=
  | FULL | COMPRESSED | SUMMARIZED | MINIMAL | DELETED.

Definition stage_eqb (a b : DegradationStage) : bool :=
  match a, b with
  | FULL, FULL | COMPRESSED, COMPRESSED | SUMMARIZED, SUMMARIZED
  | MINIMAL, MINIMAL | DELETED, DELETED => true
  | _, _ => false
  end.

Inductive AlertSeverity : Type := info | warning | critical.

Inductive AlertType : Type :=
  | storage_pressure | high_value_risk | decay_approaching
  | item_degraded | item_deleted.

(** The columns of [archive_items] the decay cycle selects. *)
Record ArchiveItem : Type := {
  id : string;
  title : string;
  stage : DegradationStage;
  current_size_kb : Z;
  semantic_score : option number;
  val_reconstructability : option number
}.

Record SimulationSettings : Type := {
  settings_id : string;
  start_capacity_kb : Z;
  current_capacity_kb : Z;
  current_year : Z;
  total_years : Z;
  decay_percent : number;
  decay_interval_years : Z;
  is_running : bool;
  time_scale_ms : Z
}.

Record DecayEvent : Type := {
  event_id : nat;
  event_no : Z;
  simulated_year : Z;
  capacity_before_kb : Z;
  capacity_after_kb : Z;
  storage_before_kb : Z;
  storage_after_kb : Z;
  items_affected : Z
}.

(** The [reason] texts are templates filled with numbers printed by
    [toFixed]; the model keeps the template and the numbers it prints. *)
Inductive Reason : Type :=
  | reason_usage (storagePressure : number)
      (* Storage usage at P% of capacity - degradation required *)
  | reason_low_score (itemStoragePressure : number) (score : option number)
      (* Storage pressure at P%. Low semantic score (S). *)
  | reason_continued (reconstructability : number)
      (* Continued storage pressure. Reconstructability: R%. *)
  | reason_metadata_only
      (* High storage pressure. Preserving metadata only. *)
  | reason_removed
      (* Critical storage pressure. Item permanently removed. *)
  | reason_empty.

(** A row of [degradation_logs] with the numbers the cycle sends.  The
    columns [semantic_score], [storage_pressure] and
    [reconstructability_score] are [numeric(6,2)]: the table keeps the row
    when they fit, and what it stores is what was sent, rounded to two
    decimals. *)
Record DegradationLog : Type := {
  decay_event_id : nat;
  item_id : string;
  item_title : string;
  prev_stage : DegradationStage;
  new_stage : DegradationStage;
  log_reason : Reason;
  log_semantic_score : option number;
  log_storage_pressure : number;
  reconstructability_score : number;
  size_before_kb : Z;
  size_after_kb : Z
}.

(** The argument of [addAlert]. *)
Record DecayAlert : Type := {
  itemId : option string;
  itemTitle : option string;
  currentStage : option DegradationStage;
  targetStage : option DegradationStage;
  semanticScore : number;
  storagePressure : option number;
  reason : Reason;
  severity : AlertSeverity;
  alertType : AlertType;
  simulatedYear : Z
}.

(** The state the provider works on: its React state ([settings],
    [isRunning]), the signed-in user, the owner's tables, and the calls the
    decay cycle makes to [addAlert], oldest first. *)
Record State : Type := {
  user : option string;
  settings : option SimulationSettings;
  isRunning : bool;
  simulation_settings : list SimulationSettings;
  archive_items : list ArchiveItem;
  decay_events : list DecayEvent;
  degradation_logs : list DegradationLog;
  alerts : list DecayAlert
}.

(** ** Table operations (the supabase client calls the cycle makes) *)

(** [.update(f).eq('id', k)] *)
Definition update_eq {A : Type} (key : A -> string) (k : string)
    (f : A -> A) (table : list A) : list A :=
  map (fun row => if String.eqb (key row) k then f row else row) table.

(** A number sent to a [numeric(6,2)] column.  [JSON.stringify] writes NaN
    and the infinities as [null], which the column stores as NULL.  A finite
    number is rounded to two decimals, half away from zero, and refused when
    the result does not fit four digits before the point: when its absolute
    value reaches 9999.995. *)
Definition numeric_6_2_accepts (x : number) : bool :=
  match x with
  | S754_finite _ _ _ => lt (SFabs x) (lit 9999995 3)
  | _ => true
  end.

(** The stored value of a [numeric(6,2)] column: the number sent, rounded
    to two decimals.  The rounding is not computed. *)
Inductive Numeric : Type := to_2_decimals (sent : number).

Definition numeric_6_2 (x : number) : option Numeric :=
  match x with
  | S754_finite _ _ _ | S754_zero _ => Some (to_2_decimals x)
  | _ => None
  end.

(** The identifier the database gives to an inserted decay event: one no
    row of the table carries. *)
Definition fresh_event_id (table : list DecayEvent) : nat :=
  S (list_max (map event_id table)).

(** [.order('semantic_score', { ascending: true })]: PostgreSQL sorts
    ascending with NULLs last.  It leaves the order of equal scores open;
    the model keeps them in table order. *)
Definition score_order (a b : ArchiveItem) : bool :=
  match semantic_score a, semantic_score b with
  | Some x, Some y => le x y
  | Some _, None => true
  | None, Some _ => false
  | None, None => true
  end.

(** [.from('archive_items').select(...).neq('stage', 'DELETED')
     .order('semantic_score', { ascending: true })] *)
Definition select_items (table : list ArchiveItem) : list ArchiveItem :=
  stable_sort score_order
    (filter (fun item => negb (stage_eqb (stage item) DELETED)) table).

(** ** One decay cycle (SimulationContext.tsx, processDecayEvent) *)

(** [item.semantic_score || 0] *)
Definition score_or_0 (item : ArchiveItem) : number :=
  or_else (semantic_score item) (of_Z 0).

(** [[...items].sort((a, b) => (a.semantic_score || 0) - (b.semantic_score || 0))] *)
Definition sortedItems (items : list ArchiveItem) : list ArchiveItem :=
  Array_sort (fun a b => sub (score_or_0 a) (score_or_0 b)) items.

(** [(currentStorage / capacityAfter) * 100] *)
Definition pressure (currentStorage capacityAfter : Z) : number :=
  mul (div (of_Z currentStorage) (of_Z capacityAfter)) (of_Z 100).

(** The [switch (prevStage)] of the loop body: the next stage, the new
    size and the reason.  A stage without a case keeps stage and size. *)
Definition next_degradation (item : ArchiveItem)
    (itemStoragePressure reconstructability : number)
    : DegradationStage * Z * Reason :=
  match stage item with
  | FULL =>
      (COMPRESSED, floor (mul (of_Z (current_size_kb item)) (lit 7 1)),
       reason_low_score itemStoragePressure (semantic_score item))
  | COMPRESSED =>
      (SUMMARIZED, floor (mul (of_Z (current_size_kb item)) (lit 3 1)),
       reason_continued reconstructability)
  | SUMMARIZED =>
      (MINIMAL, floor (mul (of_Z (current_size_kb item)) (lit 1 1)),
       reason_metadata_only)
  | MINIMAL => (DELETED, 0, reason_removed)
  | DELETED => (DELETED, current_size_kb item, reason_empty)
  end.

(** What the loop carries from one item to the next. *)
Record Loop : Type := {
  currentStorage : Z;
  itemsAffected : Z;
  loop_items : list ArchiveItem;
  loop_logs : list DegradationLog;
  loop_alerts : list DecayAlert
}.

(** The body of [for (const item of sortedItems)], after the [break] test.
    The alert is raised and the row of the item rewritten before the log
    entry is inserted; the entry is stored when its [storage_pressure] fits
    the column (its other numeric columns are copies of columns at most as
    wide, or 50), and the loop goes on in either case. *)
Definition degrade_item (capacityAfter newYear : Z) (decayEventId : nat)
    (item : ArchiveItem) (l : Loop) : Loop :=
  let prevStage := stage item in
  let itemStoragePressure := pressure (currentStorage l) capacityAfter in
  let reconstructability := or_else (val_reconstructability item) (of_Z 50) in
  let '(newStage, newSize, reason) :=
    next_degradation item itemStoragePressure reconstructability in
  if stage_eqb newStage prevStage then l
  else
    let severity :=
      if gt (score_or_0 item) (of_Z 70)
      then (if stage_eqb newStage DELETED then critical else warning)
      else if stage_eqb newStage DELETED then warning else info in
    let isHighValue := ge (score_or_0 item) (of_Z 80) in
    let alertType :=
      if stage_eqb newStage DELETED then item_deleted
      else if isHighValue then high_value_risk else item_degraded in
    let alert := {|
      itemId := Some (id item);
      itemTitle := Some (title item);
      currentStage := Some prevStage;
      targetStage := Some newStage;
      semanticScore := score_or_0 item;
      storagePressure := Some itemStoragePressure;
      reason := reason;
      severity := severity;
      alertType := alertType;
      simulatedYear := newYear |} in
    let log := {|
      decay_event_id := decayEventId;
      item_id := id item;
      item_title := title item;
      prev_stage := prevStage;
      new_stage := newStage;
      log_reason := reason;
      log_semantic_score := semantic_score item;
      log_storage_pressure := itemStoragePressure;
      reconstructability_score := reconstructability;
      size_before_kb := current_size_kb item;
      size_after_kb := newSize |} in
    {| currentStorage := currentStorage l - (current_size_kb item - newSize);
       itemsAffected := itemsAffected l + 1;
       loop_items :=
         update_eq id (id item)
           (fun row => {| id := id row; title := title row;
                          stage := newStage; current_size_kb := newSize;
                          semantic_score := semantic_score row;
                          val_reconstructability := val_reconstructability row |})
           (loop_items l);
       loop_logs :=
         if numeric_6_2_accepts itemStoragePressure
         then loop_logs l ++ [log] else loop_logs l;
       loop_alerts :=
         if isHighValue || stage_eqb newStage DELETED
         then loop_alerts l ++ [alert] else loop_alerts l |}.

(** [for (const item of sortedItems) { if (currentStorage <= capacityAfter) break; ... }] *)
Fixpoint degrade_loop (capacityAfter newYear : Z) (decayEventId : nat)
    (items : list ArchiveItem) (l : Loop) : Loop :=
  match items with
  | [] => l
  | item :: rest =>
      if currentStorage l <=? capacityAfter then l
      else degrade_loop capacityAfter newYear decayEventId rest
             (degrade_item capacityAfter newYear decayEventId item l)
  end.

(** The system alert raised before the loop. *)
Definition pressure_alert (storagePressure : number) (newYear : Z) : DecayAlert :=
  {| itemId := None;
     itemTitle := Some "System Alert"%string;
     currentStage := None;
     targetStage := None;
     semanticScore := of_Z 0;
     storagePressure := Some storagePressure;
     reason := reason_usage storagePressure;
     severity := if gt storagePressure (of_Z 100) then critical else warning;
     alertType := storage_pressure;
     simulatedYear := newYear |}.

(** The block [if (items && currentStorage > capacityAfter) { ... }]. *)
Definition degrade (capacityAfter newYear : Z) (decayEventId : nat)
    (items : list ArchiveItem) (l : Loop) : Loop :=
  if currentStorage l >? capacityAfter then
    let sorted := sortedItems items in
    let storagePressure := pressure (currentStorage l) capacityAfter in
    let l1 :=
      if gt storagePressure (of_Z 80) then
        {| currentStorage := currentStorage l;
           itemsAffected := itemsAffected l;
           loop_items := loop_items l;
           loop_logs := loop_logs l;
           loop_alerts := loop_alerts l ++ [pressure_alert storagePressure newYear] |}
      else l in
    degrade_loop capacityAfter newYear decayEventId sorted l1
  else l.

Definition set_is_running (b : bool) (s : SimulationSettings) : SimulationSettings :=
  {| settings_id := settings_id s;
     start_capacity_kb := start_capacity_kb s;
     current_capacity_kb := current_capacity_kb s;
     current_year := current_year s;
     total_years := total_years s;
     decay_percent := decay_percent s;
     decay_interval_years := decay_interval_years s;
     is_running := b;
     time_scale_ms := time_scale_ms s |}.

Definition set_year_capacity (year capacity : Z) (s : SimulationSettings)
    : SimulationSettings :=
  {| settings_id := settings_id s;
     start_capacity_kb := start_capacity_kb s;
     current_capacity_kb := capacity;
     current_year := year;
     total_years := total_years s;
     decay_percent := decay_percent s;
     decay_interval_years := decay_interval_years s;
     is_running := is_running s;
     time_scale_ms := time_scale_ms s |}.

(** [Math.floor(capacityBefore * (1 - settings.decay_percent / 100))] *)
Definition decayed_capacity (capacityBefore : Z) (decay_percent : number) : Z :=
  floor (mul (of_Z capacityBefore)
             (sub (of_Z 1) (div decay_percent (of_Z 100)))).

(** The event is inserted with [storage_after_kb = storageBefore] and
    [items_affected = 0].  The update that ends the cycle,
    [.from('decay_events').update({ storage_after_kb: currentStorage,
    items_affected: itemsAffected })], reaches no row, [decay_events] having
    no UPDATE policy, so the stored event keeps the inserted values.  (The
    application writes [decay_interval_years: 2] and never changes it, so
    [eventNo] is an integer and the table accepts the event.) *)
Definition processDecayEvent (st : State) : State :=
  match settings st, user st with
  | Some s, Some _ =>
      let newYear := current_year s + decay_interval_years s in
      if newYear >? total_years s then
        {| user := user st;
           settings := settings st;
           isRunning := false;
           simulation_settings :=
             update_eq settings_id (settings_id s) (set_is_running false)
               (simulation_settings st);
           archive_items := archive_items st;
           decay_events := decay_events st;
           degradation_logs := degradation_logs st;
           alerts := alerts st |}
      else
        let capacityBefore := current_capacity_kb s in
        let capacityAfter := decayed_capacity capacityBefore (decay_percent s) in
        let eventNo :=
          floor (div (of_Z newYear) (of_Z (decay_interval_years s))) in
        let items := select_items (archive_items st) in
        let storageBefore :=
          fold_left (fun sum item => sum + current_size_kb item) items 0 in
        let decayEvent := {|
          event_id := fresh_event_id (decay_events st);
          event_no := eventNo;
          simulated_year := newYear;
          capacity_before_kb := capacityBefore;
          capacity_after_kb := capacityAfter;
          storage_before_kb := storageBefore;
          storage_after_kb := storageBefore;
          items_affected := 0 |} in
        let l :=
          degrade capacityAfter newYear (event_id decayEvent) items
            {| currentStorage := storageBefore;
               itemsAffected := 0;
               loop_items := archive_items st;
               loop_logs := degradation_logs st;
               loop_alerts := alerts st |} in
        {| user := user st;
           settings := Some (set_year_capacity newYear capacityAfter s);
           isRunning := isRunning st;
           simulation_settings :=
             update_eq settings_id (settings_id s)
               (set_year_capacity newYear capacityAfter)
               (simulation_settings st);
           archive_items := loop_items l;
           decay_events := decay_events st ++ [decayEvent];
           degradation_logs := loop_logs l;
           alerts := loop_alerts l |}
  | _, _ => st
  end.

(** [stepNextDecay] awaits [processDecayEvent] and nothing else. *)
Definition stepNextDecay (st : State) : State := processDecayEvent st.

Definition startSimulation (st : State) : State :=
  match settings st with
  | None => st
  | Some _ =>
      {| user := user st; settings := settings st; isRunning := true;
         simulation_settings := simulation_settings st;
         archive_items := archive_items st; decay_events := decay_events st;
         degradation_logs := degradation_logs st; alerts := alerts st |}
  end.

Definition pauseSimulation (st : State) : State :=
  match settings st with
  | None => st
  | Some _ =>
      {| user := user st; settings := settings st; isRunning := false;
         simulation_settings := simulation_settings st;
         archive_items := archive_items st; decay_events := decay_events st;
         degradation_logs := degradation_logs st; alerts := alerts st |}
  end.

(** SimulationControls.tsx: the Step button carries [onClick={stepNextDecay}]
    and [disabled={isRunning}]; a disabled button delivers no click. *)
Module SimulationControls.
Definition Step_disabled (st : State) : bool := isRunning st.
Definition click_Step (st : State) : State :=
    if Step_disabled st then st else stepNextDecay st.
End SimulationControls.

(** ** Semantic valuation (the analyze-semantic edge function) *)

Record SemanticScores : Type := {
  relevance : number;
  uniqueness : number;
  reconstructability : number;
  scores_semanticScore : number
}.

(** [Math.min(100, Math.max(0, x))] *)
Definition clamp_0_100 (x : number) : number :=
  Math_min (of_Z 100) (Math_max (of_Z 0) x).

(** [relevance * 0.4 + uniqueness * 0.35 + reconstructability * 0.25] *)
Definition weighted_score (relevance uniqueness reconstructability : number)
    : number :=
  add (add (mul relevance (lit 4 1)) (mul uniqueness (lit 35 2)))
      (mul reconstructability (lit 25 2)).

(** The scores answered for the arguments of the model's tool call. *)
Definition analyze_semantic (args_relevance args_uniqueness
    args_reconstructability : number) : SemanticScores :=
  let relevance := clamp_0_100 args_relevance in
  let uniqueness := clamp_0_100 args_uniqueness in
  let reconstructability := clamp_0_100 args_reconstructability in
  {| relevance := relevance;
     uniqueness := uniqueness;
     reconstructability := reconstructability;
     scores_semanticScore :=
       weighted_score relevance uniqueness reconstructability |}.

(** ** Valuation weights (Settings.tsx) *)

Record Weights : Type := {
  weight_relevance : number;
  weight_uniqueness : number;
  weight_reconstructability : number
}.

(** The row [handleSaveWeights] writes to [valuation_weights]. *)
Definition handleSaveWeights (weights : Weights) : Weights :=
  let total :=
    add (add (weight_relevance weights) (weight_uniqueness weights))
        (weight_reconstructability weights) in
  {| weight_relevance := div (weight_relevance weights) total;
     weight_uniqueness := div (weight_uniqueness weights) total;
     weight_reconstructability := div (weight_reconstructability weights) total |}.

(** The valuation as the specification words it: the owner's weights,
    normalized, applied to the clamped inputs.  It is compared with
    [analyze_semantic] below. *)
Module Spec.
Definition semanticScore (weights : Weights)
      (relevance uniqueness reconstructability : number) : number :=
    let w := handleSaveWeights weights in
    add (add (mul (clamp_0_100 relevance) (weight_relevance w))
             (mul (clamp_0_100 uniqueness) (weight_uniqueness w)))
        (mul (clamp_0_100 reconstructability) (weight_reconstructability w)).

(** Tie-breaking as the specification words it: ascending score, then
      ascending size, then id. *)
Definition before (a b : ArchiveItem) : bool :=
    match SFcompare (score_or_0 a) (score_or_0 b) with
    | Some Lt => true
    | Some Gt => false
    | _ =>
        if current_size_kb a <? current_size_kb b then true
        else if current_size_kb b <? current_size_kb a then false
        else match String.compare (id a) (id b) with Gt => false | _ => true end
    end.

Definition degradation_order (items : list ArchiveItem) : list ArchiveItem :=
    stable_sort before items.
End Spec.

(** ** Vocabulary of the binary64 facts *)

(** The bits shifted out so far are not all zero. *)
Definition inexact (mrs : shr_record) : bool := shr_r mrs || shr_s mrs.

(** What rounding delivers for the mantissa [q] kept at exponent [f]. *)
Definition round_result (sx : bool) (q f : Z) : number :=
  match q with
  | Z0 => S754_zero sx
  | Zpos p =>
      if q <? 9007199254740992
      then (if f <=? 971 then S754_finite sx p f else S754_infinity sx)
      else (if f + 1 <=? 971
            then S754_finite sx 4503599627370496 (f + 1)
            else S754_infinity sx)
  | Zneg _ => S754_nan
  end.

(** The value [m * 2^e], scaled by [2^-L] to stay among the integers. *)
Definition scaled (L m e : Z) : Z := m * 2 ^ (e - L).

(** A result of rounding that is zero or a canonical positive double not
    above the double [mB * 2^eB]. *)
Definition at_most (L : Z) (r : number) (mB : positive) (eB : Z) : Prop :=
  r = S754_zero false
  \/ exists m e,
       r = S754_finite false m e
       /\ bounded prec emax m e = true
       /\ scaled L (Zpos m) e <= scaled L (Zpos mB) eB.

Definition huge : Z := 2 ^ 2098.

(** An integer that orders the regular numbers like their values. *)
Definition key (x : number) : Z :=
  match x with
  | S754_zero _ => 0
  | S754_nan => 0
  | S754_infinity s => if s then - huge else huge
  | S754_finite s m e =>
      if s then - scaled (-1074) (Zpos m) e else scaled (-1074) (Zpos m) e
  end.

Global Opaque huge.

Ltac compare_cases :=
  f_equal; symmetry;
  first [ apply Z.compare_refl
        | apply Z.compare_lt_iff; lia
        | apply Z.compare_gt_iff; lia ].

(** ** Vocabulary of the properties *)

(** Position of a stage on the line FULL, COMPRESSED, SUMMARIZED, MINIMAL,
    DELETED. *)
Definition stage_index (s : DegradationStage) : Z :=
  match s with
  | FULL => 0 | COMPRESSED => 1 | SUMMARIZED => 2 | MINIMAL => 3 | DELETED => 4
  end.

(** The forward edges and what each one does to a size. *)
Definition forward_edge (prev next : DegradationStage)
    (size_before size_after : Z) : Prop :=
  match prev, next with
  | FULL, COMPRESSED => size_after = floor (mul (of_Z size_before) (lit 7 1))
  | COMPRESSED, SUMMARIZED => size_after = floor (mul (of_Z size_before) (lit 3 1))
  | SUMMARIZED, MINIMAL => size_after = floor (mul (of_Z size_before) (lit 1 1))
  | MINIMAL, DELETED => size_after = 0
  | _, _ => False
  end.

(** An item after the transition the [switch] gives it. *)
Definition degraded (item : ArchiveItem) : ArchiveItem :=
  let '(newStage, newSize, _) := next_degradation item (of_Z 0) (of_Z 0) in
  {| id := id item; title := title item; stage := newStage;
     current_size_kb := newSize; semantic_score := semantic_score item;
     val_reconstructability := val_reconstructability item |}.

(** The row an update of the loop writes for a processed item. *)
Definition apply_transition (item : ArchiveItem) (table : list ArchiveItem)
    : list ArchiveItem :=
  update_eq id (id item)
    (fun row => {| id := id row; title := title row;
                   stage := stage (degraded item);
                   current_size_kb := current_size_kb (degraded item);
                   semantic_score := semantic_score row;
                   val_reconstructability := val_reconstructability row |})
    table.

(** The entry the loop body sends to [degradation_logs]. *)
Definition transition_log (capacityAfter : Z) (decayEventId : nat)
    (item : ArchiveItem) (l : Loop) : DegradationLog :=
  let itemStoragePressure := pressure (currentStorage l) capacityAfter in
  let reconstructability := or_else (val_reconstructability item) (of_Z 50) in
  {| decay_event_id := decayEventId;
     item_id := id item;
     item_title := title item;
     prev_stage := stage item;
     new_stage := stage (degraded item);
     log_reason :=
       snd (next_degradation item itemStoragePressure reconstructability);
     log_semantic_score := semantic_score item;
     log_storage_pressure := itemStoragePressure;
     reconstructability_score := reconstructability;
     size_before_kb := current_size_kb item;
     size_after_kb := current_size_kb (degraded item) |}.

(** The table accepts the entry: its [storage_pressure] fits the column. *)
Definition log_accepted (log : DegradationLog) : bool :=
  numeric_6_2_accepts (log_storage_pressure log).

(** The table after a cycle holds the row of [item] one stage further. *)
Definition moved (table' : list ArchiveItem) (item : ArchiveItem) : Prop :=
  exists after,
    In after table' /\ id after = id item
    /\ stage_index (stage after) = stage_index (stage item) + 1.

(** A log entry records the transition of an item. *)
Definition records (item : ArchiveItem) (log : DegradationLog) : Prop :=
  item_id log = id item
  /\ item_title log = title item
  /\ prev_stage log = stage item
  /\ new_stage log = stage (degraded item)
  /\ size_before_kb log = current_size_kb item
  /\ size_after_kb log = current_size_kb (degraded item)
  /\ log_semantic_score log = semantic_score item.

(** The call to [addAlert], if any, that goes with a log entry. *)
Definition alerts_of_log (newYear : Z) (log : DegradationLog) : list DecayAlert :=
  let score := or_else (log_semantic_score log) (of_Z 0) in
  if ge score (of_Z 80) || stage_eqb (new_stage log) DELETED then
    [ {| itemId := Some (item_id log);
         itemTitle := Some (item_title log);
         currentStage := Some (prev_stage log);
         targetStage := Some (new_stage log);
         semanticScore := score;
         storagePressure := Some (log_storage_pressure log);
         reason := log_reason log;
         severity :=
           if gt score (of_Z 70)
           then (if stage_eqb (new_stage log) DELETED then critical else warning)
           else if stage_eqb (new_stage log) DELETED then warning else info;
         alertType :=
           if stage_eqb (new_stage log) DELETED then item_deleted
           else if ge score (of_Z 80) then high_value_risk else item_degraded;
         simulatedYear := newYear |} ]
  else [].

(** The score of an item is null or a regular number. *)
Definition scored (item : ArchiveItem) : Prop :=
  match semantic_score item with
  | Some v => regular v = true
  | None => True
  end.

(** Equality of two scores as numbers. *)
Definition same_score (k : number) (item : ArchiveItem) : bool :=
  SFeqb (score_or_0 item) k.

(** The alerts raised for one item. *)
Definition alerts_for (i : string) (l : list DecayAlert) : list DecayAlert :=
  filter (fun a => match itemId a with
                   | Some j => String.eqb j i
                   | None => false
                   end) l.

(** The states of the scenarios. *)
Module Scenario.
Local Open Scope string_scope.

Definition the_settings (year capacity percent : Z) : SimulationSettings :=
    {| settings_id := "settings-1";
       start_capacity_kb := 1000000;
       current_capacity_kb := capacity;
       current_year := year;
       total_years := 60;
       decay_percent := of_Z percent;
       decay_interval_years := 2;
       is_running := false;
       time_scale_ms := 1000 |}.

Definition item (i : string) (s : DegradationStage) (size : Z)
      (score : option number) : ArchiveItem :=
    {| id := i; title := i; stage := s; current_size_kb := size;
       semantic_score := score; val_reconstructability := Some (of_Z 50) |}.

Definition state (running : bool) (s : SimulationSettings)
      (items : list ArchiveItem) : State :=
    {| user := Some "owner-1";
       settings := Some s;
       isRunning := running;
       simulation_settings := [s];
       archive_items := items;
       decay_events := [];
       degradation_logs := [];
       alerts := [] |}.

(** One FULL item of 1000 KB and score 10; capacity 1000 KB cut by half. *)
Definition one_item : State :=
    state false (the_settings 0 1000 50) [item "a" FULL 1000 (Some (of_Z 10))].

(** The same item against a capacity of 100 KB cut by half: the item is
    degraded in each of the first four cycles. *)
Definition small_capacity : State :=
    state false (the_settings 0 100 50) [item "a" FULL 1000 (Some (of_Z 10))].

(** One item of 200,000,000 KB against the default capacity: a storage
    pressure above 10000%. *)
Definition extreme_pressure : State :=
    state false (the_settings 0 1000000 5)
      [item "a" FULL 200000000 (Some (of_Z 10))].

(** The default simulation: 1,000,000 KB, 5% every 2 years, 60 years. *)
Definition default : State :=
    state false (the_settings 0 1000000 5) [item "a" FULL 1000 (Some (of_Z 10))].

(** The ticker is running. *)
Definition running : State :=
    state true (the_settings 0 1000000 5) [item "a" FULL 1000 (Some (of_Z 10))].

(** Two items of equal score, in both table orders. *)
Definition tie_ab : State :=
    state false (the_settings 0 100 50)
      [item "a" FULL 100 (Some (of_Z 10)); item "b" FULL 50 (Some (of_Z 10))].
Definition tie_ba : State :=
    state false (the_settings 0 100 50)
      [item "b" FULL 50 (Some (of_Z 10)); item "a" FULL 100 (Some (of_Z 10))].



(** Storage at 90% of the new capacity: 900 KB against 1000 KB. *)
Definition ninety_percent : State :=
    state false (the_settings 0 2000 50) [item "a" FULL 900 (Some (of_Z 50))].

(** An unscored item stored after a scored one. *)
Definition unscored : State :=
    state false (the_settings 0 1000 50)
      [item "a" FULL 600 (Some (of_Z 40)); item "b" MINIMAL 400 None].

(** The same items against a capacity cut to 700 KB: deleting the unscored
    item is enough. *)
Definition unscored_alone : State :=
    state false (the_settings 0 1000 30)
      [item "a" FULL 600 (Some (of_Z 40)); item "b" MINIMAL 400 None].
End Scenario.

(** The storage in use: the sizes of the rows that are not DELETED, summed
    as line 185 sums them. *)
Definition storage_used (table : list ArchiveItem) : Z :=
  fold_left (fun sum item => sum + current_size_kb item) (select_items table) 0.

(** The sum of the sizes of a list of rows. *)
Definition total_size (items : list ArchiveItem) : Z :=
  fold_right (fun item sum => current_size_kb item + sum) 0 items.

(** The storage the transitions of a list of log rows give back. *)
Definition freed_by (logs : list DegradationLog) : Z :=
  fold_right (fun log sum => (size_before_kb log - size_after_kb log) + sum) 0 logs.

(** Two versions of a row that differ in stage and size at most. *)
Definition same_item (before after : ArchiveItem) : Prop :=
  id after = id before
  /\ title after = title before
  /\ semantic_score after = semantic_score before
  /\ val_reconstructability after = val_reconstructability before.

(** ** Reset (SimulationContext.tsx, resetSimulation) *)

(** [{ current_year: 0, current_capacity_kb: settings.start_capacity_kb,
       is_running: false }] written over a settings row. *)
Definition reset_settings (start : Z) (row : SimulationSettings) : SimulationSettings :=
  {| settings_id := settings_id row;
     start_capacity_kb := start_capacity_kb row;
     current_capacity_kb := start;
     current_year := 0;
     total_years := total_years row;
     decay_percent := decay_percent row;
     decay_interval_years := decay_interval_years row;
     is_running := false;
     time_scale_ms := time_scale_ms row |}.

(** [{ stage: 'FULL', current_size_kb: item.size_kb, ... }] written over
    an item row. *)
Definition reset_item (size : Z) (row : ArchiveItem) : ArchiveItem :=
  {| id := id row; title := title row; stage := FULL; current_size_kb := size;
     semantic_score := semantic_score row;
     val_reconstructability := val_reconstructability row |}.

(** [resetSimulation].  The column [size_kb] of [archive_items] is not among
    the columns the decay cycle selects, so [ArchiveItem] does not carry it;
    it is read through the primary key: [size_kb i] is the [size_kb] of the
    row whose id is [i].  The loop runs over the rows selected with
    [.select('id, size_kb')] and updates each one by its id.  The two
    statements [.from('decay_events').delete()] and
    [.from('degradation_logs').delete()] reach no row, these tables having
    no DELETE policy, so the events and the logs of the earlier cycles stay;
    the alerts are not touched. *)
Definition resetSimulation (size_kb : string -> Z) (st : State) : State :=
  match settings st, user st with
  | Some s, Some _ =>
      {| user := user st;
         settings := Some (reset_settings (start_capacity_kb s) s);
         isRunning := false;
         simulation_settings :=
           update_eq settings_id (settings_id s)
             (reset_settings (start_capacity_kb s)) (simulation_settings st);
         archive_items :=
           fold_left
             (fun table item =>
                update_eq id (id item) (reset_item (size_kb (id item))) table)
             (archive_items st) (archive_items st);
         decay_events := decay_events st;
         degradation_logs := degradation_logs st;
         alerts := alerts st |}
  | _, _ => st
  end.

(** Two states with the same user, settings and archive: they differ at
    most in their decay events, logs and alerts. *)
Definition same_archive (a b : State) : Prop :=
  user a = user b /\ settings a = settings b /\ isRunning a = isRunning b
  /\ simulation_settings a = simulation_settings b
  /\ archive_items a = archive_items b.

(** A size the schema allows: a non-negative integer (the column is an
    [integer]), in particular one a number holds exactly. *)
Definition size_ok (item : ArchiveItem) : Prop :=
  0 <= current_size_kb item < 2 ^ 53.

(** ** What the provider derives from its settings *)

(** [Math.floor] as a number: NaN, the infinities and the doubles of
    exponent at least 0 are their own floor. *)
Definition Math_floor (x : number) : number :=
  match x with
  | S754_finite _ _ e => if e <? 0 then of_Z (floor x) else x
  | _ => x
  end.

(** [Math.round]: the floor of [x + 1/2], computed exactly; a zero result
    keeps the sign of [x]. *)
Definition Math_round (x : number) : number :=
  match x with
  | S754_finite s m e =>
      if e <? 0 then
        let v := if s then Zneg m else Zpos m in
        let r := (2 * v + 2 ^ (- e)) / 2 ^ (1 - e) in
        if r =? 0 then S754_zero s else of_Z r
      else x
  | _ => x
  end.

(** [a % b] on integers: exact, with the sign of the dividend; NaN, here
    [None], when the divisor is 0. *)
Definition js_rem (a b : Z) : option Z :=
  if b =? 0 then None else Some (Z.rem a b).

(** [settings?.current_year || 0] *)
Definition currentYear (st : State) : Z :=
  match settings st with
  | Some s => current_year s
  | None => 0
  end.

(** [Math.round((settings.current_capacity_kb / settings.start_capacity_kb) * 100)] *)
Definition capacityPercent (st : State) : number :=
  match settings st with
  | Some s =>
      Math_round (mul (div (of_Z (current_capacity_kb s))
                           (of_Z (start_capacity_kb s))) (of_Z 100))
  | None => of_Z 100
  end.

(** [Math.floor(settings.total_years / settings.decay_interval_years)] *)
Definition totalDecayEvents (st : State) : number :=
  match settings st with
  | Some s => Math_floor (div (of_Z (total_years s)) (of_Z (decay_interval_years s)))
  | None => of_Z 30
  end.

(** [Math.floor(currentYear / settings.decay_interval_years)] *)
Definition currentDecayEvent (st : State) : number :=
  match settings st with
  | Some s => Math_floor (div (of_Z (currentYear st)) (of_Z (decay_interval_years s)))
  | None => of_Z 0
  end.

(** [settings.decay_interval_years - (currentYear % settings.decay_interval_years)] *)
Definition nextDecayIn (st : State) : option Z :=
  match settings st with
  | Some s =>
      option_map (fun r => decay_interval_years s - r)
        (js_rem (currentYear st) (decay_interval_years s))
  | None => Some 2
  end.

(** The effect that announces a decay event: when it calls [addAlert], the
    two numbers its reason prints, [nextDecayIn] and [nextDecayYear].  The
    alert has severity info, type decay_approaching, score 0 and
    [simulatedYear: currentYear].  A comparison with NaN is false. *)
Definition decay_approaching_effect (st : State) : option (Z * Z) :=
  match settings st, user st with
  | Some s, Some _ =>
      match nextDecayIn st with
      | Some n =>
          if (n <=? 2) && (n >? 0) && (currentYear st <? total_years s)
          then Some (n, currentYear st + n)
          else None
      | None => None
      end
  | _, _ => None
  end.

(** The number, the year and the new capacity of each decay event. *)
Definition numbering (events : list DecayEvent) : list (Z * Z * Z) :=
  map (fun e => (event_no e, simulated_year e, capacity_after_kb e)) events.

(** What a run from year 0 records for its [j]-th decay event. *)
Definition nth_event (s : SimulationSettings) (j : nat) : Z * Z * Z :=
  (Z.of_nat j, Z.of_nat j * decay_interval_years s,
   Nat.iter j (fun c => decayed_capacity c (decay_percent s))
     (current_capacity_kb s)).

(** ** The alert provider (AlertContext.tsx) *)

Module AlertContext.

(** An alert of the provider's list: the argument of [addAlert] with the id
    drawn by [crypto.randomUUID()], the time stamp and the [dismissed]
    flag. *)
Record Alert : Type := {
  alert_id : string;
  payload : DecayAlert;
  timestamp : Z;
  dismissed : bool
}.

(** A row of the table [alerts], as the table stores it and as the realtime
    channel hands it back: its two numeric columns hold what [addAlert] has
    sent, rounded to two decimals. *)
Record PersistentAlert : Type := {
  row_id : string;
  alert_type : AlertType;
  item_id : option string;
  item_title : option string;
  semantic_score : option Numeric;
  current_stage : option DegradationStage;
  target_stage : option DegradationStage;
  storage_pressure : option Numeric;
  row_reason : Reason;
  simulated_year : Z;
  is_read : bool
}.

(** The provider's state: the signed-in user, its two lists and the
    owner's rows of the table [alerts], in insertion order. *)
Record AlertState : Type := {
  user : option string;
  alerts : list Alert;
  persistentAlerts : list PersistentAlert;
  alerts_table : list PersistentAlert
}.

(** [s || null] for an optional string: the empty string is falsy. *)
Definition string_or_null (s : option string) : option string :=
  match s with
  | Some EmptyString => None
  | _ => s
  end.

(** [x || null] for an optional number. *)
Definition number_or_null (x : option number) : option number :=
  match x with
  | Some v => if truthy v then Some v else None
  | None => None
  end.

(** What a numeric column stores of [x || null]. *)
Definition stored (x : option number) : option Numeric :=
  match number_or_null x with
  | Some v => numeric_6_2 v
  | None => None
  end.

(** The column accepts [x || null]. *)
Definition fits (x : option number) : bool :=
  match number_or_null x with
  | Some v => numeric_6_2_accepts v
  | None => true
  end.

(** The row the insert of [addAlert] leaves in the table; [is_read] takes
    its default. *)
Definition alert_row (id : string) (alert : DecayAlert) : PersistentAlert :=
  {| row_id := id;
     alert_type := alertType alert;
     item_id := string_or_null (itemId alert);
     item_title := string_or_null (itemTitle alert);
     semantic_score := stored (Some (semanticScore alert));
     current_stage := currentStage alert;
     target_stage := targetStage alert;
     storage_pressure := stored (storagePressure alert);
     row_reason := reason alert;
     simulated_year := simulatedYear alert;
     is_read := false |}.

(** The table accepts the insert: both numeric columns fit.  The error of a
    refused insert is not read. *)
Definition insert_accepted (alert : DecayAlert) : bool :=
  fits (Some (semanticScore alert)) && fits (storagePressure alert).

(** One call of [addAlert]: [uuid] and [now] are what [crypto.randomUUID()]
    and [new Date()] return, [row] the id the table gives to the new row
    when it accepts it.  The three callers pass the id of a row of
    [archive_items] or no [itemId], so the foreign key of [item_id] holds. *)
Record Call : Type := {
  uuid : string;
  now : Z;
  row : string;
  argument : DecayAlert
}.

Definition newAlert (c : Call) : Alert :=
  {| alert_id := uuid c; payload := argument c; timestamp := now c;
     dismissed := false |}.

(** [setAlerts(prev => [newAlert, ...prev.slice(0, 99)])], then the insert. *)
Definition addAlert (c : Call) (st : AlertState) : AlertState :=
  match user st with
  | None => st
  | Some _ =>
      {| user := user st;
         alerts := newAlert c :: firstn 99 (alerts st);
         persistentAlerts := persistentAlerts st;
         alerts_table :=
           if insert_accepted (argument c)
           then alerts_table st ++ [alert_row (row c) (argument c)]
           else alerts_table st |}
  end.

(** The handler of the realtime channel for an INSERT on [alerts]. *)
Definition on_insert (newAlert : PersistentAlert) (st : AlertState) : AlertState :=
  {| user := user st; alerts := alerts st;
     persistentAlerts := newAlert :: persistentAlerts st;
     alerts_table := alerts_table st |}.

(** [.order('created_at', { ascending: false }).limit(100)] *)
Definition fetchPersistentAlerts (st : AlertState) : AlertState :=
  match user st with
  | None => st
  | Some _ =>
      {| user := user st; alerts := alerts st;
         persistentAlerts := firstn 100 (rev (alerts_table st));
         alerts_table := alerts_table st |}
  end.

Definition set_dismissed (a : Alert) : Alert :=
  {| alert_id := alert_id a; payload := payload a; timestamp := timestamp a;
     dismissed := true |}.

Definition set_read (a : PersistentAlert) : PersistentAlert :=
  {| row_id := row_id a; alert_type := alert_type a; item_id := item_id a;
     item_title := item_title a; semantic_score := semantic_score a;
     current_stage := current_stage a; target_stage := target_stage a;
     storage_pressure := storage_pressure a; row_reason := row_reason a;
     simulated_year := simulated_year a; is_read := true |}.

Definition dismissAlert (id : string) (st : AlertState) : AlertState :=
  {| user := user st;
     alerts := map (fun a => if String.eqb (alert_id a) id
                             then set_dismissed a else a) (alerts st);
     persistentAlerts := persistentAlerts st;
     alerts_table := alerts_table st |}.

Definition dismissAll (st : AlertState) : AlertState :=
  {| user := user st; alerts := map set_dismissed (alerts st);
     persistentAlerts := persistentAlerts st;
     alerts_table := alerts_table st |}.

Definition clearAlerts (st : AlertState) : AlertState :=
  {| user := user st; alerts := [];
     persistentAlerts := persistentAlerts st;
     alerts_table := alerts_table st |}.

Definition mark (id : string) (rows : list PersistentAlert) : list PersistentAlert :=
  map (fun a => if String.eqb (row_id a) id then set_read a else a) rows.

Definition markAsRead (id : string) (st : AlertState) : AlertState :=
  {| user := user st; alerts := alerts st;
     persistentAlerts := mark id (persistentAlerts st);
     alerts_table := mark id (alerts_table st) |}.

Definition markAllAsRead (st : AlertState) : AlertState :=
  match user st with
  | None => st
  | Some _ =>
      {| user := user st; alerts := alerts st;
         persistentAlerts := map set_read (persistentAlerts st);
         alerts_table := map set_read (alerts_table st) |}
  end.

(** [persistentAlerts.filter(a => !a.is_read).length] *)
Definition unreadCount (st : AlertState) : nat :=
  List.length (filter (fun a => negb (is_read a)) (persistentAlerts st)).

(** What the buttons of the two panels call. *)
Inductive Click : Type :=
  | click_dismiss (id : string)
  | click_dismiss_all
  | click_clear
  | click_mark_read (id : string)
  | click_mark_all_read.

Definition click (c : Click) (st : AlertState) : AlertState :=
  match c with
  | click_dismiss id => dismissAlert id st
  | click_dismiss_all => dismissAll st
  | click_clear => clearAlerts st
  | click_mark_read id => markAsRead id st
  | click_mark_all_read => markAllAsRead st
  end.

End AlertContext.

Module AlertScenario.
Local Open Scope string_scope.

(** A signed-in provider with nothing to show. *)
Definition signed_in : AlertContext.AlertState :=
  {| AlertContext.user := Some "owner-1";
     AlertContext.alerts := [];
     AlertContext.persistentAlerts := [];
     AlertContext.alerts_table := [] |}.

(** The storage-pressure alert of a cycle at twice the capacity. *)
Definition pressure_call : AlertContext.Call :=
  {| AlertContext.uuid := "alert-1";
     AlertContext.now := 0;
     AlertContext.row := "row-1";
     AlertContext.argument := pressure_alert (of_Z 200) 2 |}.

(** The same alert at a hundred times the capacity: 10000%. *)
Definition overflow_call : AlertContext.Call :=
  {| AlertContext.uuid := "alert-2";
     AlertContext.now := 1;
     AlertContext.row := "row-2";
     AlertContext.argument := pressure_alert (of_Z 10000) 2 |}.
End AlertScenario.

(** ** Loading the settings (SimulationContext.tsx, fetchSettings) *)

(** [.maybeSingle()] answers the row when there is exactly one; with no row
    [data] is null and with several it reports an error: in both cases the
    state keeps what it has. *)
Definition fetchSettings (st : State) : State :=
  match user st with
  | None => st
  | Some _ =>
      match simulation_settings st with
      | [data] =>
          {| user := user st;
             settings := Some data;
             isRunning := is_running data;
             simulation_settings := simulation_settings st;
             archive_items := archive_items st;
             decay_events := decay_events st;
             degradation_logs := degradation_logs st;
             alerts := alerts st |}
      | _ => st
      end
  end.

(** What can happen to the provider: a tick of the timer or a click on
    Step, the other buttons, and a reload of the page. *)
Inductive Action : Type :=
  | Cycle | Start | Pause | Reset | Reload.

Definition act (size_kb : string -> Z) (a : Action) (st : State) : State :=
  match a with
  | Cycle => processDecayEvent st
  | Start => startSimulation st
  | Pause => pauseSimulation st
  | Reset => resetSimulation size_kb st
  | Reload => fetchSettings st
  end.

Definition run (size_kb : string -> Z) (actions : list Action) (st : State) : State :=
  fold_left (fun st a => act size_kb a st) actions st.

(** The provider after it has loaded the owner's one settings row, at a
    year the cycles reach from year 0: its copy of the settings is the
    stored row, but for [is_running]; the year is a multiple of the
    interval within the simulation; at least one decay event is stored for
    each interval elapsed (a reset brings the year back to 0 and leaves the
    events of the earlier cycles in their table).  Interval and total are
    integers a number holds exactly. *)
Definition consistent (st : State) : Prop :=
  exists (s row : SimulationSettings) (u : string) (k : nat),
    settings st = Some s /\ user st = Some u
    /\ simulation_settings st = [row]
    /\ set_is_running false row = set_is_running false s
    /\ 0 < decay_interval_years s < 2 ^ 53
    /\ current_year s = Z.of_nat k * decay_interval_years s
    /\ current_year s <= total_years s < 2 ^ 53
    /\ (k <= List.length (decay_events st))%nat.

(** ** The dashboard (Dashboard.tsx, fetchStats) *)

Module Dashboard.

Record DashboardStats : Type := {
  totalItems : nat;
  totalSizeKb : Z;
  fullItems : nat;
  deletedItems : nat
}.

(** The statistics computed from the owner's rows of [archive_items]. *)
Definition fetchStats (items : list ArchiveItem) : DashboardStats :=
  {| totalItems := List.length items;
     totalSizeKb := fold_left (fun sum item => sum + current_size_kb item) items 0;
     fullItems :=
       List.length (filter (fun item => stage_eqb (stage item) FULL) items);
     deletedItems :=
       List.length (filter (fun item => stage_eqb (stage item) DELETED) items) |}.

(** [items.filter(item => item.semantic_score === 50).length] *)
Definition unscoredCount (items : list ArchiveItem) : nat :=
  List.length
    (filter (fun item => match semantic_score item with
                         | Some v => SFeqb v (of_Z 50)
                         | None => false
                         end) items).

End Dashboard.

(** A deleted row holds nothing. *)
Definition deleted_is_empty (item : ArchiveItem) : Prop :=
  stage item = DELETED -> current_size_kb item = 0.

(** ** The time scale (Settings.tsx, handleSaveTimeScale) *)

Definition set_time_scale (timeScale : Z) (row : SimulationSettings)
    : SimulationSettings :=
  {| settings_id := settings_id row;
     start_capacity_kb := start_capacity_kb row;
     current_capacity_kb := current_capacity_kb row;
     current_year := current_year row;
     total_years := total_years row;
     decay_percent := decay_percent row;
     decay_interval_years := decay_interval_years row;
     is_running := is_running row;
     time_scale_ms := timeScale |}.

(** [handleSaveTimeScale] for an integer in the input field: the stored
    row is updated, the provider's copy of the settings is not. *)
Definition handleSaveTimeScale (timeScale : Z) (st : State) : State :=
  match settings st with
  | None => st
  | Some s =>
      {| user := user st; settings := settings st; isRunning := isRunning st;
         simulation_settings :=
           update_eq settings_id (settings_id s) (set_time_scale timeScale)
             (simulation_settings st);
         archive_items := archive_items st; decay_events := decay_events st;
         degradation_logs := degradation_logs st; alerts := alerts st |}
  end.

(** The period, in milliseconds, of the timer the provider keeps while the
    simulation runs: [settings.time_scale_ms * settings.decay_interval_years]. *)
Definition timer_period (st : State) : option Z :=
  if isRunning st
  then option_map (fun s => time_scale_ms s * decay_interval_years s) (settings st)
  else None.

(** ** Initialization (SimulationContext.tsx, initializeSimulation) *)

(** The provider together with the owner's rows of [valuation_weights]. *)
Record Setup : Type := {
  provider : State;
  valuation_weights : list Weights
}.

(** The row [initializeSimulation] inserts, with the id the table gives it. *)
Definition default_settings (id : string) : SimulationSettings :=
  {| settings_id := id;
     start_capacity_kb := 1000000;
     current_capacity_kb := 1000000;
     current_year := 0;
     total_years := 60;
     decay_percent := of_Z 5;
     decay_interval_years := 2;
     is_running := false;
     time_scale_ms := 1000 |}.

Definition default_weights : Weights :=
  {| weight_relevance := lit 40 2;
     weight_uniqueness := lit 35 2;
     weight_reconstructability := lit 25 2 |}.

(** [initializeSimulation]: with a settings row already there it only
    fetches it ([existing] is the row [.maybeSingle()] answers); otherwise
    it inserts the default row and the default weights and takes the new
    row as its settings.  [new_id] is the id of the inserted row. *)
Definition initializeSimulation (new_id : string) (su : Setup) : Setup :=
  let st := provider su in
  match user st with
  | None => su
  | Some _ =>
      match simulation_settings st with
      | [_] =>
          {| provider := fetchSettings st;
             valuation_weights := valuation_weights su |}
      | _ =>
          {| provider :=
               {| user := user st;
                  settings := Some (default_settings new_id);
                  isRunning := isRunning st;
                  simulation_settings :=
                    simulation_settings st ++ [default_settings new_id];
                  archive_items := archive_items st;
                  decay_events := decay_events st;
                  degradation_logs := degradation_logs st;
                  alerts := alerts st |};
             valuation_weights := valuation_weights su ++ [default_weights] |}
      end
  end.

Module SetupScenario.
Local Open Scope string_scope.

(** A signed-in owner who has ingested one item and not initialized yet. *)
Definition fresh : Setup :=
  {| provider :=
       {| user := Some "owner-1";
          settings := None;
          isRunning := false;
          simulation_settings := [];
          archive_items := [Scenario.item "a" FULL 1000 (Some (of_Z 10))];
          decay_events := [];
          degradation_logs := [];
          alerts := [] |};
     valuation_weights := [] |}.
End SetupScenario.

(** ** The timeline (TimelineSlider.tsx) *)

Module TimelineSlider.

Record StageCounts : Type := {
  count_FULL : nat;
  count_COMPRESSED : nat;
  count_SUMMARIZED : nat;
  count_MINIMAL : nat;
  count_DELETED : nat
}.

Record TimelineSnapshot : Type := {
  year : Z;
  capacityKb : Z;
  capacityPercent : number;
  storageUsedKb : Z;
  stageCounts : StageCounts;
  avgSemanticScore : number;
  decayEventNo : option Z;
  itemsAffected : Z
}.

(** A [Map<number, TimelineSnapshot>]: the entries in insertion order, a
    key at most once. *)
Definition SnapshotMap : Type := list (Z * TimelineSnapshot).

Fixpoint Map_get (key : Z) (m : SnapshotMap) : option TimelineSnapshot :=
  match m with
  | [] => None
  | (k, v) :: m' => if k =? key then Some v else Map_get key m'
  end.

Definition Map_has (key : Z) (m : SnapshotMap) : bool :=
  match Map_get key m with Some _ => true | None => false end.

(** [m.set(key, v)]: a key already there keeps its place. *)
Fixpoint Map_set (key : Z) (v : TimelineSnapshot) (m : SnapshotMap) : SnapshotMap :=
  match m with
  | [] => [(key, v)]
  | (k, w) :: m' =>
      if k =? key then (k, v) :: m' else (k, w) :: Map_set key v m'
  end.

Definition count (s : DegradationStage) (items : list ArchiveItem) : nat :=
  List.length (filter (fun i => stage_eqb (stage i) s) items).

(** [items.reduce((s, i) => s + (i.semantic_score || 0), 0) / items.length],
    and 0 for no item. *)
Definition average_score (items : list ArchiveItem) : number :=
  match items with
  | [] => of_Z 0
  | _ =>
      div (fold_left (fun s i => add s (score_or_0 i)) items (of_Z 0))
          (of_Z (Z.of_nat (List.length items)))
  end.

(** [.order('simulated_year', { ascending: true })]; events of one year
    stay in table order. *)
Definition ordered_events (events : list DecayEvent) : list DecayEvent :=
  stable_sort (fun a b => simulated_year a <=? simulated_year b) events.

(** [Math.round((capacity / settings.start_capacity_kb) * 100)] *)
Definition percent_of_start (s : SimulationSettings) (capacity : Z) : number :=
  Math_round (mul (div (of_Z capacity) (of_Z (start_capacity_kb s))) (of_Z 100)).

(** The snapshots [buildSnapshots] stores: one for year 0, one for each
    decay event, one for the current year. *)
Definition initial_snapshot (s : SimulationSettings) (items : list ArchiveItem)
    : TimelineSnapshot :=
  {| year := 0;
     capacityKb := start_capacity_kb s;
     capacityPercent := of_Z 100;
     storageUsedKb := fold_left (fun sum i => sum + current_size_kb i) items 0;
     stageCounts :=
       {| count_FULL := List.length items; count_COMPRESSED := 0;
          count_SUMMARIZED := 0; count_MINIMAL := 0; count_DELETED := 0 |};
     avgSemanticScore := average_score items;
     decayEventNo := None;
     itemsAffected := 0 |}.

Definition initialCounts (items : list ArchiveItem) : StageCounts :=
  {| count_FULL := count FULL items;
     count_COMPRESSED := count COMPRESSED items;
     count_SUMMARIZED := count SUMMARIZED items;
     count_MINIMAL := count MINIMAL items;
     count_DELETED := count DELETED items |}.

Definition event_snapshot (s : SimulationSettings) (items : list ArchiveItem)
    (event : DecayEvent) : TimelineSnapshot :=
  {| year := simulated_year event;
     capacityKb := capacity_after_kb event;
     capacityPercent := percent_of_start s (capacity_after_kb event);
     storageUsedKb := storage_after_kb event;
     stageCounts := initialCounts items;
     avgSemanticScore := of_Z 50;
     decayEventNo := Some (event_no event);
     itemsAffected := items_affected event |}.

Definition current_snapshot (s : SimulationSettings) (items : list ArchiveItem)
    (currentYear : Z) : TimelineSnapshot :=
  {| year := currentYear;
     capacityKb := current_capacity_kb s;
     capacityPercent := percent_of_start s (current_capacity_kb s);
     storageUsedKb := fold_left (fun sum i => sum + current_size_kb i) items 0;
     stageCounts := initialCounts items;
     avgSemanticScore := average_score items;
     decayEventNo := Some (floor (div (of_Z currentYear) (of_Z 2)));
     itemsAffected := 0 |}.

(** [buildSnapshots]: the map the effect stores with [setSnapshots]; with
    no user or no settings the effect returns before it stores one. *)
Definition buildSnapshots (st : State) : option SnapshotMap :=
  match settings st, user st with
  | Some s, Some _ =>
      let items := archive_items st in
      let m0 := Map_set 0 (initial_snapshot s items) [] in
      let m1 :=
        fold_left
          (fun m event =>
             Map_set (simulated_year event) (event_snapshot s items event) m)
          (ordered_events (decay_events st)) m0 in
      Some (Map_set (currentYear st)
              (current_snapshot s items (currentYear st)) m1)
  | _, _ => None
  end.

(** The year [getSnapshotForYear] falls back to: the largest positive key
    not above [year], and 0 when there is none. *)
Definition nearestYear (snapshots : SnapshotMap) (year : Z) : Z :=
  fold_left (fun nearest entry =>
               let y := fst entry in
               if (y <=? year) && (y >? nearest) then y else nearest)
    snapshots 0.

Definition getSnapshotForYear (snapshots : SnapshotMap) (year : Z)
    : option TimelineSnapshot :=
  if Map_has year snapshots then Map_get year snapshots
  else Map_get (nearestYear snapshots year) snapshots.

End TimelineSlider.

(** A map with the snapshots of years 0 and 4. *)
Module TimelineScenario.

Definition snapshot_of (y : Z) : TimelineSlider.TimelineSnapshot :=
  let s := Scenario.the_settings y 1000000 5 in
  TimelineSlider.current_snapshot s [] y.

Definition two_years : TimelineSlider.SnapshotMap :=
  TimelineSlider.Map_set 4 (snapshot_of 4)
    (TimelineSlider.Map_set 0 (snapshot_of 0) []).

End TimelineScenario.

(** ** Ingestion (IngestData.tsx) *)

(** The row an insert into [archive_items] creates from the columns the
    page sends: [id] is the key the table draws, [stage] takes the column
    default ['FULL'], [current_size_kb] is sent equal to [size_kb]; the
    scores are sent rounded to two decimals, the scale of their columns. *)
Definition inserted_item (new_id item_title : string) (sizeKb : Z)
    (score reconstructability : number) : ArchiveItem :=
  {| id := new_id;
     title := item_title;
     stage := FULL;
     current_size_kb := sizeKb;
     semantic_score := Some score;
     val_reconstructability := Some reconstructability |}.

Module IngestData.
Local Open Scope string_scope.

(** [Math.round(x * 100) / 100] *)
Definition round2 (x : number) : number :=
  div (Math_round (mul x (of_Z 100))) (of_Z 100).

Record Scores : Type := {
  val_relevance : number;
  val_uniqueness : number;
  val_reconstructability : number;
  semantic_score : number
}.

(** [calculateSemanticScore]; [r1], [r2], [r3] are the values its three
    calls of [Math.random()] return. *)
Definition calculateSemanticScore (item_type : string) (r1 r2 r3 : number)
    : Scores :=
  let relevance := add (mul r1 (of_Z 30)) (of_Z 50) in
  let uniqueness := add (mul r2 (of_Z 40)) (of_Z 40) in
  let reconstructability :=
    if (item_type =? "article") || (item_type =? "research")
    then add (mul r3 (of_Z 30)) (of_Z 60)
    else add (mul r3 (of_Z 30)) (of_Z 30) in
  {| val_relevance := round2 relevance;
     val_uniqueness := round2 uniqueness;
     val_reconstructability := round2 reconstructability;
     semantic_score :=
       round2 (add (add (mul relevance (lit 4 1)) (mul uniqueness (lit 35 2)))
                   (mul reconstructability (lit 25 2))) |}.

Definition types : list string :=
  ["article"; "research"; "document"; "image"; "video"].

Definition topics : list string :=
  ["Climate Change"; "Artificial Intelligence"; "Quantum Computing";
   "Space Exploration"; "Renewable Energy"; "Biotechnology"; "Cybersecurity";
   "Machine Learning"; "Blockchain"; "Nanotechnology"; "Robotics"; "Genetics";
   "Virtual Reality"; "Autonomous Vehicles"; "Internet of Things";
   "Data Science"; "Neural Networks"; "Cloud Computing"; "Edge Computing";
   "Digital Transformation"].

(** [l[i]] for an integer [i]: [undefined], here [None], outside the list. *)
Definition at_index {A : Type} (l : list A) (i : Z) : option A :=
  if (i <? 0)%Z then None else nth_error l (Z.to_nat i).

(** [c.toUpperCase()] on the ASCII letters. *)
Definition toUpperCase (c : ascii) : ascii :=
  let n := nat_of_ascii c in
  if (97 <=? n)%nat && (n <=? 122)%nat then ascii_of_nat (n - 32) else c.

(** [type.charAt(0).toUpperCase() + type.slice(1)] *)
Definition capitalize (s : string) : string :=
  match s with
  | EmptyString => EmptyString
  | String c rest => String (toUpperCase c) rest
  end.

(** The decimal digits of a natural number, as a template literal prints it. *)
Definition decimal (n : nat) : string :=
  NilZero.string_of_uint (Nat.to_uint n).

(** The values [Math.random()] returns while one seed item is built: for
    the type, the topic and the size, and the three of
    [calculateSemanticScore]. *)
Record Draws : Type := {
  draw_type : number;
  draw_topic : number;
  draw_size : number;
  draw_relevance : number;
  draw_uniqueness : number;
  draw_reconstructability : number
}.

(** What [Math.random()] may return: a double that is at least 0 and
    below 1. *)
Definition unit_draw (r : number) : bool :=
  match r with
  | S754_zero false => true
  | S754_finite false m e =>
      bounded prec emax m e && (e <? 0)%Z && (Zpos m <? 2 ^ (- e))%Z
  | _ => false
  end.

Definition unit_draws (d : Draws) : bool :=
  unit_draw (draw_type d) && unit_draw (draw_topic d)
  && unit_draw (draw_size d) && unit_draw (draw_relevance d)
  && unit_draw (draw_uniqueness d) && unit_draw (draw_reconstructability d).

(** The [i]-th seed item of [generateSeedData], as the row the insert
    creates; [None] when [type] or [topic] is [undefined], on which
    [type.charAt] throws. *)
Definition seedItem (new_id : string) (i : nat) (d : Draws) : option ArchiveItem :=
  match at_index types (floor (mul (draw_type d) (of_Z (Z.of_nat (List.length types))))),
        at_index topics (floor (mul (draw_topic d) (of_Z (Z.of_nat (List.length topics)))))
  with
  | Some type, Some topic =>
      let sizeKb := floor (mul (draw_size d) (of_Z 800)) + 100 in
      let scores :=
        calculateSemanticScore type (draw_relevance d) (draw_uniqueness d)
          (draw_reconstructability d) in
      Some (inserted_item new_id
              (topic ++ " " ++ capitalize type ++ " #" ++ decimal (i + 1))
              sizeKb (semantic_score scores) (val_reconstructability scores))
  | _, _ => None
  end.

(** All the elements of a list of options, when none is missing. *)
Fixpoint all_some {A : Type} (l : list (option A)) : option (list A) :=
  match l with
  | [] => Some []
  | Some x :: l' => option_map (cons x) (all_some l')
  | None :: _ => None
  end.

(** [generateSeedData]: 200 items built from the draws and inserted in one
    call; [new_id i] is the key the table draws for the [i]-th of them.
    Nothing happens without a user; [None] is the exception that leaves the
    table as it is. *)
Definition generateSeedData (new_id : nat -> string) (draws : nat -> Draws)
    (st : State) : option State :=
  match user st with
  | None => Some st
  | Some _ =>
      match all_some (map (fun i => seedItem (new_id i) i (draws i)) (seq 0 200)) with
      | None => None
      | Some seedItems =>
          Some {| user := user st; settings := settings st;
                  isRunning := isRunning st;
                  simulation_settings := simulation_settings st;
                  archive_items := (archive_items st ++ seedItems)%list;
                  decay_events := decay_events st;
                  degradation_logs := degradation_logs st;
                  alerts := alerts st |}
      end
  end.

End IngestData.

Module SeedScenario.
Local Open Scope string_scope.

(** A signed-in owner with nothing stored yet. *)
Definition new_owner : Setup :=
  {| provider :=
       {| user := Some "owner-1";
          settings := None;
          isRunning := false;
          simulation_settings := [];
          archive_items := [];
          decay_events := [];
          degradation_logs := [];
          alerts := [] |};
     valuation_weights := [] |}.

(** Every call of [Math.random()] returns one half. *)
Definition half : number := S754_finite false 4503599627370496 (-53).

Definition halves (i : nat) : IngestData.Draws :=
  {| IngestData.draw_type := half; IngestData.draw_topic := half;
     IngestData.draw_size := half; IngestData.draw_relevance := half;
     IngestData.draw_uniqueness := half;
     IngestData.draw_reconstructability := half |}.

Definition keys (i : nat) : string := "item-" ++ IngestData.decimal i.

End SeedScenario.

(** ** The replay (GlobalTimelineReplay.tsx) *)

Module GlobalTimelineReplay.

(** [stageCounts[newStage]++] *)
Definition increment (s : DegradationStage) (c : TimelineSlider.StageCounts)
    : TimelineSlider.StageCounts :=
  match s with
  | FULL =>
      {| TimelineSlider.count_FULL := S (TimelineSlider.count_FULL c);
         TimelineSlider.count_COMPRESSED := TimelineSlider.count_COMPRESSED c;
         TimelineSlider.count_SUMMARIZED := TimelineSlider.count_SUMMARIZED c;
         TimelineSlider.count_MINIMAL := TimelineSlider.count_MINIMAL c;
         TimelineSlider.count_DELETED := TimelineSlider.count_DELETED c |}
  | COMPRESSED =>
      {| TimelineSlider.count_FULL := TimelineSlider.count_FULL c;
         TimelineSlider.count_COMPRESSED := S (TimelineSlider.count_COMPRESSED c);
         TimelineSlider.count_SUMMARIZED := TimelineSlider.count_SUMMARIZED c;
         TimelineSlider.count_MINIMAL := TimelineSlider.count_MINIMAL c;
         TimelineSlider.count_DELETED := TimelineSlider.count_DELETED c |}
  | SUMMARIZED =>
      {| TimelineSlider.count_FULL := TimelineSlider.count_FULL c;
         TimelineSlider.count_COMPRESSED := TimelineSlider.count_COMPRESSED c;
         TimelineSlider.count_SUMMARIZED := S (TimelineSlider.count_SUMMARIZED c);
         TimelineSlider.count_MINIMAL := TimelineSlider.count_MINIMAL c;
         TimelineSlider.count_DELETED := TimelineSlider.count_DELETED c |}
  | MINIMAL =>
      {| TimelineSlider.count_FULL := TimelineSlider.count_FULL c;
         TimelineSlider.count_COMPRESSED := TimelineSlider.count_COMPRESSED c;
         TimelineSlider.count_SUMMARIZED := TimelineSlider.count_SUMMARIZED c;
         TimelineSlider.count_MINIMAL := S (TimelineSlider.count_MINIMAL c);
         TimelineSlider.count_DELETED := TimelineSlider.count_DELETED c |}
  | DELETED =>
      {| TimelineSlider.count_FULL := TimelineSlider.count_FULL c;
         TimelineSlider.count_COMPRESSED := TimelineSlider.count_COMPRESSED c;
         TimelineSlider.count_SUMMARIZED := TimelineSlider.count_SUMMARIZED c;
         TimelineSlider.count_MINIMAL := TimelineSlider.count_MINIMAL c;
         TimelineSlider.count_DELETED := S (TimelineSlider.count_DELETED c) |}
  end.

(** [Object.values(stageCounts).reduce((a, b) => a + b, 0)], the total the
    panel takes its percentages of. *)
Definition total (c : TimelineSlider.StageCounts) : nat :=
  TimelineSlider.count_FULL c + TimelineSlider.count_COMPRESSED c
  + TimelineSlider.count_SUMMARIZED c + TimelineSlider.count_MINIMAL c
  + TimelineSlider.count_DELETED c.

(** [logs.filter(l => l.decay_event_id === event.id)] *)
Definition eventLogs (logs : list DegradationLog) (event : DecayEvent)
    : list DegradationLog :=
  filter (fun l => Nat.eqb (decay_event_id l) (event_id event)) logs.

(** [avgScore]: the mean score of the event's log rows, and without any the
    average of the snapshot two years earlier, or 50. *)
Definition avgScore (eventLogs : list DegradationLog)
    (snapshotMap : TimelineSlider.SnapshotMap) (event : DecayEvent) : number :=
  match eventLogs with
  | [] =>
      or_else
        (option_map TimelineSlider.avgSemanticScore
           (TimelineSlider.Map_get (simulated_year event - 2) snapshotMap))
        (of_Z 50)
  | _ =>
      div (fold_left (fun s l => add s (or_else (log_semantic_score l) (of_Z 0)))
             eventLogs (of_Z 0))
          (of_Z (Z.of_nat (List.length eventLogs)))
  end.

(** The body of [events.forEach]: the running counts and the map. *)
Definition add_event (s : SimulationSettings) (logs : list DegradationLog)
    (acc : TimelineSlider.StageCounts * TimelineSlider.SnapshotMap)
    (event : DecayEvent)
    : TimelineSlider.StageCounts * TimelineSlider.SnapshotMap :=
  let logs_of_event := eventLogs logs event in
  let stageCounts :=
    fold_left (fun c log => increment (new_stage log) c) logs_of_event (fst acc) in
  (stageCounts,
   TimelineSlider.Map_set (simulated_year event)
     {| TimelineSlider.year := simulated_year event;
        TimelineSlider.capacityKb := capacity_after_kb event;
        TimelineSlider.capacityPercent :=
          TimelineSlider.percent_of_start s (capacity_after_kb event);
        TimelineSlider.storageUsedKb := storage_after_kb event;
        TimelineSlider.stageCounts := stageCounts;
        TimelineSlider.avgSemanticScore :=
          avgScore logs_of_event (snd acc) event;
        TimelineSlider.decayEventNo := Some (event_no event);
        TimelineSlider.itemsAffected := items_affected event |}
     (snd acc)).

(** [buildSnapshots]: year 0 with every item FULL at its original size
    ([size_kb], by primary key), one snapshot per decay event with the
    counts run so far, and the current state, computed as in
    [TimelineSlider]. *)
Definition buildSnapshots (size_kb : string -> Z) (st : State)
    : option TimelineSlider.SnapshotMap :=
  match settings st, user st with
  | Some s, Some _ =>
      let items := archive_items st in
      let totalItems := List.length items in
      let all_full :=
        {| TimelineSlider.count_FULL := totalItems;
           TimelineSlider.count_COMPRESSED := 0;
           TimelineSlider.count_SUMMARIZED := 0;
           TimelineSlider.count_MINIMAL := 0;
           TimelineSlider.count_DELETED := 0 |} in
      let m0 :=
        TimelineSlider.Map_set 0
          {| TimelineSlider.year := 0;
             TimelineSlider.capacityKb := start_capacity_kb s;
             TimelineSlider.capacityPercent := of_Z 100;
             TimelineSlider.storageUsedKb :=
               fold_left (fun sum i => sum + size_kb (id i)) items 0;
             TimelineSlider.stageCounts := all_full;
             TimelineSlider.avgSemanticScore := TimelineSlider.average_score items;
             TimelineSlider.decayEventNo := None;
             TimelineSlider.itemsAffected := 0 |} [] in
      let m1 :=
        snd (fold_left (add_event s (degradation_logs st))
               (TimelineSlider.ordered_events (decay_events st)) (all_full, m0)) in
      Some (TimelineSlider.Map_set (currentYear st)
              (TimelineSlider.current_snapshot s items (currentYear st)) m1)
  | _, _ => None
  end.

(** [getSnapshotForYear], the same code as in [TimelineSlider]. *)
Definition getSnapshotForYear (snapshots : TimelineSlider.SnapshotMap) (year : Z)
    : option TimelineSlider.TimelineSnapshot :=
  if TimelineSlider.Map_has year snapshots
  then TimelineSlider.Map_get year snapshots
  else TimelineSlider.Map_get (TimelineSlider.nearestYear snapshots year) snapshots.

End GlobalTimelineReplay.

(** The tables of events and logs as the cycles leave them: event ids are
    distinct, every log row belongs to a stored event and leads to a stage
    other than FULL, and every event has the [items_affected] and the
    [storage_after_kb] it was inserted with. *)
Definition log_accounting (st : State) : Prop :=
  NoDup (map event_id (decay_events st))
  /\ Forall (fun log => In (decay_event_id log) (map event_id (decay_events st))
                        /\ new_stage log <> FULL)
       (degradation_logs st)
  /\ Forall (fun e => items_affected e = 0
                      /\ storage_after_kb e = storage_before_kb e)
       (decay_events st).

(** The counts the replay reaches from [c] with the log rows of a list of
    events. *)
Definition counts_after (logs : list DegradationLog) (events : list DecayEvent)
    (c : TimelineSlider.StageCounts) : TimelineSlider.StageCounts :=
  fold_left
    (fun c e =>
       fold_left (fun c log => GlobalTimelineReplay.increment (new_stage log) c)
         (GlobalTimelineReplay.eventLogs logs e) c)
    events c.

(** ** The history of an item (ItemHistoryTimeline.tsx) *)

Module ItemHistoryTimeline.

Record ItemHistoryEntry : Type := {
  decay_event_id : nat;
  simulated_year : Z;
  prev_stage : DegradationStage;
  new_stage : DegradationStage;
  reason : Reason;
  semantic_score : option number;
  storage_pressure : option Numeric;
  size_before_kb : Z;
  size_after_kb : Z
}.

(** The entry made of a log row and the year of the decay event joined to
    it.  The storage pressure is read as the column has stored it. *)
Definition entry (log : DegradationLog) (year : Z) : ItemHistoryEntry :=
  let 'Build_DegradationLog event _ _ prev new why score pressure _ before after :=
    log in
  {| decay_event_id := event;
     simulated_year := year;
     prev_stage := prev;
     new_stage := new;
     reason := why;
     semantic_score := score;
     storage_pressure := numeric_6_2 pressure;
     size_before_kb := before;
     size_after_kb := after |}.

(** The join [decay_events!inner(simulated_year)]: the log row with the
    event it refers to; a row without one is left out. *)
Definition joined (events : list DecayEvent) (log : DegradationLog)
    : list ItemHistoryEntry :=
  let 'Build_DegradationLog event _ _ _ _ _ _ _ _ _ _ := log in
  match find (fun e => Nat.eqb (event_id e) event) events with
  | Some e =>
      let 'Build_DecayEvent _ _ year _ _ _ _ _ := e in [entry log year]
  | None => []
  end.

(** [fetchHistory]: the log rows of the item, oldest first, each with the
    year of its decay event.  The log table is kept in the order of
    insertion, which is the order of [created_at].  Without a user or
    with an empty [itemId] the history stays empty. *)
Definition fetchHistory (itemId : string) (st : State) : list ItemHistoryEntry :=
  match user st with
  | None => []
  | Some _ =>
      if String.eqb itemId EmptyString then []
      else
        flat_map (joined (decay_events st))
          (filter (fun log => String.eqb (item_id log) itemId) (degradation_logs st))
  end.

(** The panel announces a permanent deletion when the last entry leads to
    DELETED. *)
Definition shows_deleted (history : list ItemHistoryEntry) : bool :=
  match rev history with
  | last :: _ => stage_eqb (new_stage last) DELETED
  | [] => false
  end.

(** A history that leads, entry by entry, from one stage and size to
    another. *)
Fixpoint linked (from_stage : DegradationStage) (from_size : Z)
    (history : list ItemHistoryEntry) (to_stage : DegradationStage) (to_size : Z)
    : Prop :=
  match history with
  | [] => from_stage = to_stage /\ from_size = to_size
  | e :: rest =>
      prev_stage e = from_stage /\ size_before_kb e = from_size
      /\ stage_index (new_stage e) = stage_index (prev_stage e) + 1
      /\ linked (new_stage e) (size_after_kb e) rest to_stage to_size
  end.

End ItemHistoryTimeline.
(** The history of a row, as [fetchHistory] reads it for a signed-in user
    and a key that is not empty. *)
Definition history_of (key : string) (st : State)
    : list ItemHistoryTimeline.ItemHistoryEntry :=
  flat_map (ItemHistoryTimeline.joined (decay_events st))
    (filter (fun log => String.eqb (item_id log) key) (degradation_logs st)).

(** The stages the rows of a table have passed since FULL. *)
Definition stages_passed (table : list ArchiveItem) : Z :=
  fold_right (fun item sum => stage_index (stage item) + sum) 0 table.

(** The history [h] accounts for what became of the row [before]: it leads
    to the stage and size of [after], and its years grow, within
    [(year0, year]]. *)
Definition tracked (year0 year : Z) (before after : ArchiveItem)
    (h : list ItemHistoryTimeline.ItemHistoryEntry) : Prop :=
  id after = id before
  /\ ItemHistoryTimeline.linked (stage before) (current_size_kb before) h
       (stage after) (current_size_kb after)
  /\ StronglySorted Z.lt (map ItemHistoryTimeline.simulated_year h)
  /\ Forall (fun e => year0 < ItemHistoryTimeline.simulated_year e <= year) h.

(** ** The factor of the capacity decay *)

(** [1 - percent / 100] *)
Definition decay_factor (percent : number) : number :=
  sub (of_Z 1) (div percent (of_Z 100)).

(** A factor that is a double of 53 digits, positive and at most
    [1 - 2^-52]. *)
Definition proper_fraction (x : number) : bool :=
  match x with
  | S754_finite false m e =>
      (Zpos (digits2_pos m) =? 53) && (-64 <=? e) && (e <=? 0)
      && (Zpos m * 2 ^ 52 <=? (2 ^ 52 - 1) * 2 ^ (- e))
  | _ => false
  end.

(** * Properties *)

(** ** Stages and tables *)

Lemma stage_eqb_eq (a b : DegradationStage) : stage_eqb a b = true <-> a = b.
Proof. destruct a, b; simpl; split; intro H; try reflexivity; discriminate. Qed.

Lemma stage_eqb_refl (a : DegradationStage) : stage_eqb a a = true.
Proof. now apply stage_eqb_eq. Qed.

Lemma stage_eqb_neq (a b : DegradationStage) : stage_eqb a b = false <-> a <> b.
Proof.
  split.
  - intros H E. apply stage_eqb_eq in E. congruence.
  - intro H. destruct (stage_eqb a b) eqn:E; [| reflexivity].
    apply stage_eqb_eq in E. contradiction.
Qed.

Lemma update_eq_length {A : Type} (key : A -> string) k f (t : list A) :
  List.length (update_eq key k f t) = List.length t.
Proof. unfold update_eq. apply length_map. Qed.

Lemma update_eq_idem {A : Type} (key : A -> string) k f (t : list A) :
  (forall row, key (f row) = key row) ->
  (forall row, f (f row) = f row) ->
  update_eq key k f (update_eq key k f t) = update_eq key k f t.
Proof.
  intros Hk Hf. unfold update_eq. rewrite map_map. apply map_ext.
  intro row. destruct (String.eqb (key row) k) eqn:E.
  - rewrite Hk, E. apply Hf.
  - now rewrite E.
Qed.

(** ** The two branches of a cycle *)

Section Cycle.
Variable st : State.
Variable s : SimulationSettings.
Variable u : string.
Hypothesis Hsettings : settings st = Some s.
Hypothesis Huser : user st = Some u.

Let newYear := current_year s + decay_interval_years s.
Let capacityAfter := decayed_capacity (current_capacity_kb s) (decay_percent s).
Let items := select_items (archive_items st).
Let storageBefore := fold_left (fun sum item => sum + current_size_kb item) items 0.
Let loop :=
    degrade capacityAfter newYear (fresh_event_id (decay_events st)) items
      {| currentStorage := storageBefore; itemsAffected := 0;
         loop_items := archive_items st; loop_logs := degradation_logs st;
         loop_alerts := alerts st |}.

Section Complete.
Hypothesis Hover : total_years s < newYear.

Lemma cycle_complete :
      processDecayEvent st =
      {| user := user st; settings := settings st; isRunning := false;
         simulation_settings :=
           update_eq settings_id (settings_id s) (set_is_running false)
             (simulation_settings st);
         archive_items := archive_items st; decay_events := decay_events st;
         degradation_logs := degradation_logs st; alerts := alerts st |}.
Proof.
      unfold processDecayEvent. rewrite Hsettings, Huser.
      replace (current_year s + decay_interval_years s >? total_years s) with true.
      - reflexivity.
      - symmetry. apply Z.gtb_lt. exact Hover.
Qed.
End Complete.

Section Running.
Hypothesis Hin : newYear <= total_years s.

Lemma cycle_test : (current_year s + decay_interval_years s >? total_years s) = false.
Proof.
      destruct (current_year s + decay_interval_years s >? total_years s) eqn:E;
        [| reflexivity].
      apply Z.gtb_lt in E. unfold newYear in Hin. lia.
Qed.

Lemma cycle_settings :
      settings (processDecayEvent st) =
      Some (set_year_capacity newYear capacityAfter s).
Proof.
      unfold processDecayEvent. rewrite Hsettings, Huser, cycle_test. reflexivity.
Qed.

Lemma cycle_user : user (processDecayEvent st) = user st.
Proof.
      unfold processDecayEvent. rewrite Hsettings, Huser, cycle_test. reflexivity.
Qed.

Lemma cycle_isRunning : isRunning (processDecayEvent st) = isRunning st.
Proof.
      unfold processDecayEvent. rewrite Hsettings, Huser, cycle_test. reflexivity.
Qed.

Lemma cycle_items : archive_items (processDecayEvent st) = loop_items loop.
Proof.
      unfold processDecayEvent. rewrite Hsettings, Huser, cycle_test. reflexivity.
Qed.

Lemma cycle_logs : degradation_logs (processDecayEvent st) = loop_logs loop.
Proof.
      unfold processDecayEvent. rewrite Hsettings, Huser, cycle_test. reflexivity.
Qed.

Lemma cycle_alerts : alerts (processDecayEvent st) = loop_alerts loop.
Proof.
      unfold processDecayEvent. rewrite Hsettings, Huser, cycle_test. reflexivity.
Qed.

Lemma cycle_events :
      List.length (decay_events (processDecayEvent st)) = S (List.length (decay_events st)).
Proof.
      unfold processDecayEvent. rewrite Hsettings, Huser, cycle_test. simpl.
      rewrite length_app. simpl. lia.
Qed.
End Running.
End Cycle.

(** ** Capacity decay and the end of the simulation *)

Lemma set_year_capacity_same (s : SimulationSettings) :
  set_year_capacity (current_year s) (current_capacity_kb s) s = s.
Proof. destruct s; reflexivity. Qed.

Lemma set_year_capacity_twice y1 c1 y2 c2 (s : SimulationSettings) :
  set_year_capacity y2 c2 (set_year_capacity y1 c1 s) = set_year_capacity y2 c2 s.
Proof. reflexivity. Qed.

(** [k] cycles in a row, as long as the years stay within the simulation. *)
Lemma cycles_in_range (st : State) (s : SimulationSettings) (u : string) :
  settings st = Some s -> user st = Some u ->
  0 <= decay_interval_years s ->
  forall k : nat,
    current_year s + Z.of_nat k * decay_interval_years s <= total_years s ->
    let stk := Nat.iter k processDecayEvent st in
    settings stk =
      Some (set_year_capacity
              (current_year s + Z.of_nat k * decay_interval_years s)
              (Nat.iter k (fun c => decayed_capacity c (decay_percent s))
                 (current_capacity_kb s)) s)
    /\ user stk = Some u
    /\ isRunning stk = isRunning st
    /\ List.length (decay_events stk) = (List.length (decay_events st) + k)%nat.
Proof.
  intros Hs Hu Hpos k. induction k as [| k IH]; intro Hk.
  - simpl. rewrite Z.add_0_r, set_year_capacity_same.
    repeat split; auto.
  - rewrite Nat2Z.inj_succ in Hk |- *.
    assert (Hk' : current_year s + Z.of_nat k * decay_interval_years s
                  <= total_years s) by nia.
    specialize (IH Hk'). cbv zeta in IH. destruct IH as (IHs & IHu & IHr & IHe).
    cbv zeta. rewrite Nat.iter_succ.
    set (stk := Nat.iter k processDecayEvent st) in *.
    assert (Hin : current_year
                    (set_year_capacity
                       (current_year s + Z.of_nat k * decay_interval_years s)
                       (Nat.iter k (fun c => decayed_capacity c (decay_percent s))
                          (current_capacity_kb s)) s)
                  + decay_interval_years
                      (set_year_capacity
                         (current_year s + Z.of_nat k * decay_interval_years s)
                         (Nat.iter k (fun c => decayed_capacity c (decay_percent s))
                            (current_capacity_kb s)) s)
                  <= total_years
                       (set_year_capacity
                          (current_year s + Z.of_nat k * decay_interval_years s)
                          (Nat.iter k (fun c => decayed_capacity c (decay_percent s))
                             (current_capacity_kb s)) s)).
    { simpl. nia. }
    repeat split.
    + rewrite (cycle_settings stk _ u IHs IHu Hin). simpl.
      f_equal. unfold set_year_capacity. simpl. f_equal. nia.
    + rewrite (cycle_user stk _ u IHs IHu Hin). exact IHu.
    + rewrite (cycle_isRunning stk _ u IHs IHu Hin). exact IHr.
    + rewrite (cycle_events stk _ u IHs IHu Hin). lia.
Qed.

(** C2: each cycle sets the capacity to
    [floor(capacityBefore * (1 - decayPercent/100))], computed from the
    current capacity, so that a second cycle cuts the result of the first
    one; from 1,000,000 KB at 5% the capacity is 950,000 KB after one cycle
    (and 902,500 KB after two). *)
Theorem capacity_decay (st : State) (s : SimulationSettings) (u : string) :
  settings st = Some s -> user st = Some u ->
  current_year s + decay_interval_years s <= total_years s ->
  exists s1,
    settings (processDecayEvent st) = Some s1
    /\ current_capacity_kb s1 =
         floor (mul (of_Z (current_capacity_kb s))
                    (sub (of_Z 1) (div (decay_percent s) (of_Z 100))))
    /\ start_capacity_kb s1 = start_capacity_kb s
    /\ decay_percent s1 = decay_percent s
    /\ (current_year s1 + decay_interval_years s1 <= total_years s1 ->
        exists s2,
          settings (processDecayEvent (processDecayEvent st)) = Some s2
          /\ current_capacity_kb s2 =
               floor (mul (of_Z (current_capacity_kb s1))
                          (sub (of_Z 1) (div (decay_percent s) (of_Z 100)))))
    /\ (current_capacity_kb s = 1000000 -> decay_percent s = of_Z 5 ->
        current_capacity_kb s1 = 950000
        /\ decayed_capacity (current_capacity_kb s1) (decay_percent s1) = 902500).
Proof.
  intros Hs Hu Hin.
  pose proof (cycle_settings st s u Hs Hu Hin) as H1.
  pose proof (cycle_user st s u Hs Hu Hin) as U1.
  exists (set_year_capacity (current_year s + decay_interval_years s)
            (decayed_capacity (current_capacity_kb s) (decay_percent s)) s).
  split; [exact H1 |].
  split; [reflexivity |]. split; [reflexivity |]. split; [reflexivity |].
  split.
  - intro Hin2. rewrite Hu in U1.
    pose proof (cycle_settings (processDecayEvent st) _ u H1 U1 Hin2) as H2.
    eexists. split; [exact H2 |]. reflexivity.
  - intros Hc Hp. simpl. rewrite Hc, Hp. split; vm_compute; reflexivity.
Qed.

Lemma capacity_decay_witness :
  exists s1,
    settings (processDecayEvent Scenario.default) = Some s1
    /\ current_capacity_kb s1 = 950000.
Proof.
  destruct (capacity_decay Scenario.default
              (Scenario.the_settings 0 1000000 5) "owner-1" eq_refl eq_refl)
    as (s1 & H1 & _ & _ & _ & _ & H6).
  - simpl. lia.
  - exists s1. split; [exact H1 |]. apply H6; reflexivity.
Defined.

(** When the next year leaves the simulation the cycle only clears
    [isRunning], and repeating it changes nothing more. *)
Lemma cycle_complete_stops (st : State) (s : SimulationSettings) (u : string) :
  settings st = Some s -> user st = Some u ->
  total_years s < current_year s + decay_interval_years s ->
  let st' := processDecayEvent st in
  isRunning st' = false
  /\ settings st' = settings st
  /\ archive_items st' = archive_items st
  /\ decay_events st' = decay_events st
  /\ degradation_logs st' = degradation_logs st
  /\ alerts st' = alerts st
  /\ processDecayEvent st' = st'.
Proof.
  intros Hs Hu Hover. cbv zeta.
  rewrite (cycle_complete st s u Hs Hu Hover).
  cbn [isRunning settings archive_items decay_events degradation_logs alerts].
  repeat split.
  rewrite (cycle_complete _ s u); cbn [settings user]; auto.
  cbn [isRunning settings archive_items decay_events degradation_logs
       alerts user simulation_settings].
  f_equal. apply update_eq_idem; intros row; destruct row; reflexivity.
Qed.

(** C7: from year 0, with 60 years in steps of 2, the first 30 cycles each
    advance the year by 2, cut the capacity and append one decay event; the
    31st finds [newYear = 62 > 60], sets [isRunning] to false and leaves
    capacity, year, items, events, logs and alerts as they are, and so does
    every later step. *)
Theorem thirty_cycles (st : State) (s : SimulationSettings) (u : string) :
  settings st = Some s -> user st = Some u ->
  current_year s = 0 -> total_years s = 60 -> decay_interval_years s = 2 ->
  (forall k : nat, (k <= 30)%nat ->
     let stk := Nat.iter k processDecayEvent st in
     (exists sk, settings stk = Some sk
        /\ current_year sk = 2 * Z.of_nat k
        /\ current_capacity_kb sk =
             Nat.iter k (fun c => decayed_capacity c (decay_percent s))
               (current_capacity_kb s))
     /\ List.length (decay_events stk) = (List.length (decay_events st) + k)%nat
     /\ isRunning stk = isRunning st)
  /\ (let st30 := Nat.iter 30 processDecayEvent st in
      let st31 := processDecayEvent st30 in
      isRunning st31 = false
      /\ settings st31 = settings st30
      /\ archive_items st31 = archive_items st30
      /\ decay_events st31 = decay_events st30
      /\ degradation_logs st31 = degradation_logs st30
      /\ alerts st31 = alerts st30
      /\ processDecayEvent st31 = st31).
Proof.
  intros Hs Hu Hy Ht Hi.
  assert (Hpos : 0 <= decay_interval_years s) by lia.
  assert (Hrange : forall k : nat, (k <= 30)%nat ->
            current_year s + Z.of_nat k * decay_interval_years s <= total_years s)
    by (intros k Hk; rewrite Hy, Ht, Hi; lia).
  split.
  - intros k Hk.
    destruct (cycles_in_range st s u Hs Hu Hpos k (Hrange k Hk))
      as (Ks & _ & Kr & Ke).
    cbv zeta. repeat split; auto.
    eexists. split; [exact Ks |]. split; [| reflexivity].
    unfold set_year_capacity, current_year. rewrite Hi.
    fold (current_year s). rewrite Hy. lia.
  - pose proof (cycles_in_range st s u Hs Hu Hpos 30%nat (Hrange 30%nat (le_n _)))
      as K.
    cbv zeta in K. destruct K as (Ks & Ku & _ & _).
    generalize dependent (Nat.iter 30 processDecayEvent st).
    generalize (Nat.iter 30 (fun c => decayed_capacity c (decay_percent s))
                  (current_capacity_kb s)).
    intros c30 st30 Ks Ku. cbv zeta.
    apply (cycle_complete_stops st30 _ u Ks Ku).
    unfold set_year_capacity.
    cbn [total_years current_year decay_interval_years].
    rewrite Hy, Ht, Hi. lia.
Qed.

Lemma thirty_cycles_witness :
  isRunning (processDecayEvent (Nat.iter 30 processDecayEvent Scenario.running))
  = false.
Proof.
  exact (proj1 (proj2 (thirty_cycles Scenario.running
                         (Scenario.the_settings 0 1000000 5) "owner-1"
                         eq_refl eq_refl eq_refl eq_refl eq_refl))).
Defined.

(** ** The sort *)

Section StableSort.
Context {A : Type}.
Variable before : A -> A -> bool.

Lemma insert_perm (x : A) (l : list A) : Permutation (insert before x l) (x :: l).
Proof.
    induction l as [| y l IH]; simpl.
    - apply Permutation_refl.
    - destruct (before x y).
      + apply Permutation_refl.
      + eapply perm_trans; [apply perm_skip, IH | apply perm_swap].
Qed.

Lemma stable_sort_perm (l : list A) : Permutation (stable_sort before l) l.
Proof.
    induction l as [| x l IH]; simpl.
    - apply perm_nil.
    - eapply perm_trans; [apply insert_perm | apply perm_skip, IH].
Qed.

Lemma stable_sort_In (l : list A) (x : A) : In x (stable_sort before l) <-> In x l.
Proof.
    split; apply Permutation_in;
      [apply stable_sort_perm | apply Permutation_sym, stable_sort_perm].
Qed.

(** On elements where [before] is total and transitive the result is
      sorted. *)
Variable ok : A -> Prop.
Hypothesis before_total :
    forall x y, ok x -> ok y -> before x y = false -> before y x = true.
Hypothesis before_trans :
    forall x y z, ok x -> ok y -> ok z ->
      before x y = true -> before y z = true -> before x z = true.

Lemma insert_sorted (x : A) (l : list A) :
    ok x -> Forall ok l ->
    StronglySorted (fun a b => before a b = true) l ->
    StronglySorted (fun a b => before a b = true) (insert before x l).
Proof.
    intros Hx Hl Hs. induction Hs as [| y l Hs IH Hy]; simpl.
    - constructor; constructor.
    - inversion Hl as [| ? ? Hoky Hokl]; subst.
      destruct (before x y) eqn:E.
      + constructor; [constructor; assumption |].
        constructor; [exact E |].
        rewrite Forall_forall in Hy, Hokl. apply Forall_forall. intros z Hz.
        apply (before_trans x y z); auto.
      + constructor; [apply IH; assumption |].
        apply Forall_forall. intros z Hz.
        apply (Permutation_in _ (insert_perm x l)) in Hz.
        destruct Hz as [<- | Hz].
        * apply before_total; auto.
        * rewrite Forall_forall in Hy. auto.
Qed.

Lemma stable_sort_sorted (l : list A) :
    Forall ok l -> StronglySorted (fun a b => before a b = true) (stable_sort before l).
Proof.
    induction l as [| x l IH]; intro Hl; simpl.
    - constructor.
    - inversion Hl as [| ? ? Hx Hl']; subst. apply insert_sorted.
      + exact Hx.
      + apply Forall_forall. intros y Hy.
        apply (proj1 (stable_sort_In l y)) in Hy.
        rewrite Forall_forall in Hl'. apply Hl'. exact Hy.
      + apply IH. exact Hl'.
Qed.

(** Stability: a class of elements none of which moves in front of
      another keeps its order. *)
Lemma insert_filter (p : A -> bool) (x : A) (l : list A) :
    (forall y, In y l -> p x = true -> p y = true -> before x y = true) ->
    filter p (insert before x l) = filter p (x :: l).
Proof.
    induction l as [| y l IH]; intro H; simpl.
    - reflexivity.
    - destruct (before x y) eqn:E; simpl.
      + reflexivity.
      + rewrite IH by (intros; apply H; simpl; auto). simpl.
        destruct (p x) eqn:Px; [| reflexivity].
        destruct (p y) eqn:Py; [| reflexivity].
        rewrite H in E; simpl; auto. discriminate.
Qed.

Lemma stable_sort_filter (p : A -> bool) (l : list A) :
    (forall x y, In x l -> In y l -> p x = true -> p y = true ->
       before x y = true) ->
    filter p (stable_sort before l) = filter p l.
Proof.
    induction l as [| x l IH]; intro H; simpl.
    - reflexivity.
    - rewrite insert_filter.
      + simpl. rewrite IH by (intros; apply H; simpl; auto). reflexivity.
      + intros y Hy Px Py. apply (proj1 (stable_sort_In l y)) in Hy.
        apply H; simpl; auto.
Qed.
End StableSort.

(** ** The degradation loop *)

Lemma degraded_stage (item : ArchiveItem) :
  stage item <> DELETED ->
  stage_index (stage (degraded item)) = stage_index (stage item) + 1
  /\ forward_edge (stage item) (stage (degraded item))
       (current_size_kb item) (current_size_kb (degraded item)).
Proof.
  unfold degraded, next_degradation.
  destruct (stage item) eqn:E; simpl; intro H; try (split; reflexivity).
  contradiction.
Qed.

Lemma degraded_id (item : ArchiveItem) : id (degraded item) = id item.
Proof. unfold degraded. destruct (next_degradation _ _ _) as [[? ?] ?]. reflexivity. Qed.

Lemma degrade_item_deleted capacityAfter newYear ev (item : ArchiveItem) (l : Loop) :
  stage item = DELETED -> degrade_item capacityAfter newYear ev item l = l.
Proof.
  intro H. unfold degrade_item, next_degradation. rewrite H. reflexivity.
Qed.

Lemma degrade_item_spec capacityAfter newYear ev (item : ArchiveItem) (l : Loop) :
  stage item <> DELETED ->
  degrade_item capacityAfter newYear ev item l =
  {| currentStorage :=
       currentStorage l
       - (current_size_kb item - current_size_kb (degraded item));
     itemsAffected := itemsAffected l + 1;
     loop_items := apply_transition item (loop_items l);
     loop_logs :=
       loop_logs l
       ++ filter log_accepted [transition_log capacityAfter ev item l];
     loop_alerts :=
       loop_alerts l
       ++ alerts_of_log newYear (transition_log capacityAfter ev item l) |}.
Proof.
  intro H.
  unfold degrade_item, apply_transition, transition_log, alerts_of_log,
    log_accepted, degraded, next_degradation, score_or_0.
  destruct (stage item) eqn:E; try contradiction;
    cbn [stage_eqb log_semantic_score new_stage item_id item_title prev_stage
         log_storage_pressure log_reason stage current_size_kb snd filter];
    destruct (ge (or_else (semantic_score item) (of_Z 0)) (of_Z 80));
    destruct (numeric_6_2_accepts (pressure (currentStorage l) capacityAfter));
    cbn [orb]; rewrite ?app_nil_r; rewrite ?E; reflexivity.
Qed.

Lemma transition_log_records capacityAfter ev (item : ArchiveItem) (l : Loop) :
  records item (transition_log capacityAfter ev item l).
Proof. unfold records, transition_log. cbn. repeat split. Qed.

Definition storage_freed (items : list ArchiveItem) : Z :=
  fold_right (fun item sum =>
                (current_size_kb item - current_size_kb (degraded item)) + sum)
    0 items.

(** The loop processes a prefix of the sorted items: it sends one log entry
    for each of them, of which the table keeps those it accepts, raises the
    alerts that go with the entries sent, and rewrites their rows. *)
Lemma degrade_loop_spec capacityAfter newYear ev (items : list ArchiveItem) :
  Forall (fun item => stage item <> DELETED) items ->
  forall l : Loop,
  exists (k : nat) (logs : list DegradationLog),
    let l' := degrade_loop capacityAfter newYear ev items l in
    Forall2 records (firstn k items) logs
    /\ Forall (fun log => decay_event_id log = ev) logs
    /\ loop_logs l' = loop_logs l ++ filter log_accepted logs
    /\ loop_alerts l' = loop_alerts l ++ flat_map (alerts_of_log newYear) logs
    /\ loop_items l' =
         fold_left (fun table item => apply_transition item table)
           (firstn k items) (loop_items l)
    /\ itemsAffected l' = itemsAffected l + Z.of_nat (List.length logs)
    /\ currentStorage l' = currentStorage l - storage_freed (firstn k items)
    /\ (currentStorage l' <= capacityAfter \/ k = List.length items).
Proof.
  intro Hall. induction Hall as [| item items Hitem Hall IH]; intro l.
  - exists 0%nat, []. cbn. rewrite !app_nil_r. repeat split; auto; lia.
  - cbn [degrade_loop].
    destruct (currentStorage l <=? capacityAfter) eqn:Hc.
    + exists 0%nat, []. cbn. rewrite !app_nil_r.
      apply Z.leb_le in Hc. repeat split; auto; lia.
    + rewrite (degrade_item_spec capacityAfter newYear ev item l Hitem).
      pose proof (transition_log_records capacityAfter ev item l) as Hrec.
      assert (Hev : decay_event_id (transition_log capacityAfter ev item l) = ev)
        by reflexivity.
      set (log := transition_log capacityAfter ev item l) in *. clearbody log.
      destruct (IH {| currentStorage :=
                        currentStorage l
                        - (current_size_kb item - current_size_kb (degraded item));
                      itemsAffected := itemsAffected l + 1;
                      loop_items := apply_transition item (loop_items l);
                      loop_logs := loop_logs l ++ filter log_accepted [log];
                      loop_alerts := loop_alerts l ++ alerts_of_log newYear log |})
        as (k & logs & H1 & H2 & H3 & H4 & H5 & H6 & H7 & H8).
      exists (S k), (log :: logs). cbv zeta in *.
      cbn [loop_logs loop_alerts loop_items itemsAffected currentStorage] in *.
      repeat split.
      * cbn [firstn]. constructor; assumption.
      * constructor; assumption.
      * rewrite H3, <- app_assoc, <- filter_app. reflexivity.
      * rewrite H4, <- app_assoc. reflexivity.
      * rewrite H5. reflexivity.
      * rewrite H6. cbn [List.length]. lia.
      * rewrite H7. cbn [firstn storage_freed fold_right]. fold (storage_freed (firstn k items)). lia.
      * destruct H8 as [H8 | H8]; [left; exact H8 | right; cbn [List.length]; lia].
Qed.

Lemma select_items_In (table : list ArchiveItem) (item : ArchiveItem) :
  In item (select_items table) <-> In item table /\ stage item <> DELETED.
Proof.
  unfold select_items. rewrite stable_sort_In, filter_In.
  rewrite negb_true_iff, stage_eqb_neq. reflexivity.
Qed.

Lemma sortedItems_perm (items : list ArchiveItem) :
  Permutation (sortedItems items) items.
Proof. apply stable_sort_perm. Qed.

Lemma sortedItems_In (table : list ArchiveItem) (item : ArchiveItem) :
  In item (sortedItems (select_items table))
  <-> In item table /\ stage item <> DELETED.
Proof.
  rewrite <- select_items_In. unfold sortedItems, Array_sort.
  apply stable_sort_In.
Qed.

Lemma sortedItems_NoDup (table : list ArchiveItem) :
  NoDup (map id table) -> NoDup (map id (sortedItems (select_items table))).
Proof.
  intro H.
  apply (Permutation_NoDup
           (l := map id (filter (fun item => negb (stage_eqb (stage item) DELETED))
                           table))).
  - apply Permutation_map, Permutation_sym.
    eapply perm_trans; [apply sortedItems_perm |].
    unfold select_items. apply stable_sort_perm.
  - clear -H. induction table as [| x t IH]; simpl.
    + constructor.
    + inversion H as [| ? ? Hx Ht]; subst.
      destruct (negb (stage_eqb (stage x) DELETED)); simpl; auto.
      constructor; auto.
      intro Hin. apply Hx. apply in_map_iff in Hin.
      destruct Hin as (y & Hy & Hin). apply filter_In in Hin.
      apply in_map_iff. exists y. tauto.
Qed.

(** What a cycle that is not the last one does to items, logs and alerts:
    [logs] are the entries it sends, one for each item it degrades. *)
Lemma cycle_spec (st : State) (s : SimulationSettings) (u : string) :
  settings st = Some s -> user st = Some u ->
  current_year s + decay_interval_years s <= total_years s ->
  let st' := processDecayEvent st in
  let items := sortedItems (select_items (archive_items st)) in
  exists (k : nat) (logs : list DegradationLog) (system : list DecayAlert),
    Forall2 records (firstn k items) logs
    /\ degradation_logs st' = degradation_logs st ++ filter log_accepted logs
    /\ alerts st' =
         alerts st ++ system
         ++ flat_map (alerts_of_log (current_year s + decay_interval_years s)) logs
    /\ Forall (fun a => itemId a = None /\ alertType a = storage_pressure) system
    /\ archive_items st' =
         fold_left (fun table item => apply_transition item table)
           (firstn k items) (archive_items st).
Proof.
  intros Hs Hu Hin. cbv zeta.
  rewrite (cycle_logs st s u Hs Hu Hin), (cycle_alerts st s u Hs Hu Hin),
    (cycle_items st s u Hs Hu Hin).
  unfold degrade. cbn [currentStorage itemsAffected loop_items loop_logs loop_alerts].
  match goal with |- context [?a >? ?b] => destruct (a >? b) end.
  - match goal with
    | |- context [degrade_loop ?c ?y ?e ?i ?l0] =>
        destruct (degrade_loop_spec c y e i) with (l := l0)
          as (k & logs & H1 & _ & H3 & H4 & H5 & _)
    end.
    + apply Forall_forall. intros item Hi. apply sortedItems_In in Hi. tauto.
    + cbv zeta in *. exists k, logs.
      match goal with
      | |- context [if ?c then _ else _] => destruct c
      end;
        cbn [currentStorage itemsAffected loop_items loop_logs loop_alerts] in *.
      * eexists [_]. rewrite H3, H4, H5, <- app_assoc.
        repeat split; auto.
      * exists []. rewrite H3, H4, H5. repeat split; auto.
  - exists 0%nat, [], []. cbn. rewrite !app_nil_r. repeat split; auto.
Qed.

Lemma fold_left_sum (items : list ArchiveItem) (a : Z) :
  fold_left (fun sum item => sum + current_size_kb item) items a
  = a + total_size items.
Proof.
  revert a. induction items as [| x l IH]; intro a; simpl.
  - lia.
  - rewrite IH. lia.
Qed.

Lemma total_size_perm (l1 l2 : list ArchiveItem) :
  Permutation l1 l2 -> total_size l1 = total_size l2.
Proof.
  intro H. induction H; simpl; lia.
Qed.

Lemma storage_used_eq (table : list ArchiveItem) :
  storage_used table
  = total_size (filter (fun item => negb (stage_eqb (stage item) DELETED)) table).
Proof.
  unfold storage_used. rewrite fold_left_sum. simpl.
  apply total_size_perm. unfold select_items. apply stable_sort_perm.
Qed.

Lemma storage_used_sorted (table : list ArchiveItem) :
  storage_used table = total_size (sortedItems (select_items table)).
Proof.
  unfold storage_used. rewrite fold_left_sum. simpl.
  apply total_size_perm, Permutation_sym, sortedItems_perm.
Qed.

(** The loop stops at the first item before which the storage fits. *)
Lemma degrade_loop_stop capacityAfter newYear ev (items : list ArchiveItem) :
  Forall (fun item => stage item <> DELETED) items ->
  forall l : Loop,
  exists (k : nat) (logs : list DegradationLog),
    let l' := degrade_loop capacityAfter newYear ev items l in
    (k <= List.length items)%nat
    /\ Forall2 records (firstn k items) logs
    /\ Forall (fun log => decay_event_id log = ev) logs
    /\ loop_logs l' = loop_logs l ++ filter log_accepted logs
    /\ loop_alerts l' = loop_alerts l ++ flat_map (alerts_of_log newYear) logs
    /\ loop_items l' =
         fold_left (fun table item => apply_transition item table)
           (firstn k items) (loop_items l)
    /\ itemsAffected l' = itemsAffected l + Z.of_nat k
    /\ currentStorage l' = currentStorage l - storage_freed (firstn k items)
    /\ (currentStorage l' <= capacityAfter \/ k = List.length items)
    /\ (forall j : nat, (j < k)%nat ->
          capacityAfter < currentStorage l - storage_freed (firstn j items)).
Proof.
  intro Hall. induction Hall as [| item items Hitem Hall IH]; intro l.
  - exists 0%nat, []. cbn. rewrite !app_nil_r.
    repeat split; auto; try lia.
  - cbn [degrade_loop].
    destruct (currentStorage l <=? capacityAfter) eqn:Hc.
    + exists 0%nat, []. cbn. rewrite !app_nil_r.
      apply Z.leb_le in Hc. repeat split; auto; try lia.
    + rewrite (degrade_item_spec capacityAfter newYear ev item l Hitem).
      pose proof (transition_log_records capacityAfter ev item l) as Hrec.
      assert (Hev : decay_event_id (transition_log capacityAfter ev item l) = ev)
        by reflexivity.
      set (log := transition_log capacityAfter ev item l) in *. clearbody log.
      destruct (IH {| currentStorage :=
                        currentStorage l
                        - (current_size_kb item - current_size_kb (degraded item));
                      itemsAffected := itemsAffected l + 1;
                      loop_items := apply_transition item (loop_items l);
                      loop_logs := loop_logs l ++ filter log_accepted [log];
                      loop_alerts := loop_alerts l ++ alerts_of_log newYear log |})
        as (k & logs & H0 & H1 & H2 & H3 & H4 & H5 & H6 & H7 & H8 & H9).
      exists (S k), (log :: logs). cbv zeta in *.
      cbn [loop_logs loop_alerts loop_items itemsAffected currentStorage] in *.
      apply Z.leb_gt in Hc.
      repeat split.
      * cbn [List.length]. lia.
      * cbn [firstn]. constructor; assumption.
      * constructor; assumption.
      * rewrite H3, <- app_assoc, <- filter_app. reflexivity.
      * rewrite H4, <- app_assoc. reflexivity.
      * rewrite H5. reflexivity.
      * rewrite H6. lia.
      * rewrite H7. cbn [firstn storage_freed fold_right].
        fold (storage_freed (firstn k items)). lia.
      * destruct H8 as [H8 | H8]; [left; exact H8 | right; cbn [List.length]; lia].
      * intros [| j] Hj.
        -- cbn. lia.
        -- cbn [firstn storage_freed fold_right].
           fold (storage_freed (firstn j items)).
           specialize (H9 j). lia.
Qed.

Lemma fresh_event_id_new (table : list DecayEvent) :
  Forall (fun e => Nat.eqb (event_id e) (fresh_event_id table) = false) table.
Proof.
  unfold fresh_event_id.
  assert (H : Forall (fun k => (k <= list_max (map event_id table))%nat)
                (map event_id table)) by (apply list_max_le; lia).
  rewrite Forall_map in H. eapply Forall_impl; [| exact H].
  intros e He. apply Nat.eqb_neq. simpl in He. lia.
Qed.

(** What a cycle that is not the last one does, table by table: [logs] are
    the entries it sends, one for each of the [k] items it degrades. *)
Lemma cycle_full (st : State) (s : SimulationSettings) (u : string) :
  settings st = Some s -> user st = Some u ->
  current_year s + decay_interval_years s <= total_years s ->
  let st' := processDecayEvent st in
  let newYear := current_year s + decay_interval_years s in
  let capacityAfter := decayed_capacity (current_capacity_kb s) (decay_percent s) in
  let items := sortedItems (select_items (archive_items st)) in
  let ev := fresh_event_id (decay_events st) in
  exists (k : nat) (logs : list DegradationLog) (system : list DecayAlert),
    (k <= List.length items)%nat
    /\ Forall2 records (firstn k items) logs
    /\ Forall (fun log => decay_event_id log = ev) logs
    /\ degradation_logs st' = degradation_logs st ++ filter log_accepted logs
    /\ alerts st' = alerts st ++ system ++ flat_map (alerts_of_log newYear) logs
    /\ Forall (fun a => itemId a = None /\ alertType a = storage_pressure) system
    /\ archive_items st' =
         fold_left (fun table item => apply_transition item table)
           (firstn k items) (archive_items st)
    /\ decay_events st' =
         decay_events st ++
         [ {| event_id := ev;
              event_no := floor (div (of_Z newYear) (of_Z (decay_interval_years s)));
              simulated_year := newYear;
              capacity_before_kb := current_capacity_kb s;
              capacity_after_kb := capacityAfter;
              storage_before_kb := storage_used (archive_items st);
              storage_after_kb := storage_used (archive_items st);
              items_affected := 0 |} ]
    /\ (storage_used (archive_items st) - storage_freed (firstn k items)
        <= capacityAfter \/ k = List.length items)
    /\ (forall j : nat, (j < k)%nat ->
          capacityAfter
          < storage_used (archive_items st) - storage_freed (firstn j items)).
Proof.
  intros Hs Hu Hin. cbv zeta.
  rewrite (cycle_logs st s u Hs Hu Hin), (cycle_alerts st s u Hs Hu Hin),
    (cycle_items st s u Hs Hu Hin).
  assert (Hev : decay_events (processDecayEvent st) =
    decay_events st ++
    [ {| event_id := fresh_event_id (decay_events st);
         event_no := floor (div (of_Z (current_year s + decay_interval_years s))
                                (of_Z (decay_interval_years s)));
         simulated_year := current_year s + decay_interval_years s;
         capacity_before_kb := current_capacity_kb s;
         capacity_after_kb :=
           decayed_capacity (current_capacity_kb s) (decay_percent s);
         storage_before_kb := storage_used (archive_items st);
         storage_after_kb := storage_used (archive_items st);
         items_affected := 0 |} ]).
  { unfold processDecayEvent. rewrite Hs, Hu.
    replace (current_year s + decay_interval_years s >? total_years s) with false
      by (symmetry; rewrite Z.gtb_ltb; apply Z.ltb_ge; exact Hin).
    reflexivity. }
  rewrite Hev. clear Hev. cbv zeta.
  fold (storage_used (archive_items st)).
  unfold degrade. cbn [currentStorage itemsAffected loop_items loop_logs loop_alerts].
  destruct (storage_used (archive_items st)
            >? decayed_capacity (current_capacity_kb s) (decay_percent s)) eqn:Hgt.
  - match goal with
    | |- context [degrade_loop ?c ?y ?e ?i ?l0] =>
        destruct (degrade_loop_stop c y e i) with (l := l0)
          as (k & logs & H0 & H1 & H2 & H3 & H4 & H5 & H6 & H7 & H8 & H9)
    end.
    + apply Forall_forall. intros item Hi. apply sortedItems_In in Hi. tauto.
    + cbv zeta in *. exists k, logs.
      match goal with
      | |- context [if ?c then _ else _] => destruct c
      end;
        cbn [currentStorage itemsAffected loop_items loop_logs loop_alerts] in *.
      * eexists [_]. rewrite H7 in H8. rewrite H3, H4, H5, <- app_assoc.
        repeat split; auto.
      * exists []. rewrite H7 in H8. rewrite H3, H4, H5.
        repeat split; auto.
  - exists 0%nat, [], []. cbn. rewrite !app_nil_r.
    destruct (storage_used (archive_items st)
              >? decayed_capacity (current_capacity_kb s) (decay_percent s)) eqn:E;
      [discriminate |].
    assert (storage_used (archive_items st)
            <= decayed_capacity (current_capacity_kb s) (decay_percent s)).
    { destruct (Z.gtb_spec (storage_used (archive_items st))
                  (decayed_capacity (current_capacity_kb s) (decay_percent s)));
        [discriminate | lia]. }
    repeat split; auto; try lia.
Qed.

(** ** One stage per cycle *)

Lemma NoDup_id_inj (table : list ArchiveItem) (a b : ArchiveItem) :
  NoDup (map id table) -> In a table -> In b table -> id a = id b -> a = b.
Proof.
  induction table as [| x t IH]; simpl; intros Hn Ha Hb E; [contradiction |].
  inversion Hn as [| ? ? Hx Ht]; subst.
  destruct Ha as [<- | Ha], Hb as [<- | Hb]; auto.
  - exfalso. apply Hx. rewrite E. now apply in_map.
  - exfalso. apply Hx. rewrite <- E. now apply in_map.
Qed.

Lemma Forall2_map_r_In {A B : Type} (R R' : A -> B -> Prop) (g : B -> B)
    (l1 : list A) (l2 : list B) :
  Forall2 R l1 l2 ->
  (forall b a, In b l1 -> R b a -> R' b (g a)) ->
  Forall2 R' l1 (map g l2).
Proof.
  intro H. induction H as [| b a l1 l2 Hba H IH]; intro Hg; simpl.
  - constructor.
  - constructor.
    + apply Hg; simpl; auto.
    + apply IH. intros b' a' Hin. apply Hg. simpl; auto.
Qed.

Lemma apply_transition_self (item : ArchiveItem) :
  {| id := id item; title := title item;
     stage := stage (degraded item);
     current_size_kb := current_size_kb (degraded item);
     semantic_score := semantic_score item;
     val_reconstructability := val_reconstructability item |} = degraded item.
Proof.
  unfold degraded. destruct (next_degradation _ _ _) as [[? ?] ?]. reflexivity.
Qed.

(** After the rows of [processed] have been rewritten, each row of the table
    is either untouched or the degraded form of what it was. *)
Lemma transitions_table (table : list ArchiveItem) :
  NoDup (map id table) ->
  forall processed : list ArchiveItem,
    (forall item, In item processed -> In item table) ->
    NoDup (map id processed) ->
    Forall2 (fun before after =>
               (~ In before processed /\ after = before)
               \/ (In before processed /\ after = degraded before))
      table
      (fold_left (fun t item => apply_transition item t) processed table).
Proof.
  intros Hn processed. induction processed as [| x l IH] using rev_ind;
    intros Hin Hnd.
  - simpl. clear. induction table; constructor; auto.
  - rewrite fold_left_app. cbn [fold_left].
    rewrite map_app in Hnd. apply NoDup_remove in Hnd. cbn in Hnd.
    rewrite app_nil_r in Hnd. destruct Hnd as [Hnd Hx].
    assert (Hxt : In x table) by (apply Hin, in_or_app; simpl; auto).
    unfold apply_transition at 1, update_eq.
    eapply Forall2_map_r_In.
    + apply IH; [| exact Hnd]. intros item Hi. apply Hin, in_or_app. auto.
    + intros b a Hb [[Hnot ->] | [Hyes ->]].
      * destruct (String.eqb (id b) (id x)) eqn:E.
        -- apply String.eqb_eq in E.
           assert (b = x) by exact (NoDup_id_inj table b x Hn Hb Hxt E). subst b.
           right. split; [apply in_or_app; simpl; auto |].
           apply apply_transition_self.
        -- left. split; [| reflexivity].
           intro H. apply in_app_or in H. destruct H as [H | [H | []]]; auto.
           subst b. rewrite String.eqb_refl in E. discriminate.
      * rewrite degraded_id.
        destruct (String.eqb (id b) (id x)) eqn:E.
        -- apply String.eqb_eq in E. exfalso. apply Hx. rewrite <- E.
           now apply in_map.
        -- right. split; [apply in_or_app; auto | reflexivity].
Qed.

Lemma Forall2_same {A : Type} (R : A -> A -> Prop) (l : list A) :
  (forall x, R x x) -> Forall2 R l l.
Proof. intro H. induction l; constructor; auto. Qed.

Lemma firstn_In {A : Type} (k : nat) (l : list A) (x : A) :
  In x (firstn k l) -> In x l.
Proof.
  intro H. rewrite <- (firstn_skipn k l). apply in_or_app. auto.
Qed.

Lemma firstn_In_NoDup {A B : Type} (f : A -> B) (k : nat) (l : list A) :
  NoDup (map f l) -> NoDup (map f (firstn k l)).
Proof.
  intro H. rewrite <- (firstn_skipn k l), map_app in H.
  apply NoDup_app_remove_r in H. exact H.
Qed.

Lemma floor_1000_07 : floor (mul (of_Z 1000) (lit 7 1)) = 700.
Proof. vm_compute. reflexivity. Qed.

Lemma pressure_1000_500 : gt (pressure 1000 500) (of_Z 80) = true.
Proof. vm_compute. reflexivity. Qed.

(** C1: in one call of [processDecayEvent] no item advances by more than
    one stage; a single FULL item of 1000 KB and score 10, with 1000 KB
    stored against a new capacity of 500 KB, goes to COMPRESSED with 700 KB
    by exactly one transition, and stays there although 700 > 500. *)
Theorem single_pass_cap (st : State) :
  NoDup (map id (archive_items st)) ->
  Forall2 (fun before after =>
             id after = id before
             /\ stage_index (stage before) <= stage_index (stage after)
                <= stage_index (stage before) + 1)
    (archive_items st) (archive_items (processDecayEvent st))
  /\ (forall s u item,
        settings st = Some s -> user st = Some u ->
        current_year s + decay_interval_years s <= total_years s ->
        decayed_capacity (current_capacity_kb s) (decay_percent s) = 500 ->
        archive_items st = [item] ->
        stage item = FULL -> current_size_kb item = 1000 ->
        semantic_score item = Some (of_Z 10) ->
        exists after log,
          archive_items (processDecayEvent st) = [after]
          /\ id after = id item
          /\ stage after = COMPRESSED
          /\ current_size_kb after = 700
          /\ degradation_logs (processDecayEvent st) = degradation_logs st ++ [log]
          /\ item_id log = id item
          /\ prev_stage log = FULL /\ new_stage log = COMPRESSED
          /\ size_before_kb log = 1000 /\ size_after_kb log = 700
          /\ (exists s', settings (processDecayEvent st) = Some s'
                /\ current_capacity_kb s' < current_size_kb after)).
Proof.
  intro Hn. split.
  - destruct (settings st) as [s |] eqn:Hs;
      [| unfold processDecayEvent; rewrite Hs; apply Forall2_same; intro; split; [reflexivity | lia]].
    destruct (user st) as [u |] eqn:Hu;
      [| unfold processDecayEvent; rewrite Hs, Hu; apply Forall2_same; intro; split; [reflexivity | lia]].
    destruct (Z_lt_le_dec (total_years s)
                (current_year s + decay_interval_years s)) as [Hover | Hin].
    + rewrite (cycle_complete st s u Hs Hu Hover). simpl.
      apply Forall2_same. intro. split; [reflexivity | lia].
    + destruct (cycle_spec st s u Hs Hu Hin) as (k & logs & sys & _ & _ & _ & _ & H).
      rewrite H.
      eapply Forall2_impl;
        [| apply transitions_table;
           [ exact Hn
           | intros item Hi; apply firstn_In in Hi; apply sortedItems_In in Hi; tauto
           | apply firstn_In_NoDup, sortedItems_NoDup, Hn ] ].
      cbv beta. intros b a [[Hnot ->] | [Hyes ->]].
      * split; [reflexivity | lia].
      * apply firstn_In, sortedItems_In in Hyes. destruct Hyes as [_ Hd].
        destruct (degraded_stage b Hd) as [Hi _].
        rewrite degraded_id. split; [reflexivity | lia].
  - intros s u item Hs Hu Hin Hcap Hitems Hstage Hsize Hscore.
    rewrite (cycle_items st s u Hs Hu Hin), (cycle_logs st s u Hs Hu Hin),
      (cycle_settings st s u Hs Hu Hin).
    rewrite Hcap, Hitems.
    unfold select_items. cbn [filter]. rewrite Hstage. cbn [stage_eqb negb].
    cbn [stable_sort fold_right insert fold_left]. rewrite Hsize.
    unfold degrade. cbn [currentStorage]. cbn [Z.add Z.gtb Z.compare Pos.compare Pos.compare_cont].
    rewrite pressure_1000_500.
    unfold sortedItems, Array_sort. cbn [stable_sort fold_right insert].
    cbn [degrade_loop currentStorage Z.leb Z.compare Pos.compare Pos.compare_cont].
    assert (Hd : stage item <> DELETED) by (rewrite Hstage; discriminate).
    rewrite (degrade_item_spec _ _ _ item _ Hd).
    cbn [loop_items loop_logs apply_transition update_eq map].
    rewrite String.eqb_refl, apply_transition_self.
    assert (E : degraded item =
                {| id := id item; title := title item; stage := COMPRESSED;
                   current_size_kb := 700; semantic_score := semantic_score item;
                   val_reconstructability := val_reconstructability item |}).
    { unfold degraded, next_degradation. rewrite Hstage, Hsize, floor_1000_07.
      reflexivity. }
    eexists. eexists. split; [reflexivity |].
    split; [apply degraded_id |].
    split; [rewrite E; reflexivity |].
    split; [rewrite E; reflexivity |].
    split; [reflexivity |].
    unfold transition_log.
    cbn [item_id prev_stage new_stage size_before_kb size_after_kb].
    rewrite E, Hstage, Hsize. cbn [stage current_size_kb].
    repeat split.
    eexists. split; [reflexivity |]. cbn. lia.
Qed.

Lemma single_pass_cap_witness :
  exists after log,
    archive_items (processDecayEvent Scenario.one_item) = [after]
    /\ stage after = COMPRESSED /\ current_size_kb after = 700
    /\ degradation_logs (processDecayEvent Scenario.one_item) = [log]
    /\ new_stage log = COMPRESSED.
Proof.
  assert (Hn : NoDup (map id (archive_items Scenario.one_item))).
  { cbn. constructor; [intros [] | constructor]. }
  destruct (proj2 (single_pass_cap Scenario.one_item Hn)
              (Scenario.the_settings 0 1000 50) "owner-1"%string
              (Scenario.item "a" FULL 1000 (Some (of_Z 10)))
              eq_refl eq_refl)
    as (after & log & H1 & _ & H3 & H4 & H5 & _ & _ & H8 & _).
  - cbn. lia.
  - vm_compute. reflexivity.
  - reflexivity.
  - reflexivity.
  - reflexivity.
  - reflexivity.
  - exists after, log. repeat split; assumption.
Defined.

(** ** Transitions *)

Lemma Forall2_In_l {A B : Type} (R : A -> B -> Prop) (l1 : list A) (l2 : list B) :
  Forall2 R l1 l2 -> forall a, In a l1 -> exists b, In b l2 /\ R a b.
Proof.
  intro H. induction H as [| a b l1 l2 Hab H IH]; intros x Hx.
  - contradiction.
  - destruct Hx as [<- | Hx].
    + exists b. simpl; auto.
    + destruct (IH x Hx) as (y & Hy & Hxy). exists y. simpl; auto.
Qed.

Lemma Forall2_In_r {A B : Type} (R : A -> B -> Prop) (l1 : list A) (l2 : list B) :
  Forall2 R l1 l2 -> forall b, In b l2 -> exists a, In a l1 /\ R a b.
Proof.
  intro H. induction H as [| a b l1 l2 Hab H IH]; intros x Hx.
  - contradiction.
  - destruct Hx as [<- | Hx].
    + exists a. simpl; auto.
    + destruct (IH x Hx) as (y & Hy & Hxy). exists y. simpl; auto.
Qed.

(** What a call of [processDecayEvent] sends to the logs, whatever branch
    it takes, and what the table keeps of it. *)
Lemma processDecayEvent_logs (st : State) :
  exists (k : nat) (logs : list DegradationLog),
    let items := sortedItems (select_items (archive_items st)) in
    Forall2 records (firstn k items) logs
    /\ degradation_logs (processDecayEvent st)
       = degradation_logs st ++ filter log_accepted logs
    /\ archive_items (processDecayEvent st) =
         fold_left (fun table item => apply_transition item table)
           (firstn k items) (archive_items st).
Proof.
  assert (Hnone : processDecayEvent st = st \/
                  (archive_items (processDecayEvent st) = archive_items st
                   /\ degradation_logs (processDecayEvent st) = degradation_logs st)
                  -> exists (k : nat) (logs : list DegradationLog),
                       let items := sortedItems (select_items (archive_items st)) in
                       Forall2 records (firstn k items) logs
                       /\ degradation_logs (processDecayEvent st)
                          = degradation_logs st ++ filter log_accepted logs
                       /\ archive_items (processDecayEvent st) =
                            fold_left (fun table item => apply_transition item table)
                              (firstn k items) (archive_items st)).
  { intros [-> | [E1 E2]]; exists 0%nat, []; cbn; rewrite app_nil_r; auto. }
  destruct (settings st) as [s |] eqn:Hs;
    [| apply Hnone; left; unfold processDecayEvent; rewrite Hs; reflexivity].
  destruct (user st) as [u |] eqn:Hu;
    [| apply Hnone; left; unfold processDecayEvent; rewrite Hs, Hu; reflexivity].
  destruct (Z_lt_le_dec (total_years s)
              (current_year s + decay_interval_years s)) as [Hover | Hin].
  - apply Hnone. right. rewrite (cycle_complete st s u Hs Hu Hover). auto.
  - destruct (cycle_spec st s u Hs Hu Hin) as (k & logs & sys & H1 & H2 & _ & _ & H5).
    exists k, logs. auto.
Qed.

(** A cycle whose new capacity is below the stored size degrades the first
    item of the order. *)
Lemma cycle_first (st : State) (s : SimulationSettings) (u : string) :
  NoDup (map id (archive_items st)) ->
  settings st = Some s -> user st = Some u ->
  current_year s + decay_interval_years s <= total_years s ->
  decayed_capacity (current_capacity_kb s) (decay_percent s)
  < storage_used (archive_items st) ->
  forall first rest,
    sortedItems (select_items (archive_items st)) = first :: rest ->
    In first (archive_items st) /\ stage first <> DELETED
    /\ In (degraded first) (archive_items (processDecayEvent st)).
Proof.
  intros Hn Hs Hu Hin Hcap first rest E.
  assert (Hf : In first (archive_items st) /\ stage first <> DELETED).
  { apply sortedItems_In. rewrite E. left. reflexivity. }
  destruct Hf as [Hf Hd]. split; [exact Hf |]. split; [exact Hd |].
  destruct (cycle_full st s u Hs Hu Hin)
    as (k & logs & sys & _ & _ & _ & _ & _ & _ & H & _ & Hstop & _).
  cbv zeta in H, Hstop.
  assert (Hk : exists k', k = S k').
  { destruct k as [| k']; [| eauto]. exfalso. destruct Hstop as [Hstop | Hstop].
    - cbn in Hstop. lia.
    - rewrite E in Hstop. discriminate Hstop. }
  destruct Hk as [k' ->].
  assert (HT : Forall2 (fun before after =>
               (~ In before (firstn (S k') (sortedItems (select_items (archive_items st))))
                /\ after = before)
               \/ (In before (firstn (S k') (sortedItems (select_items (archive_items st))))
                   /\ after = degraded before))
             (archive_items st) (archive_items (processDecayEvent st))).
  { rewrite H. apply transitions_table.
    - exact Hn.
    - intros x Hx. apply firstn_In, sortedItems_In in Hx. tauto.
    - apply firstn_In_NoDup, sortedItems_NoDup, Hn. }
  destruct (Forall2_In_l _ _ _ HT first Hf) as (after & Hafter & [[Hnot _] | [_ ->]]).
  - exfalso. apply Hnot. rewrite E. left. reflexivity.
  - exact Hafter.
Qed.

(** C5: a cycle leaves a row of the table as it is or moves it exactly one
    stage forward on FULL, COMPRESSED, SUMMARIZED, MINIMAL, DELETED, the new
    size being the floor of the row's current size times 0.7, 0.3 or 0.1, or
    0 on deletion, and no row leaves DELETED; every log entry the cycle
    stores is such an edge, from the row before the cycle to the row after
    it; and a cycle whose new capacity is below the stored size does move
    the first item of the order along the edge of its stage. *)
Theorem one_stage_forward (st : State) :
  NoDup (map id (archive_items st)) ->
  Forall2 (fun before after =>
             after = before
             \/ (stage before <> DELETED
                 /\ id after = id before
                 /\ stage_index (stage after) = stage_index (stage before) + 1
                 /\ forward_edge (stage before) (stage after)
                      (current_size_kb before) (current_size_kb after)))
    (archive_items st) (archive_items (processDecayEvent st))
  /\ (exists logs : list DegradationLog,
        degradation_logs (processDecayEvent st) = degradation_logs st ++ logs
        /\ Forall (fun log =>
             stage_index (new_stage log) = stage_index (prev_stage log) + 1
             /\ prev_stage log <> DELETED
             /\ forward_edge (prev_stage log) (new_stage log)
                  (size_before_kb log) (size_after_kb log)
             /\ exists before after,
                  In before (archive_items st)
                  /\ In after (archive_items (processDecayEvent st))
                  /\ id before = item_id log /\ id after = item_id log
                  /\ stage before = prev_stage log
                  /\ current_size_kb before = size_before_kb log
                  /\ stage after = new_stage log
                  /\ current_size_kb after = size_after_kb log) logs)
  /\ (forall s u first rest,
        settings st = Some s -> user st = Some u ->
        current_year s + decay_interval_years s <= total_years s ->
        decayed_capacity (current_capacity_kb s) (decay_percent s)
        < storage_used (archive_items st) ->
        sortedItems (select_items (archive_items st)) = first :: rest ->
        exists after,
          In first (archive_items st)
          /\ In after (archive_items (processDecayEvent st))
          /\ id after = id first
          /\ stage_index (stage after) = stage_index (stage first) + 1
          /\ forward_edge (stage first) (stage after)
               (current_size_kb first) (current_size_kb after)).
Proof.
  intro Hn.
  destruct (processDecayEvent_logs st) as (k & logs & H1 & H2 & H3).
  cbv zeta in H1, H3.
  assert (HT : Forall2 (fun before after =>
               (~ In before (firstn k (sortedItems (select_items (archive_items st))))
                /\ after = before)
               \/ (In before (firstn k (sortedItems (select_items (archive_items st))))
                   /\ after = degraded before))
             (archive_items st) (archive_items (processDecayEvent st))).
  { rewrite H3. apply transitions_table.
    - exact Hn.
    - intros x Hx. apply firstn_In, sortedItems_In in Hx. tauto.
    - apply firstn_In_NoDup, sortedItems_NoDup, Hn. }
  split; [| split].
  - eapply Forall2_impl; [| exact HT]. cbv beta.
    intros b a [[_ ->] | [Hyes ->]]; [left; reflexivity | right].
    apply firstn_In, sortedItems_In in Hyes. destruct Hyes as [_ Hd].
    destruct (degraded_stage b Hd) as [Hidx Hedge].
    rewrite degraded_id. auto.
  - exists (filter log_accepted logs). split; [exact H2 |].
    apply Forall_forall. intros log Hlog. apply filter_In in Hlog.
    destruct Hlog as [Hlog _].
    destruct (Forall2_In_r _ _ _ H1 log Hlog) as (item & Hitem & Hrec).
    destruct Hrec as (R1 & R2 & R3 & R4 & R5 & R6 & R7).
    assert (Hsel : In item (archive_items st) /\ stage item <> DELETED)
      by (apply sortedItems_In; eapply firstn_In; exact Hitem).
    destruct Hsel as [Hin Hd].
    destruct (degraded_stage item Hd) as [Hidx Hedge].
    rewrite R3, R4, R5, R6.
    split; [exact Hidx |]. split; [exact Hd |]. split; [exact Hedge |].
    destruct (Forall2_In_l _ _ _ HT item Hin) as (after & Hafter & [[Hnot _] | [_ ->]]).
    + contradiction.
    + exists item, (degraded item). rewrite degraded_id. repeat split; auto.
  - intros s u first rest Hs Hu Hin Hcap E.
    destruct (cycle_first st s u Hn Hs Hu Hin Hcap first rest E) as (Hf & Hd & Ha).
    destruct (degraded_stage first Hd) as [Hidx Hedge].
    exists (degraded first). rewrite degraded_id. auto.
Qed.

Lemma one_stage_forward_witness :
  map (fun k =>
         map (fun row => (stage row, current_size_kb row))
           (archive_items (Nat.iter k processDecayEvent Scenario.small_capacity)))
    [0; 1; 2; 3; 4]%nat
  = [ [(FULL, 1000)]; [(COMPRESSED, 700)]; [(SUMMARIZED, 210)];
      [(MINIMAL, 21)]; [(DELETED, 0)] ]
  /\ map (fun log => (prev_stage log, new_stage log,
                      size_before_kb log, size_after_kb log))
       (degradation_logs (Nat.iter 4 processDecayEvent Scenario.small_capacity))
     = [ (FULL, COMPRESSED, 1000, 700); (COMPRESSED, SUMMARIZED, 700, 210);
         (SUMMARIZED, MINIMAL, 210, 21); (MINIMAL, DELETED, 21, 0) ]
  /\ exists after,
       In after (archive_items (processDecayEvent Scenario.small_capacity))
       /\ stage_index (stage after) = 1
       /\ forward_edge FULL (stage after) 1000 (current_size_kb after).
Proof.
  split; [vm_compute; reflexivity |]. split; [vm_compute; reflexivity |].
  assert (Hn : NoDup (map id (archive_items Scenario.small_capacity))).
  { cbn. constructor; [intros [] | constructor]. }
  destruct (proj2 (proj2 (one_stage_forward Scenario.small_capacity Hn))
              (Scenario.the_settings 0 100 50) "owner-1"%string
              (Scenario.item "a" FULL 1000 (Some (of_Z 10))) []
              eq_refl eq_refl)
    as (after & _ & H2 & _ & H4 & H5).
  - cbn. lia.
  - vm_compute. reflexivity.
  - vm_compute. reflexivity.
  - exists after. auto.
Defined.

(** ** Alerts *)







Lemma records_ids (items : list ArchiveItem) (logs : list DegradationLog) :
  Forall2 records items logs -> map item_id logs = map id items.
Proof.
  intro H. induction H as [| a b l1 l2 Hab H IH]; simpl; [reflexivity |].
  destruct Hab as (E & _). rewrite E, IH. reflexivity.
Qed.







(** ** The storage-pressure alert *)

(** Without pressure a cycle touches neither items, nor logs, nor alerts. *)
Lemma cycle_no_pressure (st : State) (s : SimulationSettings) (u : string) :
  settings st = Some s -> user st = Some u ->
  current_year s + decay_interval_years s <= total_years s ->
  fold_left (fun sum item => sum + current_size_kb item)
    (select_items (archive_items st)) 0
  <= decayed_capacity (current_capacity_kb s) (decay_percent s) ->
  archive_items (processDecayEvent st) = archive_items st
  /\ degradation_logs (processDecayEvent st) = degradation_logs st
  /\ alerts (processDecayEvent st) = alerts st.
Proof.
  intros Hs Hu Hin Hle.
  rewrite (cycle_logs st s u Hs Hu Hin), (cycle_alerts st s u Hs Hu Hin),
    (cycle_items st s u Hs Hu Hin).
  unfold degrade. cbn [currentStorage].
  match goal with |- context [?a >? ?b] => destruct (a >? b) eqn:E end.
  - apply Z.gtb_lt in E. lia.
  - auto.
Qed.

(** C9 fails on the code: with 900 KB stored against a new capacity of
    1000 KB the ratio is 0.9, above 0.8 and not above 1.0, and the cycle
    raises no alert at all; the test on 80% sits inside the block that runs
    only when the storage exceeds the capacity. *)
Lemma no_alert_at_ninety_percent :
  (exists s', settings (processDecayEvent Scenario.ninety_percent) = Some s'
      /\ current_capacity_kb s' = 1000)
  /\ fold_left (fun sum item => sum + current_size_kb item)
       (select_items (archive_items Scenario.ninety_percent)) 0 = 900
  /\ gt (div (of_Z 900) (of_Z 1000)) (lit 8 1) = true
  /\ gt (div (of_Z 900) (of_Z 1000)) (of_Z 1) = false
  /\ gt (pressure 900 1000) (of_Z 80) = true
  /\ alerts (processDecayEvent Scenario.ninety_percent) = [].
Proof.
  split; [eexists; split; vm_compute; reflexivity |].
  repeat split; vm_compute; reflexivity.
Qed.

(** ** The manual step *)

(** C4, as the code has it: [stepNextDecay] runs one decay cycle whatever
    [isRunning] is (one more decay event, the year advanced by the
    interval, the capacity cut); what keeps it from running beside the
    ticker is the Step button, which is disabled while [isRunning] is true
    and calls [stepNextDecay] otherwise. *)
Theorem step_forces_one_cycle (st : State) (s : SimulationSettings) (u : string) :
  settings st = Some s -> user st = Some u ->
  current_year s + decay_interval_years s <= total_years s ->
  stepNextDecay st = processDecayEvent st
  /\ (exists s',
        settings (stepNextDecay st) = Some s'
        /\ current_year s' = current_year s + decay_interval_years s
        /\ current_capacity_kb s' =
             decayed_capacity (current_capacity_kb s) (decay_percent s))
  /\ List.length (decay_events (stepNextDecay st))
     = S (List.length (decay_events st))
  /\ isRunning (stepNextDecay st) = isRunning st
  /\ SimulationControls.click_Step st
     = (if isRunning st then st else stepNextDecay st).
Proof.
  intros Hs Hu Hin. unfold stepNextDecay.
  split; [reflexivity |].
  split.
  - eexists. split; [exact (cycle_settings st s u Hs Hu Hin) |].
    split; reflexivity.
  - split; [exact (cycle_events st s u Hs Hu Hin) |].
    split; [exact (cycle_isRunning st s u Hs Hu Hin) |].
    reflexivity.
Qed.

Lemma step_forces_one_cycle_witness :
  isRunning Scenario.running = true
  /\ List.length (decay_events (stepNextDecay Scenario.running)) = 1%nat
  /\ SimulationControls.click_Step Scenario.running = Scenario.running.
Proof.
  destruct (step_forces_one_cycle Scenario.running
              (Scenario.the_settings 0 1000000 5) "owner-1" eq_refl eq_refl)
    as (_ & _ & He & _ & Hc).
  - cbn. lia.
  - split; [reflexivity |]. split; [exact He | exact Hc].
Defined.

(** C4 as stated does not hold: called while [isRunning] is true,
    [stepNextDecay] performs a decay cycle. *)
Lemma step_while_running :
  isRunning Scenario.running = true
  /\ decay_events Scenario.running = []
  /\ List.length (decay_events (stepNextDecay Scenario.running)) = 1%nat
  /\ option_map current_year (settings (stepNextDecay Scenario.running)) = Some 2
  /\ option_map current_capacity_kb (settings (stepNextDecay Scenario.running))
     = Some 950000.
Proof. repeat split; vm_compute; reflexivity. Qed.

(** ** Binary64 rounding *)

Lemma fexp_eq (x : Z) : fexp prec emax x = Z.max (x - 53) (-1074).
Proof. reflexivity. Qed.

Lemma digits2_size (m : positive) : digits2_pos m = Pos.size m.
Proof. induction m; simpl; congruence. Qed.

Lemma digits2_bounds (m : positive) :
  2 ^ (Zpos (digits2_pos m) - 1) <= Zpos m < 2 ^ Zpos (digits2_pos m).
Proof.
  rewrite digits2_size. split.
  - pose proof (Pos.size_le m) as H.
    assert (Zpos (2 ^ Pos.size m) <= Zpos m~0) by exact H.
    rewrite Pos2Z.inj_pow in H0.
    replace (Zpos (Pos.size m)) with (Zpos (Pos.size m) - 1 + 1) in H0 by lia.
    rewrite Z.pow_add_r in H0 by lia. lia.
  - pose proof (Pos.size_gt m) as H.
    assert (Zpos m < Zpos (2 ^ Pos.size m)) by exact H.
    rewrite Pos2Z.inj_pow in H0. exact H0.
Qed.

Lemma digits2_unique (m : positive) (k : Z) :
  2 ^ (k - 1) <= Zpos m < 2 ^ k -> Zpos (digits2_pos m) = k.
Proof.
  intros [H1 H2]. destruct (digits2_bounds m) as [D1 D2].
  assert (0 < k).
  { destruct (Z_lt_le_dec 0 k); auto.
    assert (2 ^ k <= 2 ^ 0) by (destruct (Z_lt_le_dec k 0);
      [rewrite Z.pow_neg_r by lia; simpl; lia | apply Z.pow_le_mono_r; lia]).
    simpl in H. lia. }
  destruct (Z_lt_le_dec (Zpos (digits2_pos m)) k).
  - assert (2 ^ Zpos (digits2_pos m) <= 2 ^ (k - 1))
      by (apply Z.pow_le_mono_r; lia). lia.
  - destruct (Z_lt_le_dec k (Zpos (digits2_pos m))); [| lia].
    assert (2 ^ k <= 2 ^ (Zpos (digits2_pos m) - 1))
      by (apply Z.pow_le_mono_r; lia). lia.
Qed.

Lemma shr_1_spec (mrs : shr_record) :
  0 <= shr_m mrs ->
  shr_m (shr_1 mrs) = shr_m mrs / 2
  /\ (inexact (shr_1 mrs) = false <-> inexact mrs = false /\ shr_m mrs mod 2 = 0).
Proof.
  destruct mrs as [m r s]. unfold inexact. cbn [shr_m shr_r shr_s shr_1].
  intro Hm. destruct m as [| p | p]; [| | lia].
  - cbn. split; [reflexivity |]. tauto.
  - destruct p as [p | p |]; cbn [shr_m shr_r shr_s].
    + split; [rewrite Pos2Z.inj_xI, Z.mul_comm, Z.div_add_l by lia; reflexivity |].
      cbn [orb]. split; [discriminate |]. intros [_ H].
      rewrite Pos2Z.inj_xI, Z.add_comm, Z.mul_comm, Z.mod_add in H by lia.
      discriminate.
    + split; [rewrite Pos2Z.inj_xO, Z.mul_comm, Z.div_mul by lia; reflexivity |].
      cbn [orb]. split.
      * intro H. split; [exact H |].
        rewrite Pos2Z.inj_xO, Z.mul_comm. apply Z.mod_mul. lia.
      * tauto.
    + split; [reflexivity |]. cbn. split; [discriminate | intros [_ H]; discriminate].
Qed.

Lemma shr_m_nonneg_1 (mrs : shr_record) : 0 <= shr_m mrs -> 0 <= shr_m (shr_1 mrs).
Proof.
  intro H. rewrite (proj1 (shr_1_spec mrs H)). apply Z.div_pos; lia.
Qed.

Lemma mod_mul_split (m a b : Z) :
  0 < a -> 0 < b ->
  (m mod (a * b) = 0 <-> m mod a = 0 /\ (m / a) mod b = 0).
Proof.
  intros Ha Hb. split.
  - intro H. apply Z.mod_divide in H; [| lia]. destruct H as [q ->].
    replace (q * (a * b)) with (q * b * a) by ring.
    rewrite Z.mod_mul, Z.div_mul by lia. split; [reflexivity |].
    apply Z.mod_mul. lia.
  - intros [H1 H2].
    apply Z.mod_divide in H1; [| lia]. destruct H1 as [q ->].
    rewrite Z.div_mul in H2 by lia.
    apply Z.mod_divide in H2; [| lia]. destruct H2 as [q' ->].
    apply Z.mod_divide; [lia |]. exists q'. ring.
Qed.

Lemma iter_shr_spec (p : positive) :
  forall mrs : shr_record,
    0 <= shr_m mrs ->
    shr_m (iter_pos shr_1 p mrs) = shr_m mrs / 2 ^ Zpos p
    /\ (inexact (iter_pos shr_1 p mrs) = false <->
        inexact mrs = false /\ shr_m mrs mod 2 ^ Zpos p = 0).
Proof.
  induction p as [p IH | p IH |]; intros mrs Hm; cbn [iter_pos].
  - destruct (shr_1_spec mrs Hm) as [A1 A2].
    assert (H1 : 0 <= shr_m (shr_1 mrs)) by (apply shr_m_nonneg_1; exact Hm).
    destruct (IH _ H1) as [B1 B2].
    assert (H2 : 0 <= shr_m (iter_pos shr_1 p (shr_1 mrs)))
      by (rewrite B1; apply Z.div_pos; lia).
    destruct (IH _ H2) as [C1 C2].
    assert (P : 0 < 2 ^ Zpos p) by (apply Z.pow_pos_nonneg; lia).
    assert (E : Zpos p~1 = 1 + (Zpos p + Zpos p)) by lia. rewrite E.
    rewrite !Z.pow_add_r, Z.pow_1_r by lia.
    split.
    + rewrite C1, B1, A1, !Z.div_div by lia. reflexivity.
    + rewrite C2, B2, A2, B1, A1.
      rewrite (mod_mul_split (shr_m mrs) 2 (2 ^ Zpos p * 2 ^ Zpos p)) by lia.
      rewrite (mod_mul_split (shr_m mrs / 2) (2 ^ Zpos p) (2 ^ Zpos p)) by lia.
      tauto.
  - destruct (IH _ Hm) as [B1 B2].
    assert (H2 : 0 <= shr_m (iter_pos shr_1 p mrs))
      by (rewrite B1; apply Z.div_pos; lia).
    destruct (IH _ H2) as [C1 C2].
    assert (P : 0 < 2 ^ Zpos p) by (apply Z.pow_pos_nonneg; lia).
    assert (E : Zpos p~0 = Zpos p + Zpos p) by lia. rewrite E.
    rewrite !Z.pow_add_r by lia.
    split.
    + rewrite C1, B1, !Z.div_div by lia. reflexivity.
    + rewrite C2, B2, B1.
      rewrite (mod_mul_split (shr_m mrs) (2 ^ Zpos p) (2 ^ Zpos p)) by lia.
      tauto.
  - change (2 ^ 1) with 2. apply shr_1_spec. exact Hm.
Qed.

Lemma shr_exact_spec (m e n : Z) :
  0 <= m -> 0 <= n ->
  exists mrs,
    shr (Build_shr_record m false false) e n = (mrs, e + n)
    /\ shr_m mrs = m / 2 ^ n
    /\ (inexact mrs = false <-> m mod 2 ^ n = 0).
Proof.
  intros Hm Hn. destruct n as [| p | p]; [| | lia].
  - eexists. cbn [shr]. rewrite Z.add_0_r. split; [reflexivity |].
    cbn [shr_m]. rewrite Z.pow_0_r, Z.div_1_r, Z.mod_1_r.
    split; [reflexivity |]. unfold inexact. cbn. tauto.
  - eexists. cbn [shr]. split; [reflexivity |].
    destruct (iter_shr_spec p (Build_shr_record m false false) Hm) as [A B].
    cbn [shr_m] in A, B. split; [exact A |].
    rewrite B. unfold inexact. cbn. tauto.
Qed.

Lemma rne_spec (mrs : shr_record) :
  let q := round_nearest_even (shr_m mrs) (loc_of_shr_record mrs) in
  shr_m mrs <= q <= shr_m mrs + 1 /\ (inexact mrs = false -> q = shr_m mrs).
Proof.
  destruct mrs as [m r s]. unfold inexact.
  destruct r, s; cbn; try destruct (Z.even m); split; try lia; discriminate.
Qed.

Lemma pow2_53 : 2 ^ 53 = 9007199254740992.
Proof. reflexivity. Qed.

Lemma pow2_52 : 2 ^ 52 = 4503599627370496.
Proof. reflexivity. Qed.

Lemma binary_round_aux_spec (sx : bool) (m : positive) (e : Z) :
  let f := fexp prec emax (Zpos (digits2_pos m) + e) in
  e <= f ->
  exists q,
    Zpos m / 2 ^ (f - e) <= q <= Zpos m / 2 ^ (f - e) + 1
    /\ (Zpos m mod 2 ^ (f - e) = 0 -> q = Zpos m / 2 ^ (f - e))
    /\ q <= 9007199254740992
    /\ (f = -1074 \/ 4503599627370496 <= q)
    /\ binary_round_aux prec emax sx (Zpos m) e loc_Exact = round_result sx q f.
Proof.
  intros f Hf.
  destruct (digits2_bounds m) as [D1 D2].
  assert (Ef : fexp prec emax (Zpos (digits2_pos m) + e) = f) by reflexivity.
  assert (Hfd : f = Z.max (Zpos (digits2_pos m) + e - 53) (-1074)) by reflexivity.
  clearbody f.
  remember (Zpos (digits2_pos m)) as d eqn:Ed.
  remember (f - e) as n eqn:En.
  assert (Hn : 0 <= n) by lia.
  assert (P : 0 < 2 ^ n) by (apply Z.pow_pos_nonneg; lia).
  (* bounds on the shifted mantissa *)
  assert (Hq2 : Zpos m / 2 ^ n < 2 ^ 53).
  { apply Z.div_lt_upper_bound; [exact P |].
    rewrite <- Z.pow_add_r by lia.
    assert (2 ^ d <= 2 ^ (n + 53)) by (apply Z.pow_le_mono_r; lia). lia. }
  assert (Hq3 : f = -1074 \/ 2 ^ 52 <= Zpos m / 2 ^ n).
  { destruct (Z.eq_dec f (-1074)) as [E | E]; [left; exact E | right].
    assert (En' : n = d - 53) by lia.
    apply Z.div_le_lower_bound; [exact P |].
    rewrite <- Z.pow_add_r by lia. replace (n + 52) with (d - 1) by lia. lia. }
  rewrite pow2_53 in Hq2. rewrite pow2_52 in Hq3.
  unfold binary_round_aux, shr_fexp. cbn [Zdigits2]. rewrite <- Ed, Ef, <- En.
  change (shr_record_of_loc (Zpos m) loc_Exact)
    with (Build_shr_record (Zpos m) false false).
  destruct (shr_exact_spec (Zpos m) e n) as (mrs & E1 & E2 & E3); [lia | lia |].
  rewrite E1. replace (e + n) with f by lia.
  destruct (rne_spec mrs) as [R1 R2]. cbv zeta in R1, R2.
  set (q := round_nearest_even (shr_m mrs) (loc_of_shr_record mrs)) in *.
  rewrite E2 in R1, R2.
  exists q. split; [exact R1 |].
  split; [intro H; apply R2, E3, H |].
  split; [lia |]. split; [lia |].
  assert (Hq0 : 0 <= Zpos m / 2 ^ n) by (apply Z.div_pos; lia).
  destruct q as [| p | p] eqn:Eq; [| | lia].
  - (* the mantissa is rounded to zero *)
    cbn [Zdigits2 Z.add]. unfold shr_record_of_loc.
    assert (Hz : fexp prec emax f - f <= 0) by (rewrite fexp_eq; lia).
    destruct (fexp prec emax f - f) as [| z | z]; [| lia |];
      cbn [shr shr_m round_result]; reflexivity.
  - cbn [Zdigits2]. unfold shr_record_of_loc.
    destruct (digits2_bounds p) as [P1 P2].
    remember (Zpos (digits2_pos p)) as d' eqn:Ed'.
    cbn [round_result]. rewrite fexp_eq.
    destruct (Z.ltb_spec (Zpos p) 9007199254740992) as [Hlt | Hge].
    + (* no carry *)
      assert (Hd' : d' <= 53).
      { destruct (Z_le_gt_dec d' 53); [assumption |].
        assert (2 ^ 53 <= 2 ^ (d' - 1)) by (apply Z.pow_le_mono_r; lia).
        rewrite pow2_53 in H. lia. }
      assert (Hz : Z.max (d' + f - 53) (-1074) - f = 0).
      { destruct Hq3 as [Hq3 | Hq3]; [lia |].
        assert (53 <= d').
        { destruct (Z_le_gt_dec 53 d'); [assumption |].
          assert (2 ^ d' <= 2 ^ 52) by (apply Z.pow_le_mono_r; lia).
          rewrite pow2_52 in H. lia. }
        lia. }
      rewrite Hz. cbn [shr shr_m]. change (emax - prec) with 971. reflexivity.
    + (* the mantissa is 2^53 *)
      assert (Ep : Zpos p = 9007199254740992) by lia.
      assert (Hd' : d' = 54).
      { rewrite Ed'. apply digits2_unique. rewrite Ep. split; reflexivity. }
      assert (Hz : Z.max (d' + f - 53) (-1074) - f = 1) by lia.
      rewrite Hz. injection Ep as ->.
      cbn [shr iter_pos shr_1 shr_m].
      change (emax - prec) with 971. reflexivity.
Qed.

Lemma bounded_spec (m : positive) (e : Z) :
  bounded prec emax m e = true <->
  Z.max (Zpos (digits2_pos m) + e - 53) (-1074) = e /\ e <= 971.
Proof.
  unfold bounded, canonical_mantissa. rewrite fexp_eq.
  change (emax - prec) with 971.
  rewrite andb_true_iff, Z.eqb_eq, Z.leb_le. reflexivity.
Qed.

Lemma scaled_shift (L m e k : Z) :
  L <= e -> 0 <= k -> scaled L m (e + k) = scaled L (m * 2 ^ k) e.
Proof.
  intros H1 H2. unfold scaled.
  replace (e + k - L) with (k + (e - L)) by lia.
  rewrite Z.pow_add_r by lia. ring.
Qed.

Lemma scaled_pos (L : Z) (m : positive) (e : Z) : L <= e -> 0 < scaled L (Zpos m) e.
Proof.
  intro H. unfold scaled. apply Z.mul_pos_pos; [lia |].
  apply Z.pow_pos_nonneg; lia.
Qed.

Lemma scaled_digits (L : Z) (m : positive) (e : Z) :
  L <= e ->
  2 ^ (Zpos (digits2_pos m) - 1 + e - L) <= scaled L (Zpos m) e
  < 2 ^ (Zpos (digits2_pos m) + e - L).
Proof.
  intro H. destruct (digits2_bounds m) as [D1 D2]. unfold scaled.
  assert (P : 0 < 2 ^ (e - L)) by (apply Z.pow_pos_nonneg; lia).
  replace (Zpos (digits2_pos m) - 1 + e - L)
    with ((Zpos (digits2_pos m) - 1) + (e - L)) by lia.
  replace (Zpos (digits2_pos m) + e - L)
    with (Zpos (digits2_pos m) + (e - L)) by lia.
  rewrite !Z.pow_add_r by lia. split.
  - apply Z.mul_le_mono_nonneg_r; lia.
  - apply Z.mul_lt_mono_pos_r; lia.
Qed.

(** On canonical doubles the order of the values is the order on
    (exponent, mantissa). *)
Lemma canonical_compare (L : Z) (m1 : positive) (e1 : Z) (m2 : positive) (e2 : Z) :
  bounded prec emax m1 e1 = true -> bounded prec emax m2 e2 = true ->
  L <= e1 -> L <= e2 ->
  Z.compare (scaled L (Zpos m1) e1) (scaled L (Zpos m2) e2)
  = match Z.compare e1 e2 with
    | Eq => Pos.compare m1 m2
    | c => c
    end.
Proof.
  assert (Hlt : forall a ea b eb,
            bounded prec emax a ea = true -> bounded prec emax b eb = true ->
            L <= ea -> ea < eb ->
            scaled L (Zpos a) ea < scaled L (Zpos b) eb).
  { intros a ea b eb Ha Hb HL Hlt.
    apply bounded_spec in Ha, Hb. destruct Ha as [Ha _], Hb as [Hb _].
    destruct (scaled_digits L a ea HL) as [_ A2].
    destruct (scaled_digits L b eb) as [B1 _]; [lia |].
    assert (2 ^ (Zpos (digits2_pos a) + ea - L)
            <= 2 ^ (Zpos (digits2_pos b) - 1 + eb - L))
      by (apply Z.pow_le_mono_r; lia).
    lia. }
  intros H1 H2 L1 L2.
  destruct (Z.compare_spec e1 e2) as [E | E | E].
  - subst e2. unfold scaled.
    assert (P : 0 < 2 ^ (e1 - L)) by (apply Z.pow_pos_nonneg; lia).
    rewrite Pos2Z.inj_compare.
    destruct (Z.compare_spec (Zpos m1) (Zpos m2)) as [C | C | C].
    + rewrite C. apply Z.compare_refl.
    + apply Z.compare_lt_iff. apply Z.mul_lt_mono_pos_r; lia.
    + apply Z.compare_gt_iff. apply Z.mul_lt_mono_pos_r; lia.
  - apply Z.compare_lt_iff. apply Hlt; auto.
  - apply Z.compare_gt_iff. apply Hlt; auto.
Qed.

(** Rounding a value that is not above a double gives a result that is
    not above that double. *)
Lemma binary_round_aux_le (L : Z) (m : positive) (e : Z) (mB : positive) (eB : Z) :
  L <= e -> L <= eB ->
  bounded prec emax mB eB = true ->
  e <= fexp prec emax (Zpos (digits2_pos m) + e) ->
  scaled L (Zpos m) e <= scaled L (Zpos mB) eB ->
  at_most L (binary_round_aux prec emax false (Zpos m) e loc_Exact) mB eB.
Proof.
  intros HL HLB HB Hf HV.
  destruct (binary_round_aux_spec false m e Hf) as (q & Q1 & Q2 & Q3 & Q4 & ->).
  rewrite fexp_eq in *.
  destruct (digits2_bounds m) as [D1 D2].
  destruct (digits2_bounds mB) as [DB1 DB2].
  destruct (scaled_digits L m e HL) as [S1 _].
  destruct (scaled_digits L mB eB HLB) as [_ S2].
  apply bounded_spec in HB. destruct HB as [HB1 HB2].
  remember (Zpos (digits2_pos m)) as d eqn:Ed.
  remember (Zpos (digits2_pos mB)) as dB eqn:EdB.
  remember (Z.max (d + e - 53) (-1074)) as f eqn:Ef.
  assert (Hmag : d + e <= dB + eB).
  { destruct (Z_le_gt_dec (d + e) (dB + eB)); [assumption |].
    assert (2 ^ (dB + eB - L) <= 2 ^ (d - 1 + e - L))
      by (apply Z.pow_le_mono_r; lia).
    lia. }
  assert (HfB : f <= eB) by lia.
  set (n := f - e) in *.
  assert (Hn : 0 <= n) by (unfold n; lia).
  assert (P : 0 < 2 ^ n) by (apply Z.pow_pos_nonneg; lia).
  set (Bf := Zpos mB * 2 ^ (eB - f)).
  assert (PB : 0 < 2 ^ (eB - f)) by (apply Z.pow_pos_nonneg; lia).
  assert (HBf : scaled L (Zpos mB) eB = scaled L Bf f).
  { unfold Bf. rewrite <- scaled_shift by lia. f_equal. lia. }
  assert (Hm : Zpos m <= Bf * 2 ^ n).
  { assert (E : scaled L (Bf * 2 ^ n) e = scaled L Bf f).
    { rewrite <- scaled_shift by lia. f_equal. unfold n. lia. }
    rewrite HBf, <- E in HV. unfold scaled in HV.
    assert (0 < 2 ^ (e - L)) by (apply Z.pow_pos_nonneg; lia).
    apply Z.mul_le_mono_pos_r in HV; assumption. }
  assert (Hq : q <= Bf).
  { destruct (Z.eq_dec (Zpos m mod 2 ^ n) 0) as [Ex | Ex].
    - rewrite (Q2 Ex). apply Z.div_le_upper_bound; [exact P | lia].
    - assert (Zpos m / 2 ^ n < Bf); [| lia].
      apply Z.div_lt_upper_bound; [exact P |].
      destruct (Z.eq_dec (Zpos m) (Bf * 2 ^ n)) as [E | E]; [| lia].
      exfalso. apply Ex. rewrite E. apply Z.mod_mul. lia. }
  assert (HqV : scaled L q f <= scaled L (Zpos mB) eB).
  { rewrite HBf. unfold scaled.
    apply Z.mul_le_mono_nonneg_r; [| exact Hq].
    apply Z.pow_nonneg. lia. }
  assert (Hq0 : 0 <= Zpos m / 2 ^ n) by (apply Z.div_pos; lia).
  unfold at_most, round_result.
  destruct q as [| p | p]; [left; reflexivity | right | lia].
  destruct (Z.ltb_spec (Zpos p) 9007199254740992) as [Hlt | Hge].
  - replace (f <=? 971) with true by (symmetry; apply Z.leb_le; lia).
    exists p, f. split; [reflexivity |]. split; [| exact HqV].
    apply bounded_spec. split; [| lia].
    destruct (digits2_bounds p) as [P1 P2].
    remember (Zpos (digits2_pos p)) as d' eqn:Ed'.
    assert (Hd' : d' <= 53).
    { destruct (Z_le_gt_dec d' 53); [assumption |].
      assert (2 ^ 53 <= 2 ^ (d' - 1)) by (apply Z.pow_le_mono_r; lia).
      rewrite pow2_53 in H. lia. }
    destruct Q4 as [Q4 | Q4]; [lia |].
    assert (53 <= d').
    { destruct (Z_le_gt_dec 53 d'); [assumption |].
      assert (2 ^ d' <= 2 ^ 52) by (apply Z.pow_le_mono_r; lia).
      rewrite pow2_52 in H. lia. }
    lia.
  - assert (Ep : Zpos p = 9007199254740992) by lia.
    assert (HfB' : f < eB).
    { destruct (Z_lt_le_dec f eB); [assumption |].
      assert (E : eB - f = 0) by lia.
      unfold Bf in Hq. rewrite E, Z.pow_0_r, Z.mul_1_r in Hq.
      assert (2 ^ dB <= 2 ^ 53) by (apply Z.pow_le_mono_r; lia).
      rewrite pow2_53 in H. lia. }
    replace (f + 1 <=? 971) with true by (symmetry; apply Z.leb_le; lia).
    exists 4503599627370496%positive, (f + 1). split; [reflexivity |].
    split.
    + apply bounded_spec.
      change (Zpos (digits2_pos 4503599627370496)) with 53. lia.
    + assert (E : scaled L 4503599627370496 (f + 1) = scaled L (Zpos p) f).
      { rewrite scaled_shift by lia. rewrite Ep. reflexivity. }
      rewrite E. exact HqV.
Qed.

(** ** Alignment, addition and subtraction *)

Lemma iter_xO_value (m d : positive) :
  Zpos (Pos.iter xO m d) = Zpos m * 2 ^ Zpos d.
Proof.
  induction d as [| d IH] using Pos.peano_ind.
  - cbn [Pos.iter]. rewrite Z.pow_1_r. lia.
  - rewrite Pos.iter_succ, Pos2Z.inj_xO, IH, Pos2Z.inj_succ, Z.pow_succ_r by lia.
    ring.
Qed.

Lemma iter_xO_digits (m d : positive) :
  Zpos (digits2_pos (Pos.iter xO m d)) = Zpos (digits2_pos m) + Zpos d.
Proof.
  induction d as [| d IH] using Pos.peano_ind.
  - cbn [Pos.iter digits2_pos]. lia.
  - rewrite Pos.iter_succ. cbn [digits2_pos]. rewrite Pos2Z.inj_succ, IH. lia.
Qed.

Lemma shl_align_spec (mx : positive) (ex ex' : Z) :
  snd (shl_align mx ex ex') = Z.min ex ex'
  /\ Zpos (fst (shl_align mx ex ex')) = Zpos mx * 2 ^ (ex - Z.min ex ex')
  /\ Zpos (digits2_pos (fst (shl_align mx ex ex'))) + Z.min ex ex'
     = Zpos (digits2_pos mx) + ex.
Proof.
  unfold shl_align. destruct (ex' - ex) as [| d | d] eqn:E; cbn [fst snd].
  - replace (Z.min ex ex') with ex by lia.
    rewrite Z.sub_diag, Z.pow_0_r. lia.
  - replace (Z.min ex ex') with ex by lia.
    rewrite Z.sub_diag, Z.pow_0_r. lia.
  - replace (Z.min ex ex') with ex' by lia.
    rewrite iter_xO_value, iter_xO_digits.
    replace (ex - ex') with (Zpos d) by lia. lia.
Qed.

(** [binary_round] first aligns its argument, so that
    [binary_round_aux_spec] applies. *)
Lemma binary_round_aligned (sx : bool) (p : positive) (e : Z) :
  exists (mz : positive) (ez : Z),
    binary_round prec emax sx p e
    = binary_round_aux prec emax sx (Zpos mz) ez loc_Exact
    /\ ez = Z.min e (fexp prec emax (Zpos (digits2_pos p) + e))
    /\ ez <= fexp prec emax (Zpos (digits2_pos mz) + ez)
    /\ Zpos mz = Zpos p * 2 ^ (e - ez).
Proof.
  unfold binary_round.
  destruct (shl_align_spec p e (fexp prec emax (Zpos (digits2_pos p) + e)))
    as (A1 & A2 & A3).
  destruct (shl_align p e (fexp prec emax (Zpos (digits2_pos p) + e)))
    as [mz ez]. cbn [fst snd] in *.
  exists mz, ez. split; [reflexivity |]. split; [exact A1 |].
  split; [| rewrite A1; exact A2].
  rewrite A1 at 2. rewrite A3. lia.
Qed.

Lemma binary_round_le (L : Z) (p : positive) (e : Z) (mB : positive) (eB : Z) :
  L <= e -> L <= -1074 -> L <= eB ->
  bounded prec emax mB eB = true ->
  scaled L (Zpos p) e <= scaled L (Zpos mB) eB ->
  at_most L (binary_round prec emax false p e) mB eB.
Proof.
  intros H1 H2 H3 HB HV.
  destruct (binary_round_aligned false p e) as (mz & ez & -> & E1 & E2 & E3).
  assert (Hf : -1074 <= fexp prec emax (Zpos (digits2_pos p) + e))
    by (rewrite fexp_eq; lia).
  apply binary_round_aux_le; auto; try lia.
  assert (E : scaled L (Zpos mz) ez = scaled L (Zpos p) e).
  { rewrite E3, <- scaled_shift by lia. f_equal. lia. }
  rewrite E. exact HV.
Qed.

(** Above the smallest exponent rounding never gives zero. *)
Lemma binary_round_nonzero (sx : bool) (p : positive) (e : Z) :
  -1074 <= e ->
  exists q f, 0 < q /\ binary_round prec emax sx p e = round_result sx q f.
Proof.
  intro He.
  destruct (binary_round_aligned sx p e) as (mz & ez & -> & E1 & E2 & E3).
  destruct (binary_round_aux_spec sx mz ez E2) as (q & Q1 & _ & _ & Q4 & ->).
  exists q. eexists. split; [| reflexivity].
  destruct Q4 as [Q4 | Q4]; [| lia].
  rewrite fexp_eq in E1, E2, Q4, Q1.
  assert (Hz : ez = -1074) by lia.
  rewrite Q4, Hz, Z.sub_diag, Z.pow_0_r, Z.div_1_r in Q1. lia.
Qed.

Lemma of_Z_0 : of_Z 0 = S754_zero false.
Proof. vm_compute. reflexivity. Qed.

Lemma sub_eq (x y : number) : sub x y = SFsub prec emax x y.
Proof. with_strategy transparent [sub] reflexivity. Qed.

Lemma add_eq (x y : number) : add x y = SFadd prec emax x y.
Proof. with_strategy transparent [add] reflexivity. Qed.

Lemma mul_eq (x y : number) : mul x y = SFmul prec emax x y.
Proof. with_strategy transparent [mul] reflexivity. Qed.

Lemma gt_round_result (sx : bool) (q f : Z) :
  0 < q -> gt (round_result sx q f) (S754_zero false) = negb sx.
Proof.
  intro H. unfold round_result, gt, SFltb.
  destruct q as [| p | p]; try lia.
  destruct (Zpos p <? 9007199254740992);
    [destruct (f <=? 971) | destruct (f + 1 <=? 971)];
    destruct sx; reflexivity.
Qed.

(** The sign of a difference of two doubles is the outcome of their
    comparison: the comparator of the sort is positive exactly when its
    first argument is the larger one. *)
Lemma sub_positive (x y : number) :
  regular x = true -> regular y = true ->
  gt (sub x y) (of_Z 0) = true <-> SFcompare x y = Some Gt.
Proof.
  unfold regular. rewrite of_Z_0, sub_eq.
  intros Hx Hy.
  destruct x as [sx | sx | | sx mx ex]; try discriminate Hx;
    destruct y as [sy | sy | | sy my ey]; try discriminate Hy;
    cbn [isNaN negb andb valid_binary] in Hx, Hy;
    try (destruct sx; destruct sy; unfold gt, SFltb; cbn;
         split; intro H; try reflexivity; discriminate H);
    try (destruct sx; unfold gt, SFltb; cbn;
         split; intro H; try reflexivity; discriminate H);
    try (destruct sy; unfold gt, SFltb; cbn;
         split; intro H; try reflexivity; discriminate H).
  cbn [SFsub].
  set (ez := Z.min ex ey).
  destruct (shl_align_spec mx ex ez) as (_ & A2 & _).
  destruct (shl_align_spec my ey ez) as (_ & B2 & _).
  replace (Z.min ex ez) with ez in A2 by (unfold ez; lia).
  replace (Z.min ey ez) with ez in B2 by (unfold ez; lia).
  rewrite A2, B2.
  assert (Hez : -1074 <= ez).
  { apply bounded_spec in Hx, Hy. unfold ez. lia. }
  set (A := Zpos mx * 2 ^ (ex - ez)) in *.
  set (B := Zpos my * 2 ^ (ey - ez)) in *.
  assert (HA : 0 < A) by (apply (scaled_pos ez mx ex); unfold ez; lia).
  assert (HB : 0 < B) by (apply (scaled_pos ez my ey); unfold ez; lia).
  assert (Hsign : forall D : Z,
            gt (binary_normalize prec emax D ez false) (S754_zero false) = true
            <-> 0 < D).
  { intro D. unfold binary_normalize. destruct D as [| p | p].
    - cbn. split; [discriminate | lia].
    - destruct (binary_round_nonzero false p ez Hez) as (q & f & Hq & ->).
      rewrite gt_round_result by exact Hq. cbn. split; [lia | reflexivity].
    - destruct (binary_round_nonzero true p ez Hez) as (q & f & Hq & ->).
      rewrite gt_round_result by exact Hq. cbn. split; [discriminate | lia]. }
  rewrite Hsign. unfold SFcompare.
  change (PosDef.Pos.compare_cont Eq mx my) with (Pos.compare mx my).
  assert (Hcmp : match Z.compare ex ey with
                 | Eq => Pos.compare mx my
                 | c => c
                 end = Z.compare A B).
  { pose proof (canonical_compare ez mx ex my ey Hx Hy) as C.
    unfold scaled in C. fold A B in C. rewrite C by (unfold ez; lia).
    reflexivity. }
  clearbody A B. clear A2 B2.
  destruct sx, sy; unfold cond_Zopp.
  - assert (E : match Z.compare ex ey with
                | Eq => CompOpp (Pos.compare mx my)
                | Lt => Gt
                | Gt => Lt
                end = CompOpp (Z.compare A B)).
    { rewrite <- Hcmp. destruct (Z.compare ex ey); reflexivity. }
    rewrite E. clear E Hcmp.
    destruct (Z.compare_spec A B) as [C | C | C]; cbn [CompOpp];
      (split; intro H0; [try lia; try reflexivity | try lia; try discriminate H0]).
  - split; [lia | discriminate].
  - split; [reflexivity | lia].
  - assert (E : match Z.compare ex ey with
                | Eq => Pos.compare mx my
                | Lt => Lt
                | Gt => Gt
                end = Z.compare A B).
    { rewrite <- Hcmp. destruct (Z.compare ex ey); reflexivity. }
    rewrite E. clear E Hcmp.
    destruct (Z.compare_spec A B) as [C | C | C];
      (split; intro H0; [try lia; try reflexivity | try lia; try discriminate H0]).
Qed.

(** ** The order of regular numbers *)

Lemma huge_eq : huge = 2 ^ 2098.
Proof. with_strategy transparent [huge] reflexivity. Qed.

Lemma huge_pos : 0 < huge.
Proof. rewrite huge_eq. apply Z.pow_pos_nonneg; lia. Qed.

Lemma bounded_below_huge (m : positive) (e : Z) :
  bounded prec emax m e = true -> 0 < scaled (-1074) (Zpos m) e < huge.
Proof.
  intro H. apply bounded_spec in H.
  destruct (scaled_digits (-1074) m e) as [_ S2]; [lia |].
  split; [apply scaled_pos; lia |].
  assert (2 ^ (Zpos (digits2_pos m) + e - -1074) <= 2 ^ 2098)
    by (apply Z.pow_le_mono_r; lia).
  rewrite huge_eq. lia.
Qed.

Lemma compare_key (x y : number) :
  regular x = true -> regular y = true ->
  SFcompare x y = Some (Z.compare (key x) (key y)).
Proof.
  unfold regular. intros Hx Hy. pose proof huge_pos as Hh.
  destruct x as [sx | sx | | sx mx ex]; try discriminate Hx;
    destruct y as [sy | sy | | sy my ey]; try discriminate Hy;
    cbn [isNaN negb andb valid_binary] in Hx, Hy;
    unfold SFcompare, key.
  - reflexivity.
  - destruct sy; compare_cases.
  - destruct (bounded_below_huge my ey Hy). destruct sy; compare_cases.
  - destruct sx; compare_cases.
  - destruct sx, sy; compare_cases.
  - destruct (bounded_below_huge my ey Hy). destruct sx, sy; compare_cases.
  - destruct (bounded_below_huge mx ex Hx). destruct sx; compare_cases.
  - destruct (bounded_below_huge mx ex Hx). destruct sx, sy; compare_cases.
  - destruct (bounded_below_huge mx ex Hx).
    destruct (bounded_below_huge my ey Hy).
    pose proof (canonical_compare (-1074) mx ex my ey Hx Hy) as C.
    apply bounded_spec in Hx, Hy.
    change (PosDef.Pos.compare_cont Eq mx my) with (Pos.compare mx my).
    destruct sx, sy.
    + f_equal. rewrite Z.compare_opp.
      rewrite (Z.compare_antisym (scaled (-1074) (Zpos mx) ex)
                 (scaled (-1074) (Zpos my) ey)), C by lia.
      destruct (Z.compare ex ey); reflexivity.
    + compare_cases.
    + compare_cases.
    + f_equal. rewrite C by lia. destruct (Z.compare ex ey); reflexivity.
Qed.

Lemma le_key (x y : number) :
  regular x = true -> regular y = true ->
  (le x y = true <-> key x <= key y).
Proof.
  intros Hx Hy. unfold le, SFleb. rewrite (compare_key x y Hx Hy).
  destruct (Z.compare_spec (key x) (key y)); split; intro; try lia;
    try reflexivity; discriminate.
Qed.

Lemma gt_key (x y : number) :
  regular x = true -> regular y = true ->
  (gt x y = true <-> key y < key x).
Proof.
  intros Hx Hy. unfold gt, SFltb. rewrite (compare_key y x Hy Hx).
  destruct (Z.compare_spec (key y) (key x)); split; intro; try lia;
    try reflexivity; discriminate.
Qed.

(** The test of [Array_sort] on two regular keys. *)
Lemma comparator_key (x y : number) :
  regular x = true -> regular y = true ->
  (negb (gt (sub x y) (of_Z 0)) = true <-> key x <= key y).
Proof.
  intros Hx Hy. rewrite negb_true_iff, <- not_true_iff_false.
  rewrite (sub_positive x y Hx Hy), (compare_key x y Hx Hy).
  destruct (Z.compare_spec (key x) (key y)); split; intro H0; try lia;
    try discriminate; try (exfalso; apply H0; reflexivity).
Qed.

(** ** The weighted score stays within [0, 100] *)

Lemma of_Z_100 : of_Z 100 = S754_finite false 7036874417766400 (-46).
Proof. vm_compute. reflexivity. Qed.

Lemma regular_100 : regular (S754_finite false 7036874417766400 (-46)) = true.
Proof. vm_compute. reflexivity. Qed.

(** The clamped value of a regular number is 0, 100, or a canonical
    positive double below 100. *)
Lemma clamp_cases (x : number) :
  regular x = true ->
  clamp_0_100 x = S754_zero false
  \/ clamp_0_100 x = of_Z 100
  \/ exists m e,
       clamp_0_100 x = S754_finite false m e
       /\ bounded prec emax m e = true
       /\ scaled (-1074) (Zpos m) e < scaled (-1074) 7036874417766400 (-46).
Proof.
  intro Hx. unfold clamp_0_100. rewrite of_Z_0, of_Z_100.
  destruct x as [sx | sx | | sx m e]; try discriminate Hx.
  - left. destruct sx; reflexivity.
  - destruct sx; [left | right; left]; reflexivity.
  - destruct sx; [left; reflexivity |].
    change (Math_max (S754_zero false) (S754_finite false m e))
      with (S754_finite false m e).
    unfold Math_min.
    rewrite (compare_key _ _ regular_100 Hx).
    unfold regular in Hx. cbn [isNaN negb andb valid_binary] in Hx.
    cbn [key].
    destruct (Z.compare_spec (scaled (-1074) 7036874417766400 (-46))
                (scaled (-1074) (Zpos m) e)) as [C | C | C].
    + right; left; reflexivity.
    + right; left; reflexivity.
    + right; right. exists m, e. auto.
Qed.

Lemma digits2_mul (a b : positive) :
  Zpos (digits2_pos a) + Zpos (digits2_pos b) - 1 <= Zpos (digits2_pos (a * b)).
Proof.
  destruct (digits2_bounds a) as [A1 _].
  destruct (digits2_bounds b) as [B1 _].
  destruct (digits2_bounds (a * b)) as [_ C2].
  rewrite Pos2Z.inj_mul in C2.
  assert (P1 : 0 < 2 ^ (Zpos (digits2_pos a) - 1)) by (apply Z.pow_pos_nonneg; lia).
  assert (P2 : 0 < 2 ^ (Zpos (digits2_pos b) - 1)) by (apply Z.pow_pos_nonneg; lia).
  assert (H : 2 ^ (Zpos (digits2_pos a) - 1 + (Zpos (digits2_pos b) - 1))
              <= Zpos a * Zpos b).
  { rewrite Z.pow_add_r by lia. apply Z.mul_le_mono_nonneg; lia. }
  destruct (Z_le_gt_dec (Zpos (digits2_pos a) + Zpos (digits2_pos b) - 1)
              (Zpos (digits2_pos (a * b)))); [assumption |].
  assert (2 ^ Zpos (digits2_pos (a * b))
          <= 2 ^ (Zpos (digits2_pos a) - 1 + (Zpos (digits2_pos b) - 1)))
    by (apply Z.pow_le_mono_r; lia).
  lia.
Qed.

(** A clamped value times a weight [mc * 2^-54] of 53 digits stays below
    the double [mB * 2^eB], as soon as the largest double below 100 does. *)
Lemma mul_weight_le (m : positive) (e : Z) (mc mB : positive) (eB : Z) :
  bounded prec emax m e = true ->
  scaled (-1074) (Zpos m) e < scaled (-1074) 7036874417766400 (-46) ->
  Zpos (digits2_pos mc) = 53 ->
  bounded prec emax mB eB = true -> -1128 <= eB ->
  scaled (-1128) (7036874417766399 * Zpos mc) (-100)
  <= scaled (-1128) (Zpos mB) eB ->
  at_most (-1128)
    (mul (S754_finite false m e) (S754_finite false mc (-54))) mB eB.
Proof.
  intros Hb Hlt Hdc HB HeB Hnum.
  rewrite mul_eq. cbn [SFmul xorb].
  assert (Hpred : bounded prec emax 7036874417766399 (-46) = true)
    by (vm_compute; reflexivity).
  assert (H100 : bounded prec emax 7036874417766400 (-46) = true)
    by (vm_compute; reflexivity).
  (* below 100 means at most the predecessor of 100 *)
  assert (Hle : scaled (-1074) (Zpos m) e
                <= scaled (-1074) 7036874417766399 (-46)).
  { pose proof (proj1 (bounded_spec m e) Hb) as [Hbm Hbe].
    unfold Z.lt in Hlt. unfold Z.le.
    rewrite (canonical_compare (-1074) m e _ _ Hb H100) in Hlt by lia.
    rewrite (canonical_compare (-1074) m e _ _ Hb Hpred) by lia.
    destruct (Z.compare e (-46)); try discriminate Hlt; try discriminate.
    apply Pos.compare_lt_iff in Hlt.
    intro H. apply Pos.compare_gt_iff in H.
    assert (Hs : (m < Pos.succ 7036874417766399)%positive) by exact Hlt.
    apply Pos.lt_succ_r in Hs.
    apply (Pos.lt_irrefl m). eapply Pos.le_lt_trans; [exact Hs | exact H]. }
  pose proof (proj1 (bounded_spec m e) Hb) as [Hb1 Hb2].
  pose proof (digits2_mul m mc) as Hd.
  assert (Hdm : 1 <= Zpos (digits2_pos m)) by lia.
  apply binary_round_aux_le; try lia; try assumption.
  - rewrite fexp_eq. lia.
  - eapply Z.le_trans; [| exact Hnum].
    unfold scaled in *. rewrite Pos2Z.inj_mul.
    replace (e + -54 - -1128) with (e - -1074) by lia.
    replace (-100 - -1128) with (-46 - -1074) by lia.
    replace (Zpos m * Zpos mc * 2 ^ (e - -1074))
      with (Zpos mc * (Zpos m * 2 ^ (e - -1074))) by ring.
    replace (7036874417766399 * Zpos mc * 2 ^ (-46 - -1074))
      with (Zpos mc * (7036874417766399 * 2 ^ (-46 - -1074))) by ring.
    apply Z.mul_le_mono_nonneg_l; [lia | exact Hle].
Qed.

Lemma add_at_most (a b : number) (mA : positive) (eA : Z) (mB : positive) (eB : Z)
    (mC : positive) (eC : Z) :
  at_most (-1128) a mA eA -> at_most (-1128) b mB eB ->
  -1128 <= eA -> -1128 <= eB -> -1128 <= eC ->
  bounded prec emax mC eC = true ->
  scaled (-1128) (Zpos mA) eA + scaled (-1128) (Zpos mB) eB
  <= scaled (-1128) (Zpos mC) eC ->
  at_most (-1128) (add a b) mC eC.
Proof.
  intros Ha Hb LA LB LC HC Hsum. rewrite add_eq.
  pose proof (scaled_pos (-1128) mA eA LA) as PA.
  pose proof (scaled_pos (-1128) mB eB LB) as PB.
  destruct Ha as [-> | (ma & ea & -> & Ba & Va)];
    destruct Hb as [-> | (mb & eb & -> & Bb & Vb)]; cbn [SFadd].
  - left. reflexivity.
  - right. exists mb, eb. repeat split; auto. lia.
  - right. exists ma, ea. repeat split; auto. lia.
  - unfold cond_Zopp. set (ez := Z.min ea eb).
    destruct (shl_align_spec ma ea ez) as (_ & A2 & _).
    destruct (shl_align_spec mb eb ez) as (_ & B2 & _).
    replace (Z.min ea ez) with ez in A2 by (unfold ez; lia).
    replace (Z.min eb ez) with ez in B2 by (unfold ez; lia).
    pose proof (proj1 (bounded_spec ma ea) Ba) as [Ha1 Ha2].
    pose proof (proj1 (bounded_spec mb eb) Bb) as [Hb1 Hb2].
    assert (Hez : -1074 <= ez) by (unfold ez; lia).
    cbn [Z.add binary_normalize].
    apply binary_round_le; try lia; try assumption.
    rewrite Pos2Z.inj_add, A2, B2.
    assert (E1 : scaled (-1128) (Zpos ma * 2 ^ (ea - ez)) ez
                 = scaled (-1128) (Zpos ma) ea).
    { rewrite <- scaled_shift by (unfold ez; lia). f_equal. lia. }
    assert (E2 : scaled (-1128) (Zpos mb * 2 ^ (eb - ez)) ez
                 = scaled (-1128) (Zpos mb) eb).
    { rewrite <- scaled_shift by (unfold ez; lia). f_equal. lia. }
    unfold scaled in *. rewrite Z.mul_add_distr_r, E1, E2. lia.
Qed.

Lemma weights_values :
  lit 4 1 = S754_finite false 7205759403792794 (-54)
  /\ lit 35 2 = S754_finite false 6305039478318694 (-54)
  /\ lit 25 2 = S754_finite false 4503599627370496 (-54).
Proof. repeat split; vm_compute; reflexivity. Qed.

(** One term of the weighted sum: a clamped value times a weight. *)
Lemma weight_term_le (x : number) (mc mB : positive) (eB : Z) :
  regular x = true ->
  Zpos (digits2_pos mc) = 53 ->
  bounded prec emax mB eB = true -> -1128 <= eB ->
  mul (of_Z 100) (S754_finite false mc (-54)) = S754_finite false mB eB ->
  scaled (-1128) (7036874417766399 * Zpos mc) (-100)
  <= scaled (-1128) (Zpos mB) eB ->
  at_most (-1128) (mul (clamp_0_100 x) (S754_finite false mc (-54))) mB eB.
Proof.
  intros Hx Hd HB HeB H100 Hnum.
  destruct (clamp_cases x Hx) as [-> | [-> | (m & e & -> & Hb & Hlt)]].
  - left. rewrite mul_eq. reflexivity.
  - right. exists mB, eB. rewrite H100. repeat split; auto. lia.
  - apply mul_weight_le; auto.
Qed.

(** For regular inputs the semantic score lies between 0 and 100. *)
Lemma weighted_score_bounds (r u c : number) :
  regular r = true -> regular u = true -> regular c = true ->
  let score :=
    weighted_score (clamp_0_100 r) (clamp_0_100 u) (clamp_0_100 c) in
  le (of_Z 0) score = true /\ le score (of_Z 100) = true.
Proof.
  intros Hr Hu Hc. cbv zeta. unfold weighted_score.
  destruct weights_values as (W1 & W2 & W3). rewrite W1, W2, W3.
  assert (T1 : at_most (-1128)
                 (mul (clamp_0_100 r) (S754_finite false 7205759403792794 (-54)))
                 5629499534213120 (-47)).
  { apply weight_term_le; auto; try lia; try (vm_compute; reflexivity).
    vm_compute. discriminate. }
  assert (T2 : at_most (-1128)
                 (mul (clamp_0_100 u) (S754_finite false 6305039478318694 (-54)))
                 4925812092436480 (-47)).
  { apply weight_term_le; auto; try lia; try (vm_compute; reflexivity).
    vm_compute. discriminate. }
  assert (T3 : at_most (-1128)
                 (mul (clamp_0_100 c) (S754_finite false 4503599627370496 (-54)))
                 7036874417766400 (-48)).
  { apply weight_term_le; auto; try lia; try (vm_compute; reflexivity).
    vm_compute. discriminate. }
  assert (T12 : at_most (-1128)
                  (add (mul (clamp_0_100 r) (S754_finite false 7205759403792794 (-54)))
                       (mul (clamp_0_100 u) (S754_finite false 6305039478318694 (-54))))
                  5277655813324800 (-46)).
  { eapply add_at_most; [exact T1 | exact T2 | | | | |]; try lia.
    - vm_compute. reflexivity.
    - vm_compute. discriminate. }
  assert (T : at_most (-1128)
                (add (add (mul (clamp_0_100 r) (S754_finite false 7205759403792794 (-54)))
                          (mul (clamp_0_100 u) (S754_finite false 6305039478318694 (-54))))
                     (mul (clamp_0_100 c) (S754_finite false 4503599627370496 (-54))))
                7036874417766400 (-46)).
  { eapply add_at_most; [exact T12 | exact T3 | | | | |]; try lia.
    - vm_compute. reflexivity.
    - vm_compute. discriminate. }
  rewrite of_Z_0, of_Z_100.
  destruct T as [-> | (m & e & -> & Hb & Hv)].
  - split; vm_compute; reflexivity.
  - split; [reflexivity |].
    apply le_key; [exact Hb | apply regular_100 |].
    cbn [key]. pose proof (proj1 (bounded_spec m e) Hb) as [B1 B2].
    unfold scaled in *.
    replace (e - -1128) with (54 + (e - -1074)) in Hv by lia.
    replace (-46 - -1128) with (54 + (-46 - -1074)) in Hv by lia.
    rewrite !Z.pow_add_r in Hv by lia.
    assert (P : 0 < 2 ^ 54) by (apply Z.pow_pos_nonneg; lia).
    rewrite !Z.mul_assoc in Hv.
    rewrite (Z.mul_comm (Zpos m)), (Z.mul_comm 7036874417766400 (2 ^ 54)) in Hv.
    rewrite <- !Z.mul_assoc in Hv.
    apply Z.mul_le_mono_pos_l in Hv; [exact Hv | exact P].
Qed.

(** ** The order of degradation *)

Lemma regular_0 : regular (of_Z 0) = true.
Proof. vm_compute. reflexivity. Qed.

Lemma score_or_0_regular (item : ArchiveItem) :
  scored item -> regular (score_or_0 item) = true.
Proof.
  unfold scored, score_or_0, or_else.
  destruct (semantic_score item) as [v |]; intro H.
  - destruct (truthy v); [exact H | apply regular_0].
  - apply regular_0.
Qed.

Lemma StronglySorted_weaken {A : Type} (R R' : A -> A -> Prop) (ok : A -> Prop)
    (l : list A) :
  (forall a b, ok a -> ok b -> R a b -> R' a b) ->
  Forall ok l -> StronglySorted R l -> StronglySorted R' l.
Proof.
  intros HR Hok Hs. induction Hs as [| a l Hs IH Ha]; [constructor |].
  inversion Hok as [| ? ? Hoka Hokl]; subst.
  constructor; [apply IH; exact Hokl |].
  rewrite Forall_forall in *. intros b Hb. apply HR; auto.
Qed.

Lemma StronglySorted_after {A : Type} (R : A -> A -> Prop) (l1 l2 : list A) (x y : A) :
  StronglySorted R (l1 ++ x :: l2) -> In y l2 -> R x y.
Proof.
  induction l1 as [| a l1 IH]; cbn [app]; intros Hs Hy.
  - inversion Hs as [| ? ? _ Hx]; subst. rewrite Forall_forall in Hx. auto.
  - inversion Hs; subst. auto.
Qed.

(** In a sorted list an element that must not come before another one
    comes after it. *)
Lemma sorted_precedes {A : Type} (R : A -> A -> Prop) (l : list A) (x y : A) :
  StronglySorted R l -> In x l -> In y l -> ~ R x y -> x <> y ->
  exists l1 l2 l3, l = l1 ++ y :: l2 ++ x :: l3.
Proof.
  intros Hs Hx Hy Hn Hxy.
  destruct (in_split y l Hy) as (l1 & r & ->).
  apply in_app_or in Hx. destruct Hx as [Hx | [Hx | Hx]].
  - exfalso. destruct (in_split x l1 Hx) as (a & b & ->).
    rewrite <- app_assoc in Hs. cbn [app] in Hs.
    apply Hn. apply (StronglySorted_after R a (b ++ y :: r) x y Hs).
    apply in_or_app. simpl. auto.
  - congruence.
  - destruct (in_split x r Hx) as (l2 & l3 & ->). exists l1, l2, l3. reflexivity.
Qed.

Lemma NoDup_app_disjoint {A : Type} (l1 l2 : list A) (x : A) :
  NoDup (l1 ++ l2) -> In x l1 -> In x l2 -> False.
Proof.
  induction l1 as [| a l1 IH]; cbn [app]; intros Hn H1 H2; [contradiction |].
  inversion Hn as [| ? ? Ha Hn']; subst.
  destruct H1 as [-> | H1].
  - apply Ha. apply in_or_app. auto.
  - apply IH; auto.
Qed.

(** A prefix that reaches a later element contains every earlier one. *)
Lemma firstn_reaches {A : Type} (k : nat) (l1 l2 l3 : list A) (x y : A) :
  NoDup (l1 ++ y :: l2 ++ x :: l3) ->
  In x (firstn k (l1 ++ y :: l2 ++ x :: l3)) ->
  exists l3', firstn k (l1 ++ y :: l2 ++ x :: l3) = l1 ++ y :: l2 ++ x :: l3'.
Proof.
  intros Hn Hx.
  assert (E : l1 ++ y :: l2 ++ x :: l3 = (l1 ++ y :: l2) ++ x :: l3)
    by (rewrite <- app_assoc; reflexivity).
  rewrite E in *. rewrite firstn_app in *.
  destruct (Nat.le_gt_cases k (List.length (l1 ++ y :: l2))) as [Hk | Hk].
  - exfalso. replace (k - List.length (l1 ++ y :: l2))%nat with 0%nat in Hx by lia.
    cbn [firstn] in Hx. rewrite app_nil_r in Hx.
    apply (NoDup_app_disjoint (l1 ++ y :: l2) (x :: l3) x Hn).
    + apply (firstn_In k). exact Hx.
    + simpl. auto.
  - rewrite firstn_all2 by lia.
    destruct (k - List.length (l1 ++ y :: l2))%nat as [| j] eqn:Ej; [lia |].
    cbn [firstn]. exists (firstn j l3). rewrite <- app_assoc. reflexivity.
Qed.

Section Comparator.
Let before (a b : ArchiveItem) : bool :=
    negb (gt (sub (score_or_0 a) (score_or_0 b)) (of_Z 0)).

Lemma before_key (a b : ArchiveItem) :
    scored a -> scored b ->
    (before a b = true <-> key (score_or_0 a) <= key (score_or_0 b)).
Proof.
    intros Ha Hb. apply comparator_key; apply score_or_0_regular; assumption.
Qed.

Lemma sortedItems_sorted (items : list ArchiveItem) :
    Forall scored items ->
    StronglySorted (fun a b => le (score_or_0 a) (score_or_0 b) = true)
      (sortedItems items).
Proof.
    intro Hok.
    apply (StronglySorted_weaken (fun a b => before a b = true) _ scored).
    - intros a b Ha Hb H. apply le_key; try (apply score_or_0_regular; assumption).
      apply before_key; assumption.
    - apply Forall_forall. intros x Hx.
      apply (Permutation_in _ (sortedItems_perm items)) in Hx.
      rewrite Forall_forall in Hok. auto.
    - unfold sortedItems, Array_sort. apply (stable_sort_sorted _ scored).
      + intros x y Hx Hy H.
        apply before_key; auto.
        assert (~ key (score_or_0 x) <= key (score_or_0 y)).
        { intro K. apply (before_key x y Hx Hy) in K.
          rewrite K in H. discriminate H. }
        lia.
      + intros x y z Hx Hy Hz H1 H2.
        apply before_key; auto.
        apply (before_key x y Hx Hy) in H1. apply (before_key y z Hy Hz) in H2.
        lia.
      + exact Hok.
Qed.

Lemma same_score_key (k : number) (item : ArchiveItem) :
    regular k = true -> scored item -> same_score k item = true ->
    key (score_or_0 item) = key k.
Proof.
    intros Hk Hi. unfold same_score, SFeqb.
    rewrite (compare_key _ _ (score_or_0_regular item Hi) Hk).
    destruct (Z.compare_spec (key (score_or_0 item)) (key k)) as [E | E | E];
      intro H0; try discriminate H0. exact E.
Qed.

Lemma sortedItems_stable (k : number) (items : list ArchiveItem) :
    regular k = true -> Forall scored items ->
    filter (same_score k) (sortedItems items) = filter (same_score k) items.
Proof.
    intros Hk Hok. unfold sortedItems, Array_sort.
    apply stable_sort_filter. intros x y Hx Hy Px Py.
    rewrite Forall_forall in Hok.
    apply before_key; auto.
    rewrite (same_score_key k x Hk (Hok x Hx) Px).
    rewrite (same_score_key k y Hk (Hok y Hy) Py). lia.
Qed.
End Comparator.

Lemma select_items_scored (table : list ArchiveItem) :
  Forall scored table -> Forall scored (select_items table).
Proof.
  intro H. rewrite Forall_forall in *. intros x Hx.
  apply select_items_In in Hx. apply H. tauto.
Qed.

(** C3, as the code has it: the cycle degrades a prefix of the queried,
    non-DELETED items taken in ascending order of semanticScore ([null]
    counting as 0); no size or id breaks a tie: items of equal score are
    degraded in the order in which the query presents them.  The rows of
    the prefix are rewritten one after the other, a log entry is sent for
    each of them in that order, and the table of logs keeps, in that order,
    the entries it accepts: all of them when none is refused. *)
Theorem selection_order (st : State) :
  Forall scored (archive_items st) ->
  let queried := select_items (archive_items st) in
  let sorted := sortedItems queried in
  Permutation sorted queried
  /\ StronglySorted (fun a b => le (score_or_0 a) (score_or_0 b) = true) sorted
  /\ (forall k, regular k = true ->
        filter (same_score k) sorted = filter (same_score k) queried)
  /\ exists (n : nat) (sent : list DegradationLog),
       archive_items (processDecayEvent st) =
         fold_left (fun table item => apply_transition item table)
           (firstn n sorted) (archive_items st)
       /\ Forall2 records (firstn n sorted) sent
       /\ map item_id sent = map id (firstn n sorted)
       /\ degradation_logs (processDecayEvent st)
          = degradation_logs st ++ filter log_accepted sent
       /\ (Forall (fun log => log_accepted log = true) sent ->
           degradation_logs (processDecayEvent st) = degradation_logs st ++ sent).
Proof.
  intro Hok. cbv zeta.
  pose proof (select_items_scored _ Hok) as Hq.
  split; [apply sortedItems_perm |].
  split; [apply sortedItems_sorted; exact Hq |].
  split; [intros k Hk; apply sortedItems_stable; assumption |].
  destruct (processDecayEvent_logs st) as (n & logs & H1 & H2 & H3).
  exists n, logs. split; [exact H3 |]. split; [exact H1 |].
  split; [apply records_ids; exact H1 |]. split; [exact H2 |].
  intro Hall. rewrite H2. f_equal.
  clear -Hall. induction Hall as [| log l Hlog Hall IH]; [reflexivity |].
  cbn [filter]. rewrite Hlog, IH. reflexivity.
Qed.

Lemma selection_order_witness :
  Forall scored (archive_items Scenario.tie_ab)
  /\ exists (n : nat) (sent : list DegradationLog),
       archive_items (processDecayEvent Scenario.tie_ab) =
         fold_left (fun table item => apply_transition item table)
           (firstn n (sortedItems (select_items (archive_items Scenario.tie_ab))))
           (archive_items Scenario.tie_ab)
       /\ Forall2 records
            (firstn n (sortedItems (select_items (archive_items Scenario.tie_ab))))
            sent
       /\ map item_id sent
          = map id (firstn n (sortedItems
                                (select_items (archive_items Scenario.tie_ab))))
       /\ degradation_logs (processDecayEvent Scenario.tie_ab)
          = degradation_logs Scenario.tie_ab ++ filter log_accepted sent
       /\ (Forall (fun log => log_accepted log = true) sent ->
           degradation_logs (processDecayEvent Scenario.tie_ab)
           = degradation_logs Scenario.tie_ab ++ sent).
Proof.
  assert (H : Forall scored (archive_items Scenario.tie_ab)).
  { repeat constructor; vm_compute; reflexivity. }
  split; [exact H |].
  exact (proj2 (proj2 (proj2 (selection_order Scenario.tie_ab H)))).
Defined.

(** C3 as stated does not hold: with two items of score 10, "a" of 100 KB
    and "b" of 50 KB, the transitions come in table order, "a" then "b"
    when "a" is stored first and "b" then "a" when "b" is, whereas
    ascending size would put "b" first in both. *)
Lemma selection_order_counterexample :
  Permutation (archive_items Scenario.tie_ab) (archive_items Scenario.tie_ba)
  /\ map (fun row => (id row, stage row))
       (archive_items (processDecayEvent Scenario.tie_ab))
     = [("a", COMPRESSED); ("b", COMPRESSED)]%string
  /\ map (fun row => (id row, stage row))
       (archive_items (processDecayEvent Scenario.tie_ba))
     = [("b", COMPRESSED); ("a", COMPRESSED)]%string
  /\ map item_id (degradation_logs (processDecayEvent Scenario.tie_ab))
     = ["a"; "b"]%string
  /\ map item_id (degradation_logs (processDecayEvent Scenario.tie_ba))
     = ["b"; "a"]%string
  /\ map id (Spec.degradation_order (select_items (archive_items Scenario.tie_ab)))
     = ["b"; "a"]%string
  /\ map id (Spec.degradation_order (select_items (archive_items Scenario.tie_ba)))
     = ["b"; "a"]%string.
Proof.
  split; [apply perm_swap |].
  repeat split; vm_compute; reflexivity.
Qed.

(** ** Unscored items *)

Lemma score_0 :
  or_else None (of_Z 0) = of_Z 0
  /\ ge (of_Z 0) (of_Z 80) = false /\ gt (of_Z 0) (of_Z 70) = false
  /\ gt (of_Z 0) (of_Z 0) = false.
Proof. repeat split; vm_compute; reflexivity. Qed.

(** Rows of a table and of the table after a cycle that degrades the items
    of [processed]: who has moved. *)
Lemma moved_processed (table table' processed : list ArchiveItem)
    (x : ArchiveItem) :
  NoDup (map id table) ->
  Forall2 (fun before after =>
             (~ In before processed /\ after = before)
             \/ (In before processed /\ after = degraded before))
    table table' ->
  In x table -> moved table' x -> In x processed.
Proof.
  intros Hn HT Hx (after & Hafter & Hid & Hidx).
  destruct (Forall2_In_r _ _ _ HT after Hafter) as (b & Hb & [[_ ->] | [Hp ->]]).
  - assert (b = x) by (apply (NoDup_id_inj table); auto). subst b. lia.
  - rewrite degraded_id in Hid.
    assert (b = x) by (apply (NoDup_id_inj table); auto). subst b. exact Hp.
Qed.

Lemma processed_moved (table table' processed : list ArchiveItem)
    (x : ArchiveItem) :
  Forall2 (fun before after =>
             (~ In before processed /\ after = before)
             \/ (In before processed /\ after = degraded before))
    table table' ->
  In x table -> stage x <> DELETED -> In x processed -> moved table' x.
Proof.
  intros HT Hx Hd Hp.
  destruct (Forall2_In_l _ _ _ HT x Hx) as (after & Hafter & [[Hnot _] | [_ ->]]).
  - contradiction.
  - exists (degraded x). split; [exact Hafter |].
    split; [apply degraded_id | apply (degraded_stage x Hd)].
Qed.

(** C10: an item whose semantic_score is null counts as score 0.  In the
    order of degradation it stands before every item of positive score, and
    a cycle that moves an item of positive score moves the unscored item
    too.  A cycle whose new capacity is below the stored size moves the
    first item of the order one stage forward, and that item has no
    positive score: it is the unscored item itself when every other
    non-DELETED item has a positive score.  The only alert the unscored
    item can get is the deletion alert, of severity warning and score 0,
    when it leaves MINIMAL: never a high_value_risk or critical one.  Ids
    are distinct, [id] being the primary key of archive_items. *)
Theorem unscored_first (st : State) (s : SimulationSettings) (u : string) :
  NoDup (map id (archive_items st)) ->
  Forall scored (archive_items st) ->
  settings st = Some s -> user st = Some u ->
  current_year s + decay_interval_years s <= total_years s ->
  let sorted := sortedItems (select_items (archive_items st)) in
  let table' := archive_items (processDecayEvent st) in
  forall y,
    In y (archive_items st) -> stage y <> DELETED -> semantic_score y = None ->
    score_or_0 y = of_Z 0
    /\ (forall x,
          In x (archive_items st) -> stage x <> DELETED ->
          gt (score_or_0 x) (of_Z 0) = true ->
          (exists l1 l2 l3, sorted = l1 ++ y :: l2 ++ x :: l3)
          /\ (moved table' x -> moved table' y))
    /\ (decayed_capacity (current_capacity_kb s) (decay_percent s)
        < storage_used (archive_items st) ->
        exists first rest,
          sorted = first :: rest
          /\ gt (score_or_0 first) (of_Z 0) = false
          /\ moved table' first
          /\ ((forall x, In x (archive_items st) -> stage x <> DELETED ->
                 x <> y -> gt (score_or_0 x) (of_Z 0) = true) ->
              first = y))
    /\ exists new : list DecayAlert,
         alerts (processDecayEvent st) = alerts st ++ new
         /\ (stage y <> MINIMAL -> alerts_for (id y) new = [])
         /\ forall a, In a (alerts_for (id y) new) ->
              alertType a = item_deleted /\ severity a = warning
              /\ semanticScore a = of_Z 0 /\ targetStage a = Some DELETED.
Proof.
  intros Hn Hok Hs Hu Hin sorted table' y Hy Hdy Hnull.
  destruct (cycle_spec st s u Hs Hu Hin) as (k & logs & sys & H1 & _ & H3 & H4 & H5).
  cbv zeta in H1, H5. fold sorted in H1, H5.
  pose proof (sortedItems_NoDup _ Hn) as Hnd. fold sorted in Hnd.
  assert (HT : Forall2 (fun before after =>
               (~ In before (firstn k sorted) /\ after = before)
               \/ (In before (firstn k sorted) /\ after = degraded before))
             (archive_items st) table').
  { unfold table'. rewrite H5. apply transitions_table.
    - exact Hn.
    - intros x Hx. apply firstn_In, sortedItems_In in Hx. tauto.
    - apply firstn_In_NoDup. exact Hnd. }
  assert (Hsorted : StronglySorted
                      (fun a b => le (score_or_0 a) (score_or_0 b) = true) sorted)
    by (apply sortedItems_sorted, select_items_scored, Hok).
  assert (Sy : In y sorted) by (apply sortedItems_In; auto).
  assert (Ey : score_or_0 y = of_Z 0).
  { unfold score_or_0. rewrite Hnull. reflexivity. }
  rewrite Forall_forall in Hok.
  pose proof (score_or_0_regular y (Hok y Hy)) as Ry.
  assert (Hnle : forall x, In x (archive_items st) ->
                   gt (score_or_0 x) (of_Z 0) = true ->
                   ~ le (score_or_0 x) (score_or_0 y) = true).
  { intros x Hx Hpos H.
    pose proof (score_or_0_regular x (Hok x Hx)) as Rx.
    apply (le_key _ _ Rx Ry) in H.
    rewrite Ey in H. apply (gt_key _ _ Rx regular_0) in Hpos. lia. }
  split; [exact Ey |]. split; [| split].
  - intros x Hx Hdx Hpos.
    assert (Sx : In x sorted) by (apply sortedItems_In; auto).
    assert (Hxy : x <> y).
    { intros ->. rewrite Ey in Hpos.
      destruct score_0 as (_ & _ & _ & E). congruence. }
    destruct (sorted_precedes _ sorted x y Hsorted Sx Sy (Hnle x Hx Hpos) Hxy)
      as (l1 & l2 & l3 & E).
    split; [exists l1, l2, l3; exact E |].
    intro Hm.
    pose proof (moved_processed _ _ _ x Hn HT Hx Hm) as Hp.
    apply (processed_moved _ _ _ y HT Hy Hdy).
    rewrite E in *.
    destruct (firstn_reaches k l1 l2 l3 x y) as (l3' & E'); auto.
    { apply NoDup_map_inv in Hnd. exact Hnd. }
    rewrite E'. apply in_or_app. right. left. reflexivity.
  - intro Hcap.
    destruct sorted as [| first rest] eqn:E; [contradiction |].
    exists first, rest. split; [reflexivity |].
    destruct (cycle_first st s u Hn Hs Hu Hin Hcap first rest E) as (Hf & Hd & Ha).
    assert (Hlow : gt (score_or_0 first) (of_Z 0) = false).
    { destruct (gt (score_or_0 first) (of_Z 0)) eqn:G; [exfalso | reflexivity].
      inversion Hsorted as [| ? ? _ Hall]; subst.
      destruct Sy as [-> | Sy].
      - rewrite Ey in G. destruct score_0 as (_ & _ & _ & E0). congruence.
      - rewrite Forall_forall in Hall.
        exact (Hnle first Hf G (Hall y Sy)). }
    split; [exact Hlow |]. split.
    + exists (degraded first). split; [exact Ha |].
      split; [apply degraded_id | apply (degraded_stage first Hd)].
    + intro Hothers.
      destruct (string_dec (id first) (id y)) as [Eid | Nid].
      * apply (NoDup_id_inj (archive_items st)); auto.
      * assert (first <> y) by (intros ->; apply Nid; reflexivity).
        rewrite (Hothers first Hf Hd) in Hlow by assumption. discriminate Hlow.
  - eexists. split; [exact H3 |].
    assert (Hlog : forall a,
              In a (alerts_for (id y)
                      (sys ++ flat_map
                                (alerts_of_log
                                   (current_year s + decay_interval_years s)) logs)) ->
              exists log,
                In a (alerts_of_log (current_year s + decay_interval_years s) log)
                /\ log_semantic_score log = None
                /\ new_stage log = stage (degraded y)).
    { intros a Ha. unfold alerts_for in Ha. apply filter_In in Ha.
      destruct Ha as [Ha Hid]. apply in_app_or in Ha. destruct Ha as [Ha | Ha].
      - rewrite Forall_forall in H4. destruct (H4 a Ha) as [E _].
        rewrite E in Hid. discriminate Hid.
      - apply in_flat_map in Ha. destruct Ha as (log & Hl & Ha).
        exists log. split; [exact Ha |].
        destruct (Forall2_In_r _ _ _ H1 log Hl) as (item & Hitem & Hrec).
        destruct Hrec as (R1 & _ & _ & R4 & _ & _ & R7).
        assert (Eid : itemId a = Some (item_id log)).
        { unfold alerts_of_log in Ha.
          destruct (_ || _); [| contradiction].
          destruct Ha as [<- | []]. reflexivity. }
        rewrite Eid in Hid. apply String.eqb_eq in Hid.
        assert (item = y).
        { apply (NoDup_id_inj (archive_items st)); auto; [| congruence].
          apply firstn_In, sortedItems_In in Hitem. tauto. }
        subst item. rewrite R7, R4. auto. }
    assert (Hshape : forall a,
              In a (alerts_for (id y)
                      (sys ++ flat_map
                                (alerts_of_log
                                   (current_year s + decay_interval_years s)) logs)) ->
              stage (degraded y) = DELETED
              /\ alertType a = item_deleted /\ severity a = warning
              /\ semanticScore a = of_Z 0 /\ targetStage a = Some DELETED).
    { intros a Ha. destruct (Hlog a Ha) as (log & Hal & Enull & Enew).
      unfold alerts_of_log in Hal. rewrite Enull in Hal.
      destruct score_0 as (E0 & E80 & E70 & _). rewrite E0, E80, E70 in Hal.
      cbn [orb] in Hal.
      destruct (stage_eqb (new_stage log) DELETED) eqn:Ed; [| contradiction].
      destruct Hal as [<- | []]. cbn.
      apply stage_eqb_eq in Ed. rewrite <- Enew, Ed. auto. }
    split.
    + intro Hmin.
      destruct (alerts_for (id y) _) as [| a rest] eqn:E; [reflexivity | exfalso].
      destruct (Hshape a (or_introl eq_refl)) as [Hdel _].
      unfold degraded, next_degradation in Hdel.
      destruct (stage y); cbn in Hdel; try discriminate Hdel; contradiction.
    + intros a Ha. apply (Hshape a Ha).
Qed.

Lemma unscored_first_witness :
  map (fun row => (id row, stage row, current_size_kb row))
    (archive_items (processDecayEvent Scenario.unscored_alone))
  = [ ("a", FULL, 600); ("b", DELETED, 0) ]%string
  /\ map (fun a => (itemId a, alertType a, severity a))
       (alerts (processDecayEvent Scenario.unscored_alone))
     = [ (None, storage_pressure, critical);
         (Some "b", item_deleted, warning) ]%string
  /\ exists first rest,
       sortedItems (select_items (archive_items Scenario.unscored_alone))
       = first :: rest
       /\ first = Scenario.item "b" MINIMAL 400 None
       /\ moved (archive_items (processDecayEvent Scenario.unscored_alone)) first.
Proof.
  split; [vm_compute; reflexivity |]. split; [vm_compute; reflexivity |].
  assert (Hn : NoDup (map id (archive_items Scenario.unscored_alone))).
  { cbn. constructor; [intros [H | []]; discriminate H |].
    constructor; [intros [] | constructor]. }
  assert (Hok : Forall scored (archive_items Scenario.unscored_alone)).
  { repeat constructor; vm_compute; reflexivity. }
  assert (Hin : current_year (Scenario.the_settings 0 1000 30)
                + decay_interval_years (Scenario.the_settings 0 1000 30)
                <= total_years (Scenario.the_settings 0 1000 30))
    by (cbn; lia).
  destruct (unscored_first Scenario.unscored_alone
              (Scenario.the_settings 0 1000 30) "owner-1" Hn Hok eq_refl eq_refl Hin
              (Scenario.item "b" MINIMAL 400 None))
    as (_ & _ & H & _).
  - simpl. auto.
  - discriminate.
  - reflexivity.
  - destruct H as (first & rest & E & _ & Hm & Hy).
    + vm_compute. reflexivity.
    + exists first, rest. split; [exact E |]. split; [| exact Hm].
      apply Hy. intros x [<- | [<- | []]] _ Hx.
      * vm_compute. reflexivity.
      * contradiction Hx. reflexivity.
Defined.

(** ** Valuation *)

Lemma clamp_bounds (x : number) :
  regular x = true ->
  le (of_Z 0) (clamp_0_100 x) = true /\ le (clamp_0_100 x) (of_Z 100) = true.
Proof.
  intro Hx.
  destruct (clamp_cases x Hx) as [-> | [-> | (m & e & -> & Hb & Hlt)]].
  - split; vm_compute; reflexivity.
  - split; vm_compute; reflexivity.
  - rewrite of_Z_0, of_Z_100. split; [reflexivity |].
    apply le_key; [exact Hb | apply regular_100 |]. cbn [key]. lia.
Qed.

(** What the valuation computes from three scores that are numbers: it
    clamps each of them to [0,100] and combines them with the fixed weights
    0.4, 0.35 and 0.25, and the result lies in [0,100].  The owner's weight
    triple is normalized, each weight divided by the sum, when
    [handleSaveWeights] stores it. *)
Lemma valuation_fixed_weights (weights : Weights) (r u c : number) :
  regular r = true -> regular u = true -> regular c = true ->
  let scores := analyze_semantic r u c in
  relevance scores = Math_min (of_Z 100) (Math_max (of_Z 0) r)
  /\ uniqueness scores = Math_min (of_Z 100) (Math_max (of_Z 0) u)
  /\ reconstructability scores = Math_min (of_Z 100) (Math_max (of_Z 0) c)
  /\ le (of_Z 0) (relevance scores) = true
  /\ le (relevance scores) (of_Z 100) = true
  /\ le (of_Z 0) (uniqueness scores) = true
  /\ le (uniqueness scores) (of_Z 100) = true
  /\ le (of_Z 0) (reconstructability scores) = true
  /\ le (reconstructability scores) (of_Z 100) = true
  /\ scores_semanticScore scores
     = add (add (mul (relevance scores) (lit 4 1))
                (mul (uniqueness scores) (lit 35 2)))
           (mul (reconstructability scores) (lit 25 2))
  /\ le (of_Z 0) (scores_semanticScore scores) = true
  /\ le (scores_semanticScore scores) (of_Z 100) = true
  /\ handleSaveWeights weights
     = (let total :=
          add (add (weight_relevance weights) (weight_uniqueness weights))
              (weight_reconstructability weights) in
        {| weight_relevance := div (weight_relevance weights) total;
           weight_uniqueness := div (weight_uniqueness weights) total;
           weight_reconstructability :=
             div (weight_reconstructability weights) total |}).
Proof.
  intros Hr Hu Hc. cbv zeta.
  unfold analyze_semantic.
  cbn [relevance uniqueness reconstructability scores_semanticScore].
  destruct (clamp_bounds r Hr) as [R1 R2].
  destruct (clamp_bounds u Hu) as [U1 U2].
  destruct (clamp_bounds c Hc) as [C1 C2].
  destruct (weighted_score_bounds r u c Hr Hu Hc) as [S1 S2].
  repeat split; assumption.
Qed.

Lemma valuation_fixed_weights_witness :
  regular (of_Z 250) = true /\ regular (of_Z (-3)) = true
  /\ regular (lit 625 1) = true
  /\ le (scores_semanticScore
           (analyze_semantic (of_Z 250) (of_Z (-3)) (lit 625 1))) (of_Z 100)
     = true.
Proof.
  assert (H1 : regular (of_Z 250) = true) by (vm_compute; reflexivity).
  assert (H2 : regular (of_Z (-3)) = true) by (vm_compute; reflexivity).
  assert (H3 : regular (lit 625 1) = true) by (vm_compute; reflexivity).
  split; [exact H1 |]. split; [exact H2 |]. split; [exact H3 |].
  apply (valuation_fixed_weights
           {| weight_relevance := of_Z 2; weight_uniqueness := of_Z 1;
              weight_reconstructability := of_Z 1 |}
           (of_Z 250) (of_Z (-3)) (lit 625 1) H1 H2 H3).
Defined.

(** C6 does not hold of the code: the valuation never reads the owner's
    weights.  With the weights 2, 1, 1, which [handleSaveWeights] stores as
    0.5, 0.25, 0.25, and the scores 100, 0, 0, the combination with the
    saved weights is 50 and the valuation answers 40; whatever the weights
    are, the answer is the combination with 0.4, 0.35 and 0.25; and a score
    the tool call leaves out, which [Math.max] reads as NaN, makes the
    answer NaN, which is not in [0,100]. *)
Theorem valuation_ignores_saved_weights :
  let weights := {| weight_relevance := of_Z 2; weight_uniqueness := of_Z 1;
                    weight_reconstructability := of_Z 1 |} in
  gt (weight_relevance weights) (of_Z 0) = true
  /\ gt (weight_uniqueness weights) (of_Z 0) = true
  /\ gt (weight_reconstructability weights) (of_Z 0) = true
  /\ handleSaveWeights weights
     = {| weight_relevance := lit 5 1; weight_uniqueness := lit 25 2;
          weight_reconstructability := lit 25 2 |}
  /\ Spec.semanticScore weights (of_Z 100) (of_Z 0) (of_Z 0) = of_Z 50
  /\ scores_semanticScore (analyze_semantic (of_Z 100) (of_Z 0) (of_Z 0)) = of_Z 40
  /\ scores_semanticScore (analyze_semantic (of_Z 100) (of_Z 0) (of_Z 0))
     <> Spec.semanticScore weights (of_Z 100) (of_Z 0) (of_Z 0)
  /\ (forall r u c : number,
        scores_semanticScore (analyze_semantic r u c)
        = add (add (mul (clamp_0_100 r) (lit 4 1))
                   (mul (clamp_0_100 u) (lit 35 2)))
              (mul (clamp_0_100 c) (lit 25 2)))
  /\ scores_semanticScore (analyze_semantic S754_nan (of_Z 0) (of_Z 0)) = S754_nan
  /\ le (of_Z 0)
       (scores_semanticScore (analyze_semantic S754_nan (of_Z 0) (of_Z 0)))
     = false.
Proof.
  cbv zeta. repeat split; try (vm_compute; reflexivity).
  intro H. vm_compute in H. discriminate H.
Qed.

(** * Further properties of the engine *)

(** ** The accounts of a decay cycle *)


Lemma update_eq_other {A : Type} (key : A -> string) (k : string) (f : A -> A)
    (t : list A) :
  (forall row, In row t -> key row <> k) -> update_eq key k f t = t.
Proof.
  intro H. unfold update_eq. induction t as [| x t IH]; simpl; [reflexivity |].
  destruct (String.eqb (key x) k) eqn:E.
  - apply String.eqb_eq in E. exfalso. apply (H x); simpl; auto.
  - f_equal. apply IH. intros row Hr. apply H. simpl. auto.
Qed.

Lemma update_eq_In_other {A : Type} (key : A -> string) (k : string) (f : A -> A)
    (t : list A) (row : A) :
  In row t -> key row <> k -> In row (update_eq key k f t).
Proof.
  intros Hin Hk. unfold update_eq. apply in_map_iff. exists row.
  split; [| exact Hin].
  destruct (String.eqb (key row) k) eqn:E; [| reflexivity].
  apply String.eqb_eq in E. contradiction.
Qed.

Lemma apply_transition_ids (item : ArchiveItem) (table : list ArchiveItem) :
  map id (apply_transition item table) = map id table.
Proof.
  unfold apply_transition, update_eq. rewrite map_map. apply map_ext.
  intro row. destruct (String.eqb (id row) (id item)); reflexivity.
Qed.

Lemma degraded_live_size (item : ArchiveItem) :
  stage item <> DELETED ->
  storage_used [degraded item] = current_size_kb (degraded item).
Proof.
  intro H. rewrite storage_used_eq.
  unfold degraded, next_degradation.
  destruct (stage item); simpl; try lia. contradiction.
Qed.

Lemma storage_used_cons (x : ArchiveItem) (t : list ArchiveItem) :
  storage_used (x :: t) = storage_used [x] + storage_used t.
Proof.
  rewrite !storage_used_eq. simpl.
  destruct (negb (stage_eqb (stage x) DELETED)); simpl; lia.
Qed.

Lemma storage_used_live (x : ArchiveItem) :
  stage x <> DELETED -> storage_used [x] = current_size_kb x.
Proof.
  intro H. rewrite storage_used_eq. simpl.
  apply stage_eqb_neq in H. rewrite H. simpl. lia.
Qed.

(** Rewriting the row of a live item changes the storage in use by the
    difference of its sizes. *)
Lemma storage_after_transition (table : list ArchiveItem) (item : ArchiveItem) :
  NoDup (map id table) -> In item table -> stage item <> DELETED ->
  storage_used (apply_transition item table)
  = storage_used table - (current_size_kb item - current_size_kb (degraded item)).
Proof.
  intros Hn Hin Hlive. induction table as [| x t IH]; [contradiction |].
  inversion Hn as [| ? ? Hx Ht]; subst.
  unfold apply_transition, update_eq. cbn [map].
  fold (update_eq id (id item)
          (fun row => {| id := id row; title := title row;
                         stage := stage (degraded item);
                         current_size_kb := current_size_kb (degraded item);
                         semantic_score := semantic_score row;
                         val_reconstructability := val_reconstructability row |}) t).
  fold (apply_transition item t).
  destruct Hin as [-> | Hin].
  - rewrite String.eqb_refl, apply_transition_self.
    unfold apply_transition. rewrite update_eq_other.
    + rewrite (storage_used_cons (degraded item)), (storage_used_cons item).
      rewrite degraded_live_size, storage_used_live by assumption. lia.
    + intros row Hr E. apply Hx. rewrite <- E. now apply in_map.
  - destruct (String.eqb (id x) (id item)) eqn:E.
    + apply String.eqb_eq in E. exfalso. apply Hx. rewrite E. now apply in_map.
    + rewrite (storage_used_cons x (apply_transition item t)), (storage_used_cons x t).
      rewrite IH by assumption. lia.
Qed.

Lemma storage_after_transitions (processed : list ArchiveItem) :
  forall table : list ArchiveItem,
    NoDup (map id table) -> NoDup (map id processed) ->
    (forall p, In p processed -> In p table /\ stage p <> DELETED) ->
    storage_used (fold_left (fun t item => apply_transition item t) processed table)
    = storage_used table - storage_freed processed.
Proof.
  induction processed as [| p rest IH]; intros table Hn Hnp Hin.
  - simpl. lia.
  - cbn [fold_left storage_freed fold_right]. fold (storage_freed rest).
    inversion Hnp as [| ? ? Hp Hrest]; subst.
    destruct (Hin p (or_introl eq_refl)) as [Hpt Hpl].
    rewrite IH.
    + rewrite storage_after_transition by assumption. lia.
    + rewrite apply_transition_ids. exact Hn.
    + exact Hrest.
    + intros q Hq. destruct (Hin q (or_intror Hq)) as [Hqt Hql].
      split; [| exact Hql].
      apply update_eq_In_other; [exact Hqt |].
      intro E. apply Hp. rewrite <- E. now apply in_map.
Qed.

Lemma records_freed (items : list ArchiveItem) (logs : list DegradationLog) :
  Forall2 records items logs -> freed_by logs = storage_freed items.
Proof.
  intro H. induction H as [| item log items logs Hr H IH]; simpl; [reflexivity |].
  destruct Hr as (_ & _ & _ & _ & Hb & Ha & _).
  fold (freed_by logs). fold (storage_freed items). rewrite Hb, Ha, IH. reflexivity.
Qed.

Lemma Forall2_firstn {A B : Type} (R : A -> B -> Prop) (l1 : list A) (l2 : list B)
    (j : nat) :
  Forall2 R l1 l2 -> Forall2 R (firstn j l1) (firstn j l2).
Proof.
  intro H. revert j. induction H; intros [| j]; simpl; constructor; auto.
Qed.

Lemma Forall2_length_eq {A B : Type} (R : A -> B -> Prop) (l1 : list A) (l2 : list B) :
  Forall2 R l1 l2 -> List.length l1 = List.length l2.
Proof. intro H. induction H; simpl; congruence. Qed.

Lemma cycle_processed (st : State) (k : nat) :
  let items := sortedItems (select_items (archive_items st)) in
  forall p, In p (firstn k items) -> In p (archive_items st) /\ stage p <> DELETED.
Proof.
  intros items p Hp. apply firstn_In in Hp. apply sortedItems_In in Hp. exact Hp.
Qed.

(** X1: the decay event a cycle stores.  Its id is new, every log row the
    cycle stores carries it, its year and capacities are those the settings
    take, and [storage_before_kb] is the storage in use before the cycle.
    The event keeps the values it was inserted with, [storage_after_kb] equal
    to [storage_before_kb] and [items_affected] equal to 0, the update that
    ends the cycle reaching no row: the storage in use after the cycle is
    [storage_after_kb] less what the degraded items freed, these being the
    first [n] items of the order, and [n] is not recorded.  Ids are
    distinct, [id] being the primary key of archive_items, and the interval
    is positive. *)
Theorem decay_event_accounting (st : State) (s : SimulationSettings) (u : string) :
  NoDup (map id (archive_items st)) ->
  settings st = Some s -> user st = Some u ->
  0 < decay_interval_years s ->
  current_year s + decay_interval_years s <= total_years s ->
  let st' := processDecayEvent st in
  let sorted := sortedItems (select_items (archive_items st)) in
  exists (e : DecayEvent) (logs : list DegradationLog) (n : nat),
    decay_events st' = decay_events st ++ [e]
    /\ degradation_logs st' = degradation_logs st ++ logs
    /\ ~ In (event_id e) (map event_id (decay_events st))
    /\ Forall (fun log => decay_event_id log = event_id e) logs
    /\ simulated_year e = current_year s + decay_interval_years s
    /\ capacity_before_kb e = current_capacity_kb s
    /\ option_map current_capacity_kb (settings st') = Some (capacity_after_kb e)
    /\ option_map current_year (settings st') = Some (simulated_year e)
    /\ storage_before_kb e = storage_used (archive_items st)
    /\ storage_after_kb e = storage_before_kb e
    /\ items_affected e = 0
    /\ (forall item, In item (archive_items st) ->
          moved (archive_items st') item <-> In item (firstn n sorted))
    /\ (List.length logs <= n)%nat
    /\ storage_used (archive_items st')
       = storage_after_kb e - storage_freed (firstn n sorted).
Proof.
  intros Hn Hs Hu _ Hin. cbv zeta.
  destruct (cycle_full st s u Hs Hu Hin)
    as (k & logs & sys & H0 & H1 & H2 & H3 & _ & _ & H6 & H7 & _ & _).
  cbv zeta in *.
  assert (HT : Forall2 (fun before after =>
               (~ In before (firstn k (sortedItems (select_items (archive_items st))))
                /\ after = before)
               \/ (In before (firstn k (sortedItems (select_items (archive_items st))))
                   /\ after = degraded before))
             (archive_items st) (archive_items (processDecayEvent st))).
  { rewrite H6. apply transitions_table.
    - exact Hn.
    - apply cycle_processed.
    - apply firstn_In_NoDup, sortedItems_NoDup, Hn. }
  eexists. exists (filter log_accepted logs), k.
  split; [exact H7 |]. split; [exact H3 |].
  cbn [event_id items_affected simulated_year capacity_before_kb
       capacity_after_kb storage_before_kb storage_after_kb].
  rewrite (cycle_settings st s u Hs Hu Hin). cbn [option_map].
  split; [| split; [| repeat split]].
  - intro Hi. apply in_map_iff in Hi. destruct Hi as (e & He & Hi).
    pose proof (fresh_event_id_new (decay_events st)) as Hf.
    rewrite Forall_forall in Hf. specialize (Hf e Hi).
    apply Nat.eqb_neq in Hf. contradiction.
  - rewrite Forall_forall in *. intros log Hl. apply filter_In in Hl.
    apply H2. tauto.
  - apply (moved_processed _ _ _ item Hn HT H).
  - intro Hp. apply (processed_moved _ _ _ item HT H); [| exact Hp].
    apply (cycle_processed st k item Hp).
  - apply Forall2_length_eq in H1.
    etransitivity; [apply filter_length_le |].
    rewrite <- H1, length_firstn. lia.
  - rewrite H6. apply storage_after_transitions.
    + exact Hn.
    + apply firstn_In_NoDup, sortedItems_NoDup, Hn.
    + apply cycle_processed.
Qed.

Lemma decay_event_accounting_witness :
  map (fun e => (storage_before_kb e, storage_after_kb e, items_affected e))
    (decay_events (processDecayEvent Scenario.one_item))
  = [ (1000, 1000, 0) ]
  /\ storage_used (archive_items (processDecayEvent Scenario.one_item)) = 700
  /\ List.length (degradation_logs (processDecayEvent Scenario.one_item)) = 1%nat
  /\ exists e n,
       decay_events (processDecayEvent Scenario.one_item) = [e]
       /\ storage_after_kb e = storage_used (archive_items Scenario.one_item)
       /\ storage_used (archive_items (processDecayEvent Scenario.one_item))
          = storage_after_kb e
            - storage_freed
                (firstn n (sortedItems
                             (select_items (archive_items Scenario.one_item)))).
Proof.
  split; [vm_compute; reflexivity |]. split; [vm_compute; reflexivity |].
  split; [vm_compute; reflexivity |].
  assert (Hn : NoDup (map id (archive_items Scenario.one_item))).
  { cbn. constructor; [intros [] | constructor]. }
  destruct (decay_event_accounting Scenario.one_item
              (Scenario.the_settings 0 1000 50) "owner-1" Hn eq_refl eq_refl)
    as (e & logs & n & H1 & _ & _ & _ & _ & _ & _ & _ & H9 & H10 & _ & _ & _ & H14).
  - cbn. lia.
  - cbn. lia.
  - exists e, n. split; [exact H1 |]. split; [| exact H14].
    rewrite H10. exact H9.
Defined.

(** X2: the loop stops as soon as the storage fits.  A cycle degrades the
    first [n] items of the order and no other row.  The storage in use
    after the cycle is the storage before it less what these transitions
    freed, which is what the log entries sent for them record; it fits the
    new capacity unless every live item has been degraded; each transition
    was made while the storage left by the earlier ones still exceeded the
    capacity; and if the storage fits from the start, no item is degraded,
    nothing is logged and no alert is raised. *)
Theorem cycle_stops_when_storage_fits (st : State) (s : SimulationSettings)
    (u : string) :
  NoDup (map id (archive_items st)) ->
  settings st = Some s -> user st = Some u ->
  current_year s + decay_interval_years s <= total_years s ->
  let st' := processDecayEvent st in
  let capacityAfter := decayed_capacity (current_capacity_kb s) (decay_percent s) in
  let sorted := sortedItems (select_items (archive_items st)) in
  exists (n : nat) (sent : list DegradationLog),
    (forall item, In item (archive_items st) ->
       moved (archive_items st') item <-> In item (firstn n sorted))
    /\ Forall2 (fun before after =>
                  (~ In before (firstn n sorted) /\ after = before)
                  \/ (In before (firstn n sorted) /\ id after = id before
                      /\ forward_edge (stage before) (stage after)
                           (current_size_kb before) (current_size_kb after)))
         (archive_items st) (archive_items st')
    /\ Forall2 records (firstn n sorted) sent
    /\ degradation_logs st' = degradation_logs st ++ filter log_accepted sent
    /\ storage_used (archive_items st')
       = storage_used (archive_items st) - storage_freed (firstn n sorted)
    /\ freed_by sent = storage_freed (firstn n sorted)
    /\ (storage_used (archive_items st') <= capacityAfter
        \/ n = List.length (select_items (archive_items st)))
    /\ (forall j : nat, (j < n)%nat ->
          capacityAfter
          < storage_used (archive_items st) - storage_freed (firstn j sorted))
    /\ (storage_used (archive_items st) <= capacityAfter ->
        n = 0%nat /\ archive_items st' = archive_items st
        /\ degradation_logs st' = degradation_logs st
        /\ alerts st' = alerts st).
Proof.
  intros Hn Hs Hu Hin. cbv zeta.
  destruct (cycle_full st s u Hs Hu Hin)
    as (k & logs & sys & H0 & H1 & H2 & H3 & H4 & H5 & H6 & H7 & H8 & H9).
  cbv zeta in *.
  assert (HT : Forall2 (fun before after =>
               (~ In before (firstn k (sortedItems (select_items (archive_items st))))
                /\ after = before)
               \/ (In before (firstn k (sortedItems (select_items (archive_items st))))
                   /\ after = degraded before))
             (archive_items st) (archive_items (processDecayEvent st))).
  { rewrite H6. apply transitions_table.
    - exact Hn.
    - apply cycle_processed.
    - apply firstn_In_NoDup, sortedItems_NoDup, Hn. }
  assert (Hafter : storage_used (archive_items (processDecayEvent st))
                   = storage_used (archive_items st)
                     - storage_freed
                         (firstn k (sortedItems (select_items (archive_items st))))).
  { rewrite H6. apply storage_after_transitions.
    - exact Hn.
    - apply firstn_In_NoDup, sortedItems_NoDup, Hn.
    - apply cycle_processed. }
  exists k, logs.
  split; [| split; [| split; [exact H1 | split; [exact H3 | split; [exact Hafter |
    split; [apply (records_freed _ _ H1) | split; [| split; [exact H9 |]]]]]]]].
  - intros item Hitem. split.
    + apply (moved_processed _ _ _ item Hn HT Hitem).
    + intro Hp. apply (processed_moved _ _ _ item HT Hitem); [| exact Hp].
      apply (cycle_processed st k item Hp).
  - eapply Forall2_impl; [| exact HT]. cbv beta.
    intros b a [[Hnot ->] | [Hp ->]]; [left; auto | right].
    split; [exact Hp |]. split; [apply degraded_id |].
    apply (degraded_stage b). apply (cycle_processed st k b Hp).
  - rewrite Hafter.
    destruct H8 as [H8 | H8]; [left; exact H8 | right].
    rewrite H8. apply Permutation_length, sortedItems_perm.
  - intro Hfit. destruct k as [| k].
    + split; [reflexivity |]. split; [exact H6 |].
      inversion H1; subst. split; [rewrite H3; apply app_nil_r |].
      exact (proj2 (proj2 (cycle_no_pressure st s u Hs Hu Hin Hfit))).
    + specialize (H9 0%nat). cbn in H9. lia.
Qed.

Lemma cycle_stops_when_storage_fits_witness :
  map (fun row => (stage row, current_size_kb row))
    (archive_items (processDecayEvent Scenario.one_item))
  = [ (COMPRESSED, 700) ]
  /\ exists n,
       storage_used (archive_items (processDecayEvent Scenario.one_item))
       = storage_used (archive_items Scenario.one_item)
         - storage_freed
             (firstn n (sortedItems
                          (select_items (archive_items Scenario.one_item))))
       /\ (moved (archive_items (processDecayEvent Scenario.one_item))
             (Scenario.item "a" FULL 1000 (Some (of_Z 10)))
           <-> In (Scenario.item "a" FULL 1000 (Some (of_Z 10)))
                 (firstn n (sortedItems
                              (select_items (archive_items Scenario.one_item))))).
Proof.
  split; [vm_compute; reflexivity |].
  assert (Hn : NoDup (map id (archive_items Scenario.one_item))).
  { cbn. constructor; [intros [] | constructor]. }
  destruct (cycle_stops_when_storage_fits Scenario.one_item
              (Scenario.the_settings 0 1000 50) "owner-1" Hn eq_refl eq_refl)
    as (n & sent & H1 & _ & _ & _ & H5 & _).
  - cbn. lia.
  - exists n. split; [exact H5 |]. apply H1. left. reflexivity.
Defined.

(** ** Rows over several cycles *)


Lemma same_item_refl (a : ArchiveItem) : same_item a a.
Proof. repeat split. Qed.

Lemma same_item_trans (a b c : ArchiveItem) :
  same_item a b -> same_item b c -> same_item a c.
Proof.
  unfold same_item. intros (A1 & A2 & A3 & A4) (B1 & B2 & B3 & B4).
  repeat split; congruence.
Qed.

Lemma same_item_degraded (a : ArchiveItem) : same_item a (degraded a).
Proof.
  unfold same_item, degraded.
  destruct (next_degradation _ _ _) as [[? ?] ?]. repeat split.
Qed.

Lemma Forall2_compose {A : Type} (R1 R2 R3 : A -> A -> Prop) (l1 l2 l3 : list A) :
  (forall a b c, R1 a b -> R2 b c -> R3 a c) ->
  Forall2 R1 l1 l2 -> Forall2 R2 l2 l3 -> Forall2 R3 l1 l3.
Proof.
  intros Hc H12. revert l3. induction H12 as [| a b l1 l2 Hab H12 IH]; intros l3 H23.
  - inversion H23. constructor.
  - inversion H23 as [| ? c ? l3' Hbc H23']; subst. constructor; eauto.
Qed.

Lemma Forall2_ids (R : ArchiveItem -> ArchiveItem -> Prop) (l1 l2 : list ArchiveItem) :
  (forall a b, R a b -> id b = id a) ->
  Forall2 R l1 l2 -> map id l2 = map id l1.
Proof.
  intros HR H. induction H; simpl; [reflexivity |]. f_equal; auto.
Qed.

(** One cycle, row by row: a row is left alone or takes the transition of
    its stage; a DELETED row is left alone. *)
Lemma cycle_rows (st : State) :
  NoDup (map id (archive_items st)) ->
  Forall2 (fun before after =>
             after = before \/ (stage before <> DELETED /\ after = degraded before))
    (archive_items st) (archive_items (processDecayEvent st)).
Proof.
  intro Hn.
  destruct (processDecayEvent_logs st) as (k & logs & _ & _ & H).
  cbv zeta in H. rewrite H.
  eapply Forall2_impl; [| apply transitions_table].
  - intros a b [[_ ->] | [Hin ->]]; [left; reflexivity | right].
    split; [| reflexivity]. apply (cycle_processed st k a Hin).
  - exact Hn.
  - intros item Hi. apply (cycle_processed st k item Hi).
  - apply firstn_In_NoDup, sortedItems_NoDup, Hn.
Qed.

(** Any number of cycles, row by row. *)
Lemma rows_after_cycles (st : State) (k : nat) :
  NoDup (map id (archive_items st)) ->
  Forall2 (fun before after =>
             same_item before after
             /\ stage_index (stage before) <= stage_index (stage after)
                <= stage_index (stage before) + Z.of_nat k
             /\ (stage before = DELETED -> after = before))
    (archive_items st) (archive_items (Nat.iter k processDecayEvent st)).
Proof.
  intro Hn. induction k as [| k IH].
  - simpl. apply Forall2_same. intro x. split; [apply same_item_refl |].
    split; [lia | auto].
  - rewrite Nat.iter_succ.
    eapply Forall2_compose; [| exact IH | apply cycle_rows].
    + intros a b c (Hs & Hi & Hd) [-> | [Hlive ->]].
      * split; [exact Hs |]. split; [lia | exact Hd].
      * split; [eapply same_item_trans; [exact Hs | apply same_item_degraded] |].
        destruct (degraded_stage b Hlive) as [Hidx _].
        split; [lia |].
        intro Ha. specialize (Hd Ha). subst b. contradiction.
    + erewrite Forall2_ids; [exact Hn | | exact IH].
      intros a b (Hs & _). apply Hs.
Qed.

Lemma ids_after_cycles (st : State) (k : nat) :
  NoDup (map id (archive_items st)) ->
  map id (archive_items (Nat.iter k processDecayEvent st))
  = map id (archive_items st).
Proof.
  intro Hn. eapply Forall2_ids; [| apply (rows_after_cycles st k Hn)].
  intros a b (Hs & _). apply Hs.
Qed.

(** X3: over any number of cycles no row is added, removed or reordered,
    and no id, title, score or reconstructability changes; a stage only
    moves forward, by at most one step per cycle; a DELETED row is never
    touched again; a FULL item is not deleted before the fourth cycle. *)
Theorem deletion_is_final (st : State) (k : nat) :
  NoDup (map id (archive_items st)) ->
  Forall2 (fun before after =>
             same_item before after
             /\ stage_index (stage before) <= stage_index (stage after)
                <= stage_index (stage before) + Z.of_nat k
             /\ (stage before = DELETED -> after = before)
             /\ (stage before = FULL -> stage after = DELETED -> (4 <= k)%nat))
    (archive_items st) (archive_items (Nat.iter k processDecayEvent st)).
Proof.
  intro Hn.
  eapply Forall2_impl; [| exact (rows_after_cycles st k Hn)].
  intros a b (Hs & Hi & Hd). repeat split; try apply Hs; try lia; auto.
  intros Hf Hdel. rewrite Hf, Hdel in Hi. simpl in Hi. lia.
Qed.

Lemma deletion_is_final_witness :
  Forall2 (fun before after => stage before = DELETED -> after = before)
    (archive_items Scenario.unscored)
    (archive_items (Nat.iter 3 processDecayEvent Scenario.unscored)).
Proof.
  assert (Hn : NoDup (map id (archive_items Scenario.unscored))).
  { cbn. constructor; [intros [H | []]; discriminate H |].
    constructor; [intros [] | constructor]. }
  eapply Forall2_impl; [| exact (deletion_is_final Scenario.unscored 3 Hn)].
  intros a b (_ & _ & H & _). exact H.
Defined.

(** ** What a reset restores *)


(** The loop of [resetSimulation] resets every row. *)
Lemma reset_loop (size_kb : string -> Z) (table : list ArchiveItem) :
  fold_left
    (fun t item => update_eq id (id item) (reset_item (size_kb (id item))) t)
    table table
  = map (fun row => reset_item (size_kb (id row)) row) table.
Proof.
  assert (H : forall (sel t : list ArchiveItem),
             (forall x, In x sel -> In (id x) (map id t)) ->
             fold_left
               (fun t item =>
                  update_eq id (id item) (reset_item (size_kb (id item))) t)
               sel t
             = map (fun row =>
                      if existsb (fun x => String.eqb (id x) (id row)) sel
                      then reset_item (size_kb (id row)) row else row) t).
  { induction sel as [| x sel IH]; intros t Hin.
    - simpl. rewrite map_id. reflexivity.
    - cbn [fold_left]. rewrite IH.
      + unfold update_eq. rewrite map_map. apply map_ext. intro row.
        cbn [existsb]. rewrite (String.eqb_sym (id x) (id row)).
        destruct (String.eqb (id row) (id x)) eqn:E.
        * apply String.eqb_eq in E. cbn [id reset_item orb]. rewrite E.
          destruct (existsb _ sel); reflexivity.
        * reflexivity.
      + intros y Hy. unfold update_eq. rewrite map_map.
        specialize (Hin y (or_intror Hy)).
        apply in_map_iff in Hin. destruct Hin as (r & Hr & Hin).
        apply in_map_iff. exists r. split; [| exact Hin].
        destruct (String.eqb (id r) (id x)); [exact Hr | exact Hr]. }
  rewrite H.
  - apply map_ext_in. intros row Hrow.
    replace (existsb (fun x => String.eqb (id x) (id row)) table) with true;
      [reflexivity |].
    symmetry. apply existsb_exists. exists row. split; [exact Hrow |].
    apply String.eqb_refl.
  - intros x Hx. now apply in_map.
Qed.

Lemma resetSimulation_items (size_kb : string -> Z) (st : State)
    (s : SimulationSettings) (u : string) :
  settings st = Some s -> user st = Some u ->
  archive_items (resetSimulation size_kb st)
  = map (fun row => reset_item (size_kb (id row)) row) (archive_items st).
Proof.
  intros Hs Hu. unfold resetSimulation. rewrite Hs, Hu.
  cbn [archive_items]. apply reset_loop.
Qed.

Lemma update_eq_twice {A : Type} (key : A -> string) (k : string) (f g : A -> A)
    (t : list A) :
  (forall row, key (f row) = key row) ->
  (forall row, g (f row) = g row) ->
  update_eq key k g (update_eq key k f t) = update_eq key k g t.
Proof.
  intros Hk Hg. unfold update_eq. rewrite map_map. apply map_ext.
  intro row. destruct (String.eqb (key row) k) eqn:E.
  - rewrite Hk, E. apply Hg.
  - rewrite E. reflexivity.
Qed.

(** X4: [resetSimulation] puts every row back to FULL with its original
    size, sets year 0, the start capacity and [is_running: false] in the
    state and in the stored row, stops the timer and leaves the alerts
    alone.  The decay events and the degradation logs of the earlier cycles
    stay in their tables, the two DELETE statements reaching no row.  A
    second reset changes nothing. *)
Theorem reset_restores (size_kb : string -> Z) (st : State)
    (s : SimulationSettings) (u : string) :
  settings st = Some s -> user st = Some u ->
  let st' := resetSimulation size_kb st in
  Forall2 (fun before after =>
             same_item before after
             /\ stage after = FULL
             /\ current_size_kb after = size_kb (id before))
    (archive_items st) (archive_items st')
  /\ decay_events st' = decay_events st
  /\ degradation_logs st' = degradation_logs st
  /\ alerts st' = alerts st
  /\ isRunning st' = false
  /\ settings st' = Some (reset_settings (start_capacity_kb s) s)
  /\ (forall row, In row (simulation_settings st) ->
      settings_id row = settings_id s ->
      In (reset_settings (start_capacity_kb s) row) (simulation_settings st'))
  /\ resetSimulation size_kb st' = st'.
Proof.
  intros Hs Hu. cbv zeta.
  assert (E : resetSimulation size_kb st =
    {| user := Some u;
       settings := Some (reset_settings (start_capacity_kb s) s);
       isRunning := false;
       simulation_settings :=
         update_eq settings_id (settings_id s)
           (reset_settings (start_capacity_kb s)) (simulation_settings st);
       archive_items :=
         map (fun row => reset_item (size_kb (id row)) row) (archive_items st);
       decay_events := decay_events st;
       degradation_logs := degradation_logs st;
       alerts := alerts st |}).
  { unfold resetSimulation. rewrite Hs, Hu, reset_loop. reflexivity. }
  rewrite E.
  cbn [archive_items decay_events degradation_logs alerts isRunning settings
       simulation_settings].
  split.
  { clear. induction (archive_items st) as [| x t IH]; simpl; constructor; auto.
    repeat split. }
  repeat split.
  - intros row Hrow Hid. unfold update_eq. apply in_map_iff. exists row.
    split; [| exact Hrow]. rewrite Hid, String.eqb_refl. reflexivity.
  - unfold resetSimulation.
    cbn [user settings isRunning simulation_settings archive_items decay_events
         degradation_logs alerts settings_id start_capacity_kb reset_settings].
    rewrite reset_loop. f_equal.
    + apply update_eq_twice; intros row; reflexivity.
    + rewrite map_map. apply map_ext. intro row. reflexivity.
Qed.

Lemma reset_restores_witness :
  map (fun row => (stage row, current_size_kb row))
    (archive_items (processDecayEvent Scenario.one_item))
  = [ (COMPRESSED, 700) ]
  /\ map (fun row => (stage row, current_size_kb row))
       (archive_items (resetSimulation (fun _ => 1000)
                         (processDecayEvent Scenario.one_item)))
     = [ (FULL, 1000) ]
  /\ List.length (decay_events (resetSimulation (fun _ => 1000)
                                  (processDecayEvent Scenario.one_item))) = 1%nat
  /\ List.length (degradation_logs (resetSimulation (fun _ => 1000)
                                      (processDecayEvent Scenario.one_item))) = 1%nat
  /\ degradation_logs (resetSimulation (fun _ => 1000)
                         (processDecayEvent Scenario.one_item))
     = degradation_logs (processDecayEvent Scenario.one_item).
Proof.
  split; [vm_compute; reflexivity |]. split; [vm_compute; reflexivity |].
  split; [vm_compute; reflexivity |]. split; [vm_compute; reflexivity |].
  assert (Hin : current_year (Scenario.the_settings 0 1000 50)
                + decay_interval_years (Scenario.the_settings 0 1000 50)
                <= total_years (Scenario.the_settings 0 1000 50))
    by (cbn; lia).
  pose proof (reset_restores (fun _ => 1000) (processDecayEvent Scenario.one_item)
                _ "owner-1"
                (cycle_settings Scenario.one_item _ "owner-1" eq_refl eq_refl Hin)
                (eq_trans (cycle_user Scenario.one_item _ "owner-1" eq_refl eq_refl Hin)
                          eq_refl)) as H.
  cbv zeta in H.
  exact (proj1 (proj2 (proj2 H))).
Defined.

Lemma reset_apply_transition (size_kb : string -> Z) (item : ArchiveItem)
    (t : list ArchiveItem) :
  map (fun row => reset_item (size_kb (id row)) row) (apply_transition item t)
  = map (fun row => reset_item (size_kb (id row)) row) t.
Proof.
  unfold apply_transition, update_eq. rewrite map_map. apply map_ext.
  intro row. destruct (String.eqb (id row) (id item)); reflexivity.
Qed.

Lemma reset_apply_transitions (size_kb : string -> Z) (processed t : list ArchiveItem) :
  map (fun row => reset_item (size_kb (id row)) row)
    (fold_left (fun t item => apply_transition item t) processed t)
  = map (fun row => reset_item (size_kb (id row)) row) t.
Proof.
  revert t. induction processed as [| p l IH]; intro t; simpl; [reflexivity |].
  rewrite IH. apply reset_apply_transition.
Qed.

Lemma same_archive_refl (a : State) : same_archive a a.
Proof. repeat split. Qed.

Lemma same_archive_trans (a b c : State) :
  same_archive a b -> same_archive b c -> same_archive a c.
Proof.
  unfold same_archive.
  intros (A1 & A2 & A3 & A4 & A5) (B1 & B2 & B3 & B4 & B5).
  repeat split; congruence.
Qed.

Lemma reset_keeps (size_kb : string -> Z) (st : State) :
  alerts (resetSimulation size_kb st) = alerts st
  /\ decay_events (resetSimulation size_kb st) = decay_events st
  /\ degradation_logs (resetSimulation size_kb st) = degradation_logs st.
Proof.
  unfold resetSimulation. destruct (settings st), (user st); repeat split.
Qed.

Lemma reset_after_cycle (size_kb : string -> Z) (st : State) :
  same_archive (resetSimulation size_kb (processDecayEvent st))
               (resetSimulation size_kb st).
Proof.
  destruct (processDecayEvent_logs st) as (k & logs & _ & _ & Hitems).
  cbv zeta in Hitems.
  destruct (settings st) as [s |] eqn:Hs; cycle 1.
  { unfold processDecayEvent. rewrite Hs. apply same_archive_refl. }
  destruct (user st) as [u |] eqn:Hu; cycle 1.
  { unfold processDecayEvent. rewrite Hs, Hu. apply same_archive_refl. }
  assert (Hu' : user (processDecayEvent st) = Some u).
  { unfold processDecayEvent. rewrite Hs, Hu.
    destruct (current_year s + decay_interval_years s >? total_years s);
      reflexivity. }
  assert (Hs' : exists s',
             settings (processDecayEvent st) = Some s'
             /\ reset_settings (start_capacity_kb s') s'
                = reset_settings (start_capacity_kb s) s
             /\ settings_id s' = settings_id s
             /\ start_capacity_kb s' = start_capacity_kb s
             /\ exists f,
                  simulation_settings (processDecayEvent st)
                  = update_eq settings_id (settings_id s) f (simulation_settings st)
                  /\ (forall row, settings_id (f row) = settings_id row)
                  /\ (forall c row, reset_settings c (f row) = reset_settings c row)).
  { unfold processDecayEvent. rewrite Hs, Hu.
    destruct (current_year s + decay_interval_years s >? total_years s).
    - exists s. cbn [settings simulation_settings].
      repeat split. exists (set_is_running false). repeat split.
    - eexists. cbn [settings simulation_settings].
      split; [reflexivity |]. repeat split.
      eexists. split; [reflexivity |]. split; intros; reflexivity. }
  destruct Hs' as (s' & Hs' & Hr & Hid & Hstart & f & Hf & Hfid & Hfr).
  unfold same_archive, resetSimulation.
  rewrite Hs', Hu', Hs, Hu.
  cbn [user settings isRunning simulation_settings archive_items].
  rewrite Hr, Hid, Hstart, Hf, !reset_loop, Hitems, reset_apply_transitions.
  rewrite update_eq_twice by auto.
  repeat split; congruence.
Qed.

(** X5: a reset undoes what the cycles did to the archive.  Resetting
    after any number of cycles gives the user, the settings, the stored
    settings row and the archive rows a reset would have given before
    them.  The decay events, the logs and the alerts of these cycles are
    still there after the reset. *)
Theorem reset_undoes_cycles (size_kb : string -> Z) (st : State) (k : nat) :
  same_archive (resetSimulation size_kb (Nat.iter k processDecayEvent st))
               (resetSimulation size_kb st)
  /\ alerts (resetSimulation size_kb (Nat.iter k processDecayEvent st))
     = alerts (Nat.iter k processDecayEvent st)
  /\ decay_events (resetSimulation size_kb (Nat.iter k processDecayEvent st))
     = decay_events (Nat.iter k processDecayEvent st)
  /\ degradation_logs (resetSimulation size_kb (Nat.iter k processDecayEvent st))
     = degradation_logs (Nat.iter k processDecayEvent st).
Proof.
  split; [| apply reset_keeps].
  induction k as [| k IH].
  - apply same_archive_refl.
  - rewrite Nat.iter_succ.
    eapply same_archive_trans; [| exact IH].
    apply reset_after_cycle.
Qed.

Lemma reset_undoes_cycles_witness :
  map (fun row => (stage row, current_size_kb row))
    (archive_items (Nat.iter 2 processDecayEvent Scenario.small_capacity))
  = [ (SUMMARIZED, 210) ]
  /\ map (fun row => (stage row, current_size_kb row))
       (archive_items
          (resetSimulation (fun _ => 1000)
             (Nat.iter 2 processDecayEvent Scenario.small_capacity)))
     = [ (FULL, 1000) ]
  /\ List.length
       (degradation_logs
          (resetSimulation (fun _ => 1000)
             (Nat.iter 2 processDecayEvent Scenario.small_capacity))) = 2%nat.
Proof.
  split; [vm_compute; reflexivity |].
  destruct (reset_undoes_cycles (fun _ => 1000) Scenario.small_capacity 2)
    as ((_ & _ & _ & _ & H) & _ & _ & H').
  split; [rewrite H; vm_compute; reflexivity |].
  rewrite H'. vm_compute. reflexivity.
Defined.

(** ** Integers as numbers *)

Lemma of_Z_pos (p : positive) : of_Z (Zpos p) = binary_round prec emax false p 0.
Proof. with_strategy transparent [of_Z] reflexivity. Qed.

Lemma div_eq (x y : number) : div x y = SFdiv prec emax x y.
Proof. with_strategy transparent [div] reflexivity. Qed.

Lemma floor_finite (m : positive) (e : Z) :
  floor (S754_finite false m e)
  = if e <? 0 then Zpos m / 2 ^ (- e) else Zpos m * 2 ^ e.
Proof.
  with_strategy transparent [floor] (unfold floor).
  destruct e as [| p | p].
  - rewrite Z.shiftl_mul_pow2 by lia. reflexivity.
  - rewrite Z.shiftl_mul_pow2 by lia. reflexivity.
  - rewrite Z.shiftr_div_pow2 by lia. reflexivity.
Qed.

Lemma floor_zero (s : bool) : floor (S754_zero s) = 0.
Proof. with_strategy transparent [floor] reflexivity. Qed.

(** An integer below 2^53 is a double: its mantissa, shifted to 53 digits. *)
Lemma of_Z_exact (n : Z) :
  0 < n < 2 ^ 53 ->
  exists (m : positive) (e : Z),
    of_Z n = S754_finite false m e
    /\ bounded prec emax m e = true
    /\ -52 <= e <= 0
    /\ Zpos m = n * 2 ^ (- e)
    /\ Zpos (digits2_pos m) = 53.
Proof.
  intros [Hn0 Hn]. destruct n as [| p | p]; try lia.
  rewrite of_Z_pos.
  destruct (binary_round_aligned false p 0) as (mz & ez & -> & E1 & E2 & E3).
  destruct (digits2_bounds p) as [D1 D2].
  remember (Zpos (digits2_pos p)) as d eqn:Ed.
  assert (Hd1 : 1 <= d) by (rewrite Ed; lia).
  assert (Hd53 : d <= 53).
  { destruct (Z_le_gt_dec d 53); [assumption |].
    assert (2 ^ 53 <= 2 ^ (d - 1)) by (apply Z.pow_le_mono_r; lia). lia. }
  rewrite fexp_eq, Z.add_0_r in E1.
  assert (Hez : ez = d - 53) by lia.
  assert (Hmz : Zpos mz = Zpos p * 2 ^ (53 - d)).
  { rewrite E3. f_equal. f_equal. lia. }
  assert (Hdz : Zpos (digits2_pos mz) = 53).
  { apply digits2_unique. rewrite Hmz.
    assert (A : 2 ^ (53 - 1) = 2 ^ (d - 1) * 2 ^ (53 - d)).
    { rewrite <- Z.pow_add_r by lia. f_equal. lia. }
    assert (B : 2 ^ 53 = 2 ^ d * 2 ^ (53 - d)).
    { rewrite <- Z.pow_add_r by lia. f_equal. lia. }
    rewrite A, B.
    assert (0 < 2 ^ (53 - d)) by (apply Z.pow_pos_nonneg; lia).
    split.
    - apply Z.mul_le_mono_nonneg_r; lia.
    - apply Z.mul_lt_mono_pos_r; lia. }
  destruct (binary_round_aux_spec false mz ez E2) as (q & _ & Q2 & _ & _ & ->).
  rewrite fexp_eq, Hdz in Q2 |- *.
  replace (Z.max (53 + ez - 53) (-1074)) with ez in * by lia.
  rewrite Z.sub_diag, Z.pow_0_r, Z.mod_1_r, Z.div_1_r in Q2.
  rewrite (Q2 eq_refl).
  destruct (digits2_bounds mz) as [_ M2]. rewrite Hdz, pow2_53 in M2.
  unfold round_result.
  replace (Zpos mz <? 9007199254740992) with true
    by (symmetry; apply Z.ltb_lt; lia).
  replace (ez <=? 971) with true by (symmetry; apply Z.leb_le; lia).
  exists mz, ez. split; [reflexivity |].
  split; [apply bounded_spec; rewrite Hdz; lia |].
  split; [lia |]. split; [| exact Hdz].
  rewrite Hmz. f_equal. f_equal. lia.
Qed.

Lemma of_Z_scaled (L n : Z) (m : positive) (e : Z) :
  L <= e -> e <= 0 -> Zpos m = n * 2 ^ (- e) ->
  scaled L (Zpos m) e = n * 2 ^ (- L).
Proof.
  intros HL He Hm. unfold scaled. rewrite Hm, <- Z.mul_assoc.
  rewrite <- Z.pow_add_r by lia. f_equal. f_equal. lia.
Qed.

(** The floor of a number that is at most a double below [N]. *)
Lemma floor_at_most (L : Z) (r : number) (mB : positive) (eB : Z) (N : Z) :
  L <= -1074 ->
  at_most L r mB eB ->
  0 <= floor r
  /\ (scaled L (Zpos mB) eB <= N * 2 ^ (- L) -> floor r <= N)
  /\ (scaled L (Zpos mB) eB < N * 2 ^ (- L) -> floor r < N).
Proof.
  intros HL [-> | (m & e & -> & Hb & Hv)].
  - rewrite floor_zero. split; [lia |].
    assert (P : 0 < 2 ^ (- L)) by (apply Z.pow_pos_nonneg; lia).
    pose proof (Z.lt_le_incl 0 (scaled L (Zpos mB) eB)) as Hpos.
    assert (HB : 0 <= scaled L (Zpos mB) eB).
    { unfold scaled. destruct (Z_le_gt_dec 0 (eB - L)).
      - apply Z.mul_nonneg_nonneg; [lia | apply Z.pow_nonneg; lia].
      - rewrite Z.pow_neg_r by lia. lia. }
    split; intro H; nia.
  - apply bounded_spec in Hb. destruct Hb as [Hb1 Hb2].
    assert (He : L <= e) by lia.
    rewrite floor_finite.
    assert (P : 0 < 2 ^ (- L)) by (apply Z.pow_pos_nonneg; lia).
    destruct (Z.ltb_spec e 0) as [Hneg | Hpos].
    + assert (Pe : 0 < 2 ^ (- e)) by (apply Z.pow_pos_nonneg; lia).
      assert (Pd : 0 < 2 ^ (e - L)) by (apply Z.pow_pos_nonneg; lia).
      assert (E : 2 ^ (- L) = 2 ^ (- e) * 2 ^ (e - L)).
      { rewrite <- Z.pow_add_r by lia. f_equal. lia. }
      pose proof (Z.mul_div_le (Zpos m) (2 ^ (- e)) Pe) as Hfl.
      set (F := Zpos m / 2 ^ (- e)) in *.
      assert (HF : F * 2 ^ (- L) <= scaled L (Zpos m) e).
      { unfold scaled. rewrite E.
        replace (F * (2 ^ (- e) * 2 ^ (e - L)))
          with ((2 ^ (- e) * F) * 2 ^ (e - L)) by ring.
        apply Z.mul_le_mono_nonneg_r; lia. }
      split; [apply Z.div_pos; lia |].
      split; intro H.
      * assert (F * 2 ^ (- L) <= N * 2 ^ (- L)) by lia.
        apply Z.mul_le_mono_pos_r in H0; assumption.
      * assert (F * 2 ^ (- L) < N * 2 ^ (- L)) by lia.
        apply Z.mul_lt_mono_pos_r in H0; assumption.
    + assert (Pe : 0 < 2 ^ e) by (apply Z.pow_pos_nonneg; lia).
      assert (E : scaled L (Zpos m) e = (Zpos m * 2 ^ e) * 2 ^ (- L)).
      { unfold scaled. rewrite <- Z.mul_assoc, <- Z.pow_add_r by lia.
        reflexivity. }
      split; [nia |].
      split; intro H.
      * assert (Zpos m * 2 ^ e * 2 ^ (- L) <= N * 2 ^ (- L)) by lia.
        apply Z.mul_le_mono_pos_r in H0; assumption.
      * assert (Zpos m * 2 ^ e * 2 ^ (- L) < N * 2 ^ (- L)) by lia.
        apply Z.mul_lt_mono_pos_r in H0; assumption.
Qed.

(** A product of two positive doubles, the second of 53 digits, stays at or
    below any double its exact value does not exceed. *)
Lemma mul_at_most (L : Z) (m : positive) (e : Z) (mc : positive) (ec : Z)
    (mB : positive) (eB : Z) :
  L <= e + ec -> L <= eB ->
  Zpos (digits2_pos mc) = 53 ->
  bounded prec emax mB eB = true ->
  scaled L (Zpos m * Zpos mc) (e + ec) <= scaled L (Zpos mB) eB ->
  at_most L (mul (S754_finite false m e) (S754_finite false mc ec)) mB eB.
Proof.
  intros HL HLB Hdc HB Hv.
  rewrite mul_eq. cbn [SFmul xorb].
  pose proof (digits2_mul m mc) as Hd.
  assert (Hdm : 1 <= Zpos (digits2_pos m)) by lia.
  apply binary_round_aux_le; try assumption.
  rewrite fexp_eq. lia.
Qed.

Lemma stage_factors :
  lit 7 1 = S754_finite false 6305039478318694 (-53)
  /\ lit 3 1 = S754_finite false 5404319552844595 (-54)
  /\ lit 1 1 = S754_finite false 7205759403792794 (-56).
Proof. repeat split; vm_compute; reflexivity. Qed.

(** Multiplying a positive integer by a factor below [1 - 2^-52] and
    flooring gives a smaller integer, never a negative one. *)
Lemma floor_mul_shrinks (n : Z) (mc : positive) (ec : Z) :
  0 < n < 2 ^ 53 ->
  Zpos (digits2_pos mc) = 53 -> -64 <= ec <= 0 ->
  Zpos mc * 2 ^ 52 <= (2 ^ 52 - 1) * 2 ^ (- ec) ->
  0 <= floor (mul (of_Z n) (S754_finite false mc ec)) < n.
Proof.
  intros Hn Hdc Hec Hc.
  destruct (of_Z_exact n Hn) as (m & e & -> & Hb & He & Hm & Hd).
  destruct (digits2_bounds m) as [M1 M2]. rewrite Hd in M1, M2.
  change (53 - 1) with 52 in M1.
  assert (P52 : 0 < 2 ^ 52) by (apply Z.pow_pos_nonneg; lia).
  assert (Pc : 0 < 2 ^ (- ec)) by (apply Z.pow_pos_nonneg; lia).
  (* the exact product is at most the predecessor of [n] *)
  assert (Hprod : Zpos m * Zpos mc <= (Zpos m - 1) * 2 ^ (- ec)).
  { assert (H1 : Zpos m * Zpos mc * 2 ^ 52
                 <= Zpos m * ((2 ^ 52 - 1) * 2 ^ (- ec))).
    { rewrite <- Z.mul_assoc. apply Z.mul_le_mono_nonneg_l; lia. }
    assert (H2 : Zpos m * ((2 ^ 52 - 1) * 2 ^ (- ec))
                 <= (Zpos m - 1) * 2 ^ (- ec) * 2 ^ 52).
    { replace (Zpos m * ((2 ^ 52 - 1) * 2 ^ (- ec)))
        with ((Zpos m * 2 ^ 52 - Zpos m) * 2 ^ (- ec)) by ring.
      replace ((Zpos m - 1) * 2 ^ (- ec) * 2 ^ 52)
        with ((Zpos m * 2 ^ 52 - 2 ^ 52) * 2 ^ (- ec)) by ring.
      apply Z.mul_le_mono_nonneg_r; lia. }
    apply Z.mul_le_mono_pos_r with (p := 2 ^ 52); lia. }
  assert (Hscaled : scaled (-1128) (Zpos m * Zpos mc) (e + ec)
                    <= scaled (-1128) (Zpos m - 1) e).
  { unfold scaled.
    assert (E : 2 ^ (e - -1128) = 2 ^ (- ec) * 2 ^ (e + ec - -1128)).
    { rewrite <- Z.pow_add_r by lia. f_equal. lia. }
    rewrite E.
    replace ((Zpos m - 1) * (2 ^ (- ec) * 2 ^ (e + ec - -1128)))
      with ((Zpos m - 1) * 2 ^ (- ec) * 2 ^ (e + ec - -1128)) by ring.
    apply Z.mul_le_mono_nonneg_r; [apply Z.pow_nonneg; lia | exact Hprod]. }
  assert (Hn' : scaled (-1128) (Zpos m) e = n * 2 ^ (- -1128))
    by (apply of_Z_scaled; lia).
  assert (Pe : 0 < 2 ^ (e - -1128)) by (apply Z.pow_pos_nonneg; lia).
  assert (Hpred : scaled (-1128) (Zpos m - 1) e < n * 2 ^ (- -1128)).
  { rewrite <- Hn'. unfold scaled. apply Z.mul_lt_mono_pos_r; lia. }
  destruct (Z.eq_dec (Zpos m) (2 ^ 52)) as [Emin | Emin].
  - (* the predecessor of a power of two has one digit more, one exponent less *)
    assert (HB : bounded prec emax 9007199254740991 (e - 1) = true).
    { apply bounded_spec.
      change (Zpos (digits2_pos 9007199254740991)) with 53. lia. }
    assert (Hv : scaled (-1128) 9007199254740991 (e - 1)
                 = scaled (-1128) (2 * (Zpos m - 1) + 1) (e - 1)).
    { rewrite Emin. reflexivity. }
    assert (Hv2 : scaled (-1128) (2 * (Zpos m - 1)) (e - 1)
                  = scaled (-1128) (Zpos m - 1) e).
    { replace e with ((e - 1) + 1) at 2 by lia.
      rewrite scaled_shift by lia. f_equal. rewrite Z.pow_1_r. ring. }
    assert (Hle : scaled (-1128) (Zpos m * Zpos mc) (e + ec)
                  <= scaled (-1128) 9007199254740991 (e - 1)).
    { rewrite Hv. eapply Z.le_trans; [exact Hscaled |]. rewrite <- Hv2.
      unfold scaled. apply Z.mul_le_mono_nonneg_r;
        [apply Z.pow_nonneg; lia | lia]. }
    assert (Hlt : scaled (-1128) 9007199254740991 (e - 1) < n * 2 ^ (- -1128)).
    { rewrite <- Hn'.
      replace (scaled (-1128) (Zpos m) e)
        with (scaled (-1128) (2 * Zpos m) (e - 1)).
      - unfold scaled. apply Z.mul_lt_mono_pos_r;
          [apply Z.pow_pos_nonneg; lia | lia].
      - replace e with ((e - 1) + 1) at 2 by lia.
        rewrite scaled_shift by lia. f_equal. rewrite Z.pow_1_r. ring. }
    destruct (floor_at_most (-1128) _ 9007199254740991 (e - 1) n
                ltac:(lia)
                (mul_at_most (-1128) m e mc ec 9007199254740991 (e - 1)
                   ltac:(lia) ltac:(lia) Hdc HB Hle))
      as (F0 & _ & F2).
    split; [exact F0 | exact (F2 Hlt)].
  - assert (Hm1 : 2 ^ 52 <= Zpos m - 1) by lia.
    destruct (Zpos m - 1) as [| p1 | p1] eqn:Ep1; try lia.
    assert (HB : bounded prec emax p1 e = true).
    { apply bounded_spec.
      assert (Hd1 : Zpos (digits2_pos p1) = 53)
        by (apply digits2_unique; change (53 - 1) with 52; lia).
      rewrite Hd1. lia. }
    destruct (floor_at_most (-1128) _ p1 e n
                ltac:(lia)
                (mul_at_most (-1128) m e mc ec p1 e
                   ltac:(lia) ltac:(lia) Hdc HB Hscaled))
      as (F0 & _ & F2).
    split; [exact F0 | exact (F2 Hpred)].
Qed.

(** ** Sizes and storage over a run *)


Lemma mul_zero_l (m : positive) (e : Z) :
  mul (of_Z 0) (S754_finite false m e) = S754_zero false.
Proof. rewrite of_Z_0, mul_eq. reflexivity. Qed.

Lemma floor_factor (n : Z) (mc : positive) (ec : Z) :
  0 <= n < 2 ^ 53 ->
  Zpos (digits2_pos mc) = 53 -> -64 <= ec <= 0 ->
  Zpos mc * 2 ^ 52 <= (2 ^ 52 - 1) * 2 ^ (- ec) ->
  0 <= floor (mul (of_Z n) (S754_finite false mc ec)) <= n
  /\ (0 < n -> floor (mul (of_Z n) (S754_finite false mc ec)) < n).
Proof.
  intros Hn Hd Hec Hc. destruct (Z.eq_dec n 0) as [-> | Hn0].
  - rewrite mul_zero_l, floor_zero. lia.
  - pose proof (floor_mul_shrinks n mc ec ltac:(lia) Hd Hec Hc). lia.
Qed.

(** The transition of a live item never enlarges it, and shrinks it as soon
    as it is not empty. *)
Lemma degraded_size (item : ArchiveItem) :
  size_ok item -> stage item <> DELETED ->
  0 <= current_size_kb (degraded item) <= current_size_kb item
  /\ (0 < current_size_kb item ->
      current_size_kb (degraded item) < current_size_kb item).
Proof.
  unfold size_ok. intros Hs Hl.
  destruct stage_factors as (E7 & E3 & E1).
  unfold degraded, next_degradation.
  destruct (stage item); try contradiction; cbn [current_size_kb].
  - rewrite E7.
    apply floor_factor; [exact Hs | reflexivity | lia | vm_compute; discriminate].
  - rewrite E3.
    apply floor_factor; [exact Hs | reflexivity | lia | vm_compute; discriminate].
  - rewrite E1.
    apply floor_factor; [exact Hs | reflexivity | lia | vm_compute; discriminate].
  - lia.
Qed.

Lemma storage_used_le (t t' : list ArchiveItem) :
  Forall2 (fun before after =>
             (stage before = DELETED -> after = before)
             /\ 0 <= current_size_kb after <= current_size_kb before) t t' ->
  storage_used t' <= storage_used t.
Proof.
  intro H. induction H as [| b a t t' (Hd & Hsz) H IH].
  - lia.
  - rewrite (storage_used_cons a), (storage_used_cons b).
    assert (storage_used [a] <= storage_used [b]); [| lia].
    rewrite !storage_used_eq. cbn [filter].
    destruct (stage_eqb (stage b) DELETED) eqn:Eb.
    + apply stage_eqb_eq in Eb. rewrite (Hd Eb), Eb. simpl. lia.
    + destruct (stage_eqb (stage a) DELETED); simpl; lia.
Qed.

(** X6: every transition a cycle logs leaves a size between 0 and the
    size before, and a smaller one when the item was not empty: the
    products [size * 0.7], [size * 0.3] and [size * 0.1], rounded to a double
    and floored, never reach [size].  The sizes stay among the non-negative
    integers a number holds exactly. *)
Theorem every_transition_shrinks (st : State) :
  NoDup (map id (archive_items st)) ->
  Forall size_ok (archive_items st) ->
  exists logs : list DegradationLog,
    degradation_logs (processDecayEvent st) = degradation_logs st ++ logs
    /\ Forall (fun log =>
                 0 <= size_after_kb log <= size_before_kb log
                 /\ (0 < size_before_kb log ->
                     size_after_kb log < size_before_kb log)) logs
    /\ Forall size_ok (archive_items (processDecayEvent st)).
Proof.
  intros Hn Hok.
  destruct (processDecayEvent_logs st) as (k & logs & H1 & H2 & _).
  cbv zeta in H1.
  exists (filter log_accepted logs). split; [exact H2 |]. split.
  - apply Forall_forall. intros log Hlog.
    apply filter_In in Hlog. destruct Hlog as [Hlog _].
    destruct (Forall2_In_r _ _ _ H1 log Hlog) as (item & Hitem & Hrec).
    destruct Hrec as (_ & _ & _ & _ & Hb & Ha & _).
    destruct (cycle_processed st k item Hitem) as [Hin Hlive].
    rewrite Forall_forall in Hok.
    rewrite Hb, Ha. apply degraded_size; auto.
  - pose proof (cycle_rows st Hn) as Hrows.
    apply Forall_forall. intros after Hafter.
    destruct (Forall2_In_r _ _ _ Hrows after Hafter) as (before & Hb & Hr).
    rewrite Forall_forall in Hok. specialize (Hok before Hb).
    destruct Hr as [-> | [Hlive ->]]; [exact Hok |].
    pose proof (degraded_size before Hok Hlive) as [Hsz _].
    unfold size_ok in *. lia.
Qed.

Lemma every_transition_shrinks_witness :
  exists logs,
    degradation_logs (processDecayEvent Scenario.one_item) = logs
    /\ Forall (fun log => 0 <= size_after_kb log <= size_before_kb log) logs.
Proof.
  assert (Hn : NoDup (map id (archive_items Scenario.one_item))).
  { cbn. constructor; [intros [] | constructor]. }
  assert (Hok : Forall size_ok (archive_items Scenario.one_item)).
  { repeat constructor; cbn; lia. }
  destruct (every_transition_shrinks Scenario.one_item Hn Hok)
    as (logs & H1 & H2 & _).
  exists logs. split; [exact H1 |].
  eapply Forall_impl; [| exact H2]. intros log [H _]. exact H.
Defined.

(** Any number of cycles, size by size. *)
Lemma sizes_after_cycles (st : State) (k : nat) :
  NoDup (map id (archive_items st)) ->
  Forall size_ok (archive_items st) ->
  Forall2 (fun before after =>
             (id after = id before /\ size_ok before)
             /\ (stage before = DELETED -> after = before)
             /\ 0 <= current_size_kb after <= current_size_kb before)
    (archive_items st) (archive_items (Nat.iter k processDecayEvent st)).
Proof.
  intros Hn Hok. induction k as [| k IH].
  - simpl. clear Hn. induction Hok as [| x t Hx Hok IH]; constructor; auto.
    split; [split; [reflexivity | exact Hx] |].
    split; [reflexivity |]. unfold size_ok in Hx. lia.
  - rewrite Nat.iter_succ.
    eapply Forall2_compose; [| exact IH | apply cycle_rows].
    + intros a b c ((Hid & Ha) & Hd & Hsz) [-> | [Hlive ->]].
      * split; [split; assumption |]. split; assumption.
      * assert (Hb : size_ok b) by (unfold size_ok in *; lia).
        pose proof (degraded_size b Hb Hlive) as [Hs _].
        rewrite degraded_id.
        split; [split; assumption |]. split; [| lia].
        intro Hdel. specialize (Hd Hdel). subst b. contradiction.
    + erewrite Forall2_ids; [exact Hn | | exact IH].
      intros a b ((Hid & _) & _). exact Hid.
Qed.

Lemma storage_after_cycles (st : State) (k : nat) :
  NoDup (map id (archive_items st)) ->
  Forall size_ok (archive_items st) ->
  storage_used (archive_items (Nat.iter k processDecayEvent st))
  <= storage_used (archive_items st).
Proof.
  intros Hn Hok. apply storage_used_le.
  eapply Forall2_impl; [| exact (sizes_after_cycles st k Hn Hok)].
  intros a b (_ & Hd & Hsz). split; assumption.
Qed.

(** X7: over any number of cycles no item grows and the storage in use
    never increases. *)
Theorem storage_never_grows (st : State) (k : nat) :
  NoDup (map id (archive_items st)) ->
  Forall size_ok (archive_items st) ->
  Forall2 (fun before after =>
             id after = id before
             /\ 0 <= current_size_kb after <= current_size_kb before)
    (archive_items st) (archive_items (Nat.iter k processDecayEvent st))
  /\ storage_used (archive_items (Nat.iter k processDecayEvent st))
     <= storage_used (archive_items st).
Proof.
  intros Hn Hok. split.
  - eapply Forall2_impl; [| exact (sizes_after_cycles st k Hn Hok)].
    intros a b ((Hid & _) & _ & Hsz). split; assumption.
  - apply storage_after_cycles; assumption.
Qed.

Lemma storage_never_grows_witness :
  storage_used (archive_items (Nat.iter 2 processDecayEvent Scenario.one_item))
  <= storage_used (archive_items Scenario.one_item).
Proof.
  assert (Hn : NoDup (map id (archive_items Scenario.one_item))).
  { cbn. constructor; [intros [] | constructor]. }
  assert (Hok : Forall size_ok (archive_items Scenario.one_item)).
  { repeat constructor; cbn; lia. }
  exact (proj2 (storage_never_grows Scenario.one_item 2 Hn Hok)).
Defined.

(** ** Exact quotients *)

Lemma floor_of_Z (n : Z) : 0 <= n < 2 ^ 53 -> floor (of_Z n) = n.
Proof.
  intros Hn. destruct (Z.eq_dec n 0) as [-> | Hn0].
  - rewrite of_Z_0. apply floor_zero.
  - destruct (of_Z_exact n ltac:(lia)) as (m & e & -> & _ & He & Hm & _).
    rewrite floor_finite, Hm.
    assert (P : 0 < 2 ^ (- e)) by (apply Z.pow_pos_nonneg; lia).
    destruct (Z.ltb_spec e 0).
    + apply Z.div_mul. lia.
    + replace e with 0 by lia. simpl. lia.
Qed.

(** A quotient of integers below 2^53 that is an integer is computed
    exactly. *)
Lemma div_exact (k b : Z) :
  0 <= k -> 0 < b < 2 ^ 53 -> k * b < 2 ^ 53 ->
  div (of_Z (k * b)) (of_Z b) = of_Z k.
Proof.
  intros Hk [Hb Hb53] Hkb.
  destruct (of_Z_exact b ltac:(lia)) as (m2 & e2 & E2 & B2 & He2 & Hm2 & Hd2).
  destruct (Z.eq_dec k 0) as [-> | Hk0].
  - rewrite Z.mul_0_l, of_Z_0, E2, div_eq. reflexivity.
  - assert (Hk53 : k < 2 ^ 53) by nia.
    destruct (of_Z_exact (k * b) ltac:(nia)) as (m1 & e1 & E1 & B1 & He1 & Hm1 & Hd1).
    destruct (of_Z_exact k ltac:(lia)) as (m3 & e3 & E3 & B3 & He3 & Hm3 & Hd3).
    rewrite E1, E2, E3, div_eq. cbn [SFdiv xorb].
    unfold SFdiv_core_binary.
    change (Zdigits2 (Zpos m1)) with (Zpos (digits2_pos m1)).
    change (Zdigits2 (Zpos m2)) with (Zpos (digits2_pos m2)).
    rewrite Hd1, Hd2, fexp_eq.
    replace (Z.min (Z.max (53 + e1 - (53 + e2) - 53) (-1074)) (e1 - e2))
      with (e1 - e2 - 53) by lia.
    replace (e1 - e2 - (e1 - e2 - 53)) with 53 by lia.
    cbv iota beta.
    rewrite Z.shiftl_mul_pow2 by lia.
    destruct (digits2_bounds m1) as [M1a M1b]. rewrite Hd1 in M1a, M1b.
    destruct (digits2_bounds m2) as [M2a M2b]. rewrite Hd2 in M2a, M2b.
    destruct (digits2_bounds m3) as [M3a M3b]. rewrite Hd3 in M3a, M3b.
    change (53 - 1) with 52 in *.
    set (j := 53 - e1 + e2).
    assert (P1 : 0 < 2 ^ (- e1)) by (apply Z.pow_pos_nonneg; lia).
    assert (P2 : 0 < 2 ^ (- e2)) by (apply Z.pow_pos_nonneg; lia).
    assert (P3 : 0 < 2 ^ (- e3)) by (apply Z.pow_pos_nonneg; lia).
    assert (Hj : 0 <= j) by (unfold j; lia).
    assert (Pj : 0 < 2 ^ j) by (apply Z.pow_pos_nonneg; lia).
    assert (Hnum : Zpos m1 * 2 ^ 53 = (k * 2 ^ j) * Zpos m2).
    { rewrite Hm1, Hm2.
      replace (k * b * 2 ^ (- e1) * 2 ^ 53) with (k * b * (2 ^ (- e1) * 2 ^ 53)) by ring.
      replace (k * 2 ^ j * (b * 2 ^ (- e2))) with (k * b * (2 ^ j * 2 ^ (- e2))) by ring.
      rewrite <- !Z.pow_add_r by lia. f_equal; f_equal; unfold j; lia. }
    assert (Hq : Z.div_eucl (Zpos m1 * 2 ^ 53) (Zpos m2) = (k * 2 ^ j, 0)).
    { pose proof (Z.div_mul (k * 2 ^ j) (Zpos m2) ltac:(lia)) as Hd.
      pose proof (Z.mod_mul (k * 2 ^ j) (Zpos m2) ltac:(lia)) as Hm.
      rewrite <- Hnum in Hd, Hm. unfold Z.div, Z.modulo in Hd, Hm.
      destruct (Z.div_eucl (Zpos m1 * 2 ^ 53) (Zpos m2)) as [q r].
      simpl in Hd, Hm. subst. reflexivity. }
    rewrite Hq.
    assert (Hloc : new_location (Zpos m2) 0 = loc_Exact).
    { unfold new_location, new_location_even, new_location_odd.
      destruct (Z.even (Zpos m2)); reflexivity. }
    rewrite Hloc.
    (* the exponent relation *)
    assert (He : e1 <= 53 + e2 + e3).
    { destruct (Z_le_gt_dec e1 (53 + e2 + e3)); [assumption | exfalso].
      assert (H1 : Zpos m2 * Zpos m3 * 2 ^ (- e1) = Zpos m1 * 2 ^ (- e2 - e3)).
      { rewrite Hm1, Hm2, Hm3.
        replace (- e2 - e3) with (- e2 + - e3) by lia.
        rewrite Z.pow_add_r by lia. ring. }
      assert (P52 : 0 < 2 ^ 52) by (apply Z.pow_pos_nonneg; lia).
      assert (P53 : 0 < 2 ^ 53) by (apply Z.pow_pos_nonneg; lia).
      assert (H2 : 2 ^ 52 * 2 ^ (- e2 - e3) <= Zpos m1 * 2 ^ (- e2 - e3)).
      { apply Z.mul_le_mono_nonneg_r; [apply Z.pow_nonneg; lia | lia]. }
      assert (H3 : Zpos m2 * Zpos m3 * 2 ^ (- e1) < 2 ^ 53 * 2 ^ 53 * 2 ^ (- e1)).
      { apply Z.mul_lt_mono_pos_r; [lia |].
        apply Z.mul_lt_mono_nonneg; lia. }
      rewrite <- Z.pow_add_r in H2 by lia.
      rewrite <- !Z.pow_add_r in H3 by lia.
      assert (2 ^ (53 + 53 + - e1) <= 2 ^ (52 + (- e2 - e3)))
        by (apply Z.pow_le_mono_r; lia).
      lia. }
    assert (Hqpos : 0 < k * 2 ^ j) by (apply Z.mul_pos_pos; lia).
    destruct (k * 2 ^ j) as [| q | q] eqn:Eq; try lia.
    assert (Hdq : Zpos (digits2_pos q) = 53 + e3 + j).
    { apply digits2_unique. rewrite <- Eq.
      assert (A : 2 ^ (53 + e3 + j - 1) = 2 ^ (52 + e3) * 2 ^ j).
      { rewrite <- Z.pow_add_r by lia. f_equal; lia. }
      assert (B : 2 ^ (53 + e3 + j) = 2 ^ (53 + e3) * 2 ^ j).
      { rewrite <- Z.pow_add_r by lia. f_equal; lia. }
      assert (C : 2 ^ 52 = 2 ^ (52 + e3) * 2 ^ (- e3)).
      { rewrite <- Z.pow_add_r by lia. f_equal; lia. }
      assert (D : 2 ^ 53 = 2 ^ (53 + e3) * 2 ^ (- e3)).
      { rewrite <- Z.pow_add_r by lia. f_equal; lia. }
      rewrite A, B. rewrite Hm3, C in M3a. rewrite Hm3, D in M3b.
      apply Z.mul_le_mono_pos_r in M3a; [| lia].
      apply Z.mul_lt_mono_pos_r in M3b; [| lia].
      split.
      - apply Z.mul_le_mono_nonneg_r; lia.
      - apply Z.mul_lt_mono_pos_r; lia. }
    assert (Hf : fexp prec emax (Zpos (digits2_pos q) + (e1 - e2 - 53)) = e3).
    { rewrite fexp_eq, Hdq. unfold j. lia. }
    destruct (binary_round_aux_spec false q (e1 - e2 - 53))
      as (q' & _ & Q2 & _ & _ & ->).
    { rewrite Hf. lia. }
    rewrite Hf in Q2 |- *.
    assert (Hsh : e3 - (e1 - e2 - 53) = e3 + j) by (unfold j; lia).
    rewrite Hsh in Q2.
    assert (Hsplit : Zpos q = Zpos m3 * 2 ^ (e3 + j)).
    { rewrite <- Eq, Hm3, <- Z.mul_assoc, <- Z.pow_add_r by lia.
      f_equal; f_equal; lia. }
    assert (Pz : 0 < 2 ^ (e3 + j)) by (apply Z.pow_pos_nonneg; lia).
    rewrite Hsplit, Z.mod_mul, Z.div_mul in Q2 by lia.
    rewrite (Q2 eq_refl). unfold round_result.
    rewrite pow2_53 in M3b.
    replace (Zpos m3 <? 9007199254740992) with true
      by (symmetry; apply Z.ltb_lt; lia).
    replace (e3 <=? 971) with true by (symmetry; apply Z.leb_le; lia).
    reflexivity.
Qed.

(** ** The run and the counters of the provider *)


Lemma Math_floor_of_Z (n : Z) : 0 <= n < 2 ^ 53 -> Math_floor (of_Z n) = of_Z n.
Proof.
  intro Hn. destruct (Z.eq_dec n 0) as [-> | Hn0].
  - rewrite of_Z_0. reflexivity.
  - pose proof (floor_of_Z n Hn) as Hf.
    destruct (of_Z_exact n ltac:(lia)) as (m & e & E & _).
    rewrite E in Hf |- *. unfold Math_floor.
    destruct (e <? 0); [rewrite Hf, E |]; reflexivity.
Qed.

(** Cycles from year 0: the events are numbered from 1 and dated by the
    interval. *)
Lemma run_events (st : State) (s : SimulationSettings) (u : string) :
  settings st = Some s -> user st = Some u ->
  current_year s = 0 ->
  0 < decay_interval_years s -> total_years s < 2 ^ 53 ->
  forall k : nat,
    Z.of_nat k * decay_interval_years s <= total_years s ->
    numbering (decay_events (Nat.iter k processDecayEvent st))
    = numbering (decay_events st) ++ map (nth_event s) (seq 1 k).
Proof.
  intros Hs Hu Hy Hi Ht k. induction k as [| k IH]; intro Hk.
  - simpl. rewrite app_nil_r. reflexivity.
  - rewrite Nat2Z.inj_succ in Hk.
    assert (Hk' : Z.of_nat k * decay_interval_years s <= total_years s) by nia.
    specialize (IH Hk').
    destruct (cycles_in_range st s u Hs Hu ltac:(lia) k) as (Ks & Ku & _ & _).
    { rewrite Hy. lia. }
    rewrite Nat.iter_succ.
    set (stk := Nat.iter k processDecayEvent st) in *.
    match type of Ks with settings _ = Some ?x => set (sk := x) in * end.
    destruct (cycle_full stk sk u Ks Ku) as (j & logs & sys & _ & _ & _ & _ & _ & _ & _ & He & _).
    { unfold sk. cbn [set_year_capacity current_year decay_interval_years total_years].
      rewrite Hy. lia. }
    cbv zeta in He. rewrite He. unfold numbering in *.
    rewrite map_app, IH. cbn [map event_no simulated_year capacity_after_kb].
    rewrite seq_S, map_app, <- app_assoc. cbn [map]. f_equal. f_equal.
    unfold sk, nth_event.
    cbn [set_year_capacity current_year decay_interval_years current_capacity_kb
         decay_percent].
    rewrite Hy, Z.add_0_l.
    replace (Z.of_nat k * decay_interval_years s + decay_interval_years s)
      with (Z.of_nat (1 + k) * decay_interval_years s) by lia.
    rewrite div_exact by lia.
    rewrite floor_of_Z by nia. reflexivity.
Qed.

Lemma iter_fixpoint {A : Type} (f : A -> A) (x : A) (n : nat) :
  f x = x -> Nat.iter n f x = x.
Proof. intro H. induction n as [| n IH]; simpl; [reflexivity | congruence]. Qed.

(** X8: a run from year 0 performs [floor(total_years / interval)] decay
    events and then stops.  The k-th cycle sets the year to [k * interval],
    cuts the capacity once more and records the event number [k]; every
    later call only clears [isRunning] and changes neither settings nor
    tables. *)
Theorem run_performs_all_events (st : State) (s : SimulationSettings) (u : string) :
  settings st = Some s -> user st = Some u ->
  current_year s = 0 ->
  0 < decay_interval_years s -> 0 <= total_years s < 2 ^ 53 ->
  let interval := decay_interval_years s in
  let N := Z.to_nat (total_years s / interval) in
  (forall k : nat, (k <= N)%nat ->
     let stk := Nat.iter k processDecayEvent st in
     (exists sk, settings stk = Some sk
        /\ current_year sk = Z.of_nat k * interval
        /\ current_capacity_kb sk =
             Nat.iter k (fun c => decayed_capacity c (decay_percent s))
               (current_capacity_kb s))
     /\ numbering (decay_events stk)
        = numbering (decay_events st) ++ map (nth_event s) (seq 1 k)
     /\ isRunning stk = isRunning st)
  /\ (forall k : nat, (N < k)%nat ->
        let stN := Nat.iter N processDecayEvent st in
        let stk := Nat.iter k processDecayEvent st in
        stk = processDecayEvent stN
        /\ isRunning stk = false
        /\ settings stk = settings stN
        /\ archive_items stk = archive_items stN
        /\ decay_events stk = decay_events stN
        /\ degradation_logs stk = degradation_logs stN
        /\ alerts stk = alerts stN).
Proof.
  intros Hs Hu Hy Hi Ht. cbv zeta.
  set (i := decay_interval_years s) in *.
  set (N := Z.to_nat (total_years s / i)).
  assert (HN : Z.of_nat N = total_years s / i).
  { unfold N. apply Z2Nat.id. apply Z.div_pos; lia. }
  assert (Hlow : Z.of_nat N * i <= total_years s).
  { rewrite HN, Z.mul_comm. apply Z.mul_div_le. lia. }
  assert (Hhigh : total_years s < Z.of_nat N * i + i).
  { rewrite HN. pose proof (Z.mul_succ_div_gt (total_years s) i Hi). lia. }
  assert (Hrange : forall k : nat, (k <= N)%nat ->
            Z.of_nat k * i <= total_years s) by (intros k Hk; nia).
  split.
  - intros k Hk.
    destruct (cycles_in_range st s u Hs Hu ltac:(fold i; lia) k) as (Ks & _ & Kr & _).
    { fold i. rewrite Hy. specialize (Hrange k Hk). lia. }
    split; [| split; [| exact Kr]].
    + eexists. split; [exact Ks |]. fold i.
      cbn [set_year_capacity current_year current_capacity_kb].
      rewrite Hy. split; [lia | reflexivity].
    + apply (run_events st s u Hs Hu Hy Hi); [lia | apply Hrange, Hk].
  - intros k Hk.
    destruct (cycles_in_range st s u Hs Hu ltac:(fold i; lia) N) as (Ks & Ku & _ & _).
    { fold i. rewrite Hy. lia. }
    set (stN := Nat.iter N processDecayEvent st) in *.
    match type of Ks with settings _ = Some ?x => set (sN := x) in * end.
    destruct (cycle_complete_stops stN sN u Ks Ku)
      as (C1 & C2 & C3 & C4 & C5 & C6 & C7).
    { unfold sN. cbn [set_year_capacity current_year decay_interval_years total_years].
      fold i. rewrite Hy. lia. }
    assert (E : Nat.iter k processDecayEvent st = processDecayEvent stN).
    { replace k with ((k - S N) + S N)%nat by lia.
      rewrite Nat.iter_add. cbn [Nat.iter nat_rect].
      fold (Nat.iter N processDecayEvent st). fold stN.
      apply iter_fixpoint. exact C7. }
    rewrite E. repeat split; assumption.
Qed.

Lemma run_performs_all_events_witness :
  numbering (decay_events (Nat.iter 2 processDecayEvent Scenario.default))
  = [(1, 2, 950000); (2, 4, 902500)].
Proof.
  pose proof (run_performs_all_events Scenario.default
                (Scenario.the_settings 0 1000000 5) "owner-1"
                eq_refl eq_refl eq_refl) as H.
  cbv zeta in H.
  assert (H1 : 0 < decay_interval_years (Scenario.the_settings 0 1000000 5))
    by (cbn; lia).
  assert (H2 : 0 <= total_years (Scenario.the_settings 0 1000000 5) < 2 ^ 53)
    by (cbn; lia).
  destruct (H H1 H2) as [Hk _].
  destruct (Hk 2%nat) as (_ & Hn & _).
  - cbn. lia.
  - exact Hn.
Defined.

(** X9: during such a run the counters the provider derives follow the
    cycles: after k cycles [currentYear] is [k * interval],
    [currentDecayEvent] is k and [nextDecayIn] is the whole interval.  So
    the effect that announces a decay event calls [addAlert] after every
    cycle before the last year when the interval is 1 or 2 years, and never
    when it is 3 years or more.  When the interval divides the total,
    [totalDecayEvents] is the number of events of the run. *)
Theorem counters_follow_run (st : State) (s : SimulationSettings) (u : string) :
  settings st = Some s -> user st = Some u ->
  current_year s = 0 ->
  0 < decay_interval_years s < 2 ^ 53 -> 0 <= total_years s < 2 ^ 53 ->
  let interval := decay_interval_years s in
  let N := Z.to_nat (total_years s / interval) in
  forall k : nat, (k <= N)%nat ->
    let stk := Nat.iter k processDecayEvent st in
    currentYear stk = Z.of_nat k * interval
    /\ currentDecayEvent stk = of_Z (Z.of_nat k)
    /\ nextDecayIn stk = Some interval
    /\ decay_approaching_effect stk
       = (if (interval <=? 2) && (Z.of_nat k * interval <? total_years s)
          then Some (interval, Z.of_nat (S k) * interval)
          else None)
    /\ (total_years s mod interval = 0 ->
        totalDecayEvents stk = of_Z (Z.of_nat N)).
Proof.
  intros Hs Hu Hy [Hi Hi53] Ht. cbv zeta.
  set (i := decay_interval_years s) in *.
  set (N := Z.to_nat (total_years s / i)).
  assert (HN : Z.of_nat N = total_years s / i).
  { unfold N. apply Z2Nat.id. apply Z.div_pos; lia. }
  assert (Hlow : Z.of_nat N * i <= total_years s).
  { rewrite HN, Z.mul_comm. apply Z.mul_div_le. lia. }
  intros k Hk.
  assert (Hki : Z.of_nat k * i <= total_years s) by nia.
  destruct (cycles_in_range st s u Hs Hu ltac:(fold i; lia) k) as (Ks & Ku & _ & _).
  { fold i. rewrite Hy. lia. }
  fold i in Ks. rewrite Hy, Z.add_0_l in Ks.
  set (stk := Nat.iter k processDecayEvent st) in *.
  assert (Hcy : currentYear stk = Z.of_nat k * i).
  { unfold currentYear. rewrite Ks. reflexivity. }
  assert (Hnext : nextDecayIn stk = Some i).
  { unfold nextDecayIn. rewrite Hcy, Ks.
    cbn [set_year_capacity decay_interval_years]. fold i.
    unfold js_rem. replace (i =? 0) with false by (symmetry; apply Z.eqb_neq; lia).
    cbn [option_map]. rewrite Z.rem_mul by lia. f_equal. lia. }
  split; [exact Hcy |]. split; [| split; [exact Hnext | split]].
  - unfold currentDecayEvent. rewrite Hcy, Ks.
    cbn [set_year_capacity decay_interval_years]. fold i.
    rewrite div_exact by lia. apply Math_floor_of_Z. nia.
  - unfold decay_approaching_effect. rewrite Hnext, Hcy, Ks, Ku.
    cbn [set_year_capacity total_years].
    replace (i >? 0) with true by (symmetry; apply Z.gtb_lt; lia).
    rewrite andb_true_r.
    destruct ((i <=? 2) && (Z.of_nat k * i <? total_years s)); [| reflexivity].
    f_equal. f_equal. lia.
  - intro Hdiv. unfold totalDecayEvents. rewrite Ks.
    cbn [set_year_capacity decay_interval_years total_years]. fold i.
    assert (E : total_years s = Z.of_nat N * i).
    { rewrite HN. rewrite (Z.div_mod (total_years s) i) at 1 by lia.
      rewrite Hdiv. lia. }
    rewrite E at 1. rewrite div_exact by lia. apply Math_floor_of_Z. nia.
Qed.

Lemma counters_follow_run_witness :
  decay_approaching_effect (Nat.iter 29 processDecayEvent Scenario.default)
  = Some (2, 60)
  /\ decay_approaching_effect (Nat.iter 30 processDecayEvent Scenario.default)
     = None.
Proof.
  pose proof (counters_follow_run Scenario.default
                (Scenario.the_settings 0 1000000 5) "owner-1"
                eq_refl eq_refl eq_refl) as H.
  cbv zeta in H.
  assert (H1 : 0 < decay_interval_years (Scenario.the_settings 0 1000000 5)
               < 2 ^ 53) by (cbn; lia).
  assert (H2 : 0 <= total_years (Scenario.the_settings 0 1000000 5) < 2 ^ 53)
    by (cbn; lia).
  assert (L29 : (29 <= Z.to_nat (total_years (Scenario.the_settings 0 1000000 5)
                    / decay_interval_years (Scenario.the_settings 0 1000000 5)))%nat)
    by (cbn; lia).
  assert (L30 : (30 <= Z.to_nat (total_years (Scenario.the_settings 0 1000000 5)
                    / decay_interval_years (Scenario.the_settings 0 1000000 5)))%nat)
    by (cbn; lia).
  split.
  - exact (proj1 (proj2 (proj2 (proj2 (H H1 H2 29%nat L29))))).
  - exact (proj1 (proj2 (proj2 (proj2 (H H1 H2 30%nat L30))))).
Defined.

(** ** The list of alerts *)



Lemma firstn_99_100 {A : Type} (l : list A) : firstn 99 (firstn 100 l) = firstn 99 l.
Proof. rewrite firstn_firstn. reflexivity. Qed.

(** X11: [addAlert] keeps the hundred newest alerts, newest first: after
    a series of calls the list is the calls in reverse order followed by
    the earlier alerts, cut at 100.  The table [alerts] receives, in call
    order and without bound, one row for each call whose score and storage
    pressure fit its numeric columns; a call whose storage pressure reaches
    10000% enters the list and leaves no row.  [persistentAlerts] is not
    touched (it grows through the realtime channel). *)
Theorem alerts_keep_newest_hundred (calls : list AlertContext.Call)
    (st : AlertContext.AlertState) (u : string) :
  AlertContext.user st = Some u -> calls <> [] ->
  let st' := fold_left (fun st c => AlertContext.addAlert c st) calls st in
  AlertContext.alerts st'
  = firstn 100 (rev (map AlertContext.newAlert calls) ++ AlertContext.alerts st)
  /\ (List.length (AlertContext.alerts st') <= 100)%nat
  /\ AlertContext.alerts_table st'
     = AlertContext.alerts_table st
       ++ map (fun c => AlertContext.alert_row (AlertContext.row c)
                          (AlertContext.argument c))
            (filter (fun c => AlertContext.insert_accepted (AlertContext.argument c))
               calls)
  /\ AlertContext.persistentAlerts st' = AlertContext.persistentAlerts st
  /\ AlertContext.user st' = Some u.
Proof.
  intros Hu Hne. cbv zeta.
  assert (H : AlertContext.user
                (fold_left (fun st c => AlertContext.addAlert c st) calls st) = Some u
              /\ AlertContext.persistentAlerts
                   (fold_left (fun st c => AlertContext.addAlert c st) calls st)
                 = AlertContext.persistentAlerts st
              /\ AlertContext.alerts_table
                   (fold_left (fun st c => AlertContext.addAlert c st) calls st)
                 = AlertContext.alerts_table st
                   ++ map (fun c => AlertContext.alert_row (AlertContext.row c)
                                      (AlertContext.argument c))
                        (filter (fun c => AlertContext.insert_accepted
                                            (AlertContext.argument c)) calls)
              /\ (calls <> [] ->
                  AlertContext.alerts
                    (fold_left (fun st c => AlertContext.addAlert c st) calls st)
                  = firstn 100 (rev (map AlertContext.newAlert calls)
                                ++ AlertContext.alerts st))).
  { clear Hne. induction calls as [| c calls IH] using rev_ind.
    - cbn. rewrite app_nil_r. repeat split; auto. intro H. contradiction.
    - rewrite fold_left_app. cbn [fold_left].
      destruct IH as (I1 & I2 & I3 & I4).
      set (st1 := fold_left (fun st c => AlertContext.addAlert c st) calls st) in *.
      unfold AlertContext.addAlert. rewrite I1.
      cbn [AlertContext.user AlertContext.persistentAlerts
           AlertContext.alerts_table AlertContext.alerts].
      rewrite I3, filter_app, !map_app, rev_app_distr. cbn [filter].
      split; [reflexivity |]. split; [exact I2 |]. split.
      + destruct (AlertContext.insert_accepted (AlertContext.argument c)).
        * cbn [map]. rewrite <- app_assoc. reflexivity.
        * cbn [map]. rewrite app_nil_r. reflexivity.
      + intros _. cbn [map rev app].
        change (firstn 100 (AlertContext.newAlert c
                            :: rev (map AlertContext.newAlert calls)
                               ++ AlertContext.alerts st))
          with (AlertContext.newAlert c
                :: firstn 99 (rev (map AlertContext.newAlert calls)
                              ++ AlertContext.alerts st)).
        f_equal.
        destruct calls as [| c0 calls0].
        * reflexivity.
        * rewrite I4 by discriminate. apply firstn_99_100. }
  destruct H as (H1 & H2 & H3 & H4).
  split; [exact (H4 Hne) |]. split; [| repeat split; assumption].
  rewrite (H4 Hne). rewrite length_firstn. lia.
Qed.

Lemma alerts_keep_newest_hundred_witness :
  let calls :=
    repeat AlertScenario.pressure_call 120 ++ [AlertScenario.overflow_call] in
  let st' := fold_left (fun st c => AlertContext.addAlert c st) calls
               AlertScenario.signed_in in
  List.length calls = 121%nat
  /\ List.length (AlertContext.alerts st') = 100%nat
  /\ hd_error (AlertContext.alerts st')
     = Some (AlertContext.newAlert AlertScenario.overflow_call)
  /\ List.length (AlertContext.alerts_table st') = 120%nat
  /\ AlertContext.insert_accepted
       (AlertContext.argument AlertScenario.overflow_call) = false.
Proof.
  cbv zeta.
  assert (H : repeat AlertScenario.pressure_call 120 ++ [AlertScenario.overflow_call]
              <> []).
  { intro E. apply (f_equal (@List.length _)) in E.
    rewrite length_app, repeat_length in E. discriminate E. }
  destruct (alerts_keep_newest_hundred _ AlertScenario.signed_in "owner-1" eq_refl H)
    as (H1 & _ & H3 & _).
  cbv zeta in H1, H3. rewrite H1, H3.
  repeat split; vm_compute; reflexivity.
Defined.

(** ** The unread badge *)

Lemma unread_mark (id : string) (rows : list AlertContext.PersistentAlert) :
  (List.length (filter (fun a => negb (AlertContext.is_read a))
                  (AlertContext.mark id rows))
   + List.length (filter (fun a => negb (AlertContext.is_read a)
                                   && String.eqb (AlertContext.row_id a) id) rows)
   = List.length (filter (fun a => negb (AlertContext.is_read a)) rows))%nat.
Proof.
  unfold AlertContext.mark. induction rows as [| a rows IH]; [reflexivity |].
  cbn [map filter].
  destruct (String.eqb (AlertContext.row_id a) id);
    destruct (AlertContext.is_read a) eqn:Er; cbn [AlertContext.set_read AlertContext.is_read negb andb];
    rewrite ?Er; cbn [negb List.length]; lia.
Qed.

(** X12: the unread badge counts [persistentAlerts] only.  Dismissing
    one alert or all of them, clearing the list and [addAlert] leave it as
    it is; a row arriving on the channel adds one when it is unread;
    [markAllAsRead] brings it to 0; [markAsRead] lowers it by the number of
    unread rows that carry the id. *)
Theorem unread_badge (st : AlertContext.AlertState) (u : string) :
  AlertContext.user st = Some u ->
  (forall id, AlertContext.unreadCount (AlertContext.dismissAlert id st)
              = AlertContext.unreadCount st)
  /\ AlertContext.unreadCount (AlertContext.dismissAll st)
     = AlertContext.unreadCount st
  /\ AlertContext.unreadCount (AlertContext.clearAlerts st)
     = AlertContext.unreadCount st
  /\ (forall c, AlertContext.unreadCount (AlertContext.addAlert c st)
                = AlertContext.unreadCount st)
  /\ (forall a, AlertContext.unreadCount (AlertContext.on_insert a st)
                = ((if AlertContext.is_read a then 0 else 1)
                   + AlertContext.unreadCount st)%nat)
  /\ AlertContext.unreadCount (AlertContext.markAllAsRead st) = 0%nat
  /\ (forall id,
        (AlertContext.unreadCount (AlertContext.markAsRead id st)
         + List.length
             (filter (fun a => negb (AlertContext.is_read a)
                               && String.eqb (AlertContext.row_id a) id)
                (AlertContext.persistentAlerts st))
         = AlertContext.unreadCount st)%nat).
Proof.
  intro Hu. unfold AlertContext.unreadCount.
  repeat split.
  - intro c. unfold AlertContext.addAlert. rewrite Hu. reflexivity.
  - intro a. cbn [AlertContext.on_insert AlertContext.persistentAlerts filter].
    destruct (AlertContext.is_read a); reflexivity.
  - unfold AlertContext.markAllAsRead. rewrite Hu.
    cbn [AlertContext.persistentAlerts].
    induction (AlertContext.persistentAlerts st) as [| a l IH]; [reflexivity |].
    cbn. exact IH.
  - intro id. apply unread_mark.
Qed.

Lemma unread_badge_witness :
  AlertContext.unreadCount (AlertContext.dismissAll AlertScenario.signed_in)
  = AlertContext.unreadCount AlertScenario.signed_in.
Proof.
  exact (proj1 (proj2 (unread_badge AlertScenario.signed_in "owner-1" eq_refl))).
Defined.

(** ** Consistency of the provider *)


Lemma update_eq_single {A : Type} (key : A -> string) (f : A -> A) (row : A) :
  update_eq key (key row) f [row] = [f row].
Proof. unfold update_eq. cbn. rewrite String.eqb_refl. reflexivity. Qed.

Lemma set_is_running_id (s row : SimulationSettings) :
  set_is_running false row = set_is_running false s ->
  settings_id row = settings_id s.
Proof. intro H. apply (f_equal settings_id) in H. exact H. Qed.

Lemma sync_fields (s row : SimulationSettings) :
  set_is_running false row = set_is_running false s ->
  start_capacity_kb row = start_capacity_kb s
  /\ current_capacity_kb row = current_capacity_kb s
  /\ current_year row = current_year s
  /\ total_years row = total_years s
  /\ decay_percent row = decay_percent s
  /\ decay_interval_years row = decay_interval_years s
  /\ time_scale_ms row = time_scale_ms s.
Proof.
  intro H. repeat split.
  - apply (f_equal start_capacity_kb) in H. exact H.
  - apply (f_equal current_capacity_kb) in H. exact H.
  - apply (f_equal current_year) in H. exact H.
  - apply (f_equal total_years) in H. exact H.
  - apply (f_equal decay_percent) in H. exact H.
  - apply (f_equal decay_interval_years) in H. exact H.
  - apply (f_equal time_scale_ms) in H. exact H.
Qed.

Lemma sync_year_capacity (y c : Z) (s row : SimulationSettings) :
  set_is_running false row = set_is_running false s ->
  set_is_running false (set_year_capacity y c row)
  = set_is_running false (set_year_capacity y c s).
Proof.
  intro H. pose proof (set_is_running_id s row H) as Hid.
  destruct (sync_fields s row H) as (E1 & E2 & E3 & E4 & E5 & E6 & E7).
  unfold set_is_running, set_year_capacity. cbn.
  rewrite Hid, E1, E4, E5, E6, E7. reflexivity.
Qed.

Lemma sync_reset (c : Z) (s row : SimulationSettings) :
  set_is_running false row = set_is_running false s ->
  set_is_running false (reset_settings c row)
  = set_is_running false (reset_settings c s).
Proof.
  intro H. pose proof (set_is_running_id s row H) as Hid.
  destruct (sync_fields s row H) as (E1 & E2 & E3 & E4 & E5 & E6 & E7).
  unfold set_is_running, reset_settings. cbn.
  rewrite Hid, E1, E4, E5, E6, E7. reflexivity.
Qed.

Lemma consistent_act (size_kb : string -> Z) (a : Action) (st : State) :
  consistent st -> consistent (act size_kb a st).
Proof.
  intros (s & row & u & k & Hs & Hu & Hrow & Hsync & Hi & Hy & Ht & He).
  assert (Hi0 : 0 < decay_interval_years s) by lia.
  pose proof (set_is_running_id s row Hsync) as Hid.
  destruct a; cbn [act].
  - (* Cycle *)
    destruct (Z_le_gt_dec (current_year s + decay_interval_years s) (total_years s))
      as [Hin | Hout].
    + exists (set_year_capacity (current_year s + decay_interval_years s)
                (decayed_capacity (current_capacity_kb s) (decay_percent s)) s),
             (set_year_capacity (current_year s + decay_interval_years s)
                (decayed_capacity (current_capacity_kb s) (decay_percent s)) row),
             u, (S k).
      split; [exact (cycle_settings st s u Hs Hu Hin) |].
      split; [rewrite (cycle_user st s u Hs Hu Hin); exact Hu |].
      split.
      { unfold processDecayEvent. rewrite Hs, Hu.
        replace (current_year s + decay_interval_years s >? total_years s)
          with false by (symmetry; rewrite Z.gtb_ltb; apply Z.ltb_ge; exact Hin).
        cbn [simulation_settings]. rewrite Hrow, <- Hid.
        apply update_eq_single. }
      split; [apply sync_year_capacity; exact Hsync |].
      cbn [set_year_capacity decay_interval_years current_year total_years].
      split; [exact Hi |]. split; [rewrite Nat2Z.inj_succ; lia |].
      split; [lia |].
      rewrite (cycle_events st s u Hs Hu Hin). lia.
    + destruct (cycle_complete_stops st s u Hs Hu ltac:(lia))
        as (_ & C2 & _ & C4 & _).
      exists s, (set_is_running false row), u, k.
      split; [rewrite C2; exact Hs |].
      split.
      { unfold processDecayEvent. rewrite Hs, Hu.
        replace (current_year s + decay_interval_years s >? total_years s)
          with true by (symmetry; apply Z.gtb_lt; lia).
        reflexivity. }
      split.
      { unfold processDecayEvent. rewrite Hs, Hu.
        replace (current_year s + decay_interval_years s >? total_years s)
          with true by (symmetry; apply Z.gtb_lt; lia).
        cbn [simulation_settings]. rewrite Hrow, <- Hid.
        apply update_eq_single. }
      split; [rewrite <- Hsync; reflexivity |].
      rewrite C4. repeat split; try assumption; try lia.
  - (* Start *)
    exists s, row, u, k. unfold startSimulation. rewrite Hs.
    cbn [settings user simulation_settings decay_events].
    repeat split; try assumption; try lia.
  - (* Pause *)
    exists s, row, u, k. unfold pauseSimulation. rewrite Hs.
    cbn [settings user simulation_settings decay_events].
    repeat split; try assumption; try lia.
  - (* Reset *)
    exists (reset_settings (start_capacity_kb s) s),
           (reset_settings (start_capacity_kb s) row), u, 0%nat.
    unfold resetSimulation. rewrite Hs, Hu.
    cbn [settings user simulation_settings decay_events reset_settings
         decay_interval_years current_year total_years List.length].
    rewrite Hrow, <- Hid, update_eq_single.
    repeat split; try assumption; try lia.
    apply sync_reset. exact Hsync.
  - (* Reload *)
    exists row, row, u, k. unfold fetchSettings. rewrite Hu, Hrow.
    cbn [settings user simulation_settings decay_events].
    destruct (sync_fields s row Hsync) as (E1 & E2 & E3 & E4 & E5 & E6 & E7).
    rewrite E3, E4, E6.
    repeat split; try assumption; try lia.
Qed.

Lemma events_stay (size_kb : string -> Z) (a : Action) (st : State) :
  (List.length (decay_events st) <= List.length (decay_events (act size_kb a st)))%nat.
Proof.
  destruct a; cbn [act].
  - unfold processDecayEvent. destruct (settings st) as [s |]; [| lia].
    destruct (user st); [| lia].
    destruct (current_year s + decay_interval_years s >? total_years s);
      cbn [decay_events]; [lia |].
    rewrite length_app. lia.
  - unfold startSimulation. destruct (settings st); cbn [decay_events]; lia.
  - unfold pauseSimulation. destruct (settings st); cbn [decay_events]; lia.
  - rewrite (proj1 (proj2 (reset_keeps size_kb st))). lia.
  - unfold fetchSettings. destruct (user st); [| lia].
    destruct (simulation_settings st) as [| ? [| ? ?]]; cbn [decay_events]; lia.
Qed.

(** X10: whatever the user does (a tick or a step, start, pause, reset,
    reload), a provider that is consistent stays so: its copy of the
    settings equals the stored row but for [is_running], so that a reload
    shows the same year and capacity; the year is a multiple of the
    interval within the simulation, [nextDecayIn] is the interval, and
    [currentDecayEvent] is the number of intervals elapsed.  No action
    removes a decay event: the table holds at least as many events as the
    counter shows, and more once a reset has brought the year back. *)
Theorem provider_stays_consistent (size_kb : string -> Z) (actions : list Action)
    (st : State) :
  consistent st ->
  let st' := run size_kb actions st in
  consistent st'
  /\ nextDecayIn st' = option_map decay_interval_years (settings st')
  /\ (exists (s' : SimulationSettings) (k : nat),
        settings st' = Some s'
        /\ current_year s' = Z.of_nat k * decay_interval_years s'
        /\ currentDecayEvent st' = of_Z (Z.of_nat k)
        /\ (k <= List.length (decay_events st'))%nat)
  /\ (List.length (decay_events st) <= List.length (decay_events st'))%nat
  /\ option_map (set_is_running false) (settings (fetchSettings st'))
     = option_map (set_is_running false) (settings st').
Proof.
  intro H. cbv zeta.
  assert (Hc : consistent (run size_kb actions st)).
  { unfold run. revert st H. induction actions as [| a l IH]; intros st H.
    - exact H.
    - cbn [fold_left]. apply IH. apply consistent_act. exact H. }
  split; [exact Hc |].
  destruct Hc as (s & row & u & k & Hs & Hu & Hrow & Hsync & Hi & Hy & Ht & He).
  assert (Hcy : currentYear (run size_kb actions st) = Z.of_nat k * decay_interval_years s).
  { unfold currentYear. rewrite Hs. exact Hy. }
  split; [| split; [| split]].
  - unfold nextDecayIn. rewrite Hcy, Hs. cbn [option_map].
    unfold js_rem.
    replace (decay_interval_years s =? 0) with false
      by (symmetry; apply Z.eqb_neq; lia).
    cbn [option_map]. rewrite Z.rem_mul by lia. f_equal. lia.
  - exists s, k. split; [exact Hs |]. split; [exact Hy |]. split; [| exact He].
    unfold currentDecayEvent. rewrite Hcy, Hs.
    rewrite div_exact by lia. apply Math_floor_of_Z. nia.
  - clear. unfold run. revert st. induction actions as [| a l IH]; intro st.
    + cbn. lia.
    + cbn [fold_left]. etransitivity; [apply (events_stay size_kb a) | apply IH].
  - unfold fetchSettings. rewrite Hu, Hrow. cbn [settings option_map].
    rewrite Hs. cbn [option_map]. f_equal. exact Hsync.
Qed.

Lemma provider_stays_consistent_witness :
  let st' := run (fun _ => 1000) [Cycle; Start; Reload; Cycle; Reset; Cycle]
               Scenario.default in
  consistent st'
  /\ currentYear st' = 2
  /\ currentDecayEvent st' = of_Z 1
  /\ List.length (decay_events st') = 3%nat.
Proof.
  cbv zeta.
  assert (H : consistent Scenario.default).
  { exists (Scenario.the_settings 0 1000000 5), (Scenario.the_settings 0 1000000 5),
           "owner-1"%string, 0%nat.
    repeat split; cbn; lia. }
  split.
  - exact (proj1 (provider_stays_consistent (fun _ => 1000)
                    [Cycle; Start; Reload; Cycle; Reset; Cycle]
                    Scenario.default H)).
  - repeat split; vm_compute; reflexivity.
Defined.

(** ** The dashboard and the time scale *)


Lemma degraded_deleted_size (item : ArchiveItem) :
  stage (degraded item) = DELETED -> stage item <> DELETED ->
  current_size_kb (degraded item) = 0.
Proof.
  unfold degraded, next_degradation.
  destruct (stage item); cbn; intros H Hl; try discriminate H; try reflexivity.
  contradiction.
Qed.

Lemma deleted_rows_stay_empty (st : State) (k : nat) :
  NoDup (map id (archive_items st)) ->
  Forall deleted_is_empty (archive_items st) ->
  Forall deleted_is_empty (archive_items (Nat.iter k processDecayEvent st)).
Proof.
  intros Hn H. induction k as [| k IH]; [exact H |].
  rewrite Nat.iter_succ.
  assert (Hn' : NoDup (map id (archive_items (Nat.iter k processDecayEvent st))))
    by (rewrite ids_after_cycles; assumption).
  pose proof (cycle_rows _ Hn') as Hrows.
  apply Forall_forall. intros after Hafter.
  destruct (Forall2_In_r _ _ _ Hrows after Hafter) as (before & Hb & Hr).
  rewrite Forall_forall in IH. specialize (IH before Hb).
  destruct Hr as [-> | [Hlive ->]]; [exact IH |].
  intro Hd. apply degraded_deleted_size; assumption.
Qed.

Lemma total_size_empty_deleted (items : list ArchiveItem) :
  Forall deleted_is_empty items ->
  fold_left (fun sum item => sum + current_size_kb item) items 0
  = storage_used items.
Proof.
  intro H. rewrite fold_left_sum, storage_used_eq, Z.add_0_l.
  induction H as [| x l Hx H IH]; [reflexivity |].
  cbn [total_size fold_right filter].
  fold (total_size l).
  destruct (stage_eqb (stage x) DELETED) eqn:E; cbn [negb].
  - apply stage_eqb_eq in E. rewrite (Hx E), IH. reflexivity.
  - cbn [total_size fold_right].
    fold (total_size (filter (fun item => negb (stage_eqb (stage item) DELETED)) l)).
    rewrite IH. reflexivity.
Qed.

Lemma count_le {A : Type} (R : A -> A -> Prop) (p : A -> bool) (l1 l2 : list A) :
  (forall a b, R a b -> p b = true -> p a = true) ->
  Forall2 R l1 l2 ->
  (List.length (filter p l2) <= List.length (filter p l1))%nat.
Proof.
  intros HR H. induction H as [| a b l1 l2 Hab H IH]; [simpl; lia |].
  cbn [filter]. specialize (HR a b Hab).
  destruct (p b) eqn:Eb.
  - rewrite (HR eq_refl). cbn [List.length]. lia.
  - destruct (p a); cbn [List.length]; lia.
Qed.

Lemma stage_index_FULL (s : DegradationStage) : stage_index s <= 0 -> s = FULL.
Proof. destruct s; simpl; intro H; try lia; reflexivity. Qed.

(** X13: the dashboard figures follow the cycles.  When every DELETED
    row is empty, the total size the dashboard shows is the storage the
    engine counts; after any number of cycles the total size has not
    grown, the number of items is the same, the number of FULL items has
    not grown, the number of DELETED items has not shrunk, and the number
    of items the dashboard takes for unscored (score 50) is unchanged. *)
Theorem dashboard_follows_cycles (st : State) (k : nat) :
  NoDup (map id (archive_items st)) ->
  Forall size_ok (archive_items st) ->
  Forall deleted_is_empty (archive_items st) ->
  let before := Dashboard.fetchStats (archive_items st) in
  let after :=
    Dashboard.fetchStats (archive_items (Nat.iter k processDecayEvent st)) in
  Dashboard.totalSizeKb after
  = storage_used (archive_items (Nat.iter k processDecayEvent st))
  /\ Dashboard.totalSizeKb after <= Dashboard.totalSizeKb before
  /\ Dashboard.totalItems after = Dashboard.totalItems before
  /\ (Dashboard.fullItems after <= Dashboard.fullItems before)%nat
  /\ (Dashboard.deletedItems before <= Dashboard.deletedItems after)%nat
  /\ Dashboard.unscoredCount (archive_items (Nat.iter k processDecayEvent st))
     = Dashboard.unscoredCount (archive_items st).
Proof.
  intros Hn Hok Hempty. cbv zeta.
  pose proof (rows_after_cycles st k Hn) as Hrows.
  pose proof (deleted_rows_stay_empty st k Hn Hempty) as Hempty'.
  cbn [Dashboard.fetchStats Dashboard.totalSizeKb Dashboard.totalItems
       Dashboard.fullItems Dashboard.deletedItems].
  rewrite (total_size_empty_deleted _ Hempty'), (total_size_empty_deleted _ Hempty).
  split; [reflexivity |].
  split; [apply storage_after_cycles; assumption |].
  split; [symmetry; apply (Forall2_length_eq _ _ _ Hrows) |].
  split; [| split].
  - eapply count_le; [| exact Hrows].
    intros a b (_ & Hi & _) Hb. cbv beta in *.
    apply stage_eqb_eq in Hb. apply stage_eqb_eq.
    rewrite Hb in Hi. apply stage_index_FULL. simpl in Hi. lia.
  - assert (Hrev : Forall2 (fun after before =>
                     stage before = DELETED -> stage after = DELETED)
                     (archive_items (Nat.iter k processDecayEvent st))
                     (archive_items st)).
    { clear -Hrows. induction Hrows as [| a b l1 l2 (_ & _ & Hd) H IH];
        constructor; auto.
      intro Hdel. rewrite (Hd Hdel). exact Hdel. }
    eapply count_le; [| exact Hrev].
    intros a b Hab Hb. cbv beta in *.
    apply stage_eqb_eq in Hb. apply stage_eqb_eq. auto.
  - unfold Dashboard.unscoredCount.
    clear -Hrows. induction Hrows as [| a b l1 l2 ((_ & _ & Hs & _) & _) H IH];
      [reflexivity |].
    cbn [filter]. rewrite Hs.
    destruct (match semantic_score a with
              | Some v => SFeqb v (of_Z 50)
              | None => false
              end); cbn [List.length]; rewrite IH; reflexivity.
Qed.

Lemma dashboard_follows_cycles_witness :
  Dashboard.totalSizeKb
    (Dashboard.fetchStats
       (archive_items (Nat.iter 3 processDecayEvent Scenario.one_item)))
  = storage_used (archive_items (Nat.iter 3 processDecayEvent Scenario.one_item)).
Proof.
  assert (Hn : NoDup (map id (archive_items Scenario.one_item))).
  { cbn. constructor; [intros [] | constructor]. }
  assert (Hok : Forall size_ok (archive_items Scenario.one_item)).
  { repeat constructor; cbn; lia. }
  assert (He : Forall deleted_is_empty (archive_items Scenario.one_item)).
  { repeat constructor. intro H. discriminate H. }
  exact (proj1 (dashboard_follows_cycles Scenario.one_item 3 Hn Hok He)).
Defined.

Lemma cycle_time_scale (st : State) (s row : SimulationSettings) (u : string) :
  settings st = Some s -> user st = Some u ->
  simulation_settings st = [row] -> settings_id row = settings_id s ->
  exists s' row',
    settings (processDecayEvent st) = Some s'
    /\ user (processDecayEvent st) = Some u
    /\ simulation_settings (processDecayEvent st) = [row']
    /\ settings_id row' = settings_id s'
    /\ time_scale_ms s' = time_scale_ms s
    /\ time_scale_ms row' = time_scale_ms row
    /\ decay_interval_years s' = decay_interval_years s.
Proof.
  intros Hs Hu Hrow Hid. unfold processDecayEvent. rewrite Hs, Hu.
  destruct (current_year s + decay_interval_years s >? total_years s).
  - exists s, (set_is_running false row).
    cbn [settings user simulation_settings].
    rewrite Hrow, <- Hid, update_eq_single. repeat split; auto.
  - eexists. eexists. cbn [settings user simulation_settings].
    rewrite Hrow, <- Hid, update_eq_single.
    split; [reflexivity |]. split; [reflexivity |]. split; [reflexivity |].
    cbn. repeat split; auto.
Qed.

(** X14: a time scale saved on the settings page reaches the stored row
    only.  The provider's copy of the settings, and with it the period of
    its timer, stays as it was, also through any number of decay cycles;
    the cycles keep the saved value in the row, and the next
    [fetchSettings] brings it into the provider. *)
Theorem saved_time_scale_waits_for_reload (timeScale : Z) (st : State)
    (s row : SimulationSettings) (u : string) (k : nat) :
  settings st = Some s -> user st = Some u ->
  simulation_settings st = [row] -> settings_id row = settings_id s ->
  let saved := handleSaveTimeScale timeScale st in
  let later := Nat.iter k processDecayEvent saved in
  settings saved = settings st
  /\ timer_period saved = timer_period st
  /\ map time_scale_ms (simulation_settings saved) = [timeScale]
  /\ option_map time_scale_ms (settings later) = Some (time_scale_ms s)
  /\ map time_scale_ms (simulation_settings later) = [timeScale]
  /\ option_map time_scale_ms (settings (fetchSettings later)) = Some timeScale.
Proof.
  intros Hs Hu Hrow Hid. cbv zeta.
  assert (E : handleSaveTimeScale timeScale st =
              {| user := user st; settings := settings st;
                 isRunning := isRunning st;
                 simulation_settings := [set_time_scale timeScale row];
                 archive_items := archive_items st;
                 decay_events := decay_events st;
                 degradation_logs := degradation_logs st;
                 alerts := alerts st |}).
  { unfold handleSaveTimeScale. rewrite Hs, Hrow, <- Hid, update_eq_single.
    reflexivity. }
  rewrite E. set (saved := {| user := user st |}) in *.
  split; [reflexivity |]. split; [reflexivity |]. split; [reflexivity |].
  assert (H : exists sk rowk,
             settings (Nat.iter k processDecayEvent saved) = Some sk
             /\ user (Nat.iter k processDecayEvent saved) = Some u
             /\ simulation_settings (Nat.iter k processDecayEvent saved) = [rowk]
             /\ settings_id rowk = settings_id sk
             /\ time_scale_ms sk = time_scale_ms s
             /\ time_scale_ms rowk = timeScale).
  { induction k as [| k (sk & rowk & K1 & K2 & K3 & K4 & K5 & K6)].
    - exists s, (set_time_scale timeScale row). cbn. repeat split; auto.
    - rewrite Nat.iter_succ.
      destruct (cycle_time_scale _ sk rowk u K1 K2 K3 K4)
        as (s' & row' & C1 & C2 & C3 & C4 & C5 & C6 & _).
      exists s', row'. repeat split; auto; congruence. }
  destruct H as (sk & rowk & K1 & K2 & K3 & K4 & K5 & K6).
  rewrite K1, K3. cbn [option_map map].
  split; [rewrite K5; reflexivity |]. split; [rewrite K6; reflexivity |].
  unfold fetchSettings. rewrite K2, K3. cbn [settings option_map].
  rewrite K6. reflexivity.
Qed.

Lemma saved_time_scale_waits_for_reload_witness :
  timer_period (handleSaveTimeScale 250 Scenario.running)
  = timer_period Scenario.running
  /\ option_map time_scale_ms
       (settings (fetchSettings
                    (Nat.iter 1 processDecayEvent
                       (handleSaveTimeScale 250 Scenario.running))))
     = Some 250.
Proof.
  pose proof (saved_time_scale_waits_for_reload 250 Scenario.running
                (Scenario.the_settings 0 1000000 5)
                (Scenario.the_settings 0 1000000 5) "owner-1" 1
                eq_refl eq_refl eq_refl eq_refl) as H.
  cbv zeta in H.
  exact (conj (proj1 (proj2 H))
              (proj2 (proj2 (proj2 (proj2 (proj2 H)))))).
Defined.

(** ** Initialization of the simulation *)


(** X15: [initializeSimulation] for an owner without a settings row
    inserts the default row (1,000,000 KB, 5 percent every 2 years, 60
    years) and the default weights, which are those the fallback score
    uses, leaves the items alone and gives a consistent provider with 30
    decay events ahead and 100 percent of capacity; a second call inserts
    nothing. *)
Theorem initialize_once (new_id again : string) (su : Setup) (u : string) :
  user (provider su) = Some u ->
  simulation_settings (provider su) = [] ->
  decay_events (provider su) = [] ->
  let su' := initializeSimulation new_id su in
  settings (provider su') = Some (default_settings new_id)
  /\ simulation_settings (provider su') = [default_settings new_id]
  /\ valuation_weights su' = valuation_weights su ++ [default_weights]
  /\ archive_items (provider su') = archive_items (provider su)
  /\ consistent (provider su')
  /\ totalDecayEvents (provider su') = of_Z 30
  /\ capacityPercent (provider su') = of_Z 100
  /\ (forall r q c,
        weighted_score r q c
        = add (add (mul r (weight_relevance default_weights))
                   (mul q (weight_uniqueness default_weights)))
              (mul c (weight_reconstructability default_weights)))
  /\ (let su'' := initializeSimulation again su' in
      settings (provider su'') = settings (provider su')
      /\ simulation_settings (provider su'') = simulation_settings (provider su')
      /\ valuation_weights su'' = valuation_weights su').
Proof.
  intros Hu Hrows Hev. cbv zeta.
  assert (E : initializeSimulation new_id su =
    {| provider :=
         {| user := user (provider su);
            settings := Some (default_settings new_id);
            isRunning := isRunning (provider su);
            simulation_settings := [default_settings new_id];
            archive_items := archive_items (provider su);
            decay_events := decay_events (provider su);
            degradation_logs := degradation_logs (provider su);
            alerts := alerts (provider su) |};
       valuation_weights := valuation_weights su ++ [default_weights] |}).
  { unfold initializeSimulation. cbv zeta. rewrite Hu, Hrows. reflexivity. }
  rewrite E. cbn [provider valuation_weights settings simulation_settings
                  archive_items].
  split; [reflexivity |]. split; [reflexivity |]. split; [reflexivity |].
  split; [reflexivity |]. split; [| split; [| split; [| split]]].
  - exists (default_settings new_id), (default_settings new_id), u, 0%nat.
    cbn [settings user simulation_settings decay_events default_settings
         decay_interval_years current_year total_years].
    rewrite Hev. repeat split; auto; cbn; lia.
  - unfold totalDecayEvents. cbn [settings default_settings total_years
                                  decay_interval_years].
    vm_compute. reflexivity.
  - unfold capacityPercent. cbn [settings default_settings current_capacity_kb
                                 start_capacity_kb].
    vm_compute. reflexivity.
  - intros r q c. unfold weighted_score, default_weights.
    cbn [weight_relevance weight_uniqueness weight_reconstructability].
    replace (lit 40 2) with (lit 4 1) by (vm_compute; reflexivity).
    reflexivity.
  - unfold initializeSimulation. cbv zeta. cbn [provider user simulation_settings].
    rewrite Hu. cbn [provider valuation_weights].
    unfold fetchSettings. cbn [user simulation_settings].
    cbn [settings simulation_settings]. repeat split.
Qed.

Lemma initialize_once_witness :
  settings (provider (initializeSimulation "settings-1" SetupScenario.fresh))
  = Some (default_settings "settings-1")
  /\ totalDecayEvents
       (provider (initializeSimulation "settings-1" SetupScenario.fresh))
     = of_Z 30.
Proof.
  pose proof (initialize_once "settings-1" "settings-2" SetupScenario.fresh
                "owner-1" eq_refl eq_refl eq_refl) as H.
  cbv zeta in H.
  exact (conj (proj1 H)
              (proj1 (proj2 (proj2 (proj2 (proj2 (proj2 H))))))).
Defined.

(** ** The timeline *)


Lemma Map_get_set (key key' : Z) (v : TimelineSlider.TimelineSnapshot)
    (m : TimelineSlider.SnapshotMap) :
  TimelineSlider.Map_get key (TimelineSlider.Map_set key' v m)
  = if key' =? key then Some v else TimelineSlider.Map_get key m.
Proof.
  induction m as [| [k w] m IH]; cbn [TimelineSlider.Map_set TimelineSlider.Map_get].
  - reflexivity.
  - destruct (k =? key') eqn:E1.
    + apply Z.eqb_eq in E1. subst k. cbn [TimelineSlider.Map_get].
      destruct (key' =? key); reflexivity.
    + cbn [TimelineSlider.Map_get]. destruct (k =? key) eqn:E2.
      * apply Z.eqb_eq in E2. subst k. rewrite Z.eqb_sym, E1. reflexivity.
      * exact IH.
Qed.

Lemma Map_set_keys (key' : Z) (v : TimelineSlider.TimelineSnapshot)
    (m : TimelineSlider.SnapshotMap) (key : Z) :
  In key (map fst (TimelineSlider.Map_set key' v m))
  <-> key = key' \/ In key (map fst m).
Proof.
  induction m as [| [k w] m IH]; cbn [TimelineSlider.Map_set map fst In].
  - intuition.
  - destruct (k =? key') eqn:E.
    + apply Z.eqb_eq in E. subst k. cbn [map fst In]. intuition.
    + cbn [map fst In]. rewrite IH. intuition.
Qed.

Lemma Map_get_In (key : Z) (m : TimelineSlider.SnapshotMap) :
  In key (map fst m) <-> TimelineSlider.Map_has key m = true.
Proof.
  unfold TimelineSlider.Map_has.
  induction m as [| [k w] m IH]; cbn [map fst In TimelineSlider.Map_get].
  - split; [contradiction | discriminate].
  - destruct (k =? key) eqn:E.
    + apply Z.eqb_eq in E. intuition.
    + apply Z.eqb_neq in E. rewrite <- IH. intuition.
Qed.

(** The fold of [getSnapshotForYear], from any starting value. *)
Lemma nearest_fold (year : Z) (m : TimelineSlider.SnapshotMap) :
  forall n0 : Z,
    let r :=
      fold_left (fun nearest (entry : Z * TimelineSlider.TimelineSnapshot) =>
                   let y := fst entry in
                   if (y <=? year) && (y >? nearest) then y else nearest)
        m n0 in
    n0 <= r
    /\ (r = n0 \/ (In r (map fst m) /\ r <= year))
    /\ (forall k, In k (map fst m) -> k <= year -> k <= r).
Proof.
  induction m as [| [k w] m IH]; intro n0; cbv zeta.
  - cbn. split; [lia |]. split; [left; reflexivity | intros k []].
  - cbn [fold_left fst map In].
    destruct ((k <=? year) && (k >? n0)) eqn:E.
    + apply andb_true_iff in E. destruct E as [E1 E2].
      apply Z.leb_le in E1. apply Z.gtb_lt in E2.
      destruct (IH k) as (I1 & I2 & I3). cbv zeta in *.
      split; [lia |]. split.
      * destruct I2 as [-> | [I2 I2']]; right; auto.
      * intros k' [<- | Hk'] Hle; [exact I1 | apply I3; assumption].
    + destruct (IH n0) as (I1 & I2 & I3). cbv zeta in *.
      split; [exact I1 |]. split.
      * destruct I2 as [-> | [I2 I2']]; [left; reflexivity | right; auto].
      * intros k' [<- | Hk'] Hle; [| apply I3; assumption].
        apply andb_false_iff in E. destruct E as [E | E].
        -- apply Z.leb_gt in E. lia.
        -- destruct (Z.gtb_spec k n0); [discriminate | lia].
Qed.

(** The entry [getSnapshotForYear] answers. *)
Lemma snapshot_core (snapshots : TimelineSlider.SnapshotMap) (year : Z) :
  TimelineSlider.Map_has 0 snapshots = true ->
  0 <= year ->
  exists (key : Z) (snapshot : TimelineSlider.TimelineSnapshot),
    TimelineSlider.getSnapshotForYear snapshots year = Some snapshot
    /\ TimelineSlider.Map_get key snapshots = Some snapshot
    /\ 0 <= key <= year
    /\ forall k, In k (map fst snapshots) -> k <= year -> k <= key.
Proof.
  intros H0 Hy. unfold TimelineSlider.getSnapshotForYear.
  destruct (TimelineSlider.Map_has year snapshots) eqn:Hhas.
  - unfold TimelineSlider.Map_has in Hhas.
    destruct (TimelineSlider.Map_get year snapshots) as [v |] eqn:Hg;
      [| discriminate].
    exists year, v. repeat split; auto; lia.
  - destruct (nearest_fold year snapshots 0) as (N1 & N2 & N3). cbv zeta in *.
    fold (TimelineSlider.nearestYear snapshots year) in *.
    set (n := TimelineSlider.nearestYear snapshots year) in *.
    assert (Hin : In n (map fst snapshots)).
    { destruct N2 as [-> | [N2 _]]; [apply Map_get_In; exact H0 | exact N2]. }
    assert (Hle : n <= year) by (destruct N2 as [-> | [_ N2]]; lia).
    apply Map_get_In in Hin. unfold TimelineSlider.Map_has in Hin.
    destruct (TimelineSlider.Map_get n snapshots) as [v |] eqn:Hg;
      [| discriminate].
    exists n, v. repeat split; auto.
Qed.

(** X16: [getSnapshotForYear] answers the snapshot of the latest
    recorded year that is not after the year asked for, when the map holds
    year 0 and the year asked for is not negative. *)
Theorem snapshot_lookup (snapshots : TimelineSlider.SnapshotMap) (year : Z) :
  TimelineSlider.Map_has 0 snapshots = true ->
  0 <= year ->
  exists (key : Z) (snapshot : TimelineSlider.TimelineSnapshot),
    TimelineSlider.getSnapshotForYear snapshots year = Some snapshot
    /\ TimelineSlider.Map_get key snapshots = Some snapshot
    /\ 0 <= key <= year
    /\ forall k, In k (map fst snapshots) -> k <= year -> k <= key.
Proof. exact (snapshot_core snapshots year). Qed.

Lemma snapshot_lookup_witness :
  exists snapshot,
    TimelineSlider.getSnapshotForYear TimelineScenario.two_years 7 = Some snapshot
    /\ TimelineSlider.year snapshot = 4.
Proof.
  destruct (snapshot_lookup TimelineScenario.two_years 7)
    as (key & snapshot & H & _).
  - reflexivity.
  - lia.
  - exists snapshot. split; [exact H |].
    cbv in H. injection H as <-. reflexivity.
Defined.

Section SnapshotFold.
Variable f : DecayEvent -> TimelineSlider.TimelineSnapshot.

Lemma get_fold_other (key : Z) (l : list DecayEvent) :
  forall m0 : TimelineSlider.SnapshotMap,
    ~ In key (map simulated_year l) ->
    TimelineSlider.Map_get key
      (fold_left (fun m e => TimelineSlider.Map_set (simulated_year e) (f e) m) l m0)
    = TimelineSlider.Map_get key m0.
Proof.
  induction l as [| x l IH]; intros m0 Hn; [reflexivity |].
  cbn [fold_left]. rewrite IH.
  - rewrite Map_get_set.
    destruct (simulated_year x =? key) eqn:E; [| reflexivity].
    apply Z.eqb_eq in E. exfalso. apply Hn. left. exact E.
  - intro H. apply Hn. right. exact H.
Qed.

Lemma get_fold_event (l : list DecayEvent) (e : DecayEvent) :
  forall m0 : TimelineSlider.SnapshotMap,
    NoDup (map simulated_year l) -> In e l ->
    TimelineSlider.Map_get (simulated_year e)
      (fold_left (fun m e => TimelineSlider.Map_set (simulated_year e) (f e) m) l m0)
    = Some (f e).
Proof.
  induction l as [| x l IH]; intros m0 Hn Hin; [contradiction |].
  inversion Hn as [| ? ? Hx Hl]; subst. cbn [fold_left].
  destruct Hin as [-> | Hin].
  - rewrite get_fold_other by exact Hx.
    rewrite Map_get_set, Z.eqb_refl. reflexivity.
  - apply IH; assumption.
Qed.

Lemma fold_keys (l : list DecayEvent) (key : Z) :
  forall m0 : TimelineSlider.SnapshotMap,
    In key (map fst
              (fold_left
                 (fun m e => TimelineSlider.Map_set (simulated_year e) (f e) m) l m0))
    <-> In key (map fst m0) \/ In key (map simulated_year l).
Proof.
  induction l as [| x l IH]; intro m0; cbn [fold_left map In].
  - intuition.
  - rewrite IH, Map_set_keys. intuition.
Qed.
End SnapshotFold.

Lemma seq_years_NoDup (i : Z) (k : nat) :
  0 < i -> NoDup (map (fun j => Z.of_nat j * i) (seq 1 k)).
Proof.
  intro Hi. apply Finite.Injective_map_NoDup; [| apply seq_NoDup].
  intros a b H. nia.
Qed.

Lemma numbering_years (events : list DecayEvent) (s : SimulationSettings) (k : nat) :
  numbering events = map (nth_event s) (seq 1 k) ->
  map simulated_year events
  = map (fun j => Z.of_nat j * decay_interval_years s) (seq 1 k).
Proof.
  intro H. apply (f_equal (map (fun t => snd (fst t)))) in H.
  unfold numbering in H. rewrite !map_map in H. exact H.
Qed.

Lemma numbering_event (events : list DecayEvent) (s : SimulationSettings)
    (k j : nat) :
  numbering events = map (nth_event s) (seq 1 k) ->
  (1 <= j <= k)%nat ->
  exists e, In e events
    /\ simulated_year e = Z.of_nat j * decay_interval_years s
    /\ capacity_after_kb e
       = Nat.iter j (fun c => decayed_capacity c (decay_percent s))
           (current_capacity_kb s).
Proof.
  intros H Hj.
  assert (Hin : In (nth_event s j) (numbering events)).
  { rewrite H. apply in_map, in_seq. lia. }
  unfold numbering in Hin. apply in_map_iff in Hin.
  destruct Hin as (e & He & Hin). exists e. split; [exact Hin |].
  unfold nth_event in He. injection He as _ E2 E3. auto.
Qed.

(** X17: the timeline replays the capacity of the run.  After k cycles
    of a run from year 0, the map [buildSnapshots] stores answers, for any
    year y, the snapshot of year [j * interval] with
    [j = min(k, floor(y / interval))], whose capacity is the start capacity
    cut j times. *)
Theorem timeline_replays_capacity (st : State) (s : SimulationSettings)
    (u : string) (k : nat) (viewYear : Z) :
  settings st = Some s -> user st = Some u ->
  current_year s = 0 -> decay_events st = [] ->
  current_capacity_kb s = start_capacity_kb s ->
  0 < decay_interval_years s -> 0 <= total_years s < 2 ^ 53 ->
  Z.of_nat k * decay_interval_years s <= total_years s ->
  0 <= viewYear ->
  let stk := Nat.iter k processDecayEvent st in
  let j := Z.to_nat (Z.min (Z.of_nat k) (viewYear / decay_interval_years s)) in
  exists snapshots snapshot,
    TimelineSlider.buildSnapshots stk = Some snapshots
    /\ TimelineSlider.getSnapshotForYear snapshots viewYear = Some snapshot
    /\ TimelineSlider.year snapshot = Z.of_nat j * decay_interval_years s
    /\ TimelineSlider.capacityKb snapshot
       = Nat.iter j (fun c => decayed_capacity c (decay_percent s))
           (start_capacity_kb s).
Proof.
  intros Hs Hu Hy Hev Hcap Hi Ht Hk Hview. cbv zeta.
  set (i := decay_interval_years s) in *.
  destruct (cycles_in_range st s u Hs Hu ltac:(fold i; lia) k) as (Ks & Ku & _ & _).
  { fold i. rewrite Hy. lia. }
  fold i in Ks. rewrite Hy, Z.add_0_l in Ks.
  pose proof (run_events st s u Hs Hu Hy Hi ltac:(lia) k Hk) as Hnum.
  rewrite Hev in Hnum. cbn [numbering map app] in Hnum.
  fold (numbering (decay_events (Nat.iter k processDecayEvent st))) in Hnum.
  set (stk := Nat.iter k processDecayEvent st) in *.
  set (sk := set_year_capacity (Z.of_nat k * i)
               (Nat.iter k (fun c => decayed_capacity c (decay_percent s))
                  (current_capacity_kb s)) s) in *.
  pose proof (numbering_years _ _ _ Hnum) as Hyears. fold i in Hyears.
  set (events := TimelineSlider.ordered_events (decay_events stk)).
  assert (Hperm : Permutation events (decay_events stk))
    by apply stable_sort_perm.
  assert (Hyears_in : forall y, In y (map simulated_year events)
                        <-> exists n, (1 <= n <= k)%nat /\ y = Z.of_nat n * i).
  { intro y. split.
    - intro H. apply (Permutation_in _ (Permutation_map simulated_year Hperm)) in H.
      rewrite Hyears in H. apply in_map_iff in H.
      destruct H as (n & <- & Hn). apply in_seq in Hn. exists n. split; [lia | reflexivity].
    - intros (n & Hn & ->).
      apply (Permutation_in _ (Permutation_map simulated_year (Permutation_sym Hperm))).
      rewrite Hyears. apply in_map_iff. exists n. split; [reflexivity |].
      apply in_seq. lia. }
  assert (Hnd : NoDup (map simulated_year events)).
  { apply (Permutation_NoDup (Permutation_map simulated_year (Permutation_sym Hperm))).
    rewrite Hyears. apply seq_years_NoDup. exact Hi. }
  assert (Hcy : currentYear stk = Z.of_nat k * i).
  { unfold currentYear. rewrite Ks. reflexivity. }
  (* the map *)
  assert (Hmap : TimelineSlider.buildSnapshots stk = Some
    (TimelineSlider.Map_set (Z.of_nat k * i)
      (TimelineSlider.current_snapshot sk (archive_items stk) (Z.of_nat k * i))
      (fold_left
         (fun m event =>
            TimelineSlider.Map_set (simulated_year event)
              (TimelineSlider.event_snapshot sk (archive_items stk) event) m)
         events
         (TimelineSlider.Map_set 0
            (TimelineSlider.initial_snapshot sk (archive_items stk)) [])))).
  { unfold TimelineSlider.buildSnapshots. rewrite Ks, Ku, Hcy. reflexivity. }
  set (m0 := TimelineSlider.Map_set 0
               (TimelineSlider.initial_snapshot sk (archive_items stk)) []) in *.
  set (m1 := fold_left _ events m0) in *.
  set (m2 := TimelineSlider.Map_set (Z.of_nat k * i) _ m1) in *.
  assert (Hkeys : forall key, In key (map fst m2)
                    <-> exists n, (n <= k)%nat /\ key = Z.of_nat n * i).
  { intro key. unfold m2. rewrite Map_set_keys. unfold m1. rewrite fold_keys, Hyears_in.
    unfold m0. cbn [TimelineSlider.Map_set map fst In]. split.
    - intros [-> | [[<- | []] | (n & Hn & ->)]].
      + exists k. split; [lia | reflexivity].
      + exists 0%nat. split; [lia | reflexivity].
      + exists n. split; [lia | reflexivity].
    - intros (n & Hn & ->).
      destruct (Nat.eq_dec n 0) as [-> | Hn0]; [right; left; left; reflexivity |].
      right. right. exists n. split; [lia | reflexivity]. }
  destruct (snapshot_core m2 viewYear)
    as (key & snap & L1 & L2 & L3 & L4).
  { apply Map_get_In, Hkeys. exists 0%nat. split; [lia | reflexivity]. }
  { exact Hview. }
  exists m2, snap. split; [exact Hmap |]. split; [exact L1 |].
  set (j := Z.to_nat (Z.min (Z.of_nat k) (viewYear / i))).
  assert (Hdiv : 0 <= viewYear / i) by (apply Z.div_pos; lia).
  assert (Hj : Z.of_nat j = Z.min (Z.of_nat k) (viewYear / i))
    by (unfold j; apply Z2Nat.id; lia).
  clearbody j.
  assert (Hjk : (j <= k)%nat) by lia.
  assert (Hjy : Z.of_nat j * i <= viewYear).
  { assert (Z.of_nat j <= viewYear / i) by lia.
    pose proof (Z.mul_div_le viewYear i Hi). nia. }
  assert (Ekey : key = Z.of_nat j * i).
  { assert (Hin : In key (map fst m2)).
    { apply Map_get_In. unfold TimelineSlider.Map_has. rewrite L2. reflexivity. }
    apply Hkeys in Hin. destruct Hin as (n & Hn & ->).
    assert (Hup : Z.of_nat j * i <= Z.of_nat n * i).
    { apply L4; [| exact Hjy]. apply Hkeys. exists j. split; [lia | reflexivity]. }
    assert (Hnj : Z.of_nat n <= viewYear / i).
    { apply Z.div_le_lower_bound; lia. }
    nia. }
  subst key. unfold m2 in L2. rewrite Map_get_set in L2.
  destruct (Z.of_nat k * i =? Z.of_nat j * i) eqn:Ekj.
  - apply Z.eqb_eq in Ekj. assert (Ejk : j = k) by nia.
    injection L2 as <-. cbn [TimelineSlider.current_snapshot TimelineSlider.year
                             TimelineSlider.capacityKb].
    split; [congruence |]. unfold sk. cbn [set_year_capacity current_capacity_kb].
    rewrite Ejk, Hcap. reflexivity.
  - apply Z.eqb_neq in Ekj.
    destruct (Nat.eq_dec j 0) as [Ej0 | Ej0].
    + rewrite Ej0 in *. cbn [Z.of_nat Z.mul] in L2. unfold m1 in L2.
      rewrite get_fold_other in L2.
      * unfold m0 in L2. cbn in L2. injection L2 as <-. cbn. split; reflexivity.
      * intro H. apply Hyears_in in H. destruct H as (n & Hn & Hn'). nia.
    + destruct (numbering_event _ s k j Hnum ltac:(lia)) as (e & He1 & He2 & He3).
      fold i in He2.
      assert (He : In e events)
        by (apply (Permutation_in _ (Permutation_sym Hperm)); exact He1).
      unfold m1 in L2. rewrite <- He2 in L2.
      rewrite get_fold_event in L2 by assumption.
      injection L2 as <-.
      cbn [TimelineSlider.event_snapshot TimelineSlider.year TimelineSlider.capacityKb].
      split; [exact He2 |]. rewrite He3, Hcap. reflexivity.
Qed.

Lemma timeline_replays_capacity_witness :
  exists snapshots snapshot,
    TimelineSlider.buildSnapshots (Nat.iter 2 processDecayEvent Scenario.default)
    = Some snapshots
    /\ TimelineSlider.getSnapshotForYear snapshots 3 = Some snapshot
    /\ TimelineSlider.year snapshot = 2
    /\ TimelineSlider.capacityKb snapshot = 950000.
Proof.
  pose proof (timeline_replays_capacity Scenario.default
                (Scenario.the_settings 0 1000000 5) "owner-1" 2 3
                eq_refl eq_refl eq_refl eq_refl eq_refl) as H.
  cbv zeta in H.
  assert (H1 : 0 < decay_interval_years (Scenario.the_settings 0 1000000 5))
    by (cbn; lia).
  assert (H2 : 0 <= total_years (Scenario.the_settings 0 1000000 5) < 2 ^ 53)
    by (cbn; lia).
  assert (H3 : Z.of_nat 2 * decay_interval_years (Scenario.the_settings 0 1000000 5)
               <= total_years (Scenario.the_settings 0 1000000 5))
    by (cbn; lia).
  assert (H4 : 0 <= 3) by lia.
  exact (H H1 H2 H3 H4).
Defined.

(** ** Seed data and quiet cycles *)


(** The product of two positive doubles does not depend on their order. *)
Lemma mul_comm_finite (a : positive) (ea : Z) (b : positive) (eb : Z) :
  mul (S754_finite false a ea) (S754_finite false b eb)
  = mul (S754_finite false b eb) (S754_finite false a ea).
Proof.
  rewrite !mul_eq. cbn [SFmul xorb].
  rewrite (Pos.mul_comm a b), (Z.add_comm ea eb). reflexivity.
Qed.

(** Multiplying a positive integer by a double that is at most [1 - 2^-52],
    in this order of the factors, and flooring gives a smaller integer. *)
Lemma floor_fraction_of (n : Z) (m : positive) (e : Z) :
  0 < n < 2 ^ 53 -> -1074 <= e <= 0 ->
  Zpos m * 2 ^ 52 <= (2 ^ 52 - 1) * 2 ^ (- e) ->
  0 <= floor (mul (S754_finite false m e) (of_Z n)) < n.
Proof.
  intros Hn Hec Hc.
  destruct (of_Z_exact n Hn) as (mn & en & -> & Hb & He & Hm & Hd).
  rewrite mul_comm_finite.
  destruct (digits2_bounds mn) as [M1 M2]. rewrite Hd in M1, M2.
  change (53 - 1) with 52 in M1.
  assert (P52 : 0 < 2 ^ 52) by (apply Z.pow_pos_nonneg; lia).
  assert (Pc : 0 < 2 ^ (- e)) by (apply Z.pow_pos_nonneg; lia).
  assert (Hprod : Zpos mn * Zpos m <= (Zpos mn - 1) * 2 ^ (- e)).
  { assert (H1 : Zpos mn * Zpos m * 2 ^ 52
                 <= Zpos mn * ((2 ^ 52 - 1) * 2 ^ (- e))).
    { rewrite <- Z.mul_assoc. apply Z.mul_le_mono_nonneg_l; lia. }
    assert (H2 : Zpos mn * ((2 ^ 52 - 1) * 2 ^ (- e))
                 <= (Zpos mn - 1) * 2 ^ (- e) * 2 ^ 52).
    { replace (Zpos mn * ((2 ^ 52 - 1) * 2 ^ (- e)))
        with ((Zpos mn * 2 ^ 52 - Zpos mn) * 2 ^ (- e)) by ring.
      replace ((Zpos mn - 1) * 2 ^ (- e) * 2 ^ 52)
        with ((Zpos mn * 2 ^ 52 - 2 ^ 52) * 2 ^ (- e)) by ring.
      apply Z.mul_le_mono_nonneg_r; lia. }
    apply Z.mul_le_mono_pos_r with (p := 2 ^ 52); lia. }
  assert (Hscaled : scaled (-1128) (Zpos mn * Zpos m) (en + e)
                    <= scaled (-1128) (Zpos mn - 1) en).
  { unfold scaled.
    assert (E : 2 ^ (en - -1128) = 2 ^ (- e) * 2 ^ (en + e - -1128)).
    { rewrite <- Z.pow_add_r by lia. f_equal. lia. }
    rewrite E.
    replace ((Zpos mn - 1) * (2 ^ (- e) * 2 ^ (en + e - -1128)))
      with ((Zpos mn - 1) * 2 ^ (- e) * 2 ^ (en + e - -1128)) by ring.
    apply Z.mul_le_mono_nonneg_r; [apply Z.pow_nonneg; lia | exact Hprod]. }
  assert (Hn' : scaled (-1128) (Zpos mn) en = n * 2 ^ (- -1128))
    by (apply of_Z_scaled; lia).
  assert (Pe : 0 < 2 ^ (en - -1128)) by (apply Z.pow_pos_nonneg; lia).
  assert (Hpred : scaled (-1128) (Zpos mn - 1) en < n * 2 ^ (- -1128)).
  { rewrite <- Hn'. unfold scaled. apply Z.mul_lt_mono_pos_r; lia. }
  (* the bound is a double with the 53 digits [mul_at_most] asks of the
     second factor only when the factors are taken in the other order *)
  assert (Hswap : forall (mB : positive) (eB : Z),
            -1128 <= eB -> bounded prec emax mB eB = true ->
            scaled (-1128) (Zpos mn * Zpos m) (en + e)
            <= scaled (-1128) (Zpos mB) eB ->
            at_most (-1128)
              (mul (S754_finite false mn en) (S754_finite false m e)) mB eB).
  { intros mB eB HLB HB Hv. rewrite mul_comm_finite.
    apply mul_at_most; try assumption; try lia.
    rewrite (Z.mul_comm (Zpos m)), (Z.add_comm e). exact Hv. }
  destruct (Z.eq_dec (Zpos mn) (2 ^ 52)) as [Emin | Emin].
  - assert (HB : bounded prec emax 9007199254740991 (en - 1) = true).
    { apply bounded_spec.
      change (Zpos (digits2_pos 9007199254740991)) with 53. lia. }
    assert (Hv : scaled (-1128) 9007199254740991 (en - 1)
                 = scaled (-1128) (2 * (Zpos mn - 1) + 1) (en - 1)).
    { rewrite Emin. reflexivity. }
    assert (Hv2 : scaled (-1128) (2 * (Zpos mn - 1)) (en - 1)
                  = scaled (-1128) (Zpos mn - 1) en).
    { replace en with ((en - 1) + 1) at 2 by lia.
      rewrite scaled_shift by lia. f_equal. rewrite Z.pow_1_r. ring. }
    assert (Hle : scaled (-1128) (Zpos mn * Zpos m) (en + e)
                  <= scaled (-1128) 9007199254740991 (en - 1)).
    { rewrite Hv. eapply Z.le_trans; [exact Hscaled |]. rewrite <- Hv2.
      unfold scaled. apply Z.mul_le_mono_nonneg_r;
        [apply Z.pow_nonneg; lia | lia]. }
    assert (Hlt : scaled (-1128) 9007199254740991 (en - 1) < n * 2 ^ (- -1128)).
    { rewrite <- Hn'.
      replace (scaled (-1128) (Zpos mn) en)
        with (scaled (-1128) (2 * Zpos mn) (en - 1)).
      - unfold scaled. apply Z.mul_lt_mono_pos_r;
          [apply Z.pow_pos_nonneg; lia | lia].
      - replace en with ((en - 1) + 1) at 2 by lia.
        rewrite scaled_shift by lia. f_equal. rewrite Z.pow_1_r. ring. }
    destruct (floor_at_most (-1128) _ 9007199254740991 (en - 1) n
                ltac:(lia) (Hswap 9007199254740991%positive (en - 1) ltac:(lia) HB Hle))
      as (F0 & _ & F2).
    split; [exact F0 | exact (F2 Hlt)].
  - assert (Hm1 : 2 ^ 52 <= Zpos mn - 1) by lia.
    destruct (Zpos mn - 1) as [| p1 | p1] eqn:Ep1; try lia.
    assert (HB : bounded prec emax p1 en = true).
    { apply bounded_spec.
      assert (Hd1 : Zpos (digits2_pos p1) = 53)
        by (apply digits2_unique; change (53 - 1) with 52; lia).
      rewrite Hd1. lia. }
    destruct (floor_at_most (-1128) _ p1 en n
                ltac:(lia) (Hswap p1 en ltac:(lia) HB Hscaled))
      as (F0 & _ & F2).
    split; [exact F0 | exact (F2 Hpred)].
Qed.

Lemma mul_zero_finite (m : positive) (e : Z) :
  mul (S754_zero false) (S754_finite false m e) = S754_zero false.
Proof. rewrite mul_eq. reflexivity. Qed.

(** The floor of [Math.random() * n] is an index below [n], as soon as it
    is one for the largest double below 1. *)
Lemma floor_draw (n : Z) (r : number) :
  0 < n < 2 ^ 53 ->
  IngestData.unit_draw r = true ->
  floor (mul (S754_finite false 9007199254740991 (-53)) (of_Z n)) < n ->
  0 <= floor (mul r (of_Z n)) < n.
Proof.
  intros Hn Hr Hmax.
  destruct r as [[|] | [|] | | [|] m e]; try discriminate Hr.
  - destruct (of_Z_exact n Hn) as (mn & en & -> & _).
    rewrite mul_zero_finite, floor_zero. lia.
  - cbn [IngestData.unit_draw] in Hr.
    apply andb_true_iff in Hr. destruct Hr as [Hr Hv].
    apply andb_true_iff in Hr. destruct Hr as [Hb He].
    apply Z.ltb_lt in He, Hv. apply bounded_spec in Hb. destruct Hb as [Hb _].
    destruct (digits2_bounds m) as [D1 D2].
    set (d := Zpos (digits2_pos m)) in *.
    assert (Hd : 1 <= d) by (unfold d; lia).
    assert (Hlow : -1074 <= e) by lia.
    assert (Hd53 : d <= 53) by lia.
    assert (Hm53 : Zpos m < 2 ^ 53).
    { eapply Z.lt_le_trans; [exact D2 |]. apply Z.pow_le_mono_r; lia. }
    assert (He53 : e <= -53).
    { destruct (Z_le_gt_dec e (-53)) as [H | H]; [exact H | exfalso].
      assert (d = 53) by lia.
      assert (2 ^ 52 <= Zpos m) by (rewrite H0 in D1; exact D1).
      assert (2 ^ (- e) <= 2 ^ 52) by (apply Z.pow_le_mono_r; lia).
      lia. }
    destruct (Z.eq_dec e (-53)) as [E53 | E53].
    + subst e. destruct (Z.eq_dec (Zpos m) 9007199254740991) as [Em | Em].
      * injection Em as ->.
        split; [| exact Hmax].
        destruct (of_Z_exact n Hn) as (mn & en & E & Hbn & Hen & Hmn & Hdn).
        rewrite E.
        assert (HB : bounded prec emax mn en = true) by exact Hbn.
        assert (Hat : at_most (-1128)
                  (mul (S754_finite false 9007199254740991 (-53))
                       (S754_finite false mn en)) mn en).
        { apply mul_at_most; try assumption; try lia.
          unfold scaled.
          replace (en - -1128) with (53 + (-53 + en - -1128)) by lia.
          rewrite Z.pow_add_r by lia.
          assert (P : 0 <= 2 ^ (-53 + en - -1128)) by (apply Z.pow_nonneg; lia).
          change (2 ^ 53) with 9007199254740992. nia. }
        exact (proj1 (floor_at_most (-1128) _ mn en n ltac:(lia) Hat)).
      * apply floor_fraction_of; [exact Hn | lia |].
        change (- -53) with 53. change (2 ^ 53) with 9007199254740992 in *.
        change (2 ^ 52) with 4503599627370496. lia.
    + apply floor_fraction_of; [exact Hn | lia |].
      assert (H54 : 2 ^ 54 <= 2 ^ (- e)) by (apply Z.pow_le_mono_r; lia).
      change (2 ^ 53) with 9007199254740992 in *.
      change (2 ^ 52) with 4503599627370496.
      change (2 ^ 54) with 18014398509481984 in H54. nia.
Qed.

Lemma largest_draws :
  floor (mul (S754_finite false 9007199254740991 (-53)) (of_Z 5)) = 4
  /\ floor (mul (S754_finite false 9007199254740991 (-53)) (of_Z 20)) = 19
  /\ floor (mul (S754_finite false 9007199254740991 (-53)) (of_Z 800)) = 799.
Proof. repeat split; vm_compute; reflexivity. Qed.

Lemma at_index_in_range {A : Type} (l : list A) (i : Z) :
  0 <= i < Z.of_nat (List.length l) -> exists x, IngestData.at_index l i = Some x.
Proof.
  intros [H0 H1]. unfold IngestData.at_index.
  destruct (Z.ltb_spec i 0); [lia |].
  destruct (nth_error l (Z.to_nat i)) as [x |] eqn:E; [exists x; reflexivity |].
  apply nth_error_None in E. lia.
Qed.

(** A seed item built from draws in [0, 1): a FULL row of 100 to 899 KB. *)
Lemma seedItem_row (new_id : string) (i : nat) (d : IngestData.Draws) :
  IngestData.unit_draws d = true ->
  exists item,
    IngestData.seedItem new_id i d = Some item
    /\ id item = new_id /\ stage item = FULL
    /\ 100 <= current_size_kb item <= 899.
Proof.
  intro Hd. unfold IngestData.unit_draws in Hd.
  repeat (apply andb_true_iff in Hd; destruct Hd as [Hd ?]).
  destruct largest_draws as (L5 & L20 & L800).
  assert (H5 : 0 <= floor (mul (IngestData.draw_type d) (of_Z 5)) < 5)
    by (apply floor_draw; [lia | assumption | rewrite L5; lia]).
  assert (H20 : 0 <= floor (mul (IngestData.draw_topic d) (of_Z 20)) < 20)
    by (apply floor_draw; [lia | assumption | rewrite L20; lia]).
  assert (H800 : 0 <= floor (mul (IngestData.draw_size d) (of_Z 800)) < 800)
    by (apply floor_draw; [lia | assumption | rewrite L800; lia]).
  unfold IngestData.seedItem.
  change (Z.of_nat (List.length IngestData.types)) with 5.
  change (Z.of_nat (List.length IngestData.topics)) with 20.
  destruct (at_index_in_range IngestData.types _ H5) as (type & ->).
  destruct (at_index_in_range IngestData.topics _ H20) as (topic & ->).
  eexists. split; [reflexivity |].
  cbn [inserted_item id stage current_size_kb]. repeat split; lia.
Qed.

Lemma all_some_map {A B : Type} (f : A -> option B) (P : B -> Prop) (l : list A) :
  (forall a, In a l -> exists b, f a = Some b /\ P b) ->
  exists bs, IngestData.all_some (map f l) = Some bs
             /\ List.length bs = List.length l /\ Forall P bs.
Proof.
  induction l as [| a l IH]; intro H.
  - exists []. repeat split. constructor.
  - destruct (H a (or_introl eq_refl)) as (b & Hb & Pb).
    destruct IH as (bs & E & Hl & HP); [intros x Hx; apply H; right; exact Hx |].
    exists (b :: bs). cbn [map IngestData.all_some]. rewrite Hb, E.
    repeat split; [cbn; lia | constructor; assumption].
Qed.

Lemma total_size_bound (B : Z) (items : list ArchiveItem) :
  Forall (fun item => 0 <= current_size_kb item <= B) items ->
  forall f, total_size (filter f items) <= B * Z.of_nat (List.length items).
Proof.
  intros H f. induction H as [| x l Hx H IH].
  - cbn. lia.
  - cbn [filter List.length]. destruct (f x); cbn [total_size fold_right].
    + fold (total_size (filter f l)). lia.
    + lia.
Qed.

(** A cycle that finds the storage within the new capacity. *)
Lemma quiet_cycle (st : State) (s : SimulationSettings) (u : string) :
  settings st = Some s -> user st = Some u ->
  current_year s + decay_interval_years s <= total_years s ->
  storage_used (archive_items st)
  <= decayed_capacity (current_capacity_kb s) (decay_percent s) ->
  let st' := processDecayEvent st in
  archive_items st' = archive_items st
  /\ degradation_logs st' = degradation_logs st
  /\ alerts st' = alerts st
  /\ exists e, decay_events st' = decay_events st ++ [e]
       /\ items_affected e = 0
       /\ storage_before_kb e = storage_used (archive_items st)
       /\ storage_after_kb e = storage_used (archive_items st).
Proof.
  intros Hs Hu Hin Hfit. cbv zeta.
  destruct (cycle_no_pressure st s u Hs Hu Hin Hfit) as (A1 & A2 & A3).
  split; [exact A1 |]. split; [exact A2 |]. split; [exact A3 |].
  destruct (cycle_full st s u Hs Hu Hin)
    as (k & logs & sys & _ & _ & _ & _ & _ & _ & _ & H7 & _ & _).
  cbv zeta in *.
  eexists. split; [exact H7 |].
  cbn [items_affected storage_before_kb storage_after_kb].
  repeat split.
Qed.

(** Cycles that find the storage within the capacity leave the archive alone. *)
Lemma quiet_run (st : State) (s : SimulationSettings)
    (u : string) (k : nat) :
  settings st = Some s -> user st = Some u ->
  0 <= decay_interval_years s ->
  current_year s + Z.of_nat k * decay_interval_years s <= total_years s ->
  (forall j : nat, (1 <= j <= k)%nat ->
     storage_used (archive_items st)
     <= Nat.iter j (fun c => decayed_capacity c (decay_percent s))
          (current_capacity_kb s)) ->
  let stk := Nat.iter k processDecayEvent st in
  archive_items stk = archive_items st
  /\ degradation_logs stk = degradation_logs st
  /\ alerts stk = alerts st
  /\ exists events,
       decay_events stk = decay_events st ++ events
       /\ List.length events = k
       /\ Forall (fun e => items_affected e = 0
                           /\ storage_before_kb e = storage_used (archive_items st)
                           /\ storage_after_kb e = storage_used (archive_items st))
            events.
Proof.
  intros Hs Hu Hi. cbv zeta. induction k as [| k IH]; intros Hin Hfit.
  - cbn [Nat.iter]. repeat split. exists []. rewrite app_nil_r.
    repeat split. constructor.
  - destruct IH as (I1 & I2 & I3 & events & I4 & I5 & I6); [nia | |].
    { intros j Hj. apply Hfit. lia. }
    destruct (cycles_in_range st s u Hs Hu Hi k ltac:(nia)) as (Ks & Ku & _).
    change (Nat.iter (S k) processDecayEvent st)
      with (processDecayEvent (Nat.iter k processDecayEvent st)).
    set (stk := Nat.iter k processDecayEvent st) in *.
    destruct (quiet_cycle stk _ u Ks Ku) as (Q1 & Q2 & Q3 & e & Q4 & Q5 & Q6 & Q7).
    + cbn [set_year_capacity current_year decay_interval_years total_years]. nia.
    + cbn [set_year_capacity current_capacity_kb decay_percent].
      rewrite I1. apply (Hfit (S k)). lia.
    + rewrite Q1, Q2, Q3, I1, I2, I3. repeat split.
      exists (events ++ [e]). rewrite Q4, I4, <- app_assoc.
      split; [reflexivity |]. split; [rewrite length_app; cbn; lia |].
      apply Forall_app. split; [exact I6 |]. constructor; [| constructor].
      rewrite Q5, Q6, Q7, I1. repeat split.
Qed.

(** X18: cycles that find the storage within the new capacity leave the
    archive alone.  While the storage in use does not exceed the capacity
    after each of k cycles, these cycles change no row, log nothing and
    raise no alert; each records a decay event with no item affected and
    the same storage before and after. *)
Theorem untouched_while_storage_fits (st : State) (s : SimulationSettings)
    (u : string) (k : nat) :
  settings st = Some s -> user st = Some u ->
  0 <= decay_interval_years s ->
  current_year s + Z.of_nat k * decay_interval_years s <= total_years s ->
  (forall j : nat, (1 <= j <= k)%nat ->
     storage_used (archive_items st)
     <= Nat.iter j (fun c => decayed_capacity c (decay_percent s))
          (current_capacity_kb s)) ->
  let stk := Nat.iter k processDecayEvent st in
  archive_items stk = archive_items st
  /\ degradation_logs stk = degradation_logs st
  /\ alerts stk = alerts st
  /\ exists events,
       decay_events stk = decay_events st ++ events
       /\ List.length events = k
       /\ Forall (fun e => items_affected e = 0
                           /\ storage_before_kb e = storage_used (archive_items st)
                           /\ storage_after_kb e = storage_used (archive_items st))
            events.
Proof. exact (quiet_run st s u k). Qed.

Lemma untouched_while_storage_fits_witness :
  archive_items (Nat.iter 2 processDecayEvent Scenario.default)
  = archive_items Scenario.default
  /\ degradation_logs (Nat.iter 2 processDecayEvent Scenario.default) = [].
Proof.
  pose proof (untouched_while_storage_fits Scenario.default
                (Scenario.the_settings 0 1000000 5) "owner-1" 2
                eq_refl eq_refl) as H.
  cbv zeta in H.
  assert (H1 : 0 <= decay_interval_years (Scenario.the_settings 0 1000000 5))
    by (cbn; lia).
  assert (H2 : current_year (Scenario.the_settings 0 1000000 5)
               + Z.of_nat 2 * decay_interval_years (Scenario.the_settings 0 1000000 5)
               <= total_years (Scenario.the_settings 0 1000000 5))
    by (cbn; lia).
  assert (H3 : forall j : nat, (1 <= j <= 2)%nat ->
            storage_used (archive_items Scenario.default)
            <= Nat.iter j
                 (fun c => decayed_capacity c
                             (decay_percent (Scenario.the_settings 0 1000000 5)))
                 (current_capacity_kb (Scenario.the_settings 0 1000000 5))).
  { intros j Hj. assert (Hc : j = 1%nat \/ j = 2%nat) by lia.
    destruct Hc as [-> | ->]; vm_compute; discriminate. }
  destruct (H H1 H2 H3) as (A1 & A2 & _).
  split; [exact A1 | exact A2].
Defined.

(** The capacities of the default run stay above 200 items of 899 KB. *)
Lemma default_capacities (j : nat) :
  (1 <= j <= 30)%nat ->
  179800 <= Nat.iter j (fun c => decayed_capacity c (of_Z 5)) 1000000.
Proof.
  intro Hj.
  assert (H : forallb
                (fun j => 179800 <=? Nat.iter j (fun c => decayed_capacity c (of_Z 5))
                                       1000000)
                (seq 1 30) = true) by (vm_compute; reflexivity).
  rewrite forallb_forall in H. apply Z.leb_le, H, in_seq. lia.
Qed.

(** X19: one batch of seed data outlasts the default simulation.  For a
    new owner, [initializeSimulation] followed by [generateSeedData], with
    draws of [Math.random()] in [0, 1), stores 200 FULL items of 100 to
    899 KB each; their total stays below the capacity of every one of the
    30 decay events (1,000,000 KB cut by 5 percent each time), so that the
    whole run, up to year 60, degrades no item and logs nothing. *)
Theorem seed_data_outlasts_default_run (su : Setup) (u settings_key : string)
    (new_id : nat -> string) (draws : nat -> IngestData.Draws) :
  user (provider su) = Some u ->
  simulation_settings (provider su) = [] ->
  archive_items (provider su) = [] ->
  decay_events (provider su) = [] ->
  (forall i : nat, (i < 200)%nat -> IngestData.unit_draws (draws i) = true) ->
  let st0 := provider (initializeSimulation settings_key su) in
  exists st1 : State,
    IngestData.generateSeedData new_id draws st0 = Some st1
    /\ List.length (archive_items st1) = 200%nat
    /\ Forall (fun item => stage item = FULL
                           /\ 100 <= current_size_kb item <= 899)
         (archive_items st1)
    /\ forall k : nat, (k <= 30)%nat ->
         let stk := Nat.iter k processDecayEvent st1 in
         archive_items stk = archive_items st1
         /\ degradation_logs stk = degradation_logs st1
         /\ alerts stk = alerts st1
         /\ List.length (decay_events stk) = k
         /\ Forall (fun e => items_affected e = 0
                             /\ storage_after_kb e = storage_before_kb e)
              (decay_events stk)
         /\ option_map current_year (settings stk) = Some (2 * Z.of_nat k).
Proof.
  intros Hu Hrows Hitems Hev Hdraws. cbv zeta.
  assert (E : provider (initializeSimulation settings_key su) =
    {| user := Some u;
       settings := Some (default_settings settings_key);
       isRunning := isRunning (provider su);
       simulation_settings := [default_settings settings_key];
       archive_items := [];
       decay_events := [];
       degradation_logs := degradation_logs (provider su);
       alerts := alerts (provider su) |}).
  { unfold initializeSimulation. cbv zeta. rewrite Hu, Hrows, Hitems, Hev.
    reflexivity. }
  rewrite E. clear E.
  destruct (all_some_map
              (fun i => IngestData.seedItem (new_id i) i (draws i))
              (fun item => stage item = FULL /\ 100 <= current_size_kb item <= 899)
              (seq 0 200))
    as (rows & Hall & Hlen & Hrows').
  { intros i Hi. apply in_seq in Hi.
    destruct (seedItem_row (new_id i) i (draws i) (Hdraws i ltac:(lia)))
      as (item & H1 & _ & H2 & H3).
    exists item. auto. }
  rewrite length_seq in Hlen.
  unfold IngestData.generateSeedData. cbn [user]. rewrite Hall.
  eexists. split; [reflexivity |].
  cbn [archive_items degradation_logs alerts app].
  split; [exact Hlen |]. split; [exact Hrows' |].
  intros k Hk.
  set (st1 := {| user := Some u |}).
  assert (Hstore : storage_used (archive_items st1) <= 179800).
  { rewrite storage_used_eq. cbn [st1 archive_items app].
    eapply Z.le_trans.
    - apply (total_size_bound 899).
      eapply Forall_impl; [| exact Hrows']. cbv beta. intros a (_ & Ha). lia.
    - rewrite Hlen. reflexivity. }
  destruct (quiet_run st1 (default_settings settings_key) u k eq_refl eq_refl)
    as (Q1 & Q2 & Q3 & events & Q4 & Q5 & Q6).
  - cbn. lia.
  - cbn [default_settings current_year decay_interval_years total_years]. lia.
  - intros j Hj. eapply Z.le_trans; [exact Hstore |].
    cbn [default_settings decay_percent current_capacity_kb].
    apply default_capacities. lia.
  - destruct (cycles_in_range st1 (default_settings settings_key) u eq_refl eq_refl
                ltac:(cbn; lia) k) as (Ks & _).
    { cbn [default_settings current_year decay_interval_years total_years]. lia. }
    split; [exact Q1 |]. split; [exact Q2 |]. split; [exact Q3 |].
    rewrite Q4. cbn [st1 decay_events app].
    split; [exact Q5 |]. split.
    + eapply Forall_impl; [| exact Q6]. cbv beta. intros e (H1 & H2 & H3).
      split; [exact H1 | congruence].
    + rewrite Ks. cbn [option_map set_year_capacity current_year default_settings
                       decay_interval_years]. f_equal. lia.
Qed.

Lemma seed_data_outlasts_default_run_witness :
  exists st1 : State,
    IngestData.generateSeedData SeedScenario.keys SeedScenario.halves
      (provider (initializeSimulation "settings-1" SeedScenario.new_owner))
    = Some st1
    /\ List.length (archive_items st1) = 200%nat.
Proof.
  destruct (seed_data_outlasts_default_run SeedScenario.new_owner
              "owner-1" "settings-1" SeedScenario.keys SeedScenario.halves
              eq_refl eq_refl eq_refl eq_refl (fun i _ => eq_refl))
    as (st1 & H1 & H2 & _).
  exists st1. split; [exact H1 | exact H2].
Defined.

(** ** The replay *)


Lemma sorted_stable_sort {A : Type} (before : A -> A -> bool) (l : list A) :
  StronglySorted (fun a b => before a b = true) l -> stable_sort before l = l.
Proof.
  intro H. induction H as [| x l Hl IH Hx]; [reflexivity |].
  unfold stable_sort in *. cbn [fold_right]. rewrite IH.
  destruct l as [| y l']; [reflexivity |]. cbn [insert].
  inversion Hx as [| ? ? Hxy _]; subst. rewrite Hxy. reflexivity.
Qed.

Lemma sorted_by_key {A : Type} (f : A -> Z) (l : list A) :
  StronglySorted Z.le (map f l) ->
  StronglySorted (fun a b => (f a <=? f b) = true) l.
Proof.
  induction l as [| x l IH]; intro H; [constructor |].
  cbn [map] in H. inversion H as [| ? ? Hl Hx]; subst.
  constructor; [apply IH; exact Hl |].
  rewrite Forall_map in Hx. eapply Forall_impl; [| exact Hx].
  intros a Ha. apply Z.leb_le. exact Ha.
Qed.

Lemma sorted_multiples (i : Z) (a n : nat) :
  0 <= i -> StronglySorted Z.le (map (fun j => Z.of_nat j * i) (seq a n)).
Proof.
  intro Hi. revert a. induction n as [| n IH]; intro a; [constructor |].
  cbn [seq map]. constructor; [apply IH |].
  rewrite Forall_map. apply Forall_forall. intros j Hj. apply in_seq in Hj. nia.
Qed.

Lemma degraded_not_full (item : ArchiveItem) : stage (degraded item) <> FULL.
Proof.
  unfold degraded, next_degradation.
  destruct (stage item); cbn [stage]; discriminate.
Qed.

Section ReplayFold.
Variable s : SimulationSettings.
Variable logs : list DegradationLog.

Lemma replay_fold_counts (events : list DecayEvent) :
  forall acc,
    fst (fold_left (GlobalTimelineReplay.add_event s logs) events acc)
    = counts_after logs events (fst acc).
Proof.
  induction events as [| e events IH]; intro acc; [reflexivity |].
  cbn [fold_left]. rewrite IH. reflexivity.
Qed.

Lemma replay_fold_other (key : Z) (events : list DecayEvent) :
  forall acc,
    ~ In key (map simulated_year events) ->
    TimelineSlider.Map_get key
      (snd (fold_left (GlobalTimelineReplay.add_event s logs) events acc))
    = TimelineSlider.Map_get key (snd acc).
Proof.
  induction events as [| e events IH]; intros acc Hn; [reflexivity |].
  cbn [fold_left]. rewrite IH.
  - cbn [GlobalTimelineReplay.add_event snd]. rewrite Map_get_set.
    destruct (simulated_year e =? key) eqn:E; [| reflexivity].
    apply Z.eqb_eq in E. exfalso. apply Hn. left. exact E.
  - intro H. apply Hn. right. exact H.
Qed.

Lemma replay_fold_event (l1 l2 : list DecayEvent) (e : DecayEvent) :
  forall acc,
    ~ In (simulated_year e) (map simulated_year l2) ->
    exists snapshot,
      TimelineSlider.Map_get (simulated_year e)
        (snd (fold_left (GlobalTimelineReplay.add_event s logs)
                (l1 ++ e :: l2) acc))
      = Some snapshot
      /\ TimelineSlider.year snapshot = simulated_year e
      /\ TimelineSlider.decayEventNo snapshot = Some (event_no e)
      /\ TimelineSlider.itemsAffected snapshot = items_affected e
      /\ TimelineSlider.capacityKb snapshot = capacity_after_kb e
      /\ TimelineSlider.stageCounts snapshot = counts_after logs (l1 ++ [e]) (fst acc).
Proof.
  intros acc Hn. rewrite fold_left_app. cbn [fold_left].
  rewrite replay_fold_other by exact Hn.
  cbn [GlobalTimelineReplay.add_event snd]. rewrite Map_get_set, Z.eqb_refl.
  eexists. split; [reflexivity |].
  cbn [TimelineSlider.year TimelineSlider.decayEventNo TimelineSlider.itemsAffected
       TimelineSlider.capacityKb TimelineSlider.stageCounts].
  repeat split. unfold counts_after. rewrite fold_left_app. cbn [fold_left].
  rewrite replay_fold_counts. reflexivity.
Qed.

Lemma increment_total (st : DegradationStage) (c : TimelineSlider.StageCounts) :
  GlobalTimelineReplay.total (GlobalTimelineReplay.increment st c)
  = S (GlobalTimelineReplay.total c).
Proof.
  unfold GlobalTimelineReplay.total.
  destruct st; cbn [GlobalTimelineReplay.increment TimelineSlider.count_FULL
    TimelineSlider.count_COMPRESSED TimelineSlider.count_SUMMARIZED
    TimelineSlider.count_MINIMAL TimelineSlider.count_DELETED]; lia.
Qed.

Lemma increment_full (st : DegradationStage) (c : TimelineSlider.StageCounts) :
  st <> FULL ->
  TimelineSlider.count_FULL (GlobalTimelineReplay.increment st c)
  = TimelineSlider.count_FULL c.
Proof. intro H. destruct st; [contradiction | reflexivity ..]. Qed.

Lemma increments_total (l : list DegradationLog) :
  forall c,
    GlobalTimelineReplay.total
      (fold_left (fun c log => GlobalTimelineReplay.increment (new_stage log) c) l c)
    = (GlobalTimelineReplay.total c + List.length l)%nat.
Proof.
  induction l as [| x l IH]; intro c; cbn [fold_left List.length]; [lia |].
  rewrite IH, increment_total. lia.
Qed.

Lemma increments_full (l : list DegradationLog) :
  Forall (fun log => new_stage log <> FULL) l ->
  forall c,
    TimelineSlider.count_FULL
      (fold_left (fun c log => GlobalTimelineReplay.increment (new_stage log) c) l c)
    = TimelineSlider.count_FULL c.
Proof.
  intro H. induction H as [| x l Hx H IH]; intro c; cbn [fold_left]; [reflexivity |].
  rewrite IH, increment_full by exact Hx. reflexivity.
Qed.

Lemma counts_after_total (events : list DecayEvent) :
  forall c,
    Z.of_nat (GlobalTimelineReplay.total (counts_after logs events c))
    = Z.of_nat (GlobalTimelineReplay.total c)
      + fold_right Z.add 0
          (map (fun e => Z.of_nat (List.length (GlobalTimelineReplay.eventLogs logs e)))
             events).
Proof.
  induction events as [| e events IH]; intro c; cbn [map fold_right]; [cbn; lia |].
  unfold counts_after in *. cbn [fold_left]. rewrite IH, increments_total. lia.
Qed.

Lemma counts_after_full (events : list DecayEvent) :
  Forall (fun log => new_stage log <> FULL) logs ->
  forall c,
    TimelineSlider.count_FULL (counts_after logs events c) = TimelineSlider.count_FULL c.
Proof.
  intro H. induction events as [| e events IH]; intro c; [reflexivity |].
  unfold counts_after in *. cbn [fold_left]. rewrite IH, increments_full;
    [reflexivity |].
  unfold GlobalTimelineReplay.eventLogs. apply Forall_forall. intros x Hx.
  apply filter_In in Hx. rewrite Forall_forall in H. apply H. tauto.
Qed.

End ReplayFold.

Lemma eventLogs_none (logs : list DegradationLog) (e : DecayEvent) :
  Forall (fun log => decay_event_id log <> event_id e) logs ->
  GlobalTimelineReplay.eventLogs logs e = [].
Proof.
  intro H. unfold GlobalTimelineReplay.eventLogs.
  induction H as [| x l Hx H IH]; cbn [filter]; [reflexivity |].
  apply Nat.eqb_neq in Hx. rewrite Hx. exact IH.
Qed.

Lemma eventLogs_all (logs : list DegradationLog) (e : DecayEvent) :
  Forall (fun log => decay_event_id log = event_id e) logs ->
  GlobalTimelineReplay.eventLogs logs e = logs.
Proof.
  intro H. unfold GlobalTimelineReplay.eventLogs.
  induction H as [| x l Hx H IH]; cbn [filter]; [reflexivity |].
  apply Nat.eqb_eq in Hx. rewrite Hx, IH. reflexivity.
Qed.

Lemma eventLogs_app (l1 l2 : list DegradationLog) (e : DecayEvent) :
  GlobalTimelineReplay.eventLogs (l1 ++ l2) e
  = GlobalTimelineReplay.eventLogs l1 e ++ GlobalTimelineReplay.eventLogs l2 e.
Proof. apply filter_app. Qed.

(** A decay cycle keeps the accounts of the log table. *)
Lemma accounting_cycle (st : State) (s : SimulationSettings) (u : string) :
  settings st = Some s -> user st = Some u ->
  current_year s + decay_interval_years s <= total_years s ->
  log_accounting st -> log_accounting (processDecayEvent st).
Proof.
  intros Hs Hu Hin (I1 & I2 & I3).
  destruct (cycle_full st s u Hs Hu Hin)
    as (k & logs & sys & H0 & H1 & H2 & H3 & _ & _ & _ & H7 & _ & _).
  cbv zeta in *.
  set (ev := fresh_event_id (decay_events st)) in *.
  assert (Hfresh : ~ In ev (map event_id (decay_events st))).
  { intro Hi. apply in_map_iff in Hi. destruct Hi as (e & He & Hi).
    pose proof (fresh_event_id_new (decay_events st)) as Hf.
    rewrite Forall_forall in Hf. specialize (Hf e Hi).
    apply Nat.eqb_neq in Hf. contradiction. }
  unfold log_accounting. rewrite H3, H7. split; [| split].
  - rewrite map_app. cbn [map event_id].
    apply NoDup_app_remove_l with (l := []). cbn [app].
    apply Permutation_NoDup with (l := ev :: map event_id (decay_events st)).
    + apply Permutation_cons_append.
    + constructor; assumption.
  - apply Forall_app. split.
    + eapply Forall_impl; [| exact I2]. cbv beta. intros log (A & B).
      split; [| exact B]. rewrite map_app. apply in_or_app. left. exact A.
    + clear - H1 H2.
      assert (Hst : Forall (fun log => new_stage log <> FULL) logs).
      { induction H1 as [| item log items logs' Hr H IH]; constructor.
        - destruct Hr as (_ & _ & _ & Hn & _). rewrite Hn. apply degraded_not_full.
        - apply IH. inversion H2; assumption. }
      rewrite Forall_forall in *. intros log Hl.
      apply filter_In in Hl. destruct Hl as [Hl _].
      split; [| apply Hst; exact Hl].
      rewrite map_app. apply in_or_app. right. left. symmetry. apply H2. exact Hl.
  - apply Forall_app. split; [exact I3 |].
    constructor; [| constructor]. split; reflexivity.
Qed.

Lemma accounting_run (st : State) (s : SimulationSettings) (u : string) :
  settings st = Some s -> user st = Some u ->
  0 <= decay_interval_years s ->
  log_accounting st ->
  forall k : nat,
    current_year s + Z.of_nat k * decay_interval_years s <= total_years s ->
    log_accounting (Nat.iter k processDecayEvent st).
Proof.
  intros Hs Hu Hi Hacc k. induction k as [| k IH]; intro Hin; [exact Hacc |].
  destruct (cycles_in_range st s u Hs Hu Hi k ltac:(nia)) as (Ks & Ku & _).
  change (Nat.iter (S k) processDecayEvent st)
    with (processDecayEvent (Nat.iter k processDecayEvent st)).
  eapply accounting_cycle; [exact Ks | exact Ku | | apply IH; nia].
  cbn [set_year_capacity current_year decay_interval_years total_years]. nia.
Qed.

Lemma firstn_seq_le (a j k : nat) :
  (j <= k)%nat -> firstn j (seq a k) = seq a j.
Proof.
  revert a k. induction j as [| j IH]; intros a k Hj; [reflexivity |].
  destruct k as [| k]; [lia |]. cbn [seq firstn]. f_equal. apply IH. lia.
Qed.

Lemma firstn_last {A : Type} (l : list A) (j : nat) :
  (1 <= j <= List.length l)%nat ->
  exists l1 x, firstn j l = l1 ++ [x] /\ List.length l1 = (j - 1)%nat.
Proof.
  intro Hj.
  assert (Hne : firstn j l <> []).
  { intro E. apply (f_equal (@List.length A)) in E.
    rewrite length_firstn in E. cbn in E. lia. }
  destruct (exists_last Hne) as (l1 & x & E).
  exists l1, x. split; [exact E |].
  apply (f_equal (@List.length A)) in E.
  rewrite length_firstn, length_app in E. cbn in E. lia.
Qed.

(** X20: the replay adds to the stage counts and never takes away.  In
    the map [buildSnapshots] of the replay stores after k cycles of a run
    from year 0, the snapshot of a past decay event j (1 <= j < k) still
    counts every item as FULL, and its counts add up to the number of
    items plus the number of log rows stored for the events 1 to j.  The
    snapshot shows 0 items affected, whatever the event degraded: the event
    still has the [items_affected] it was inserted with. *)
Theorem replay_counts_accumulate (size_kb : string -> Z) (st : State)
    (s : SimulationSettings) (u : string) (k j : nat) :
  settings st = Some s -> user st = Some u ->
  current_year s = 0 ->
  decay_events st = [] -> degradation_logs st = [] ->
  0 < decay_interval_years s -> 0 <= total_years s < 2 ^ 53 ->
  Z.of_nat k * decay_interval_years s <= total_years s ->
  (1 <= j < k)%nat ->
  let stk := Nat.iter k processDecayEvent st in
  exists snapshots snapshot,
    GlobalTimelineReplay.buildSnapshots size_kb stk = Some snapshots
    /\ GlobalTimelineReplay.getSnapshotForYear snapshots
         (Z.of_nat j * decay_interval_years s) = Some snapshot
    /\ TimelineSlider.decayEventNo snapshot = Some (Z.of_nat j)
    /\ TimelineSlider.count_FULL (TimelineSlider.stageCounts snapshot)
       = List.length (archive_items stk)
    /\ Z.of_nat (GlobalTimelineReplay.total (TimelineSlider.stageCounts snapshot))
       = Z.of_nat (List.length (archive_items stk))
         + fold_right Z.add 0
             (map (fun e =>
                     Z.of_nat (List.length
                                 (GlobalTimelineReplay.eventLogs
                                    (degradation_logs stk) e)))
                (firstn j (decay_events stk)))
    /\ TimelineSlider.itemsAffected snapshot = 0.
Proof.
  intros Hs Hu Hy Hev Hlogs Hi Ht Hk Hj. cbv zeta.
  set (i := decay_interval_years s) in *.
  destruct (cycles_in_range st s u Hs Hu ltac:(fold i; lia) k) as (Ks & Ku & _ & Klen).
  { fold i. rewrite Hy. lia. }
  fold i in Ks. rewrite Hy, Z.add_0_l in Ks. rewrite Hev in Klen. cbn in Klen.
  pose proof (run_events st s u Hs Hu Hy Hi ltac:(lia) k Hk) as Hnum.
  rewrite Hev in Hnum. cbn [numbering map app] in Hnum.
  fold (numbering (decay_events (Nat.iter k processDecayEvent st))) in Hnum.
  assert (Hacc : log_accounting (Nat.iter k processDecayEvent st)).
  { apply (accounting_run st s u Hs Hu ltac:(fold i; lia)).
    - unfold log_accounting. rewrite Hev, Hlogs. repeat split; constructor.
    - fold i. rewrite Hy. lia. }
  set (stk := Nat.iter k processDecayEvent st) in *.
  set (sk := set_year_capacity (Z.of_nat k * i) _ s) in *.
  destruct Hacc as (A1 & A2 & A3).
  pose proof (numbering_years _ _ _ Hnum) as Hyears. fold i in Hyears.
  assert (Hsorted : TimelineSlider.ordered_events (decay_events stk) = decay_events stk).
  { unfold TimelineSlider.ordered_events. apply sorted_stable_sort.
    apply (sorted_by_key simulated_year). rewrite Hyears.
    apply sorted_multiples. lia. }
  assert (Hcy : currentYear stk = Z.of_nat k * i).
  { unfold currentYear. rewrite Ks. reflexivity. }
  (* the event of year [j * i] *)
  destruct (firstn_last (decay_events stk) j ltac:(lia)) as (l1 & e & Efirst & Hl1).
  assert (Esplit : decay_events stk = l1 ++ e :: skipn j (decay_events stk)).
  { rewrite <- (firstn_skipn j (decay_events stk)) at 1.
    rewrite Efirst, <- app_assoc. reflexivity. }
  assert (Hnum_j : numbering (l1 ++ [e]) = map (nth_event s) (seq 1 j)).
  { rewrite <- Efirst. unfold numbering. rewrite <- firstn_map.
    fold (numbering (decay_events stk)). rewrite Hnum, firstn_map.
    f_equal. apply firstn_seq_le. lia. }
  assert (He : event_no e = Z.of_nat j /\ simulated_year e = Z.of_nat j * i).
  { destruct j as [| j']; [lia |].
    rewrite seq_S, map_app in Hnum_j. unfold numbering in Hnum_j.
    rewrite map_app in Hnum_j. cbn [map] in Hnum_j.
    apply app_inj_tail in Hnum_j. destruct Hnum_j as [_ E].
    unfold nth_event in E. injection E as E1 E2 _.
    split; [rewrite E1 | rewrite E2]; reflexivity. }
  destruct He as [He1 He2].
  assert (Hlater : ~ In (simulated_year e)
                       (map simulated_year (skipn j (decay_events stk)))).
  { rewrite <- skipn_map, Hyears, skipn_map, skipn_seq, He2.
    intro H. apply in_map_iff in H. destruct H as (n & E & Hn).
    apply in_seq in Hn. nia. }
  destruct (replay_fold_event sk (degradation_logs stk) l1
              (skipn j (decay_events stk)) e
              ({| TimelineSlider.count_FULL := List.length (archive_items stk);
                  TimelineSlider.count_COMPRESSED := 0;
                  TimelineSlider.count_SUMMARIZED := 0;
                  TimelineSlider.count_MINIMAL := 0;
                  TimelineSlider.count_DELETED := 0 |},
               TimelineSlider.Map_set 0
                 {| TimelineSlider.year := 0;
                    TimelineSlider.capacityKb := start_capacity_kb sk;
                    TimelineSlider.capacityPercent := of_Z 100;
                    TimelineSlider.storageUsedKb :=
                      fold_left (fun sum i => sum + size_kb (id i))
                        (archive_items stk) 0;
                    TimelineSlider.stageCounts :=
                      {| TimelineSlider.count_FULL := List.length (archive_items stk);
                         TimelineSlider.count_COMPRESSED := 0;
                         TimelineSlider.count_SUMMARIZED := 0;
                         TimelineSlider.count_MINIMAL := 0;
                         TimelineSlider.count_DELETED := 0 |};
                    TimelineSlider.avgSemanticScore :=
                      TimelineSlider.average_score (archive_items stk);
                    TimelineSlider.decayEventNo := None;
                    TimelineSlider.itemsAffected := 0 |} []) Hlater)
    as (snap & G1 & G2 & G3 & G4 & _ & G6).
  rewrite <- Esplit in G1. cbn [fst] in G6.
  eexists. exists snap. split.
  { unfold GlobalTimelineReplay.buildSnapshots. rewrite Ks, Ku. cbv zeta.
    rewrite Hsorted, Hcy. reflexivity. }
  assert (Hget : TimelineSlider.Map_get (Z.of_nat j * i)
                   (TimelineSlider.Map_set (Z.of_nat k * i)
                      (TimelineSlider.current_snapshot sk (archive_items stk)
                         (Z.of_nat k * i))
                      (snd (fold_left
                              (GlobalTimelineReplay.add_event sk (degradation_logs stk))
                              (decay_events stk)
                              ({| TimelineSlider.count_FULL :=
                                    List.length (archive_items stk);
                                  TimelineSlider.count_COMPRESSED := 0;
                                  TimelineSlider.count_SUMMARIZED := 0;
                                  TimelineSlider.count_MINIMAL := 0;
                                  TimelineSlider.count_DELETED := 0 |},
                               TimelineSlider.Map_set 0
                                 {| TimelineSlider.year := 0;
                                    TimelineSlider.capacityKb := start_capacity_kb sk;
                                    TimelineSlider.capacityPercent := of_Z 100;
                                    TimelineSlider.storageUsedKb :=
                                      fold_left (fun sum i => sum + size_kb (id i))
                                        (archive_items stk) 0;
                                    TimelineSlider.stageCounts :=
                                      {| TimelineSlider.count_FULL :=
                                           List.length (archive_items stk);
                                         TimelineSlider.count_COMPRESSED := 0;
                                         TimelineSlider.count_SUMMARIZED := 0;
                                         TimelineSlider.count_MINIMAL := 0;
                                         TimelineSlider.count_DELETED := 0 |};
                                    TimelineSlider.avgSemanticScore :=
                                      TimelineSlider.average_score (archive_items stk);
                                    TimelineSlider.decayEventNo := None;
                                    TimelineSlider.itemsAffected := 0 |} []))))
                 = Some snap).
  { rewrite Map_get_set.
    destruct (Z.of_nat k * i =? Z.of_nat j * i) eqn:E.
    - apply Z.eqb_eq in E. nia.
    - rewrite <- He2. exact G1. }
  split.
  { unfold GlobalTimelineReplay.getSnapshotForYear, TimelineSlider.Map_has.
    rewrite Hget. reflexivity. }
  split; [rewrite G3, He1; reflexivity |].
  assert (Hnf : Forall (fun log => new_stage log <> FULL) (degradation_logs stk)).
  { eapply Forall_impl; [| exact A2]. cbv beta. tauto. }
  rewrite G6, <- Efirst.
  rewrite (counts_after_full (degradation_logs stk) _ Hnf).
  rewrite counts_after_total.
  cbn [TimelineSlider.count_FULL GlobalTimelineReplay.total
       TimelineSlider.count_COMPRESSED TimelineSlider.count_SUMMARIZED
       TimelineSlider.count_MINIMAL TimelineSlider.count_DELETED].
  split; [reflexivity |]. split.
  - unfold GlobalTimelineReplay.total.
    cbn [TimelineSlider.count_FULL TimelineSlider.count_COMPRESSED
         TimelineSlider.count_SUMMARIZED TimelineSlider.count_MINIMAL
         TimelineSlider.count_DELETED].
    rewrite !Nat.add_0_r. reflexivity.
  - rewrite G4. rewrite Forall_forall in A3. apply A3.
    rewrite Esplit. apply in_or_app. right. left. reflexivity.
Qed.

Lemma replay_counts_accumulate_witness :
  map (fun row => (stage row, current_size_kb row))
    (archive_items (Nat.iter 3 processDecayEvent Scenario.small_capacity))
  = [ (MINIMAL, 21) ]
  /\ exists snapshots snapshot,
       GlobalTimelineReplay.buildSnapshots (fun _ => 1000)
         (Nat.iter 3 processDecayEvent Scenario.small_capacity) = Some snapshots
       /\ GlobalTimelineReplay.getSnapshotForYear snapshots 4 = Some snapshot
       /\ TimelineSlider.decayEventNo snapshot = Some 2
       /\ TimelineSlider.count_FULL (TimelineSlider.stageCounts snapshot) = 1%nat
       /\ GlobalTimelineReplay.total (TimelineSlider.stageCounts snapshot) = 3%nat
       /\ TimelineSlider.itemsAffected snapshot = 0.
Proof.
  split; [vm_compute; reflexivity |].
  pose proof (replay_counts_accumulate (fun _ => 1000) Scenario.small_capacity
                (Scenario.the_settings 0 100 50) "owner-1" 3 2
                eq_refl eq_refl eq_refl eq_refl eq_refl) as H.
  cbv zeta in H.
  assert (H1 : 0 < decay_interval_years (Scenario.the_settings 0 100 50))
    by (cbn; lia).
  assert (H2 : 0 <= total_years (Scenario.the_settings 0 100 50) < 2 ^ 53)
    by (cbn; lia).
  assert (H3 : Z.of_nat 3 * decay_interval_years (Scenario.the_settings 0 100 50)
               <= total_years (Scenario.the_settings 0 100 50))
    by (cbn; lia).
  assert (H4 : (1 <= 2 < 3)%nat) by lia.
  destruct (H H1 H2 H3 H4) as (m & snap & A & B & C & D & E & F).
  exists m, snap. split; [exact A |]. split; [exact B |]. split; [exact C |].
  split; [rewrite D; vm_compute; reflexivity |]. split; [| exact F].
  apply Nat2Z.inj. rewrite E. vm_compute. reflexivity.
Defined.

(** ** Item histories *)


Lemma entry_fields (log : DegradationLog) (year : Z) :
  ItemHistoryTimeline.prev_stage (ItemHistoryTimeline.entry log year) = prev_stage log
  /\ ItemHistoryTimeline.new_stage (ItemHistoryTimeline.entry log year) = new_stage log
  /\ ItemHistoryTimeline.size_before_kb (ItemHistoryTimeline.entry log year)
     = size_before_kb log
  /\ ItemHistoryTimeline.size_after_kb (ItemHistoryTimeline.entry log year)
     = size_after_kb log
  /\ ItemHistoryTimeline.simulated_year (ItemHistoryTimeline.entry log year) = year.
Proof. destruct log. repeat split. Qed.

Lemma find_app {A : Type} (f : A -> bool) (l l' : list A) :
  find f (l ++ l') = match find f l with Some x => Some x | None => find f l' end.
Proof.
  induction l as [| x l IH]; [reflexivity |]. cbn [app find].
  destruct (f x); [reflexivity | exact IH].
Qed.

Lemma joined_old (events : list DecayEvent) (e' : DecayEvent) (log : DegradationLog) :
  In (decay_event_id log) (map event_id events) ->
  ItemHistoryTimeline.joined (events ++ [e']) log
  = ItemHistoryTimeline.joined events log.
Proof.
  intro Hin. unfold ItemHistoryTimeline.joined. destruct log as [ev ? ? ? ? ? ? ? ? ? ?].
  cbn [decay_event_id] in Hin. rewrite find_app.
  destruct (find (fun e => Nat.eqb (event_id e) ev) events) as [e |] eqn:E;
    [reflexivity | exfalso].
  apply in_map_iff in Hin. destruct Hin as (e & He & Hi).
  apply (find_none _ _ E) in Hi. apply Nat.eqb_neq in Hi. contradiction.
Qed.

Lemma joined_new (events : list DecayEvent) (e' : DecayEvent) (log : DegradationLog) :
  ~ In (decay_event_id log) (map event_id events) ->
  event_id e' = decay_event_id log ->
  ItemHistoryTimeline.joined (events ++ [e']) log
  = [ItemHistoryTimeline.entry log (simulated_year e')].
Proof.
  intros Hn He. unfold ItemHistoryTimeline.joined.
  destruct log as [ev ? ? ? ? ? ? ? ? ? ?]. cbn [decay_event_id] in *.
  rewrite find_app.
  destruct (find (fun e => Nat.eqb (event_id e) ev) events) as [e |] eqn:E.
  - exfalso. apply find_some in E. destruct E as [Hi E]. apply Nat.eqb_eq in E.
    apply Hn. rewrite <- E. apply in_map. exact Hi.
  - cbn [find]. rewrite He, Nat.eqb_refl. destruct e'. reflexivity.
Qed.

Lemma records_filter_out (processed : list ArchiveItem) (logs : list DegradationLog)
    (key : string) :
  Forall2 records processed logs ->
  ~ In key (map id processed) ->
  filter (fun log => String.eqb (item_id log) key) logs = [].
Proof.
  intro H. induction H as [| p log ps logs' Hr H IH]; intro Hn; [reflexivity |].
  cbn [filter]. destruct Hr as (E & _). rewrite E.
  destruct (String.eqb (id p) key) eqn:Ek.
  - apply String.eqb_eq in Ek. exfalso. apply Hn. left. exact Ek.
  - apply IH. intro Hi. apply Hn. right. exact Hi.
Qed.

Lemma records_filter_in (processed : list ArchiveItem) (logs : list DegradationLog)
    (b : ArchiveItem) :
  Forall2 records processed logs ->
  NoDup (map id processed) -> In b processed ->
  exists log,
    filter (fun log => String.eqb (item_id log) (id b)) logs = [log]
    /\ records b log /\ In log logs.
Proof.
  intro H. induction H as [| p log ps logs' Hr H IH]; intros Hn Hb; [contradiction |].
  cbn [map] in Hn. inversion Hn as [| ? ? Hp Hps]; subst.
  cbn [filter]. pose proof Hr as (E & _). rewrite E.
  destruct Hb as [-> | Hb].
  - rewrite String.eqb_refl. exists log.
    rewrite (records_filter_out ps logs' (id b) H Hp).
    split; [reflexivity |]. split; [exact Hr | left; reflexivity].
  - destruct (String.eqb (id p) (id b)) eqn:Ek.
    + apply String.eqb_eq in Ek. exfalso. apply Hp. rewrite Ek.
      apply in_map. exact Hb.
    + destruct (IH Hps Hb) as (log' & F & R & Hi).
      exists log'. split; [exact F |]. split; [exact R | right; exact Hi].
Qed.

Lemma linked_snoc (fs : DegradationStage) (fz : Z)
    (h : list ItemHistoryTimeline.ItemHistoryEntry) (e : ItemHistoryTimeline.ItemHistoryEntry) :
  forall (ts : DegradationStage) (tz : Z),
    ItemHistoryTimeline.linked fs fz h ts tz ->
    ItemHistoryTimeline.prev_stage e = ts ->
    ItemHistoryTimeline.size_before_kb e = tz ->
    stage_index (ItemHistoryTimeline.new_stage e)
    = stage_index (ItemHistoryTimeline.prev_stage e) + 1 ->
    ItemHistoryTimeline.linked fs fz (h ++ [e])
      (ItemHistoryTimeline.new_stage e) (ItemHistoryTimeline.size_after_kb e).
Proof.
  revert fs fz. induction h as [| x h IH]; intros fs fz ts tz Hl Hp Hz Hi.
  - cbn in Hl. destruct Hl as [-> ->]. cbn. auto.
  - cbn [app ItemHistoryTimeline.linked] in *.
    destruct Hl as (L1 & L2 & L3 & L4).
    split; [exact L1 |]. split; [exact L2 |]. split; [exact L3 |].
    eapply IH; eassumption.
Qed.

Lemma linked_length (h : list ItemHistoryTimeline.ItemHistoryEntry) :
  forall fs fz ts tz,
    ItemHistoryTimeline.linked fs fz h ts tz ->
    Z.of_nat (List.length h) = stage_index ts - stage_index fs.
Proof.
  induction h as [| x h IH]; intros fs fz ts tz Hl.
  - cbn in Hl. destruct Hl as [-> _]. cbn. lia.
  - cbn [ItemHistoryTimeline.linked] in Hl. destruct Hl as (L1 & _ & L3 & L4).
    apply IH in L4. cbn [List.length]. rewrite <- L1. lia.
Qed.

Lemma linked_last (h : list ItemHistoryTimeline.ItemHistoryEntry)
    (e : ItemHistoryTimeline.ItemHistoryEntry) :
  forall fs fz ts tz,
    ItemHistoryTimeline.linked fs fz (h ++ [e]) ts tz ->
    ItemHistoryTimeline.new_stage e = ts.
Proof.
  induction h as [| x h IH]; intros fs fz ts tz Hl.
  - cbn in Hl. tauto.
  - cbn [app ItemHistoryTimeline.linked] in Hl. destruct Hl as (_ & _ & _ & L4).
    eapply IH. exact L4.
Qed.

Lemma linked_shows_deleted (h : list ItemHistoryTimeline.ItemHistoryEntry)
    (fs : DegradationStage) (fz : Z) (ts : DegradationStage) (tz : Z) :
  ItemHistoryTimeline.linked fs fz h ts tz -> fs <> DELETED ->
  ItemHistoryTimeline.shows_deleted h = stage_eqb ts DELETED.
Proof.
  intros Hl Hf. destruct h as [| x h] using rev_ind.
  - cbn in Hl. destruct Hl as [<- _]. cbn [ItemHistoryTimeline.shows_deleted rev].
    symmetry. apply stage_eqb_neq. exact Hf.
  - unfold ItemHistoryTimeline.shows_deleted. rewrite rev_app_distr. cbn [rev app].
    rewrite (linked_last _ _ _ _ _ _ Hl). reflexivity.
Qed.

Lemma Forall2_with_In {A B : Type} (R : A -> B -> Prop) (l1 : list A) (l2 : list B) :
  Forall2 R l1 l2 -> Forall2 (fun a b => In a l1 /\ R a b) l1 l2.
Proof.
  intro H. induction H as [| a b l1 l2 Hab H IH]; constructor.
  - split; [left; reflexivity | exact Hab].
  - eapply Forall2_impl; [| exact IH]. cbv beta. intros x y [Hx Hxy].
    split; [right; exact Hx | exact Hxy].
Qed.

Lemma sorted_snoc (l : list Z) (x : Z) :
  StronglySorted Z.lt l -> Forall (fun y => y < x) l ->
  StronglySorted Z.lt (l ++ [x]).
Proof.
  intro H. induction H as [| y l Hl IH Hy]; intro Hx; cbn [app].
  - repeat constructor.
  - inversion Hx as [| ? ? Hyx Hlx]; subst. constructor; [apply IH; exact Hlx |].
    apply Forall_app. split; [exact Hy | constructor; [exact Hyx | constructor]].
Qed.

Lemma filter_all_length {A : Type} (f : A -> bool) (l : list A) :
  List.length (filter f l) = List.length l -> filter f l = l.
Proof.
  induction l as [| x l IH]; [reflexivity |]. cbn [filter].
  destruct (f x); cbn [List.length]; intro H.
  - f_equal. apply IH. lia.
  - pose proof (filter_length_le f l). lia.
Qed.

Lemma stage_after_transition (table : list ArchiveItem) (item : ArchiveItem) :
  NoDup (map id table) -> In item table -> stage item <> DELETED ->
  stages_passed (apply_transition item table) = stages_passed table + 1.
Proof.
  intros Hn Hin Hlive. induction table as [| x t IH]; [contradiction |].
  inversion Hn as [| ? ? Hx Ht]; subst.
  unfold apply_transition, update_eq. cbn [map].
  fold (update_eq id (id item)
          (fun row => {| id := id row; title := title row;
                         stage := stage (degraded item);
                         current_size_kb := current_size_kb (degraded item);
                         semantic_score := semantic_score row;
                         val_reconstructability := val_reconstructability row |}) t).
  fold (apply_transition item t).
  destruct Hin as [-> | Hin].
  - rewrite String.eqb_refl.
    unfold apply_transition. rewrite update_eq_other.
    + cbn [stages_passed fold_right stage].
      destruct (degraded_stage item Hlive) as [E _]. rewrite E. lia.
    + intros row Hr E. apply Hx. rewrite <- E. now apply in_map.
  - destruct (String.eqb (id x) (id item)) eqn:E.
    + apply String.eqb_eq in E. exfalso. apply Hx. rewrite E. now apply in_map.
    + cbn [stages_passed fold_right].
      fold (stages_passed (apply_transition item t)). fold (stages_passed t).
      rewrite IH by assumption. lia.
Qed.

Lemma stages_after_transitions (processed : list ArchiveItem) :
  forall table : list ArchiveItem,
    NoDup (map id table) -> NoDup (map id processed) ->
    (forall p, In p processed -> In p table /\ stage p <> DELETED) ->
    stages_passed (fold_left (fun t item => apply_transition item t) processed table)
    = stages_passed table + Z.of_nat (List.length processed).
Proof.
  induction processed as [| p rest IH]; intros table Hn Hnp Hin.
  - simpl. lia.
  - cbn [fold_left List.length].
    inversion Hnp as [| ? ? Hp Hrest]; subst.
    destruct (Hin p (or_introl eq_refl)) as [Hpt Hpl].
    rewrite IH.
    + rewrite stage_after_transition by assumption. lia.
    + rewrite apply_transition_ids. exact Hn.
    + exact Hrest.
    + intros q Hq. destruct (Hin q (or_intror Hq)) as [Hqt Hql].
      split; [| exact Hql].
      apply update_eq_In_other; [exact Hqt |].
      intro E. apply Hp. rewrite <- E. now apply in_map.
Qed.

(** A cycle stores at most one log row for each stage it makes a row pass,
    and exactly one when the table refuses none of the rows it sends. *)
Lemma cycle_log_count (st : State) (s : SimulationSettings) (u : string) :
  settings st = Some s -> user st = Some u ->
  current_year s + decay_interval_years s <= total_years s ->
  NoDup (map id (archive_items st)) ->
  exists (k : nat) (logs : list DegradationLog),
    degradation_logs (processDecayEvent st)
    = degradation_logs st ++ filter log_accepted logs
    /\ List.length logs = k
    /\ stages_passed (archive_items (processDecayEvent st))
       = stages_passed (archive_items st) + Z.of_nat k
    /\ (List.length (filter log_accepted logs) <= k)%nat.
Proof.
  intros Hs Hu Hin Hn.
  destruct (cycle_full st s u Hs Hu Hin)
    as (k & logs & sys & H0 & H1 & _ & H3 & _ & _ & H6 & _).
  cbv zeta in *.
  assert (Hlen : List.length logs = k).
  { apply Forall2_length_eq in H1. rewrite <- H1, length_firstn. lia. }
  exists k, logs. split; [exact H3 |]. split; [exact Hlen |]. split.
  - rewrite H6, stages_after_transitions.
    + rewrite length_firstn. f_equal. lia.
    + exact Hn.
    + apply firstn_In_NoDup, sortedItems_NoDup, Hn.
    + apply cycle_processed.
  - rewrite <- Hlen. apply filter_length_le.
Qed.

(** A decay cycle that stores a log row for every row it rewrites extends
    the history of these rows by one entry, dated with its year, and leaves
    the other histories as they are. *)
Lemma history_cycle (table0 : list ArchiveItem) (year0 : Z) (st : State)
    (s : SimulationSettings) (u : string) :
  settings st = Some s -> user st = Some u ->
  0 < decay_interval_years s -> year0 <= current_year s ->
  current_year s + decay_interval_years s <= total_years s ->
  NoDup (map id (archive_items st)) ->
  log_accounting st ->
  Z.of_nat (List.length (degradation_logs (processDecayEvent st)))
  - Z.of_nat (List.length (degradation_logs st))
  = stages_passed (archive_items (processDecayEvent st))
    - stages_passed (archive_items st) ->
  Forall2 (fun before after =>
             tracked year0 (current_year s) before after (history_of (id before) st))
    table0 (archive_items st) ->
  Forall2 (fun before after =>
             tracked year0 (current_year s + decay_interval_years s) before after
               (history_of (id before) (processDecayEvent st)))
    table0 (archive_items (processDecayEvent st)).
Proof.
  intros Hs Hu Hi Hy0 Hin Hn (A1 & A2 & A3) Hcount Htr.
  destruct (cycle_full st s u Hs Hu Hin)
    as (k & logs & sys & H0 & H1 & H2 & H3 & _ & _ & H6 & H7 & _ & _).
  cbv zeta in *.
  assert (Hkept : filter log_accepted logs = logs).
  { apply filter_all_length.
    rewrite H3, length_app, H6, stages_after_transitions in Hcount.
    - apply Forall2_length_eq in H1. lia.
    - exact Hn.
    - apply firstn_In_NoDup, sortedItems_NoDup, Hn.
    - apply cycle_processed. }
  rewrite Hkept in H3.
  set (ev := fresh_event_id (decay_events st)) in *.
  set (processed := firstn k (sortedItems (select_items (archive_items st)))) in *.
  set (newYear := current_year s + decay_interval_years s) in *.
  assert (Hfresh : ~ In ev (map event_id (decay_events st))).
  { intro Hx. apply in_map_iff in Hx. destruct Hx as (e & He & Hx).
    pose proof (fresh_event_id_new (decay_events st)) as Hf.
    rewrite Forall_forall in Hf. specialize (Hf e Hx).
    apply Nat.eqb_neq in Hf. contradiction. }
  assert (Hproc : forall p, In p processed -> In p (archive_items st))
    by (intros p Hp; apply (cycle_processed st k p Hp)).
  assert (Hnp : NoDup (map id processed))
    by (apply firstn_In_NoDup, sortedItems_NoDup, Hn).
  pose proof (Forall2_with_In _ _ _
                (transitions_table (archive_items st) Hn processed Hproc Hnp)) as Ht.
  rewrite <- H6 in Ht.
  (* the histories after the cycle *)
  assert (Hhist : forall b,
            In b (archive_items st) ->
            (~ In b processed ->
             history_of (id b) (processDecayEvent st) = history_of (id b) st)
            /\ (In b processed ->
                exists log,
                  records b log
                  /\ history_of (id b) (processDecayEvent st)
                     = history_of (id b) st
                       ++ [ItemHistoryTimeline.entry log newYear])).
  { intros b Hb. unfold history_of. rewrite H3, H7, filter_app, flat_map_app.
    assert (Hold : flat_map
                     (ItemHistoryTimeline.joined
                        (decay_events st ++
                         [{| event_id := ev;
                             event_no := floor (div (of_Z newYear)
                                                    (of_Z (decay_interval_years s)));
                             simulated_year := newYear;
                             capacity_before_kb := current_capacity_kb s;
                             capacity_after_kb :=
                               decayed_capacity (current_capacity_kb s) (decay_percent s);
                             storage_before_kb := storage_used (archive_items st);
                             storage_after_kb := storage_used (archive_items st);
                             items_affected := 0 |}]))
                     (filter (fun log => String.eqb (item_id log) (id b))
                        (degradation_logs st))
                   = flat_map (ItemHistoryTimeline.joined (decay_events st))
                       (filter (fun log => String.eqb (item_id log) (id b))
                          (degradation_logs st))).
    {       assert (Hall : Forall (fun log => In (decay_event_id log)
                                          (map event_id (decay_events st)))
                       (filter (fun log => String.eqb (item_id log) (id b))
                          (degradation_logs st))).
      { apply Forall_forall. intros log Hl. apply filter_In in Hl.
        rewrite Forall_forall in A2. apply A2. tauto. }
      induction Hall as [| log l Hlog Hall IH]; [reflexivity |].
      cbn [flat_map]. rewrite IH, joined_old by exact Hlog. reflexivity. }
    rewrite Hold. split.
    - intro Hnot. rewrite (records_filter_out processed logs (id b) H1).
      + cbn [flat_map]. apply app_nil_r.
      + intro Hx. apply in_map_iff in Hx. destruct Hx as (p & Ep & Hp).
        apply Hnot.
        rewrite <- (NoDup_id_inj (archive_items st) p b Hn (Hproc p Hp) Hb Ep).
        exact Hp.
    - intro Hyes.
      destruct (records_filter_in processed logs b H1 Hnp Hyes) as (log & F & R & Hl).
      exists log. split; [exact R |]. rewrite F. cbn [flat_map]. rewrite app_nil_r.
      f_equal. rewrite joined_new; [reflexivity | |].
      + rewrite Forall_forall in H2. rewrite (H2 log Hl). exact Hfresh.
      + rewrite Forall_forall in H2. rewrite (H2 log Hl). reflexivity. }
  eapply Forall2_compose; [| exact Htr | exact Ht].
  cbv beta. intros a b c (T1 & T2 & T3 & T4) (Hb & Hcase).
  assert (Eid : id b = id a) by exact T1.
  destruct (Hhist b Hb) as [Hout Hin'].
  destruct Hcase as [[Hnot ->] | [Hyes ->]].
  - assert (E : history_of (id a) (processDecayEvent st) = history_of (id a) st)
      by (rewrite <- Eid; exact (Hout Hnot)).
    unfold tracked. rewrite E.
    split; [exact T1 |]. split; [exact T2 |]. split; [exact T3 |].
    eapply Forall_impl; [| exact T4]. cbv beta. intros e He. unfold newYear. lia.
  - destruct (Hin' Hyes) as (log & R & E). rewrite Eid in E.
    destruct R as (_ & _ & R3 & R4 & R5 & R6 & _).
    destruct (entry_fields log newYear) as (F1 & F2 & F3 & F4 & F5).
    assert (Hlive : stage b <> DELETED) by apply (cycle_processed st k b Hyes).
    unfold tracked. rewrite E.
    split; [rewrite degraded_id; exact T1 |]. split; [| split].
    + rewrite <- R4, <- R6, <- F2, <- F4.
      eapply linked_snoc; [exact T2 | | |].
      * rewrite F1. exact R3.
      * rewrite F3. exact R5.
      * rewrite F1, F2, R3, R4. apply (degraded_stage b Hlive).
    + rewrite map_app. cbn [map]. rewrite F5. apply sorted_snoc; [exact T3 |].
      rewrite Forall_map. eapply Forall_impl; [| exact T4]. cbv beta.
      intros e He. unfold newYear. lia.
    + apply Forall_app. split.
      * eapply Forall_impl; [| exact T4]. cbv beta. intros e He. unfold newYear. lia.
      * constructor; [| constructor]. rewrite F5. unfold newYear. lia.
Qed.

Lemma history_run (st : State) (s : SimulationSettings) (u : string) :
  settings st = Some s -> user st = Some u ->
  0 < decay_interval_years s ->
  NoDup (map id (archive_items st)) ->
  decay_events st = [] -> degradation_logs st = [] ->
  forall k : nat,
    current_year s + Z.of_nat k * decay_interval_years s <= total_years s ->
    let stk := Nat.iter k processDecayEvent st in
    Z.of_nat (List.length (degradation_logs stk))
    <= stages_passed (archive_items stk) - stages_passed (archive_items st)
    /\ (Z.of_nat (List.length (degradation_logs stk))
        = stages_passed (archive_items stk) - stages_passed (archive_items st) ->
        Forall2 (fun before after =>
                   tracked (current_year s)
                     (current_year s + Z.of_nat k * decay_interval_years s)
                     before after (history_of (id before) stk))
          (archive_items st) (archive_items stk)).
Proof.
  intros Hs Hu Hi Hn Hev Hlogs k. cbv zeta. induction k as [| k IH]; intro Hin.
  - change (Nat.iter 0 processDecayEvent st) with st.
    rewrite Hlogs. cbn [List.length]. split; [lia |]. intros _.
    apply Forall2_same. intro x.
    unfold tracked, history_of. rewrite Hlogs. cbn.
    repeat split; constructor.
  - destruct (cycles_in_range st s u Hs Hu ltac:(lia) k ltac:(nia)) as (Ks & Ku & _).
    destruct IH as [IH1 IH2]; [nia |].
    change (Nat.iter (S k) processDecayEvent st)
      with (processDecayEvent (Nat.iter k processDecayEvent st)).
    set (stk := Nat.iter k processDecayEvent st) in *.
    set (sk := set_year_capacity _ _ s) in *.
    assert (Hink : current_year sk + decay_interval_years sk <= total_years sk).
    { unfold sk.
      cbn [set_year_capacity current_year decay_interval_years total_years]. nia. }
    assert (Hnk : NoDup (map id (archive_items stk)))
      by (unfold stk; rewrite ids_after_cycles; exact Hn).
    destruct (cycle_log_count stk sk u Ks Ku Hink Hnk)
      as (n & logs & C1 & C2 & C3 & C4).
    split.
    + rewrite C1, length_app, C3. lia.
    + intro Hcount.
      assert (Hk : Z.of_nat (List.length (degradation_logs stk))
                   = stages_passed (archive_items stk)
                     - stages_passed (archive_items st)).
      { rewrite C1, length_app, C3 in Hcount. lia. }
      replace (current_year s + Z.of_nat (S k) * decay_interval_years s)
        with (current_year sk + decay_interval_years sk)
        by (unfold sk; cbn [set_year_capacity current_year decay_interval_years];
            lia).
      apply (history_cycle (archive_items st) (current_year s) stk sk u Ks Ku).
      * unfold sk. cbn [set_year_capacity decay_interval_years]. exact Hi.
      * unfold sk. cbn [set_year_capacity current_year]. nia.
      * exact Hink.
      * exact Hnk.
      * apply (accounting_run st s u Hs Hu ltac:(lia)); [| nia].
        unfold log_accounting. rewrite Hev, Hlogs. repeat split; constructor.
      * lia.
      * unfold sk at 1. cbn [set_year_capacity current_year].
        apply IH2. exact Hk.
Qed.

(** X21: the history of an item tells what became of it, as long as the
    table of logs has refused no row.  After k cycles of a run that starts
    with empty event and log tables, the table holds at most one log row
    for each stage a row of the archive has passed.  When it holds exactly
    that many, the entries [fetchHistory] reads for a row lead, stage by
    stage and size by size, from the row as it was to the row as it is:
    each entry starts where the one before ended and moves one stage
    forward, there are as many entries as stages passed, their years grow
    strictly within the run, and the panel announces a permanent deletion
    exactly when the row is DELETED. *)
Theorem history_tells_the_stage (st : State) (s : SimulationSettings) (u : string)
    (k : nat) :
  settings st = Some s -> user st = Some u ->
  0 < decay_interval_years s ->
  NoDup (map id (archive_items st)) ->
  decay_events st = [] -> degradation_logs st = [] ->
  current_year s + Z.of_nat k * decay_interval_years s <= total_years s ->
  let stk := Nat.iter k processDecayEvent st in
  Z.of_nat (List.length (degradation_logs stk))
  <= stages_passed (archive_items stk) - stages_passed (archive_items st)
  /\ (Z.of_nat (List.length (degradation_logs stk))
      = stages_passed (archive_items stk) - stages_passed (archive_items st) ->
      Forall2 (fun before after =>
                 id after = id before
                 /\ (id before <> EmptyString ->
                     let history := ItemHistoryTimeline.fetchHistory (id before) stk in
                     ItemHistoryTimeline.linked (stage before) (current_size_kb before)
                       history (stage after) (current_size_kb after)
                     /\ Z.of_nat (List.length history)
                        = stage_index (stage after) - stage_index (stage before)
                     /\ StronglySorted Z.lt
                          (map ItemHistoryTimeline.simulated_year history)
                     /\ Forall (fun e =>
                                  current_year s < ItemHistoryTimeline.simulated_year e
                                  <= current_year s
                                     + Z.of_nat k * decay_interval_years s)
                          history
                     /\ (stage before <> DELETED ->
                         ItemHistoryTimeline.shows_deleted history
                         = stage_eqb (stage after) DELETED)))
        (archive_items st) (archive_items stk)).
Proof.
  intros Hs Hu Hi Hn Hev Hlogs Hin. cbv zeta.
  destruct (cycles_in_range st s u Hs Hu ltac:(lia) k Hin) as (_ & Ku & _).
  destruct (history_run st s u Hs Hu Hi Hn Hev Hlogs k Hin) as [R1 R2].
  cbv zeta in R1, R2. split; [exact R1 |]. intro Hcount.
  eapply Forall2_impl; [| apply (R2 Hcount)].
  cbv beta. intros before after (T1 & T2 & T3 & T4).
  split; [exact T1 |]. intro Hkey.
  assert (E : ItemHistoryTimeline.fetchHistory (id before)
                (Nat.iter k processDecayEvent st)
              = history_of (id before) (Nat.iter k processDecayEvent st)).
  { unfold ItemHistoryTimeline.fetchHistory. rewrite Ku.
    destruct (String.eqb (id before) EmptyString) eqn:Ek; [| reflexivity].
    apply String.eqb_eq in Ek. contradiction. }
  rewrite E. split; [exact T2 |].
  split; [exact (linked_length _ _ _ _ _ T2) |].
  split; [exact T3 |]. split; [exact T4 |].
  intro Hlive. exact (linked_shows_deleted _ _ _ _ _ T2 Hlive).
Qed.

Lemma history_tells_the_stage_witness :
  let stk := Nat.iter 4 processDecayEvent Scenario.small_capacity in
  map (fun e => (ItemHistoryTimeline.simulated_year e,
                 ItemHistoryTimeline.prev_stage e, ItemHistoryTimeline.new_stage e,
                 ItemHistoryTimeline.size_before_kb e,
                 ItemHistoryTimeline.size_after_kb e))
    (ItemHistoryTimeline.fetchHistory "a" stk)
  = [ (2, FULL, COMPRESSED, 1000, 700); (4, COMPRESSED, SUMMARIZED, 700, 210);
      (6, SUMMARIZED, MINIMAL, 210, 21); (8, MINIMAL, DELETED, 21, 0) ]
  /\ map stage (archive_items stk) = [DELETED]
  /\ Forall2 (fun before after =>
                ItemHistoryTimeline.linked (stage before) (current_size_kb before)
                  (ItemHistoryTimeline.fetchHistory (id before) stk)
                  (stage after) (current_size_kb after)
                /\ ItemHistoryTimeline.shows_deleted
                     (ItemHistoryTimeline.fetchHistory (id before) stk)
                   = stage_eqb (stage after) DELETED)
       (archive_items Scenario.small_capacity) (archive_items stk).
Proof.
  cbv zeta. split; [vm_compute; reflexivity |]. split; [vm_compute; reflexivity |].
  assert (Hn : NoDup (map id (archive_items Scenario.small_capacity))).
  { cbn. constructor; [intros [] | constructor]. }
  pose proof (history_tells_the_stage Scenario.small_capacity
                (Scenario.the_settings 0 100 50) "owner-1" 4
                eq_refl eq_refl) as H.
  cbv zeta in H.
  assert (H1 : 0 < decay_interval_years (Scenario.the_settings 0 100 50))
    by (cbn; lia).
  assert (H2 : current_year (Scenario.the_settings 0 100 50)
               + Z.of_nat 4 * decay_interval_years (Scenario.the_settings 0 100 50)
               <= total_years (Scenario.the_settings 0 100 50))
    by (cbn; lia).
  destruct (H H1 Hn eq_refl eq_refl H2) as [_ H3].
  assert (Hcount : Z.of_nat (List.length
                     (degradation_logs
                        (Nat.iter 4 processDecayEvent Scenario.small_capacity)))
                   = stages_passed
                       (archive_items
                          (Nat.iter 4 processDecayEvent Scenario.small_capacity))
                     - stages_passed (archive_items Scenario.small_capacity))
    by (vm_compute; reflexivity).
  eapply Forall2_impl; [| exact (Forall2_with_In _ _ _ (H3 Hcount))].
  cbv beta. intros a b (Ha & _ & Hh).
  destruct Ha as [<- | []].
  destruct (Hh ltac:(discriminate)) as (L & _ & _ & _ & D).
  split; [exact L | apply D; discriminate].
Defined.

(** A cycle at a storage pressure of 10000% or more, here one item of
    200,000,000 KB against the default capacity: the row of the item is
    rewritten and the alert of the cycle raised, and the table of logs
    refuses the entry, so that the item has no history; the stored event
    shows no item affected. *)
Lemma log_refused_at_extreme_pressure :
  map (fun row => (stage row, current_size_kb row))
    (archive_items (processDecayEvent Scenario.extreme_pressure))
  = [ (COMPRESSED, 140000000) ]
  /\ degradation_logs (processDecayEvent Scenario.extreme_pressure) = []
  /\ ItemHistoryTimeline.fetchHistory "a"
       (processDecayEvent Scenario.extreme_pressure) = []
  /\ map (fun a => (itemId a, alertType a))
       (alerts (processDecayEvent Scenario.extreme_pressure))
     = [ (None, storage_pressure) ]
  /\ map (fun e => (storage_before_kb e, storage_after_kb e, items_affected e))
       (decay_events (processDecayEvent Scenario.extreme_pressure))
     = [ (200000000, 200000000, 0) ].
Proof. repeat split; vm_compute; reflexivity. Qed.

(** ** The capacity over a run *)


Lemma decayed_capacity_factor (c : Z) (percent : number) :
  decayed_capacity c percent = floor (mul (of_Z c) (decay_factor percent)).
Proof. reflexivity. Qed.

(** The factors of the whole percentages from 1 to 99. *)
Lemma percent_factors (p : Z) :
  1 <= p <= 99 -> proper_fraction (decay_factor (of_Z p)) = true.
Proof.
  intro Hp.
  assert (H : forallb (fun n => proper_fraction (decay_factor (of_Z (Z.of_nat n))))
                (seq 1 99) = true) by (vm_compute; reflexivity).
  rewrite forallb_forall in H. specialize (H (Z.to_nat p)).
  rewrite Z2Nat.id in H by lia. apply H. apply in_seq. lia.
Qed.

Lemma extreme_factors :
  decay_factor (of_Z 0) = S754_finite false 4503599627370496 (-52)
  /\ decay_factor (of_Z 100) = S754_zero false.
Proof. split; vm_compute; reflexivity. Qed.

(** One decay of the capacity, for a whole percentage. *)
Lemma decayed_capacity_bounds (c p : Z) :
  0 <= p <= 100 -> 0 <= c < 2 ^ 53 ->
  0 <= decayed_capacity c (of_Z p) <= c
  /\ (0 < p -> 0 < c -> decayed_capacity c (of_Z p) < c).
Proof.
  intros Hp Hc. rewrite decayed_capacity_factor.
  destruct extreme_factors as (E0 & E100).
  destruct (Z.eq_dec p 0) as [-> | Hp0]; [| destruct (Z.eq_dec p 100) as [-> | Hp100]].
  - rewrite E0. split; [| lia].
    destruct (Z.eq_dec c 0) as [-> | Hc0].
    + rewrite mul_zero_l, floor_zero. lia.
    + destruct (of_Z_exact c ltac:(lia)) as (m & e & E & Hb & He & Hm & Hd).
      rewrite E.
      assert (Hat : at_most (-1128)
                (mul (S754_finite false m e)
                     (S754_finite false 4503599627370496 (-52))) m e).
      { apply mul_at_most; try assumption; try lia; [reflexivity |].
        unfold scaled.
        replace (e - -1128) with (52 + (e + -52 - -1128)) by lia.
        rewrite Z.pow_add_r by lia.
        assert (P : 0 <= 2 ^ (e + -52 - -1128)) by (apply Z.pow_nonneg; lia).
        change (2 ^ 52) with 4503599627370496. nia. }
      destruct (floor_at_most (-1128) _ m e c ltac:(lia) Hat) as (F0 & F1 & _).
      split; [exact F0 |]. apply F1.
      rewrite (of_Z_scaled (-1128) c m e) by lia. lia.
  - rewrite E100. 
    destruct (Z.eq_dec c 0) as [-> | Hc0].
    + rewrite of_Z_0, mul_eq. cbn [SFmul xorb]. rewrite floor_zero. lia.
    + destruct (of_Z_exact c ltac:(lia)) as (m & e & E & _).
      rewrite E, mul_eq. cbn [SFmul xorb]. rewrite floor_zero. lia.
  - pose proof (percent_factors p ltac:(lia)) as Hf.
    destruct (decay_factor (of_Z p)) as [| | | [|] mc ec]; try discriminate Hf.
    cbn [proper_fraction] in Hf.
    repeat (apply andb_true_iff in Hf; destruct Hf as [Hf ?]).
    apply Z.eqb_eq in Hf. apply Z.leb_le in H, H0, H1.
    destruct (floor_factor c mc ec Hc Hf ltac:(lia) H) as [F1 F2].
    split; [exact F1 | intros _ Hpos; exact (F2 Hpos)].
Qed.

Lemma capacities_bounded (c p : Z) (k : nat) :
  0 <= p <= 100 -> 0 <= c < 2 ^ 53 ->
  0 <= Nat.iter k (fun c => decayed_capacity c (of_Z p)) c <= c.
Proof.
  intros Hp Hc. induction k as [| k IH]; [cbn; lia |].
  change (Nat.iter (S k) (fun c => decayed_capacity c (of_Z p)) c)
    with (decayed_capacity (Nat.iter k (fun c => decayed_capacity c (of_Z p)) c)
            (of_Z p)).
  pose proof (decayed_capacity_bounds
                (Nat.iter k (fun c => decayed_capacity c (of_Z p)) c) p Hp
                ltac:(lia)) as [H _].
  lia.
Qed.

(** X22: the capacity never grows.  For a whole decay percentage from 0
    to 100 and a capacity a number holds exactly, every decay cycle of the
    run leaves a capacity between 0 and the one before, hence never above
    the capacity the run started with; it is smaller as soon as the
    percentage and the capacity are positive, and 0 at 100 percent. *)
Theorem capacity_never_grows (st : State) (s : SimulationSettings) (u : string)
    (p : Z) (k : nat) :
  settings st = Some s -> user st = Some u ->
  decay_percent s = of_Z p -> 0 <= p <= 100 ->
  0 <= current_capacity_kb s < 2 ^ 53 ->
  0 <= decay_interval_years s ->
  current_year s + Z.of_nat (S k) * decay_interval_years s <= total_years s ->
  exists before after : Z,
    option_map current_capacity_kb (settings (Nat.iter k processDecayEvent st))
    = Some before
    /\ option_map current_capacity_kb
         (settings (Nat.iter (S k) processDecayEvent st)) = Some after
    /\ 0 <= after <= before
    /\ before <= current_capacity_kb s
    /\ (0 < p -> 0 < before -> after < before)
    /\ (p = 100 -> after = 0).
Proof.
  intros Hs Hu Hpct Hp Hc Hi Hin.
  destruct (cycles_in_range st s u Hs Hu Hi k ltac:(nia)) as (Ks & _).
  destruct (cycles_in_range st s u Hs Hu Hi (S k) Hin) as (Ks' & _).
  rewrite Ks, Ks'. cbn [option_map set_year_capacity current_capacity_kb].
  rewrite Hpct.
  change (Nat.iter (S k) (fun c => decayed_capacity c (of_Z p)) (current_capacity_kb s))
    with (decayed_capacity
            (Nat.iter k (fun c => decayed_capacity c (of_Z p)) (current_capacity_kb s))
            (of_Z p)).
  set (before := Nat.iter k (fun c => decayed_capacity c (of_Z p))
                   (current_capacity_kb s)).
  pose proof (capacities_bounded (current_capacity_kb s) p k Hp Hc) as Hb.
  fold before in Hb.
  destruct (decayed_capacity_bounds before p Hp ltac:(lia)) as [H1 H2].
  exists before, (decayed_capacity before (of_Z p)).
  split; [reflexivity |]. split; [reflexivity |]. split; [exact H1 |].
  split; [lia |]. split; [exact H2 |].
  intros ->. rewrite decayed_capacity_factor, (proj2 extreme_factors).
  destruct (Z.eq_dec before 0) as [E | E].
  - rewrite E, of_Z_0, mul_eq. cbn [SFmul xorb]. apply floor_zero.
  - destruct (of_Z_exact before ltac:(lia)) as (m & e & E' & _).
    rewrite E', mul_eq. cbn [SFmul xorb]. apply floor_zero.
Qed.

Lemma capacity_never_grows_witness :
  exists before after : Z,
    option_map current_capacity_kb
      (settings (Nat.iter 1 processDecayEvent Scenario.default)) = Some before
    /\ option_map current_capacity_kb
         (settings (Nat.iter 2 processDecayEvent Scenario.default)) = Some after
    /\ 0 <= after <= before.
Proof.
  pose proof (capacity_never_grows Scenario.default
                (Scenario.the_settings 0 1000000 5) "owner-1" 5 1
                eq_refl eq_refl eq_refl) as H.
  assert (H1 : 0 <= 5 <= 100) by lia.
  assert (H2 : 0 <= current_capacity_kb (Scenario.the_settings 0 1000000 5) < 2 ^ 53)
    by (cbn; lia).
  assert (H3 : 0 <= decay_interval_years (Scenario.the_settings 0 1000000 5))
    by (cbn; lia).
  assert (H4 : current_year (Scenario.the_settings 0 1000000 5)
               + Z.of_nat 2 * decay_interval_years (Scenario.the_settings 0 1000000 5)
               <= total_years (Scenario.the_settings 0 1000000 5))
    by (cbn; lia).
  destruct (H H1 H2 H3 H4) as (b & a & A & B & C & _).
  exists b, a. split; [exact A |]. split; [exact B | exact C].
Defined.
